(* ===== verification/_CoqProject ===== *)
-Q . S2P
Prelude.v
GoStrings.v
Regex.v
Digits.v
GoTime.v
GoFloat.v
FloatNear.v
FloatBounds.v
Numbers.v
FixedText.v
Utf8.v
Json.v
JsonText.v
Jsonb.v
Timestamps.v
CircuitBreaker.v
Bulkhead.v
Retry.v
RetryDoubling.v
Executor.v
StructJson.v
Money.v
Quantity.v
DomainErrors.v
Outbox.v
OutboxShared.v
OutboxDrain.v
ProcessorLife.v
Idempotency.v
EventStore.v
EventLog.v
Tables.v
ApiKey.v
ApiKeyStore.v
ApiKeySystem.v
RedisLock.v
Response.v
ErrorAnswers.v
TokenAuth.v
Streams.v
NatsClient.v
Payloads.v
Contracts.v
Events.v
Dlq.v
Journey.v
Middleware.v
Health.v
RateLimit.v
Bizday.v
Storage.v
InputValidation.v
NetIP.v
TrustedProxies.v
Tracing.v
Telemetry.v
Chain.v
Monitoring.v
Infra.v
