(* ===== verification/Prelude.v ===== *)
(** * Verification of lib-common

    The repository is the Go library the services of a shop share: fault
    tolerance, money and quantities, domain errors, the transactional outbox and
    the event store behind the message bus, authentication, and the HTTP layer.
    This library models it file by file and proves what makes each part
    correct. Definitions keep the names of the source; each is translated from
    the lines the manifest names, in the order in which the code does things.

    ** Conventions

    - [int], [int64] and [time.Duration] are [Z] with the wrap-around written out
      ([wrap64]); a [time.Time] is nanoseconds since 1970, the zero time is
      [time_zero], [Time.Sub] saturates. [float64] is IEEE binary64 ([GoFloat]).
    - An error is a sentinel, a text, a wrapped error or a foreign one ([error]);
      [(T, error)] is [result], a function that may panic returns [panics].
      Texts of errors are kept as far as the code looks at them.
    - Strings are byte strings; case mapping and trimming of letters outside
      ASCII are not modelled. Where the source ranges over runes and only
      compares them with ASCII, bytes give the same result on valid UTF-8.
    - State is passed explicitly. What several goroutines, processes or clients do
      to shared state is a step relation ([reachable]) or a list of events whose
      order is arbitrary; a section under a mutex, a transaction, a Redis script
      is one step. Time is part of the state or of the events.
    - Code outside the repository is an argument or a type class: what the code
      relies on is stated as laws of the class, and each class has an instance in
      the same file that satisfies the laws and on which the witnesses compute.
      Such classes are [RowChoice] (ORDER BY ... LIMIT 1), [RowSort] (ORDER BY),
      [FloatConv] (out-of-range conversions), [Redis], [JWT], [JetStream],
      [FailedTable], [Jsonb] and [Timestamps] (columns of documents and of times),
      [NatsHeader], [Redelivery] (deliveries of a message), [TimeZone] (the zone database), [Router] (trusted proxies of the web
      framework), [Carrier] and [Propagator] (trace headers), [Viper]
      (configuration), [Limiter] (the token bucket), [Consumers] (durable consumers), [Mapper]
      (migrations of the object-relational mapper).

    ** Files

    - [Prelude], [GoStrings], [Regex], [Digits], [GoTime], [GoFloat], [FloatNear], [FloatBounds],
      [FixedText], [NetIP]:
      values of the language, the parts of strings, regexp, fmt, time, math and
      net/netip that are used, and their lemmas. A regular expression is compiled
      from its text and matched by derivatives, which agree with its language; the
      calendar and its inverse are exact for every day; a prefix of addresses reads
      back; a decimal near a binary64 is read as that binary64; rounding keeps bounds that
      are floats, so products, powers and sums of such numbers stay within them.
    - [Numbers], [Utf8], [Json], [JsonText], [StructJson]: encoding/json. Numbers as they
      stand in a document, read as int64 and as binary64 and written with the fewest
      digits that read back; runes; trees; their texts, written and read, which is
      shown to give the tree again; the rules by which values and structs become
      trees and are read back.
    - [Jsonb], [Timestamps]: columns of documents, which give back the same document in
      another text, and of times, to the microsecond.
    - [CircuitBreaker] (src/resilience/circuit_breaker.go): the breaker as a record,
      its two critical sections, requests in flight. It refines an abstract
      three-state breaker; an open breaker stays closed to requests until its
      timeout; probes are a second apart; it trips exactly at the limit.
    - [Bulkhead] (bulkhead.go): the semaphore channel and the counters, each
      operation a step of one of many calls. The limit is never exceeded, no call is
      stuck, and all slots come back; the published count can exceed the limit by one.
    - [Retry], [RetryDoubling] (retry.go): the loop, with the delays in binary64: at most
      so many calls, every wait between zero and the maximum, and with the multiplier two
      the doubling delays that the comments promise, up to the jitter.
    - [Executor] (executor.go): one call through the three patterns, and the two
      registries, of which only the locked one gives a single instance.
    - [Money], [Quantity] (src/domain/money.go, quantity.go), over [Json]: arithmetic
      at machine width, sums, and the round trips through JSON and the database.
    - [DomainErrors] (src/domain/errors.go): chains of wrapped errors, [errors.Is]
      and [errors.As], status mapping.
    - [Outbox], [OutboxShared], [OutboxDrain] (src/outbox): the table, one claim, a tick,
      a run of one processor with failures of the database; then several processors with
      row locks. No row is published by two holders at a time, a processed row
      was delivered at least once, failures are capped; and so many ticks are enough
      until no row has an attempt left.
    - [ProcessorLife] (processor.go): the goroutines that [Start] leaves running, their
      tickers, and what [Stop] does and does not do.
    - [Idempotency] (src/eventsourcing/idempotency.go): claims with a lease, and
      consumers that may crash or outlive it, with failing statements and clocks that
      differ.
    - [EventStore], [EventLog] (event.go, store.go, postgres_store.go): appends with
      expected versions and the loads; concurrent appends, which with the unique index
      keep whole calls and unique versions whatever the calls and whatever fails between,
      and refine a log per aggregate for calls that number their events as the interface
      means; without the index histories fork.
    - [Tables] (postgres_store.go, apikey_store.go): the SQL texts of the tables, read and
      executed, against the models; which ways to set up the event store work.
    - [Events] (event.go): the event as a document, its data and metadata; a payload and
      metadata go through the event store and come back the same.
    - [Dlq] (dlq.go): a message is terminated exactly when [RouteToDLQ] returns nil, its
      row stored; what [MaxDeliver] deliveries do not terminate is not delivered again.
    - [Journey]: a payload from the outbox to the consumer and to the dead letters.
    - [Streams], [NatsClient] (catalog.go, src/nats/jetstream.go): subjects and the
      streams that carry them, publication; connecting, consumers, closing.
    - [Payloads], [Contracts] (catalog.go, order_payloads.go, supplier_handoff.go), over
      [StructJson]: the payloads' own functions, and the payloads as JSON objects
      that read back unchanged whatever a publisher adds.
    - [RedisLock] (src/lock/redis_lock.go): mutual exclusion between the clients of
      a key, whatever they call and whatever the network loses.
    - [ApiKey], [ApiKeyStore], [ApiKeySystem] (src/auth/apikey.go, apikey_store.go,
      apikey_middleware.go): scopes, rows, the cache, and the middleware for requests side
      by side, each of whose answers is traced back to an answer of the store; the store as an interface, its Postgres instance with failing statements;
      services with caches over one store, and when a revocation has taken effect.
    - [TokenAuth] (src/auth/jwt.go, internal_token.go, src/middleware/auth.go): token
      kinds, user and role middleware, the internal token.
    - [Response], [ErrorAnswers] (src/response/response.go): the envelope every handler
      answers with, pagination, error translation; and the statuses that domain errors get
      by their codes and by their texts, which differ.
    - [Middleware], [RateLimit] (src/middleware): CSRF, CORS, security headers, the
      order of the chain, audit, sanitising; limiters by client, bounded by burst
      and rate, and by endpoint, as shared objects with their clean-ups.
    - [Health] (src/middleware/health.go): one readiness request as interleavings of
      the collecting loop, the checks and the end of the budget; it ends.
    - [InputValidation] (src/middleware/validation.go, src/validator/validator.go): the
      patterns, the values of a query and a form, and the handler; field checks.
    - [TrustedProxies] (src/middleware/trusted_proxies.go), over [NetIP]: which
      lists of proxies are accepted.
    - [Tracing], [Telemetry] (src/telemetry): spans as a log of calls, and the
      tracers of messages, requests, statements and clients that write it.
    - [Chain] (src/middleware: recovery, requestid, logger, compression): the
      handlers of the common chain run around any handler.
    - [Monitoring] (src/monitoring), [Infra] (src/config, database, logger, auth's client
      of the internal token): what is sent to Sentry; configuration, connection
      steps, and the transport that adds the token.
    - [Bizday] (src/bizday/bizday.go), [Storage] (src/storage/validator.go): zone
      names, the SQL built from them and the days of the business; uploads.

    ** How the parts interact

    [Executor] composes [CircuitBreaker], [Bulkhead] and [Retry] by their own
    definitions. [Streams.OutboxPublisher] is a publisher of [Outbox]; the
    processor's ticks take any publisher. [TokenAuth] and [Middleware] answer with
    [Response]; the audit log reads the context that [TokenAuth] fills. [Money] and
    [Quantity] are structs of [StructJson], as the payloads are. The tables of
    [EventStore], [Outbox] and [Dlq] hold their documents in [Jsonb]; [Journey] follows
    a payload through [Outbox], [Streams] and [Dlq]. A consumer of the bus would use
    [Idempotency] around its handler and [Dlq] after it gives up; the repository has
    no such consumer.
    [Chain] runs the layers that [Middleware.SetupCommonMiddleware] lists, the handler
    of [InputValidation] among them. [Infra]'s transport meets the middleware of
    [TokenAuth] in one theorem. [Bizday] and the ids of [EventStore] read the clock
    through [GoTime].

    ** Fuel

    Loops over lists and counts are structural. [TrimSpace] runs with the length
    of the string as fuel, each round removing a byte; a tick of the outbox makes
    at most [batchSize] rounds, as the source's loop; the retry loop has its
    number of attempts; the loop of [math_Pow] is structural on the bits of the exponent.
    No theorem assumes that fuel suffices.

    ** Not modelled

    The exporters and resources of telemetry, and most fields of log lines, only
    hand data to other libraries. Texts that are too long for their column, or that are no
    UTF-8, are not refused by the models of the tables; such a statement fails, and the
    models in which statements fail let any of them. What is read into a
    [json.RawMessage] is a text of the document that stood there, not its very bytes.
    Columns without a time zone, which the SQL texts declare, are modelled for services that
    run in UTC ([Timestamps]). Requests of [ApiKeySystem] that find their key in the cache
    take no time there; in [ApiKey] they do. *)

From stdpp Require Export base tactics option list list_numbers gmap strings sorting pretty.
From Stdlib Require Export ZArith Lia.

#[global] Open Scope Z_scope.
#[global] Set Default Proof Using "Type".

(** ** Notations of the development, in a scope of their own *)

Declare Scope go_scope.
Delimit Scope go_scope with go.

(** ** Errors

    A Go [error] value, as far as this library's own code looks at it: a
    package-level sentinel (compared by identity, so by its variable), an
    error built in place from a text, an error wrapped with [%w], and an error
    produced by code outside the library (a handler, a driver, a service). *)
Inductive error :=
| ErrVar (variable : string)
| ErrMsg (text : string)
| ErrWrap (text : string) (inner : error)
| ErrExt (id : Z).

#[export] Instance error_eq_dec : EqDecision error.
Proof. solve_decision. Defined.

#[export] Instance error_inhabited : Inhabited error := populate (ErrExt 0).

(** A pair [(T, error)] of which the callers read exactly one side. *)
Inductive result (A : Type) :=
| Ok (a : A)
| Err (e : error).
Arguments Ok {A} a.
Arguments Err {A} e.

(** The outcome of a function that may panic. *)
Inductive panics (A : Type) :=
| Returns (a : A)
| Panics (e : error).
Arguments Returns {A} a.
Arguments Panics {A} e.

Definition result_bind {A B} (r : result A) (f : A -> result B) : result B :=
  match r with Ok a => f a | Err e => Err e end.

Definition is_ok {A} (r : result A) : bool :=
  match r with Ok _ => true | Err _ => false end.

(** [result, err := f(); if err != nil { panic(err) }; return result] *)
Definition must {A} (r : result A) : panics A :=
  match r with Ok a => Returns a | Err e => Panics e end.

Notation "x <- r ;; k" := (result_bind r (fun x => k))
  (at level 60, r at next level, right associativity) : go_scope.

(** ** Machine integers

    [int] and [int64] are 64 bits wide on the platforms the library ships for;
    arithmetic wraps around in two's complement. *)
Definition min_int64 : Z := - 2 ^ 63.
Definition max_int64 : Z := 2 ^ 63 - 1.
Definition wrap64 (z : Z) : Z := (z + 2 ^ 63) mod 2 ^ 64 - 2 ^ 63.
Definition in_int64 (z : Z) : Prop := min_int64 <= z <= max_int64.

#[export] Instance in_int64_dec z : Decision (in_int64 z).
Proof. unfold in_int64. solve_decision. Defined.

(** Go's integer division and remainder truncate toward zero; a zero divisor
    panics, which the callers below rule out or model. *)
Definition go_div (a b : Z) : Z := wrap64 (Z.quot a b).

(** ** Time

    A [time.Time] is its nanosecond count since the Unix epoch; the zero
    [time.Time{}] is 1 January of the year 1. A [time.Duration] is an [int64]
    nanosecond count, and [Time.Sub] saturates at its bounds. *)
Definition time_zero : Z := -62135596800 * 10 ^ 9.
Definition Millisecond : Z := 1000000.
Definition Second : Z := 1000000000.
Definition Minute : Z := 60 * Second.

Definition IsZero (t : Z) : bool := bool_decide (t = time_zero).
Definition time_Sub (t u : Z) : Z := Z.max min_int64 (Z.min max_int64 (t - u)).
Definition time_Add (t d : Z) : Z := t + d.
Definition time_After (t u : Z) : bool := bool_decide (u < t).

#[global] Arguments wrap64 _ : simpl never.
#[global] Arguments time_Sub _ _ : simpl never.
#[global] Arguments Second : simpl never.

(** ** Counting the elements of a list *)
Definition b2z (b : bool) : Z := if b then 1 else 0.

Fixpoint countb {A : Type} (f : A -> bool) (l : list A) : Z :=
  match l with [] => 0 | x :: l => b2z (f x) + countb f l end.

(** ** Reachability of a step relation *)
Inductive reachable {S : Type} (init : S -> Prop) (step : S -> S -> Prop) : S -> Prop :=
| reach_init s : init s -> reachable init step s
| reach_step s s' : reachable init step s -> step s s' -> reachable init step s'.

(** ** Tactics *)

(** Split a boolean test of the code into the proposition it decides. *)
Ltac bool_cases :=
  repeat match goal with
  | |- context [bool_decide ?P] => case_bool_decide
  | H : context [bool_decide ?P] |- _ => case_bool_decide
  end.

(** Unfold the width and time arithmetic and call [lia]. *)
Ltac int_lia :=
  unfold time_Sub, time_Add, in_int64, wrap64 in *;
  unfold min_int64, max_int64, Minute in *; unfold Second, Millisecond in *;
  first [ lia | Z.div_mod_to_equations; lia ].

(** Follow every branch of the code in the goal or the hypotheses. *)
Ltac branches :=
  repeat (case_match || case_bool_decide); simplify_eq/=.

(** Prove a conjunctive invariant after following the code's branches. *)
Ltac solve_branches := branches; try congruence; repeat split; try done; try int_lia.

(** ** Lemmas on machine integers *)

Lemma wrap64_range z : in_int64 (wrap64 z).
Proof.
  unfold wrap64. pose proof (Z.mod_pos_bound (z + 2 ^ 63) (2 ^ 64)). int_lia.
Qed.

Lemma wrap64_id z : in_int64 z -> wrap64 z = z.
Proof. intros H. unfold wrap64. rewrite Z.mod_small; int_lia. Qed.

Lemma wrap64_idemp z : wrap64 (wrap64 z) = wrap64 z.
Proof. apply wrap64_id, wrap64_range. Qed.

Lemma wrap64_add_l a b : wrap64 (wrap64 a + b) = wrap64 (a + b).
Proof.
  unfold wrap64.
  replace ((a + 2 ^ 63) mod 2 ^ 64 - 2 ^ 63 + b + 2 ^ 63)
    with ((a + 2 ^ 63) mod 2 ^ 64 + b) by lia.
  rewrite Zplus_mod_idemp_l. do 2 f_equal. lia.
Qed.

Lemma wrap64_add_r a b : wrap64 (a + wrap64 b) = wrap64 (a + b).
Proof. rewrite Z.add_comm, wrap64_add_l. f_equal. lia. Qed.

Lemma wrap64_sub_l a b : wrap64 (wrap64 a - b) = wrap64 (a - b).
Proof. apply (wrap64_add_l a (- b)). Qed.

Lemma wrap64_eq_iff a b : wrap64 a = wrap64 b <-> (a - b) mod 2 ^ 64 = 0.
Proof.
  unfold wrap64. rewrite Z.sub_cancel_r.
  replace (a - b) with ((a + 2 ^ 63) - (b + 2 ^ 63)) by lia.
  split; intros H.
  - rewrite Zminus_mod, H, Z.sub_diag. done.
  - apply Z.mod_divide in H as [k Hk]; [|lia].
    replace (a + 2 ^ 63) with (b + 2 ^ 63 + k * 2 ^ 64) by lia.
    apply Z_mod_plus_full.
Qed.

Create HintDb go.
Create Rewrite HintDb go_int.
#[export] Hint Resolve wrap64_range : go.
#[export] Hint Rewrite wrap64_idemp wrap64_add_l wrap64_add_r wrap64_sub_l : go_int.

(** ** Invariants of a step relation *)

Lemma reachable_invariant {S} (init : S -> Prop) step (I : S -> Prop) :
  (forall s, init s -> I s) ->
  (forall s s', reachable init step s -> I s -> step s s' -> I s') ->
  forall s, reachable init step s -> I s.
Proof. intros Hi Hs s Hr. induction Hr; eauto. Qed.

(** ** Counting *)

Lemma b2z_bound b : 0 <= b2z b <= 1.
Proof. destruct b; simpl; lia. Qed.

Lemma countb_nonneg {A} (f : A -> bool) l : 0 <= countb f l.
Proof. induction l as [|x l IH]; simpl; [lia|]. pose proof (b2z_bound (f x)). lia. Qed.

Lemma countb_app {A} (f : A -> bool) l1 l2 : countb f (l1 ++ l2) = countb f l1 + countb f l2.
Proof. induction l1 as [|x l IH]; simpl; lia. Qed.

(** Replacing an element changes the count by the difference of the two. *)
Lemma countb_insert {A} (f : A -> bool) (l : list A) i x y :
  l !! i = Some x -> countb f (<[i:=y]> l) = countb f l - b2z (f x) + b2z (f y).
Proof.
  revert i. induction l as [|z l IH]; intros [|i] H; simplify_eq/=; [lia|].
  rewrite (IH i) by done. lia.
Qed.

Lemma countb_lookup {A} (f : A -> bool) (l : list A) i x :
  l !! i = Some x -> b2z (f x) <= countb f l.
Proof.
  revert i. induction l as [|z l IH]; intros [|i] H; simplify_eq/=.
  - pose proof (countb_nonneg f l). lia.
  - pose proof (IH i H). pose proof (b2z_bound (f z)). lia.
Qed.

Lemma countb_0 {A} (f : A -> bool) l : countb f l = 0 <-> Forall (fun x => f x = false) l.
Proof.
  induction l as [|x l IH]; simpl; [done|]. rewrite Forall_cons, <-IH.
  pose proof (countb_nonneg f l).
  destruct (f x); simpl; split; intros H'; [lia|by destruct H'|split; [done|lia]|].
  destruct H' as [_ H']. lia.
Qed.

Lemma countb_le_length {A} (f : A -> bool) l : countb f l <= Z.of_nat (length l).
Proof. induction l as [|x l IH]; simpl; [lia|]. pose proof (b2z_bound (f x)). lia. Qed.

(** ** Filtering *)

Lemma existsb_false_elem {A} (f : A -> bool) l x : existsb f l = false -> x ∈ l -> f x = false.
Proof.
  intros Hf Hx. apply not_true_iff_false. intros Hfx. apply not_true_iff_false in Hf. apply Hf, existsb_exists.
  exists x. split; [by apply list_elem_of_In|done].
Qed.

Lemma list_filter_all {A} (P : A -> Prop) `{forall x, Decision (P x)} l :
  Forall P l -> filter P l = l.
Proof. induction 1 as [|x l Hx _ IH]; [done|]. by rewrite filter_cons, decide_True, IH. Qed.

Lemma list_filter_none {A} (P : A -> Prop) `{forall x, Decision (P x)} l :
  Forall (fun x => ~ P x) l -> filter P l = [].
Proof. induction 1 as [|x l Hx _ IH]; [done|]. by rewrite filter_cons, decide_False, IH. Qed.
