(* ===== verification/GoStrings.v ===== *)
(** * Strings

    The functions of the language's [strings] package the library uses, on byte
    strings (texts are taken to be valid UTF-8), and lemmas about them. *)

From S2P Require Import Prelude.
From Stdlib Require Import Ascii.

(** ** Definitions *)

Fixpoint HasPrefix (s p : string) {struct p} : bool :=
  match p, s with
  | EmptyString, _ => true
  | String c p, String d s => bool_decide (c = d) && HasPrefix s p
  | String _ _, EmptyString => false
  end.

Fixpoint TrimPrefix (s p : string) {struct p} : string :=
  if HasPrefix s p then
    match p, s with String _ p, String _ s => TrimPrefix s p | _, _ => s end
  else s.

Fixpoint HasSuffix (s suf : string) : bool :=
  bool_decide (s = suf) || match s with String _ s => HasSuffix s suf | EmptyString => false end.

Fixpoint TrimSuffix (s suf : string) : string :=
  if bool_decide (s = suf) then ""
  else match s with String c s => String c (TrimSuffix s suf) | EmptyString => "" end.

Fixpoint Contains (s sub : string) : bool :=
  HasPrefix s sub || match s with String _ s => Contains s sub | EmptyString => false end.

Fixpoint Join (l : list string) (sep : string) : string :=
  match l with
  | [] => ""
  | [s] => s
  | s :: l => s +:+ sep +:+ Join l sep
  end.

(** [strings.Split] for a separator of one byte. *)
Fixpoint Split (s : string) (sep : ascii) : list string :=
  match s with
  | EmptyString => [""]
  | String c s =>
      if bool_decide (c = sep) then "" :: Split s sep
      else match Split s sep with
           | [] => [String c EmptyString]
           | p :: ps => String c p :: ps
           end
  end.

Definition lower_ascii (c : ascii) : ascii :=
  let n := nat_of_ascii c in
  if (65 <=? n)%nat && (n <=? 90)%nat then ascii_of_nat (n + 32) else c.

Definition upper_ascii (c : ascii) : ascii :=
  let n := nat_of_ascii c in
  if (97 <=? n)%nat && (n <=? 122)%nat then ascii_of_nat (n - 32) else c.

Fixpoint map_string (f : ascii -> ascii) (s : string) : string :=
  match s with EmptyString => "" | String c s => String (f c) (map_string f s) end.

(** Case mapping of the ASCII letters; the library compares the results with
    ASCII words only. *)
Definition ToLower : string -> string := map_string lower_ascii.
Definition ToUpper : string -> string := map_string upper_ascii.

(** The white space of [strings.TrimSpace], in UTF-8. *)
Definition byte (n : nat) : string := String (ascii_of_nat n) "".

Definition white_space : list string :=
  [byte 9; byte 10; byte 11; byte 12; byte 13; byte 32;
   byte 194 +:+ byte 133; byte 194 +:+ byte 160; byte 225 +:+ byte 154 +:+ byte 128] ++
  map (fun n => byte 226 +:+ byte 128 +:+ byte n)
    [128; 129; 130; 131; 132; 133; 134; 135; 136; 137; 138; 168; 169; 175]%nat ++
  [byte 226 +:+ byte 129 +:+ byte 159; byte 227 +:+ byte 128 +:+ byte 128].

Fixpoint trim_left_fuel (n : nat) (s : string) : string :=
  match n with
  | O => s
  | S n =>
      match list_find (fun w => HasPrefix s w = true) white_space with
      | Some (_, w) => trim_left_fuel n (TrimPrefix s w)
      | None => s
      end
  end.

Fixpoint trim_right_fuel (n : nat) (s : string) : string :=
  match n with
  | O => s
  | S n =>
      match list_find (fun w => HasSuffix s w = true) white_space with
      | Some (_, w) => trim_right_fuel n (TrimSuffix s w)
      | None => s
      end
  end.

(** Each round removes at least one byte, so the length is fuel enough. *)
Definition TrimSpace (s : string) : string :=
  let s := trim_left_fuel (String.length s) s in trim_right_fuel (String.length s) s.

(** [strings.ReplaceAll] for a pattern of one byte. *)
Fixpoint ReplaceAll (s : string) (old : ascii) (new : string) : string :=
  match s with
  | EmptyString => ""
  | String c s => (if bool_decide (c = old) then new else String c "") +:+ ReplaceAll s old new
  end.

Fixpoint string_elem (c : ascii) (s : string) : bool :=
  match s with EmptyString => false | String d s => bool_decide (c = d) || string_elem c s end.

(** The binary digits of a positive number, as an encoding into strings. *)
Fixpoint bits (p : positive) : string :=
  match p with
  | xH => ""
  | xO p => String "0"%char (bits p)
  | xI p => String "1"%char (bits p)
  end.

Fixpoint unbits (s : string) : positive :=
  match s with
  | EmptyString => xH
  | String c s => if bool_decide (c = "0"%char) then xO (unbits s) else xI (unbits s)
  end.

(** What follows a given text. *)
Definition expect (p s : string) : option string := if HasPrefix s p then Some (TrimPrefix s p) else None.

(** ** Lemmas *)

Lemma append_String c s t : String c s +:+ t = String c (s +:+ t).
Proof. done. Qed.

Lemma HasPrefix_spec s p : HasPrefix s p = true <-> exists t, s = p +:+ t.
Proof.
  revert s. induction p as [|c p IH]; intros s; simpl.
  - split; [by exists s|done]. 
  - destruct s as [|d s]; [split; [done|by intros [? ?]]|].
    rewrite andb_true_iff, bool_decide_eq_true, IH. split.
    + intros [-> [t ->]]. by exists t.
    + intros [t Ht]. rewrite append_String in Ht. simplify_eq. eauto.
Qed.

Lemma HasPrefix_append p t : HasPrefix (p +:+ t) p = true.
Proof. apply HasPrefix_spec. by exists t. Qed.

Lemma TrimPrefix_append p t : TrimPrefix (p +:+ t) p = t.
Proof.
  induction p as [|c p IH]; simpl; [by destruct t|].
  rewrite bool_decide_true by done. simpl.
  rewrite (proj2 (HasPrefix_spec (p +:+ t) p)) by eauto. done.
Qed.

Lemma HasSuffix_spec s suf : HasSuffix s suf = true <-> exists t, s = t +:+ suf.
Proof.
  induction s as [|c s IH]; simpl; rewrite orb_true_iff, bool_decide_eq_true.
  - split; [intros [<-|?]; [by exists ""|done]|]. intros [[|? t] Ht]; [by left|done].
  - rewrite IH. split.
    + intros [<-|[t ->]]; [by exists ""|by exists (String c t)].
    + intros [[|d t] Ht]; [by left|]. rewrite append_String in Ht. simplify_eq. right. by exists t.
Qed.

Lemma append_length (s t : string) :
  String.length (s +:+ t) = (String.length s + String.length t)%nat.
Proof. induction s as [|c s IH]; simpl; [done|]. by rewrite IH. Qed.

Lemma TrimSuffix_append t suf : TrimSuffix (t +:+ suf) suf = t.
Proof.
  induction t as [|c t IH]; [by destruct suf; simpl; [|rewrite bool_decide_true]|].
  simpl. rewrite bool_decide_false, IH; [done|].
  intros Heq. apply (f_equal String.length) in Heq. simpl in Heq. rewrite append_length in Heq. lia.
Qed.

Lemma append_assoc (s t u : string) : (s +:+ t) +:+ u = s +:+ (t +:+ u).
Proof. induction s as [|c s IH]; [done|]. exact (f_equal (String c) IH). Qed.

Lemma append_nil_r (s : string) : s +:+ "" = s.
Proof. induction s as [|c s IH]; [done|]. exact (f_equal (String c) IH). Qed.

Lemma Contains_spec s sub : Contains s sub = true <-> exists a b, s = a +:+ sub +:+ b.
Proof.
  induction s as [|c s IH]; simpl; rewrite orb_true_iff, HasPrefix_spec.
  - split; [intros [[t Ht]|?]; [by exists "", t|done]|].
    intros ([|? a] & b & Hb); [left; by exists b|done].
  - rewrite IH. split.
    + intros [[t ->]|(a & b & ->)]; [by exists "", t|by exists (String c a), b].
    + intros ([|d a] & b & Hb); [left; by exists b|]. right. rewrite append_String in Hb.
      simplify_eq. by exists a, b.
Qed.

Lemma string_elem_append c s t : string_elem c (s +:+ t) = string_elem c s || string_elem c t.
Proof. induction s as [|d s IH]; simpl; [done|]. by rewrite IH, orb_assoc. Qed.

(** Splitting at a separator undoes joining with it, for parts without it. *)
Lemma Split_nonempty s sep : Split s sep <> [].
Proof. destruct s as [|c s]; simpl; [done|]. case_bool_decide; [done|]. by destruct (Split s sep). Qed.

Lemma Split_part s sep rest :
  string_elem sep s = false -> Split (s +:+ String sep rest) sep = s :: Split rest sep.
Proof.
  induction s as [|c s IH]; simpl; [by rewrite bool_decide_true|].
  rewrite orb_false_iff, bool_decide_eq_false. intros [Hc Hs].
  rewrite bool_decide_false by done. by rewrite (IH Hs).
Qed.

Lemma Split_last s sep : string_elem sep s = false -> Split s sep = [s].
Proof.
  induction s as [|c s IH]; simpl; [done|].
  rewrite orb_false_iff, bool_decide_eq_false. intros [Hc Hs].
  rewrite bool_decide_false by done. by rewrite (IH Hs).
Qed.

Lemma Split_Join l sep :
  l <> [] -> Forall (fun s => string_elem sep s = false) l -> Split (Join l (String sep "")) sep = l.
Proof.
  intros Hne Hl. induction Hl as [|s l Hs Hl IH]; [done|].
  destruct l as [|t l]; [by apply Split_last|].
  change (Join (s :: t :: l) (String sep "")) with (s +:+ String sep (Join (t :: l) (String sep ""))).
  rewrite Split_part by done. by rewrite IH.
Qed.

Lemma Split_append_sep a b sep : Split (a +:+ String sep b) sep = Split a sep ++ Split b sep.
Proof.
  induction a as [|c a IH]; simpl; [by rewrite bool_decide_true|].
  case_bool_decide; [by rewrite IH|]. rewrite IH. 
  by destruct (Split a sep) as [|p ps] eqn:E; [apply Split_nonempty in E|].
Qed.

(** The parts of a split hold no separator. *)
Lemma Split_parts_free s sep : Forall (fun p => string_elem sep p = false) (Split s sep).
Proof.
  induction s as [|c s IH]; simpl; [by constructor|].
  case_bool_decide as Hc; [by constructor|].
  destruct (Split s sep) as [|p ps]; inversion IH; subst; constructor; simpl; auto;
    rewrite bool_decide_false by congruence; done.
Qed.

Lemma Split_Join_gen s l sep :
  Split (Join (s :: l) (String sep "")) sep = (s :: l) ≫= fun t => Split t sep.
Proof.
  revert s. induction l as [|t l IH]; intros s; [by rewrite bind_cons, app_nil_r|].
  change (Join (s :: t :: l) (String sep "")) with (s +:+ String sep (Join (t :: l) (String sep ""))).
  by rewrite Split_append_sep, IH, (bind_cons _ s).
Qed.

Lemma unbits_bits p : unbits (bits p) = p.
Proof. induction p as [p IH|p IH|]; simpl; [by rewrite IH|by rewrite IH|done]. Qed.

Lemma string_elem_Join c l sep :
  string_elem c sep = false -> Forall (fun s => string_elem c s = false) l -> string_elem c (Join l sep) = false.
Proof.
  intros Hsep Hl. induction Hl as [|s [|t l] Hs Hl IH]; [done|done|].
  change (Join (s :: t :: l) sep) with (s +:+ sep +:+ Join (t :: l) sep).
  by rewrite !string_elem_append, Hs, Hsep, IH.
Qed.

(** A text without the bytes with which white space starts is trimmed already. *)
Lemma no_white_space (s w : string) :
  (exists c, string_elem c w = true /\ string_elem c s = false) -> HasPrefix s w = false /\ HasSuffix s w = false.
Proof.
  intros (c & Hw & Hs). split; apply not_true_is_false.
  - intros [t ->]%HasPrefix_spec. by rewrite string_elem_append, Hw in Hs.
  - intros [t ->]%HasSuffix_spec. by rewrite string_elem_append, Hw, orb_true_r in Hs.
Qed.

Lemma trim_left_id n s : Forall (fun w => HasPrefix s w = false) white_space -> trim_left_fuel n s = s.
Proof.
  destruct n as [|n]; [done|]. intros Hw. cbn [trim_left_fuel trim_right_fuel]. rewrite (proj2 (list_find_None _ _)); [done|].
  eapply Forall_impl; [exact Hw|]. by intros w ->.
Qed.

Lemma trim_right_id n s : Forall (fun w => HasSuffix s w = false) white_space -> trim_right_fuel n s = s.
Proof.
  destruct n as [|n]; [done|]. intros Hw. cbn [trim_left_fuel trim_right_fuel]. rewrite (proj2 (list_find_None _ _)); [done|].
  eapply Forall_impl; [exact Hw|]. by intros w ->.
Qed.

Lemma TrimSpace_id s :
  Forall (fun w => exists c, string_elem c w = true /\ string_elem c s = false) white_space -> TrimSpace s = s.
Proof.
  intros H. unfold TrimSpace. rewrite trim_left_id; [apply trim_right_id|];
    (eapply Forall_impl; [exact H|]; intros w Hw; by apply no_white_space).
Qed.

Lemma expect_append p t : expect p (p +:+ t) = Some t.
Proof.
  unfold expect. rewrite TrimPrefix_append. destruct (HasPrefix (p +:+ t) p) eqn:Hp; [done|].
  apply not_true_iff_false in Hp. destruct Hp. apply HasPrefix_spec. eauto.
Qed.

Lemma expect_inv p s t : expect p s = Some t -> s = p +:+ t.
Proof.
  unfold expect. destruct (HasPrefix s p) eqn:Hp; [|done]. apply HasPrefix_spec in Hp as [u ->].
  rewrite TrimPrefix_append. congruence.
Qed.
