(* ===== verification/Regex.v ===== *)
(** * Regular expressions

    The part of the language's [regexp] package the library uses: expressions
    over bytes with their language, the reading of a pattern's text, and
    [MatchString], which is shown to decide whether some part of a text is in
    the language. Matching is by derivatives.

    A class that is negated, and the dot, stand for one rune in the source and
    for one byte here; the reader refuses them unless a star follows, and under
    a star the two readings agree on UTF-8 texts. Under [(?i)] a letter stands for
    both its cases and, as in the package, [s] and [k] also for U+017F and U+212A. *)

From S2P Require Import Prelude GoStrings.
From Stdlib Require Import Ascii.

(** ** Expressions and their languages *)

Inductive re :=
| Void
| Eps
| Cls (neg : bool) (ranges : list (ascii * ascii))
| Alt (r1 r2 : re)
| Cat (r1 r2 : re)
| Star (r : re).

#[export] Instance re_eq_dec : EqDecision re.
Proof. solve_decision. Defined.

Definition in_range (c : ascii) (r : ascii * ascii) : bool :=
  (nat_of_ascii (fst r) <=? nat_of_ascii c)%nat && (nat_of_ascii c <=? nat_of_ascii (snd r))%nat.

Definition in_class (neg : bool) (ranges : list (ascii * ascii)) (c : ascii) : bool :=
  xorb neg (existsb (in_range c) ranges).

Inductive matches : re -> string -> Prop :=
| matches_eps : matches Eps ""
| matches_cls neg l c : in_class neg l c = true -> matches (Cls neg l) (String c "")
| matches_alt_l r1 r2 s : matches r1 s -> matches (Alt r1 r2) s
| matches_alt_r r1 r2 s : matches r2 s -> matches (Alt r1 r2) s
| matches_cat r1 r2 s t : matches r1 s -> matches r2 t -> matches (Cat r1 r2) (s +:+ t)
| matches_nil r : matches (Star r) ""
| matches_star r s t : matches r s -> matches (Star r) t -> matches (Star r) (s +:+ t).

(** Expressions with one language are interchangeable. *)
Definition same_language (r1 r2 : re) : Prop := forall s, matches r1 s <-> matches r2 s.

#[export] Instance re_equiv : Equiv re := same_language.

(** ** Derivatives *)

Fixpoint nullable (r : re) : bool :=
  match r with
  | Void | Cls _ _ => false
  | Eps | Star _ => true
  | Alt r1 r2 => nullable r1 || nullable r2
  | Cat r1 r2 => nullable r1 && nullable r2
  end.

(** Alternatives are kept as a list without repetitions, so the derivatives of an
    expression stay few. *)
Fixpoint mem_alt (r l : re) : bool :=
  bool_decide (r = l) || match l with Alt a l => bool_decide (r = a) || mem_alt r l | _ => false end.

Fixpoint alt (r1 r2 : re) : re :=
  match r1 with
  | Void => r2
  | Alt a b => alt a (alt b r2)
  | _ => if mem_alt r1 r2 then r2 else match r2 with Void => r1 | _ => Alt r1 r2 end
  end.

Definition cat (r1 r2 : re) : re :=
  match r1, r2 with
  | Void, _ | _, Void => Void
  | Eps, _ => r2
  | _, Eps => r1
  | _, _ => Cat r1 r2
  end.
#[global] Arguments cat : simpl never.

Fixpoint der (c : ascii) (r : re) : re :=
  match r with
  | Void | Eps => Void
  | Cls neg l => if in_class neg l c then Eps else Void
  | Alt r1 r2 => alt (der c r1) (der c r2)
  | Cat r1 r2 => let d := cat (der c r1) r2 in if nullable r1 then alt d (der c r2) else d
  | Star r => cat (der c r) (Star r)
  end.

Fixpoint full_match (r : re) (s : string) : bool :=
  match s with EmptyString => nullable r | String c s => full_match (der c r) s end.

(** The texts of characters of a class. *)
Definition all_in (l : list (ascii * ascii)) (s : string) : bool := full_match (Star (Cls false l)) s.

(** The bytes a text of the language may hold. *)
Fixpoint alphabet (r : re) (c : ascii) : bool :=
  match r with
  | Void | Eps => false
  | Cls neg l => in_class neg l c
  | Alt r1 r2 | Cat r1 r2 => alphabet r1 c || alphabet r2 c
  | Star r => alphabet r c
  end.

(** ** Programs *)

(** A compiled pattern: its body, and whether it starts with [^] and ends with [$]. *)
Record prog := { at_begin : bool; at_end : bool; body : re }.

#[export] Instance prog_eq_dec : EqDecision prog.
Proof. solve_decision. Defined.

Definition any : re := Cls true [].

(** The unanchored sides of a pattern stand next to an arbitrary text. *)
Definition whole (p : prog) : re :=
  cat (if at_begin p then Eps else Star any) (cat (body p) (if at_end p then Eps else Star any)).

Definition MatchString (p : prog) (s : string) : bool := full_match (whole p) s.

(** ** The text of a pattern *)

Inductive token :=
| TAtom (r : re)
| TNegated (r : re)
| TOpen | TClose | TBar | TStar | TPlus | TOpt
| TRepeat (lo : nat) (hi : option nat)
| TBegin | TEnd.

Definition single (c : ascii) : ascii * ascii := (c, c).
Definition digits : list (ascii * ascii) := [("0", "9")]%char.
Definition letters : list (ascii * ascii) := [("a", "z"); ("A", "Z")]%char.
Definition spaces : list (ascii * ascii) := map single ["009"; "010"; "012"; "013"; " "]%char.

Definition is_letter (c : ascii) : bool := in_class false letters c.
Definition is_digit (c : ascii) : bool := in_class false digits c.

Fixpoint literal (s : string) : re :=
  match s with EmptyString => Eps | String c s => cat (Cls false [single c]) (literal s) end.

(** U+017F and U+212A, the runes outside ASCII whose case folds to [s] and [k]. *)
Definition long_s : string := byte 197 +:+ byte 191.
Definition kelvin : string := byte 226 +:+ byte 132 +:+ byte 170.

Definition char (fold : bool) (c : ascii) : re :=
  if fold && is_letter c then
    let l := lower_ascii c in
    let r := Cls false [single l; single (upper_ascii c)] in
    if bool_decide (l = "s"%char) then Alt r (literal long_s)
    else if bool_decide (l = "k"%char) then Alt r (literal kelvin) else r
  else Cls false [single c].

(** [\w], [\d], [\s], and a backslash before punctuation. *)
Definition escape (fold : bool) (c : ascii) : option re :=
  if bool_decide (c = "w"%char) then
    let r := Cls false (digits ++ letters ++ [single "_"%char]) in
    Some (if fold then Alt r (Alt (literal long_s) (literal kelvin)) else r)
  else if bool_decide (c = "d"%char) then Some (Cls false digits)
  else if bool_decide (c = "s"%char) then Some (Cls false spaces)
  else if is_letter c || is_digit c then None
  else Some (Cls false [single c]).

(** Where the reader is: between atoms, after a quantifier (a question mark there
    asks for the shortest match, which does not change what matches), after a
    backslash, inside brackets, inside braces. *)
Inductive mode :=
| MNormal | MQuantified | MEscape
| MBracket
| MClass (neg : bool) (l : list (ascii * ascii)) (last : option ascii)
| MRange (neg : bool) (l : list (ascii * ascii)) (lo : ascii)
| MCount (lo : nat)
| MCountTo (lo : nat) (hi : option nat).

Definition digit_value (c : ascii) : nat := (nat_of_ascii c - 48)%nat.

Definition close_class (fold neg : bool) (l : list (ascii * ascii)) : option token :=
  if fold && existsb (fun r => is_letter (fst r) || is_letter (snd r)) l then None
  else Some (if neg then TNegated (Cls true l) else TAtom (Cls false l)).

Definition flush_class (l : list (ascii * ascii)) (last : option ascii) : list (ascii * ascii) :=
  match last with Some d => l ++ [single d] | None => l end.

(** One byte of the text: the token it completes, if any, and the next mode. *)
Definition read (fold : bool) (m : mode) (c : ascii) : option (list token * mode) :=
  let normal :=
    if bool_decide (c = "("%char) then Some ([TOpen], MNormal)
    else if bool_decide (c = ")"%char) then Some ([TClose], MNormal)
    else if bool_decide (c = "|"%char) then Some ([TBar], MNormal)
    else if bool_decide (c = "*"%char) then Some ([TStar], MQuantified)
    else if bool_decide (c = "+"%char) then Some ([TPlus], MQuantified)
    else if bool_decide (c = "?"%char) then Some ([TOpt], MQuantified)
    else if bool_decide (c = "{"%char) then Some ([], MCount 0)
    else if bool_decide (c = "["%char) then Some ([], MBracket)
    else if bool_decide (c = "\"%char) then Some ([], MEscape)
    else if bool_decide (c = "^"%char) then Some ([TBegin], MNormal)
    else if bool_decide (c = "$"%char) then Some ([TEnd], MNormal)
    else if bool_decide (c = "."%char) then Some ([TNegated (Cls true [single "010"%char])], MNormal)
    else if bool_decide (c ∈ ["]"; "}"]%char) then None
    else Some ([TAtom (char fold c)], MNormal) in
  match m with
  | MNormal => normal
  | MQuantified =>
      if bool_decide (c = "?"%char) then Some ([], MNormal)
      else if bool_decide (c ∈ ["*"; "+"; "{"]%char) then None else normal
  | MEscape => r ← escape fold c; Some ([TAtom r], MNormal)
  | MBracket =>
      if bool_decide (c = "^"%char) then Some ([], MClass true [] None)
      else if bool_decide (c ∈ ["]"; "\"; "["]%char) then None
      else Some ([], MClass false [] (Some c))
  | MClass neg l last =>
      if bool_decide (c = "]"%char) then t ← close_class fold neg (flush_class l last); Some ([t], MNormal)
      else if bool_decide (c ∈ ["\"; "["]%char) then None
      else match last with
           | Some d => if bool_decide (c = "-"%char) then Some ([], MRange neg l d)
                       else Some ([], MClass neg (l ++ [single d]) (Some c))
           | None => Some ([], MClass neg l (Some c))
           end
  | MRange neg l lo =>
      if bool_decide (c = "]"%char) then
        t ← close_class fold neg (l ++ [single lo; single "-"%char]); Some ([t], MNormal)
      else if bool_decide (c ∈ ["\"; "["]%char) || (nat_of_ascii c <? nat_of_ascii lo)%nat then None
      else Some ([], MClass neg (l ++ [(lo, c)]) None)
  | MCount lo =>
      if is_digit c then Some ([], MCount (10 * lo + digit_value c)%nat)
      else if bool_decide (c = ","%char) then Some ([], MCountTo lo None)
      else if bool_decide (c = "}"%char) then Some ([TRepeat lo (Some lo)], MQuantified)
      else None
  | MCountTo lo hi =>
      if is_digit c then Some ([], MCountTo lo (Some (10 * default 0%nat hi + digit_value c)%nat))
      else if bool_decide (c = "}"%char) then Some ([TRepeat lo hi], MQuantified)
      else None
  end.

Fixpoint tokens (fold : bool) (m : mode) (s : string) : option (list token) :=
  match s with
  | EmptyString => match m with MNormal | MQuantified => Some [] | _ => None end
  | String c s => '(ts, m) ← read fold m c; us ← tokens fold m s; Some (ts ++ us)
  end.

(** Concatenations are kept as lists while the text is read. *)
Definition seqs (l : list re) : re := foldr cat Eps l.

Record frame := { alts : re; parts : list re; last_part : option re }.

Definition empty_frame : frame := {| alts := Void; parts := []; last_part := None |}.

Definition close_branch (f : frame) : re := seqs (parts f ++ option_list (last_part f)).
Definition close_frame (f : frame) : re := alt (alts f) (close_branch f).

Definition push (r : re) (f : frame) : frame :=
  {| alts := alts f; parts := parts f ++ option_list (last_part f); last_part := Some r |}.

Definition quantify (q : re -> re) (f : frame) : option frame :=
  r ← last_part f; Some {| alts := alts f; parts := parts f; last_part := Some (q r) |}.

Definition repeat_re (lo : nat) (hi : option nat) (r : re) : re :=
  cat (seqs (replicate lo r))
    match hi with
    | None => Star r
    | Some hi => seqs (replicate (hi - lo) (alt Eps r))
    end.

(** A stack of open groups, the innermost first. A negated class must be followed
    by a star. *)
Fixpoint parse (stack : list frame) (f : frame) (ts : list token) : option frame :=
  match ts with
  | [] => match stack with [] => Some f | _ => None end
  | TAtom r :: ts => parse stack (push r f) ts
  | TNegated r :: ts =>
      match ts with TStar :: _ => parse stack (push r f) ts | _ => None end
  | TOpen :: ts => parse (f :: stack) empty_frame ts
  | TClose :: ts =>
      match stack with [] => None | g :: stack => parse stack (push (close_frame f) g) ts end
  | TBar :: ts => parse stack {| alts := close_frame f; parts := []; last_part := None |} ts
  | TStar :: ts => f ← quantify Star f; parse stack f ts
  | TPlus :: ts => f ← quantify (fun r => cat r (Star r)) f; parse stack f ts
  | TOpt :: ts => f ← quantify (alt Eps) f; parse stack f ts
  | TRepeat lo hi :: ts => f ← quantify (repeat_re lo hi) f; parse stack f ts
  | TBegin :: _ | TEnd :: _ => None
  end.

Definition strip_begin (ts : list token) : bool * list token :=
  match ts with TBegin :: ts => (true, ts) | _ => (false, ts) end.

Fixpoint strip_end (ts : list token) : bool * list token :=
  match ts with
  | [] => (false, [])
  | [TEnd] => (true, [])
  | t :: ts => let '(b, ts) := strip_end ts in (b, t :: ts)
  end.

(** An anchor is read at the ends of a pattern only, and then the pattern may not
    be a choice at its top level, where the anchor would belong to one branch. *)
Definition Compile (text : string) : option prog :=
  let fold := HasPrefix text "(?i)" in
  ts ← tokens fold MNormal (if fold then TrimPrefix text "(?i)" else text);
  let '(b, ts) := strip_begin ts in
  let '(e, ts) := strip_end ts in
  f ← parse [] empty_frame ts;
  if (b || e) && negb (bool_decide (alts f = Void)) then None
  else Some {| at_begin := b; at_end := e; body := close_frame f |}.

(** [MustCompile] panics on a text that does not compile; that every text of the
    library compiles is proved beside its use. *)
Definition MustCompile (text : string) : prog :=
  default {| at_begin := false; at_end := false; body := Void |} (Compile text).

(** ** Languages *)

#[export] Instance same_language_equivalence : Equivalence (≡@{re}).
Proof.
  split; [by intros r s|by intros r1 r2 H s; symmetry|].
  intros r1 r2 r3 H1 H2 s. by rewrite (H1 s).
Qed.

#[export] Instance matches_proper : Proper ((≡) ==> (=) ==> iff) matches.
Proof. intros r1 r2 H s ? <-. apply H. Qed.

Lemma matches_Void s : matches Void s <-> False.
Proof. split; [by inversion 1|done]. Qed.

Lemma matches_Eps s : matches Eps s <-> s = "".
Proof. split; [by inversion 1|intros ->; constructor]. Qed.

Lemma matches_Cls neg l s : matches (Cls neg l) s <-> exists c, s = String c "" /\ in_class neg l c = true.
Proof. split; [inversion 1; eauto|intros (c & -> & Hc); by constructor]. Qed.

Lemma matches_Alt r1 r2 s : matches (Alt r1 r2) s <-> matches r1 s \/ matches r2 s.
Proof. split; [inversion 1; auto|intros [?|?]; by constructor]. Qed.

Lemma matches_Cat r1 r2 s :
  matches (Cat r1 r2) s <-> exists a b, s = a +:+ b /\ matches r1 a /\ matches r2 b.
Proof. split; [inversion 1; subst; eauto|intros (a & b & -> & Ha & Hb); by constructor]. Qed.

#[export] Instance Alt_proper : Proper ((≡) ==> (≡) ==> (≡)) Alt.
Proof. intros r1 r1' H1 r2 r2' H2 s. by rewrite !matches_Alt, (H1 s), (H2 s). Qed.

#[export] Instance Cat_proper : Proper ((≡) ==> (≡) ==> (≡)) Cat.
Proof.
  intros r1 r1' H1 r2 r2' H2 s. rewrite !matches_Cat.
  split; intros (a & b & -> & Ha & Hb); exists a, b; (split; [done|]); split;
    first [by apply H1|by apply H2].
Qed.

Lemma alt_idem_r r1 r2 : mem_alt r1 r2 = true -> Alt r1 r2 ≡ r2.
Proof.
  intros Hm s. rewrite matches_Alt. split; [|by right]. intros [Hs|]; [|done].
  induction r2; simpl in Hm; rewrite orb_true_iff, bool_decide_eq_true in Hm; destruct Hm as [<-|Hm]; try done.
  rewrite orb_true_iff, bool_decide_eq_true in Hm. destruct Hm as [<-|Hm]; [by constructor|].
  apply matches_alt_r. auto.
Qed.

Lemma Alt_Void r : Alt r Void ≡ r.
Proof. intros s. rewrite matches_Alt, matches_Void. tauto. Qed.

(** The simplifying constructors build the languages of the plain ones. *)
Lemma alt_base r1 r2 : (if mem_alt r1 r2 then r2 else match r2 with Void => r1 | _ => Alt r1 r2 end) ≡ Alt r1 r2.
Proof.
  destruct (mem_alt r1 r2) eqn:Hm; [by rewrite alt_idem_r|].
  destruct r2; try done. by rewrite Alt_Void.
Qed.

Lemma alt_spec r1 r2 : alt r1 r2 ≡ Alt r1 r2.
Proof.
  revert r2. induction r1 as [| |neg l|a IHa b IHb|a IHa b IHb|a IHa]; intros r2;
    try (simpl alt; apply alt_base).
  - intros s. rewrite matches_Alt, matches_Void. simpl. tauto.
  - simpl. rewrite IHa, IHb. intros s. rewrite !matches_Alt. tauto.
Qed.

Lemma matches_alt r1 r2 s : matches (alt r1 r2) s <-> matches r1 s \/ matches r2 s.
Proof. by rewrite alt_spec, matches_Alt. Qed.

Lemma cat_spec r1 r2 : cat r1 r2 ≡ Cat r1 r2.
Proof.
  assert (forall r, Cat Void r ≡ Void) as Hv.
  { intros r s. rewrite matches_Cat. split; [intros (? & ? & _ & ?%matches_Void & _); done|by inversion 1]. }
  assert (forall r, Cat r Void ≡ Void) as Hv'.
  { intros r s. rewrite matches_Cat. split; [intros (? & ? & _ & _ & ?%matches_Void); done|by inversion 1]. }
  assert (forall r, Cat Eps r ≡ r) as He.
  { intros r s. rewrite matches_Cat. split; [intros (a & b & -> & ->%matches_Eps & Hb); done|].
    intros Hs. exists "", s. split; [done|]. split; [constructor|done]. }
  assert (forall r, Cat r Eps ≡ r) as He'.
  { intros r s. rewrite matches_Cat. split.
    - intros (a & b & -> & Ha & ->%matches_Eps). by rewrite append_nil_r.
    - intros Hs. exists s, "". rewrite append_nil_r. split; [done|]. split; [done|constructor]. }
  destruct r1, r2; unfold cat; rewrite ?Hv, ?Hv', ?He, ?He'; done.
Qed.

Lemma matches_cat_iff r1 r2 s :
  matches (cat r1 r2) s <-> exists a b, s = a +:+ b /\ matches r1 a /\ matches r2 b.
Proof. by rewrite cat_spec, matches_Cat. Qed.

Lemma matches_cat_app r1 r2 a b : matches r1 a -> matches r2 b -> matches (cat r1 r2) (a +:+ b).
Proof. intros Ha Hb. rewrite matches_cat_iff. eauto. Qed.

Lemma matches_seqs_app l1 l2 s t :
  matches (seqs l1) s -> matches (seqs l2) t -> matches (seqs (l1 ++ l2)) (s +:+ t).
Proof.
  revert s. induction l1 as [|r l1 IH]; intros s; simpl.
  - by intros ->%matches_Eps.
  - rewrite !matches_cat_iff. intros (a & b & -> & Ha & Hb) Ht. exists a, (b +:+ t).
    rewrite append_assoc. auto.
Qed.

Lemma matches_literal s : matches (literal s) s.
Proof.
  induction s as [|c s IH]; simpl; [constructor|]. rewrite matches_cat_iff.
  exists (String c ""), s. split; [done|]. split; [|done]. constructor.
  unfold in_class, single, in_range. simpl. by rewrite Nat.leb_refl.
Qed.

(** A text all of whose bytes are in a class. *)
Lemma matches_star_class neg l s :
  (forall c, string_elem c s = true -> in_class neg l c = true) -> matches (Star (Cls neg l)) s.
Proof.
  induction s as [|c s IH]; intros Hs; [constructor|].
  apply (matches_star (Cls neg l) (String c "") s).
  - constructor. apply Hs. simpl. by rewrite bool_decide_true.
  - apply IH. intros d Hd. apply Hs. simpl. by rewrite Hd, orb_true_r.
Qed.

Lemma matches_star_class_iff neg l s :
  matches (Star (Cls neg l)) s <-> forall c, string_elem c s = true -> in_class neg l c = true.
Proof.
  split; [|apply matches_star_class]. remember (Star (Cls neg l)) as r eqn:Hr. intros Hm.
  induction Hm as [| | | | |r'|r' s t Hs _ Ht IH]; try discriminate.
  intros c. injection Hr as ->. apply matches_Cls in Hs as (d & -> & Hd). simpl.
  rewrite orb_true_iff, bool_decide_eq_true. intros [->|Hc]; [done|by apply IH].
Qed.

(** One or more characters of a class. *)
Lemma matches_plus_class neg l s :
  matches (Cat (Cls neg l) (Star (Cls neg l))) s <-> s <> "" /\ matches (Star (Cls neg l)) s.
Proof.
  rewrite matches_Cat. split.
  - intros (a & b & -> & Ha & Hb). split; [|by constructor].
    apply matches_Cls in Ha as (c & -> & _). done.
  - intros [Hne Hm]. inversion Hm as [| | | | |r'|r' a b Ha Hb]; subst; [done|by exists a, b].
Qed.

(** Up to [n] characters of a class. *)
Lemma matches_upto_class n neg l s :
  matches (seqs (replicate n (Alt Eps (Cls neg l)))) s <->
  (String.length s <= n)%nat /\ matches (Star (Cls neg l)) s.
Proof.
  revert s. induction n as [|n IH]; intros s; simpl.
  - rewrite matches_Eps. split; [intros ->; split; [done|constructor]|].
    intros [Hl _]. destruct s; [done|simpl in Hl; lia].
  - rewrite matches_cat_iff. split.
    + intros (a & b & -> & Ha & [Hl Hb]%IH). rewrite matches_Alt, matches_Eps in Ha.
      destruct Ha as [->|Ha]; [split; [change ("" +:+ b) with b; lia|done]|].
      split; [|by constructor]. apply matches_Cls in Ha as (c & -> & _).
      change (S (String.length b) <= S n)%nat. lia.
    + intros [Hl Hm]. destruct s as [|c s].
      { exists "", "". split; [done|]. split; [do 2 constructor|]. apply IH. split; [simpl; lia|constructor]. }
      exists (String c ""), s. simpl in Hl. rewrite IH. rewrite matches_star_class_iff in Hm.
      split; [done|]. split; [|split; [lia|]].
      * apply matches_alt_r. constructor. apply Hm. simpl. by rewrite bool_decide_true.
      * apply matches_star_class. intros d Hd. apply Hm. simpl. by rewrite Hd, orb_true_r.
Qed.

Lemma matches_literal_iff s t : matches (literal s) t <-> t = s.
Proof.
  split; [|intros ->; apply matches_literal]. revert t. induction s as [|c s IH]; intros t; simpl.
  - by rewrite matches_Eps.
  - rewrite matches_cat_iff. intros (a & b & -> & Ha & ->%IH). apply matches_Cls in Ha as (d & -> & Hd).
    rewrite append_String. f_equal. unfold in_class, in_range, single in Hd. simpl in Hd.
    rewrite orb_false_r, andb_true_iff, !Nat.leb_le in Hd.
    rewrite <-(ascii_nat_embedding d), <-(ascii_nat_embedding c). f_equal. lia.
Qed.

Lemma matches_two_class l s :
  matches (Cat (Cat (Cls false l) (Cls false l)) (Star (Cls false l))) s <->
  (2 <= String.length s)%nat /\ matches (Star (Cls false l)) s.
Proof.
  rewrite matches_Cat. split.
  - intros (ab & t & -> & (a & b & -> & Ha & Hb)%matches_Cat & Ht). split.
    + apply matches_Cls in Ha as (c & -> & _), Hb as (d & -> & _).
      change (2 <= S (S (String.length t)))%nat. lia.
    + rewrite append_assoc. constructor; [done|]. by constructor.
  - intros [Hl Hs]. destruct s as [|c [|d s]]; [simpl in Hl; lia..|].
    rewrite matches_star_class_iff in Hs.
    exists (String c (String d "")), s. split; [done|]. split.
    + apply (matches_cat _ _ (String c "") (String d "")); apply matches_cls, Hs; simpl;
        rewrite !orb_true_iff, !bool_decide_eq_true; auto.
    + apply matches_star_class. intros e He. apply Hs. simpl. by rewrite He, !orb_true_r.
Qed.

(** One to [n + 1] characters of a class. *)
Lemma matches_between_class n l s :
  matches (Cat (Cls false l) (seqs (replicate n (Alt Eps (Cls false l))))) s <->
  (1 <= String.length s <= S n)%nat /\ matches (Star (Cls false l)) s.
Proof.
  rewrite matches_Cat. setoid_rewrite matches_upto_class. split.
  - intros (a & b & -> & Ha & Hl & Hb). split; [|by constructor].
    apply matches_Cls in Ha as (c & -> & _). change (1 <= S (String.length b) <= S n)%nat. lia.
  - intros [Hl Hs]. destruct s as [|c s]; [simpl in Hl; lia|]. simpl in Hl.
    rewrite matches_star_class_iff in Hs. exists (String c ""), s. split; [done|].
    split; [|split; [lia|]].
    + constructor. apply Hs. simpl. by rewrite bool_decide_true.
    + apply matches_star_class. intros d Hd. apply Hs. simpl. by rewrite Hd, orb_true_r.
Qed.

Lemma matches_star_any s : matches (Star any) s.
Proof. by apply matches_star_class. Qed.

(** ** Deciding the language *)

Lemma nullable_spec r : nullable r = true <-> matches r "".
Proof.
  induction r as [| |neg l|r1 IH1 r2 IH2|r1 IH1 r2 IH2|r IH]; simpl.
  - by rewrite matches_Void.
  - by rewrite matches_Eps.
  - rewrite matches_Cls. split; [done|by intros (c & ? & _)].
  - by rewrite orb_true_iff, matches_Alt, IH1, IH2.
  - rewrite andb_true_iff, matches_Cat, IH1, IH2. split.
    + intros [H1 H2]. by exists "", "".
    + by intros ([|] & [|] & ? & H1 & H2).
  - split; [constructor|done].
Qed.

(** A word of a star that is not empty starts with a word that is not empty. *)
Lemma matches_star_inv r c s :
  matches (Star r) (String c s) <-> exists a b, s = a +:+ b /\ matches r (String c a) /\ matches (Star r) b.
Proof.
  split.
  - remember (Star r) as q eqn:Hq. remember (String c s) as w eqn:Hw. intros H. revert c s Hw.
    induction H as [| | | | |r'|r' a b Ha _ Hb IH]; intros e w Hw; try discriminate.
    injection Hq as ->. destruct a as [|d a]; [by apply IH|].
    rewrite append_String in Hw. simplify_eq. by exists a, b.
  - intros (a & b & -> & Ha & Hb). by apply (matches_star r (String c a) b).
Qed.

Lemma der_spec c r s : matches (der c r) s <-> matches r (String c s).
Proof.
  revert s. induction r as [| |neg l|r1 IH1 r2 IH2|r1 IH1 r2 IH2|r IH]; intros s; simpl.
  - by rewrite !matches_Void.
  - by rewrite matches_Void, matches_Eps.
  - rewrite matches_Cls. destruct (in_class neg l c) eqn:Hc.
    + rewrite matches_Eps. split; [intros ->; eauto|intros (d & ? & _); by simplify_eq].
    + rewrite matches_Void. split; [done|intros (d & ? & ?); simplify_eq; congruence].
  - by rewrite matches_alt, matches_Alt, IH1, IH2.
  - assert (matches (cat (der c r1) r2) s <->
            exists a b, s = a +:+ b /\ matches r1 (String c a) /\ matches r2 b) as Hd.
    { rewrite matches_cat_iff. by setoid_rewrite IH1. }
    rewrite matches_Cat. destruct (nullable r1) eqn:Hn; rewrite ?matches_alt, Hd, ?IH2; split.
    + intros [(a & b & -> & Ha & Hb)|H2]; [by exists (String c a), b|].
      exists "", (String c s). split; [done|]. split; [by apply nullable_spec|done].
    + intros ([|d a] & b & Hb & H1 & H2); [right; by rewrite Hb|].
      rewrite append_String in Hb. simplify_eq. left. by exists a, b.
    + intros (a & b & -> & Ha & Hb). by exists (String c a), b.
    + intros ([|d a] & b & Hb & H1 & H2).
      * apply nullable_spec in H1. congruence.
      * rewrite append_String in Hb. simplify_eq. by exists a, b.
  - rewrite matches_star_inv, matches_cat_iff. by setoid_rewrite IH.
Qed.

Lemma full_match_spec r s : full_match r s = true <-> matches r s.
Proof.
  revert r. induction s as [|c s IH]; intros r; simpl; [apply nullable_spec|].
  by rewrite IH, der_spec.
Qed.

#[export] Instance matches_dec r s : Decision (matches r s).
Proof. refine (cast_if (decide (full_match r s = true))); by rewrite <-full_match_spec. Defined.

#[export] Instance full_match_proper : Proper ((≡) ==> (=) ==> (=)) full_match.
Proof.
  intros r1 r2 H s ? <-. apply eq_true_iff_eq. by rewrite !full_match_spec, (H s).
Qed.

Lemma matches_alphabet r s : matches r s -> forall c, string_elem c s = true -> alphabet r c = true.
Proof.
  induction 1 as [|neg l d Hd|r1 r2 s _ IH|r1 r2 s _ IH|r1 r2 s t _ IH1 _ IH2|r|r s t _ IH1 _ IH2];
    intros c; simpl; try done.
  - rewrite orb_false_r, bool_decide_eq_true. by intros ->.
  - intros Hc. by rewrite IH.
  - intros Hc. by rewrite IH, orb_true_r.
  - rewrite string_elem_append, orb_true_iff. intros [Hc|Hc]; [by rewrite IH1|by rewrite IH2, orb_true_r].
  - rewrite string_elem_append, orb_true_iff. intros [Hc|Hc]; [by apply IH1|by apply IH2].
Qed.

Lemma all_in_spec l s : all_in l s = true <-> matches (Star (Cls false l)) s.
Proof. apply full_match_spec. Qed.

(** [MatchString] finds a part of the text in the language of the pattern, at the
    ends where the pattern is anchored. *)
Lemma MatchString_spec p s :
  MatchString p s = true <->
  exists a m b, s = a +:+ m +:+ b /\ matches (body p) m /\
    (at_begin p = true -> a = "") /\ (at_end p = true -> b = "").
Proof.
  unfold MatchString, whole. rewrite full_match_spec, matches_cat_iff. setoid_rewrite matches_cat_iff.
  split.
  - intros (a & ? & -> & Ha & m & b & -> & Hm & Hb). exists a, m, b. split; [done|]. split; [done|].
    split; intros Hat; rewrite Hat in *; by apply matches_Eps.
  - intros (a & m & b & -> & Hm & Ha & Hb). exists a, (m +:+ b). split; [done|]. split.
    + destruct (at_begin p); [rewrite Ha by done; constructor|apply matches_star_any].
    + exists m, b. split; [done|]. split; [done|].
      destruct (at_end p); [rewrite Hb by done; constructor|apply matches_star_any].
Qed.

Lemma MatchString_part p a m b :
  at_begin p = false -> at_end p = false -> matches (body p) m -> MatchString p (a +:+ m +:+ b) = true.
Proof. intros H1 H2 Hm. apply MatchString_spec. exists a, m, b. rewrite H1, H2. done. Qed.

Lemma MatchString_whole p s :
  at_begin p = true -> at_end p = true -> (MatchString p s = true <-> matches (body p) s).
Proof.
  intros H1 H2. rewrite MatchString_spec, H1, H2. split.
  - intros (a & m & b & -> & Hm & -> & ->); [|done..]. simpl. by rewrite append_nil_r.
  - intros Hs. exists "", s, "". simpl. by rewrite append_nil_r.
Qed.
