(* ===== verification/Digits.v ===== *)
(** * Digits of a number

    Numbers as lists of digits in a base, most significant first, and decimal
    texts of a fixed width, as the language's [fmt], [time] and [netip] write and read them. *)

From S2P Require Import Prelude GoStrings Regex.
From Stdlib Require Import Ascii.

Definition dec_digit (c : ascii) : Z := Z.of_nat (nat_of_ascii c) - 48.

Definition of_digits (base : Z) (l : list Z) : Z := foldl (fun a d => a * base + d) 0 l.

Fixpoint to_digits (n : nat) (base : Z) (v : Z) : list Z :=
  match n with O => [] | S n => to_digits n base (v / base) ++ [v mod base] end.

Definition digits_below (base : Z) (l : list Z) : Prop := Forall (fun d => 0 <= d < base) l.

(** The decimal text of [n] digits, with leading zeros. *)
Definition digit_char (d : Z) : ascii := ascii_of_nat (Z.to_nat (48 + d)).

Definition digit_string (l : list Z) : string := foldr (fun d s => String (digit_char d) s) "" l.

Definition padded (n : nat) (v : Z) : string := digit_string (to_digits n 10 v).

(** Exactly [n] decimal digits at the front, and the rest. *)
Fixpoint read_digits (n : nat) (acc : Z) (s : string) : option (Z * string) :=
  match n, s with
  | O, _ => Some (acc, s)
  | S n, String c s => if is_digit c then read_digits n (acc * 10 + dec_digit c) s else None
  | S _, EmptyString => None
  end.

(** The digits at the front, and the rest. *)
Fixpoint digit_run (s : string) : list Z * string :=
  match s with
  | String c s' =>
      if is_digit c then let '(l, rest) := digit_run s' in (dec_digit c :: l, rest) else ([], s)
  | EmptyString => ([], "")
  end.

(** ** Lemmas *)

Lemma in_one_range a b c :
  in_class false [(a, b)] c = true -> Z.of_nat (nat_of_ascii a) <= Z.of_nat (nat_of_ascii c) <= Z.of_nat (nat_of_ascii b).
Proof. unfold in_class, in_range. cbn -[nat_of_ascii]. rewrite orb_false_r, andb_true_iff, !Nat.leb_le. lia. Qed.

Lemma digit_range c : is_digit c = true -> 0 <= dec_digit c < 10.
Proof.
  unfold dec_digit. intros H%in_one_range.
  change (Z.of_nat (nat_of_ascii "0")) with 48 in H. change (Z.of_nat (nat_of_ascii "9")) with 57 in H. lia.
Qed.

Lemma of_digits_snoc base l d : of_digits base (l ++ [d]) = of_digits base l * base + d.
Proof. unfold of_digits. by rewrite foldl_snoc. Qed.

Lemma of_digits_range base l :
  0 < base -> digits_below base l -> 0 <= of_digits base l < base ^ Z.of_nat (length l).
Proof.
  intros Hb. induction l as [|d l IH] using rev_ind; [done|].
  intros [Hl Hd]%Forall_app. rewrite Forall_singleton in Hd. rewrite of_digits_snoc, length_app. simpl length.
  rewrite Nat2Z.inj_add, Z.pow_add_r by lia. specialize (IH Hl). change (Z.of_nat 1) with 1.
  rewrite Z.pow_1_r. nia.
Qed.

Lemma to_digits_length n base v : length (to_digits n base v) = n.
Proof. revert v. induction n as [|n IH]; intros v; simpl; [done|]. rewrite length_app, IH. simpl. lia. Qed.

Lemma to_digits_below n base v : 0 < base -> digits_below base (to_digits n base v).
Proof.
  intros Hb. revert v. induction n as [|n IH]; intros v; [constructor|]. simpl.
  apply Forall_app. split; [apply IH|]. apply Forall_singleton, Z.mod_pos_bound. lia.
Qed.

Lemma of_to_digits n base v : 0 < base -> 0 <= v < base ^ Z.of_nat n -> of_digits base (to_digits n base v) = v.
Proof.
  intros Hb. revert v. induction n as [|n IH]; intros v Hv.
  - simpl in Hv. change (base ^ Z.of_nat 0) with 1 in Hv. unfold of_digits. simpl. lia.
  - rewrite Nat2Z.inj_succ, Z.pow_succ_r in Hv by lia. simpl. rewrite of_digits_snoc, IH.
    + pose proof (Z.div_mod v base ltac:(lia)). lia.
    + split; [apply Z.div_pos; lia|apply Z.div_lt_upper_bound; lia].
Qed.

Lemma digits_below_lookup {P : Z -> Prop} base l : Forall P (seqZ 0 base) -> digits_below base l -> Forall P l.
Proof.
  intros Ht Hl. eapply Forall_impl; [exact Hl|]. intros d Hd. cbv beta in Hd.
  rewrite Forall_forall in Ht. apply Ht, elem_of_seqZ. lia.
Qed.

Lemma digit_chars :
  Forall (fun d => is_digit (digit_char d) = true /\ dec_digit (digit_char d) = d) (seqZ 0 10).
Proof. apply (bool_decide_unpack _). by vm_compute. Qed.

Lemma read_digit_string l acc rest :
  digits_below 10 l ->
  read_digits (length l) acc (digit_string l +:+ rest) = Some (foldl (fun a d => a * 10 + d) acc l, rest).
Proof.
  intros Hl%(digits_below_lookup _ _ digit_chars). revert acc.
  induction Hl as [|d l [Hd Hv] _ IH]; intros acc; [done|].
  change (digit_string (d :: l) +:+ rest) with (String (digit_char d) (digit_string l +:+ rest)).
  cbn [read_digits length]. by rewrite Hd, Hv, IH.
Qed.

Lemma read_padded n v rest :
  0 <= v < 10 ^ Z.of_nat n -> read_digits n 0 (padded n v +:+ rest) = Some (v, rest).
Proof.
  intros Hv. pose proof (read_digit_string (to_digits n 10 v) 0 rest (to_digits_below n 10 v ltac:(lia))) as Hr.
  rewrite to_digits_length in Hr. unfold padded. rewrite Hr. f_equal. f_equal. by apply of_to_digits.
Qed.

Lemma padded_inj n v v' rest rest' :
  0 <= v < 10 ^ Z.of_nat n -> 0 <= v' < 10 ^ Z.of_nat n ->
  padded n v +:+ rest = padded n v' +:+ rest' -> v = v' /\ rest = rest'.
Proof.
  intros Hv Hv' He. apply (f_equal (read_digits n 0)) in He. rewrite !read_padded in He by done.
  by injection He.
Qed.

Lemma read_digits_range n acc s v rest :
  0 <= acc -> read_digits n acc s = Some (v, rest) -> acc * 10 ^ Z.of_nat n <= v < (acc + 1) * 10 ^ Z.of_nat n.
Proof.
  revert acc s. induction n as [|n IH]; intros acc s Ha.
  { intros [= <- <-]. change (10 ^ Z.of_nat 0) with 1. lia. }
  destruct s as [|c s]; [done|]. cbn [read_digits]. destruct (is_digit c) eqn:Hc; [|done].
  apply digit_range in Hc. intros Hr%IH; [|lia]. rewrite Nat2Z.inj_succ, Z.pow_succ_r by lia. nia.
Qed.

Lemma digit_char_dec c : is_digit c = true -> digit_char (dec_digit c) = c.
Proof.
  intros Hc. pose proof (digit_range c Hc). unfold digit_char, dec_digit in *.
  replace (48 + (Z.of_nat (nat_of_ascii c) - 48)) with (Z.of_nat (nat_of_ascii c)) by lia.
  by rewrite Nat2Z.id, ascii_nat_embedding.
Qed.

(** What was read is the text of the number. *)
Lemma read_digits_inv n s acc v rest :
  read_digits n acc s = Some (v, rest) ->
  exists l, length l = n /\ digits_below 10 l /\ s = digit_string l +:+ rest /\
    v = foldl (fun a d => a * 10 + d) acc l.
Proof.
  revert s acc. induction n as [|n IH]; intros s acc; simpl.
  { intros [= <- <-]. exists []. repeat split. constructor. }
  destruct s as [|c s]; [done|]. destruct (is_digit c) eqn:Hc; [|done].
  intros (l & Hn & Hl & -> & ->)%IH. exists (dec_digit c :: l). split; [simpl; lia|].
  split; [constructor; [by apply digit_range|done]|]. split; [|done].
  change (digit_string (dec_digit c :: l) +:+ rest) with (String (digit_char (dec_digit c)) (digit_string l +:+ rest)).
  by rewrite digit_char_dec.
Qed.

Lemma to_of_digits l : digits_below 10 l -> to_digits (length l) 10 (of_digits 10 l) = l.
Proof.
  induction l as [|d l IH] using rev_ind; [done|]. intros [Hl Hd]%Forall_app. rewrite Forall_singleton in Hd.
  rewrite length_app, Nat.add_comm. cbn [length Nat.add to_digits]. rewrite of_digits_snoc.
  rewrite Z.div_add_l, Z.div_small, Z.add_0_r, IH by (done || lia).
  by rewrite Z.add_comm, Z_mod_plus_full, Z.mod_small by lia.
Qed.

Lemma read_digits_padded n s v rest : read_digits n 0 s = Some (v, rest) -> s = padded n v +:+ rest.
Proof.
  intros (l & <- & Hl & -> & ->)%read_digits_inv. unfold padded. fold (of_digits 10 l). by rewrite to_of_digits.
Qed.

Lemma digit_run_string l rest :
  digits_below 10 l -> match rest with String c _ => is_digit c = false | EmptyString => True end ->
  digit_run (digit_string l +:+ rest) = (l, rest).
Proof.
  intros Hl%(digits_below_lookup _ _ digit_chars) Hrest. induction Hl as [|d l [Hd Hv] _ IH].
  - destruct rest as [|c rest]; [done|]. simpl. by rewrite Hrest.
  - change (digit_string (d :: l) +:+ rest) with (String (digit_char d) (digit_string l +:+ rest)).
    cbn [digit_run]. by rewrite Hd, IH, Hv.
Qed.
