(* ===== verification/GoTime.v ===== *)
(** * Dates and clocks

    The part of the language's [time] package the library uses beyond instants
    and durations: the calendar, locations, [time.Date], and the layouts it
    formats and parses. An instant is nanoseconds since 1970, as everywhere. *)

From S2P Require Import Prelude GoStrings Regex Digits.
From Stdlib Require Import Ascii.

(** ** The calendar *)

Record date := { Year : Z; Month : Z; Day : Z }.

#[export] Instance date_eq_dec : EqDecision date.
Proof. solve_decision. Defined.

Definition isLeap (y : Z) : bool :=
  bool_decide (y mod 4 = 0) && (negb (bool_decide (y mod 100 = 0)) || bool_decide (y mod 400 = 0)).

Definition month_lengths (leap : bool) : list Z :=
  [31; (if leap then 29 else 28); 31; 30; 31; 30; 31; 31; 30; 31; 30; 31].

Definition daysIn (m y : Z) : Z := nth (Z.to_nat (m - 1)) (month_lengths (isLeap y)) 0.

Definition sumz (l : list Z) : Z := foldr Z.add 0 l.

(** Days before a month in its year, and before a year since 1 January of year 1. *)
Definition days_before_month (leap : bool) (m : Z) : Z := sumz (take (Z.to_nat (m - 1)) (month_lengths leap)).

Definition days_before_year (y : Z) : Z := 365 * (y - 1) + (y - 1) / 4 - (y - 1) / 100 + (y - 1) / 400.

(** 1 January 1970 counted from 1 January of year 1. *)
Definition epoch_day : Z := 719162.

(** Days since 1970 of a date. *)
Definition day_number (d : date) : Z :=
  days_before_year (Year d) + days_before_month (isLeap (Year d)) (Month d) + (Day d - 1) - epoch_day.

(** The months are taken off the day of the year. *)
Fixpoint take_months (m yday : Z) (lengths : list Z) : Z * Z :=
  match lengths with
  | len :: lengths => if bool_decide (yday < len) then (m, yday + 1) else take_months (m + 1) (yday - len) lengths
  | [] => (m, yday + 1)
  end.

(** The year of a day and the day in it: cycles of 400, 100, 4 and 1 years are taken
    off in turn. *)
Definition year_day (n : Z) : Z * Z :=
  let d := n + epoch_day in
  let n400 := d / 146097 in
  let d := d mod 146097 in
  let n100 := Z.min 3 (d / 36524) in
  let d := d - 36524 * n100 in
  let n4 := d / 1461 in
  let d := d mod 1461 in
  let n1 := Z.min 3 (d / 365) in
  (400 * n400 + 100 * n100 + 4 * n4 + n1 + 1, d - 365 * n1).

Definition date_of_day (n : Z) : date :=
  let '(y, yday) := year_day n in
  let '(m, day) := take_months 1 yday (month_lengths (isLeap y)) in
  {| Year := y; Month := m; Day := day |}.

Definition valid_date (d : date) : Prop :=
  1 <= Month d <= 12 /\ 1 <= Day d <= daysIn (Month d) (Year d).

(** ** Locations

    [lookup l sec] is the offset in seconds east of UTC in use at a Unix time, and
    the interval in which it is in use. *)
Class TimeZone (L : Type) := { lookup_zone : L -> Z -> Z * Z * Z }.

Definition offset {L} `{TimeZone L} (l : L) (sec : Z) : Z := fst (fst (lookup_zone l sec)).

(** Intervals contain what they were looked up for, and hold one offset of less than
    a day. *)
Class TimeZoneLaws (L : Type) `{TimeZone L} := {
  lookup_in l sec : in_int64 sec -> sec < max_int64 ->
    snd (fst (lookup_zone l sec)) <= sec < snd (lookup_zone l sec);
  lookup_same l sec sec' : in_int64 sec -> sec < max_int64 ->
    snd (fst (lookup_zone l sec)) <= sec' < snd (lookup_zone l sec) ->
    lookup_zone l sec' = lookup_zone l sec;
  lookup_offset l sec : -86400 < offset l sec < 86400
}.

Section clocks.
Context {L : Type} `{TimeZone L}.

(** Seconds since 1970 of an instant, its wall clock as seconds, and its date. *)
Definition unix (t : Z) : Z := t / Second.
Definition local_seconds (l : L) (t : Z) : Z := unix t + offset l (unix t).
Definition local_date (l : L) (t : Z) : date := date_of_day (local_seconds l t / 86400).

(** Seconds since the midnight the wall clock shows. *)
Definition clock (l : L) (t : Z) : Z := local_seconds l t mod 86400.

(** [time.Date] at a given hour, minute and second: the offset is looked up as if the
    wall clock were UTC, and once more when the result is outside its interval. *)
Definition to_utc (l : L) (wall : Z) : Z :=
  let '(off, start, stop) := lookup_zone l wall in
  if bool_decide (off = 0) then wall
  else
    let utc := wall - off in
    if bool_decide (utc < start \/ stop <= utc) then wall - offset l utc else utc.

Definition time_Date (d : date) (hour min sec nsec : Z) (l : L) : Z :=
  to_utc l (day_number d * 86400 + hour * 3600 + min * 60 + sec) * Second + nsec.

End clocks.

(** ** Layouts

    The layouts of the source, in a location: a date, the digits of a time, and
    RFC 3339 in UTC. Years have four digits. *)

(** ["2006-01-02"] *)
Definition format_date (d : date) : string :=
  padded 4 (Year d) +:+ "-" +:+ padded 2 (Month d) +:+ "-" +:+ padded 2 (Day d).

(** [time.ParseInLocation("2006-01-02", s, loc)] up to the date: the month is checked
    when it is read, the day at the end, and nothing may follow. *)
Definition parse_date (s : string) : option date :=
  '(y, s) ← read_digits 4 0 s;
  s ← expect "-" s;
  '(m, s) ← read_digits 2 0 s;
  if bool_decide (m <= 0 \/ 12 < m) then None
  else
    s ← expect "-" s;
    '(d, s) ← read_digits 2 0 s;
    if bool_decide (s <> "") then None
    else if bool_decide (d < 1 \/ daysIn m y < d) then None
    else Some {| Year := y; Month := m; Day := d |}.

(** ["20060102150405.000000000"] *)
Definition format_compact {L} `{TimeZone L} (l : L) (t : Z) : string :=
  let d := local_date l t in
  let c := clock l t in
  padded 4 (Year d) +:+ padded 2 (Month d) +:+ padded 2 (Day d) +:+
  padded 2 (c / 3600) +:+ padded 2 (c mod 3600 / 60) +:+ padded 2 (c mod 60) +:+ "." +:+
  padded 9 (t mod Second).

(** ** Two locations: one offset for ever, and one change *)

Inductive zone_data := Fixed (o : Z) | Change (before at_ after : Z).

Definition clamp (o : Z) : Z := Z.max (-86399) (Z.min 86399 o).

#[export] Instance zone_data_zone : TimeZone zone_data := {
  lookup_zone z sec :=
    match z with
    | Fixed o => (clamp o, min_int64, max_int64)
    | Change a x b => if bool_decide (sec < x) then (clamp a, min_int64, x) else (clamp b, x, max_int64)
    end
}.

Definition Kuala_Lumpur : zone_data := Fixed 28800.

(** ** Lemmas on the calendar *)

Lemma isLeap_spec y : isLeap y = true <-> y mod 4 = 0 /\ (y mod 100 <> 0 \/ y mod 400 = 0).
Proof. unfold isLeap. rewrite andb_true_iff, orb_true_iff, negb_true_iff, !bool_decide_eq_true, bool_decide_eq_false. done. Qed.

(** The days of a year. *)
Lemma days_before_year_succ y : days_before_year (y + 1) = days_before_year y + (if isLeap y then 366 else 365).
Proof.
  unfold days_before_year. destruct (isLeap y) eqn:Hl.
  - apply isLeap_spec in Hl. Z.div_mod_to_equations. lia.
  - apply not_true_iff_false in Hl. rewrite isLeap_spec in Hl.
    assert (y mod 4 <> 0 \/ (y mod 100 = 0 /\ y mod 400 <> 0)) as Hn by lia. clear Hl.
    Z.div_mod_to_equations. lia.
Qed.

Lemma days_before_year_mono y y' : y <= y' -> days_before_year y <= days_before_year y'.
Proof.
  intros H. replace y' with (y + Z.of_nat (Z.to_nat (y' - y))) by lia.
  generalize (Z.to_nat (y' - y)). intros n. induction n as [|n IH]; [rewrite Z.add_0_r; lia|].
  rewrite Nat2Z.inj_succ, <- Z.add_1_r, Z.add_assoc, days_before_year_succ. destruct (isLeap _); lia.
Qed.

(** Months one at a time. *)
Lemma month_cases m : 1 <= m <= 12 ->
  m = 1 \/ m = 2 \/ m = 3 \/ m = 4 \/ m = 5 \/ m = 6 \/ m = 7 \/ m = 8 \/ m = 9 \/ m = 10 \/ m = 11 \/ m = 12.
Proof. lia. Qed.

Ltac by_month H := apply month_cases in H; destruct_or! H; subst.

Lemma days_before_month_bound d :
  valid_date d ->
  0 <= days_before_month (isLeap (Year d)) (Month d) + (Day d - 1) < (if isLeap (Year d) then 366 else 365).
Proof.
  destruct d as [y m d]. unfold valid_date, daysIn, days_before_month. simpl. intros [Hm Hd].
  by_month Hm; destruct (isLeap y); simpl in *; lia.
Qed.

Lemma month_inj leap y m d m' d' :
  1 <= m <= 12 -> 1 <= m' <= 12 -> isLeap y = leap ->
  1 <= d <= daysIn m y -> 1 <= d' <= daysIn m' y ->
  days_before_month leap m + d = days_before_month leap m' + d' -> m = m' /\ d = d'.
Proof.
  intros Hm Hm' <-. unfold daysIn, days_before_month.
  by_month Hm; by_month Hm'; destruct (isLeap y); simpl; lia.
Qed.

Lemma day_number_inj d d' : valid_date d -> valid_date d' -> day_number d = day_number d' -> d = d'.
Proof.
  intros Hv Hv'. pose proof (days_before_month_bound _ Hv) as Hb. pose proof (days_before_month_bound _ Hv') as Hb'.
  unfold day_number. intros He.
  assert (Year d = Year d') as Hy.
  { pose proof (days_before_year_succ (Year d)). pose proof (days_before_year_succ (Year d')).
    destruct (Z.lt_total (Year d) (Year d')) as [Hlt|[?|Hlt]]; [|done|].
    - pose proof (days_before_year_mono (Year d + 1) (Year d') ltac:(lia)). lia.
    - pose proof (days_before_year_mono (Year d' + 1) (Year d) ltac:(lia)). lia. }
  destruct d as [y m d], d' as [y' m' d'], Hv as [Hm Hd], Hv' as [Hm' Hd']. simpl in *. subst y'.
  destruct (month_inj (isLeap y) y m d m' d' Hm Hm' eq_refl Hd Hd' ltac:(lia)) as [-> ->]. done.
Qed.

Lemma take_months_spec leap y yday :
  isLeap y = leap -> 0 <= yday < (if leap then 366 else 365) ->
  let '(m, d) := take_months 1 yday (month_lengths leap) in
  1 <= m <= 12 /\ 1 <= d <= daysIn m y /\ days_before_month leap m + (d - 1) = yday.
Proof.
  intros <- Hy. unfold month_lengths, daysIn, days_before_month. cbn [take_months].
  destruct (isLeap y) eqn:Hl;
  repeat (case_bool_decide; [unfold month_lengths; rewrite ?Hl; simpl; lia|]); lia.
Qed.

(** The cycles give the year and the day in it. *)
Lemma cycles n :
  let d := n + epoch_day in
  let a := d / 146097 in let d := d mod 146097 in
  let b := Z.min 3 (d / 36524) in let d := d - 36524 * b in
  let c := d / 1461 in let d := d mod 1461 in
  let e := Z.min 3 (d / 365) in
  let yday := d - 365 * e in
  let y := 400 * a + 100 * b + 4 * c + e + 1 in
  0 <= yday < (if isLeap y then 366 else 365) /\ days_before_year y + yday - epoch_day = n.
Proof.
  intros d0 a d1 b d2 c d3 e yday y.
  assert (d0 = 146097 * a + d1 /\ 0 <= d1 < 146097) as [H1 H1'] by (unfold a, d1; Z.div_mod_to_equations; lia).
  assert (0 <= b <= 3 /\ 0 <= d2 <= 36524 /\ (d2 = 36524 -> b = 3)) as (Hb & H2 & H2')
    by (unfold d2, b; Z.div_mod_to_equations; lia).
  assert (d2 = 1461 * c + d3 /\ 0 <= d3 < 1461 /\ 0 <= c <= 24) as (H3 & H3' & Hc)
    by (unfold c, d3; Z.div_mod_to_equations; lia).
  assert (0 <= e <= 3 /\ 0 <= yday <= 365 /\ (yday = 365 -> e = 3 /\ d3 = 1460)) as (He & Hy & Hy')
    by (unfold yday, e; Z.div_mod_to_equations; lia).
  assert ((y - 1) / 4 = 100 * a + 25 * b + c /\ (y - 1) / 100 = 4 * a + b /\ (y - 1) / 400 = a) as (Hq4 & Hq100 & Hq400)
    by (unfold y; Z.div_mod_to_equations; lia).
  split.
  - destruct (isLeap y) eqn:Hl; [lia|]. split; [lia|].
    destruct (decide (yday = 365)) as [H365|]; [exfalso|lia]. destruct (Hy' H365) as [-> Hd3].
    apply not_true_iff_false in Hl. apply Hl, isLeap_spec. unfold y. Z.div_mod_to_equations. lia.
  - unfold days_before_year. rewrite Hq4, Hq100, Hq400. unfold y, yday in *. unfold d2 in *.
    assert (n = d0 - epoch_day) by (unfold d0; lia). lia.
Qed.

Lemma year_day_spec n :
  let '(y, yday) := year_day n in
  0 <= yday < (if isLeap y then 366 else 365) /\ days_before_year y + yday - epoch_day = n.
Proof. exact (cycles n). Qed.

Lemma date_of_day_spec n : valid_date (date_of_day n) /\ day_number (date_of_day n) = n.
Proof.
  unfold date_of_day. pose proof (year_day_spec n) as Hn. destruct (year_day n) as [y yday]. destruct Hn as [Hy Hn].
  pose proof (take_months_spec (isLeap y) y yday eq_refl Hy) as Hm.
  destruct (take_months 1 yday _) as [m d]. destruct Hm as (Hm & Hd & He).
  split; [by split|]. unfold day_number. cbn [Year Month Day]. lia.
Qed.

Lemma date_of_day_number d : valid_date d -> date_of_day (day_number d) = d.
Proof. intros Hv. destruct (date_of_day_spec (day_number d)) as [? ?]. by apply day_number_inj. Qed.

(** ** Lemmas on layouts *)

Lemma daysIn_le m y : 1 <= m <= 12 -> daysIn m y <= 31.
Proof. intros Hm. unfold daysIn. by_month Hm; destruct (isLeap y); simpl; lia. Qed.

(** A date with a year of four digits. *)
Definition four_digit_year (d : date) : Prop := 0 <= Year d < 10000.

(** The texts that are read are exactly those of the valid dates. *)
Lemma parse_date_spec s d :
  parse_date s = Some d <-> s = format_date d /\ valid_date d /\ four_digit_year d.
Proof.
  unfold parse_date, format_date. split.
  - destruct (read_digits 4 0 s) as [[y s1]|] eqn:Hy; [|done]. cbn [mbind option_bind].
    pose proof (read_digits_range _ _ _ _ _ (Z.le_refl 0) Hy) as Hyr. apply read_digits_padded in Hy as ->.
    destruct (expect "-" s1) as [s2|] eqn:He; [|done]. apply expect_inv in He as ->. cbn [mbind option_bind].
    destruct (read_digits 2 0 s2) as [[m s3]|] eqn:Hm; [|done]. apply read_digits_padded in Hm as ->.
    cbn [mbind option_bind]. case_bool_decide as Hmr; [done|].
    destruct (expect "-" s3) as [s4|] eqn:He; [|done]. apply expect_inv in He as ->. cbn [mbind option_bind].
    destruct (read_digits 2 0 s4) as [[dd s5]|] eqn:Hd; [|done]. apply read_digits_padded in Hd as ->.
    cbn [mbind option_bind]. case_bool_decide as Hs; [done|]. case_bool_decide as Hdr; [done|]. intros [= <-].
    subst s5. cbn [Year Month Day]. rewrite append_nil_r.
    split; [done|]. unfold valid_date, four_digit_year. cbn [Year Month Day]. change (10 ^ Z.of_nat 4) with 10000 in Hyr. lia.
  - destruct d as [y m dd]. unfold valid_date, four_digit_year. cbn [Year Month Day]. intros (-> & [Hm Hd] & Hy).
    pose proof (daysIn_le m y Hm).
    rewrite read_padded by done. cbn [mbind option_bind]. rewrite expect_append. cbn [mbind option_bind].
    rewrite read_padded by (change (10 ^ Z.of_nat 2) with 100; lia). cbn [mbind option_bind].
    rewrite bool_decide_false by lia. rewrite expect_append. cbn [mbind option_bind].
    rewrite <- (append_nil_r (padded 2 dd)).
    rewrite read_padded by (change (10 ^ Z.of_nat 2) with 100; lia). cbn [mbind option_bind].
    rewrite bool_decide_false by (intros Hne; by apply Hne). by rewrite bool_decide_false by lia.
Qed.

(** ** Lemmas on clocks *)

#[export] Instance zone_data_laws : TimeZoneLaws zone_data.
Proof.
  split.
  - intros l sec Hs Hm. unfold lookup_zone, zone_data_zone. unfold in_int64 in Hs.
    destruct l as [o|a x b]; [simpl; lia|]. case_bool_decide; simpl; lia.
  - intros l sec sec' Hs Hm. unfold lookup_zone, zone_data_zone.
    destruct l as [o|a x b]; [done|]. case_bool_decide; simpl; intros; [by rewrite bool_decide_true by lia|].
    by rewrite bool_decide_false by lia.
  - intros l sec. unfold offset, lookup_zone, zone_data_zone, clamp. destruct l as [o|a x b]; [simpl; lia|].
    case_bool_decide; simpl; lia.
Qed.

Section clock_lemmas.
Context {L : Type} `{TimeZoneLaws L}.
#[local] Set Default Proof Using "All".
Implicit Types l : L.

Lemma clock_range l t : 0 <= clock l t < 86400.
Proof. unfold clock. apply Z.mod_pos_bound. lia. Qed.

Lemma local_date_valid l t : valid_date (local_date l t).
Proof. apply date_of_day_spec. Qed.

Lemma local_seconds_split l t : local_seconds l t = day_number (local_date l t) * 86400 + clock l t.
Proof.
  unfold local_date, clock. rewrite (proj2 (date_of_day_spec _)).
  pose proof (Z.div_mod (local_seconds l t) 86400 ltac:(lia)). lia.
Qed.

(** A wall clock that is a date and a second of it. *)
Lemma local_of_wall l t d c :
  local_seconds l t = day_number d * 86400 + c -> valid_date d -> 0 <= c < 86400 ->
  local_date l t = d /\ clock l t = c.
Proof.
  intros Hw Hv Hc. unfold local_date, clock. rewrite Hw. split.
  - rewrite Z.div_add_l, (Z.div_small c), Z.add_0_r by lia. by apply date_of_day_number.
  - by rewrite Z.add_comm, Z_mod_plus_full, Z.mod_small by lia.
Qed.

(** One offset around a wall clock: it is taken off. *)
Lemma to_utc_one l wall o :
  (forall sec, wall - 86400 <= sec <= wall + 86400 -> offset l sec = o) ->
  to_utc l wall = wall - o.
Proof.
  intros Ho. pose proof (lookup_offset l wall) as Hb. pose proof (Ho wall ltac:(lia)) as Hw.
  unfold to_utc. unfold offset in Hw, Hb. destruct (lookup_zone l wall) as [[off start] stop]. simpl in Hw, Hb. subst off.
  case_bool_decide; [lia|]. by rewrite (Ho (wall - o)) by lia; destruct (bool_decide _).
Qed.

(** Two offsets around a wall clock that is shown at some time: the time found
    shows it. *)
Lemma to_utc_two l wall a b sec :
  in_int64 wall -> wall < max_int64 ->
  (forall sec, wall - 86400 <= sec <= wall + 86400 -> offset l sec = a \/ offset l sec = b) ->
  sec + offset l sec = wall ->
  to_utc l wall + offset l (to_utc l wall) = wall.
Proof.
  intros Hi Hm Hab Hsec. pose proof (lookup_offset l wall) as Hbw. pose proof (lookup_offset l sec) as Hbs.
  pose proof (lookup_same l wall) as Hsame.
  pose proof (Hab wall ltac:(lia)) as Hw. pose proof (Hab sec ltac:(lia)) as Hs.
  unfold to_utc. destruct (lookup_zone l wall) as [[off start] stop] eqn:Hl.
  assert (offset l wall = off) as Hoff by (unfold offset; by rewrite Hl). rewrite Hoff in Hbw, Hw. simpl in Hsame.
  case_bool_decide as Hz; [lia|].
  case_bool_decide as Hin.
  - pose proof (Hab (wall - off) ltac:(lia)) as Hu.
    assert (offset l (wall - off) = off \/ wall - offset l (wall - off) = sec) as [He|He].
    { destruct (decide (offset l sec = off)) as [Hso|Hso].
      - left. by replace (wall - off) with sec by lia.
      - destruct (decide (offset l (wall - off) = off)); [by left|right; lia]. }
    + rewrite !He. lia.
    + rewrite He. lia.
  - unfold offset. rewrite (Hsame (wall - off)) by (done || lia). simpl. lia.
Qed.

(** Under one offset, instants of one text are one instant: years of four digits. *)
Lemma format_compact_inj l t t' o :
  (forall sec, offset l sec = o) -> four_digit_year (local_date l t) -> four_digit_year (local_date l t') ->
  format_compact l t = format_compact l t' -> t = t'.
Proof.
  intros Ho Hy Hy'. unfold format_compact, unix.
  pose proof (clock_range l t) as Hc. pose proof (clock_range l t') as Hc'.
  destruct (local_date_valid l t) as [Hm Hd]. destruct (local_date_valid l t') as [Hm' Hd'].
  pose proof (daysIn_le _ (Year (local_date l t)) Hm). pose proof (daysIn_le _ (Year (local_date l t')) Hm').
  unfold four_digit_year in *. set (c := clock l t) in *. set (c' := clock l t') in *.
  assert (0 <= t mod Second < Second /\ 0 <= t' mod Second < Second) as [Hn Hn']
    by (split; apply Z.mod_pos_bound; unfold Second; lia).
  assert (forall z, 0 <= z < 100 -> 0 <= z < 10 ^ Z.of_nat 2) as H100 by (intros; done).
  intros He. apply padded_inj in He as [HY He]; [|done..].
  apply padded_inj in He as [HM He]; [|apply H100; lia..].
  apply padded_inj in He as [HD He]; [|apply H100; lia..].
  apply padded_inj in He as [Hh He]; [|apply H100; Z.div_mod_to_equations; lia..].
  apply padded_inj in He as [Hmi He]; [|apply H100; Z.div_mod_to_equations; lia..].
  apply padded_inj in He as [Hse He]; [|apply H100; Z.div_mod_to_equations; lia..].
  apply (f_equal (fun s => TrimPrefix s ".")) in He. rewrite !TrimPrefix_append in He.
  rewrite <- (append_nil_r (padded 9 (t mod _))), <- (append_nil_r (padded 9 (t' mod _))) in He.
  apply padded_inj in He as [Hns _]; [|done..].
  assert (local_seconds l t = local_seconds l t') as Hls.
  { rewrite !local_seconds_split. fold c c'. destruct (local_date l t), (local_date l t'). simpl in *. subst.
    assert (c = c') by (Z.div_mod_to_equations; lia). lia. }
  unfold local_seconds, unix in Hls. rewrite !Ho in Hls.
  pose proof (Z.div_mod t Second ltac:(done)). pose proof (Z.div_mod t' Second ltac:(done)). lia.
Qed.

End clock_lemmas.
