(* ===== verification/GoFloat.v ===== *)
(** * Binary64 arithmetic

    [float64] values as the Standard Library's executable specification of
    IEEE 754 ([SpecFloat] at precision 53), with the conversions and the
    [math.Round] the library uses, and the error bounds their round trips need. *)

From S2P Require Import Prelude.
From Stdlib Require Import Floats.SpecFloat QArith Qabs Qpower Lqa.
#[local] Open Scope Z_scope.

(** ** Definitions *)

Abbreviation f64 := spec_float.

Definition f64_of_int (z : Z) : f64 := binary_normalize 53 1024 z 0 false.
Definition f64_mul : f64 -> f64 -> f64 := SFmul 53 1024.
Definition f64_div : f64 -> f64 -> f64 := SFdiv 53 1024.
Definition f64_add : f64 -> f64 -> f64 := SFadd 53 1024.
Definition f64_sub : f64 -> f64 -> f64 := SFsub 53 1024.
Definition f64_lt : f64 -> f64 -> bool := SFltb.
Definition f64_le : f64 -> f64 -> bool := SFleb.
Definition f64_eq : f64 -> f64 -> bool := SFeqb.
Definition f64_zero : f64 := S754_zero false.
Definition f64_is_nan (f : f64) : bool := match f with S754_nan => true | _ => false end.

(** [math.Frexp] and [math.Ldexp] of the language's library, and the loop of
    [math.Pow] for an integer exponent [y >= 0], [i] ranging over its bits. *)
Definition math_Frexp (f : f64) : f64 * Z := SFfrexp 53 1024 f.
Definition math_Ldexp (f : f64) (e : Z) : f64 := SFldexp 53 1024 f e.

Definition half : f64 := f64_div (f64_of_int 1) (f64_of_int 2).

Fixpoint pow_loop (i : positive) (x1 : f64) (xe : Z) (a1 : f64) (ae : Z) : f64 * Z :=
  if bool_decide (xe < - 2 ^ 12) || bool_decide (2 ^ 12 < xe) then (a1, ae + xe)
  else
    let sq := f64_mul x1 x1 in
    let '(x2, xe2) :=
      if f64_lt sq half then (f64_add sq sq, 2 * xe - 1) else (sq, 2 * xe) in
    match i with
    | xH => (f64_mul a1 x1, ae + xe)
    | xO i => pow_loop i x2 xe2 a1 ae
    | xI i => pow_loop i x2 xe2 (f64_mul a1 x1) (ae + xe)
    end.

(** [math.Pow(x, float64(y))] for [0 <= y < 2^53]. *)
Definition math_Pow (x : f64) (y : Z) : f64 :=
  match x, y with
  | _, Z0 => f64_of_int 1
  | _, Zneg _ => S754_nan
  | _, Zpos xH => x
  | S754_nan, _ => S754_nan
  | S754_zero s, _ => S754_zero (s && Z.odd y)
  | S754_infinity s, _ => S754_infinity (s && Z.odd y)
  | S754_finite _ _ _, Zpos i =>
      if f64_eq x (f64_of_int 1) then x
      else
        let '(x1, xe) := math_Frexp x in
        let '(a1, ae) := pow_loop i x1 xe (f64_of_int 1) 0 in math_Ldexp a1 ae
  end.

(** [math.Round]: to the nearest integer, half away from zero. *)
Definition math_Round (f : f64) : f64 :=
  match f with
  | S754_finite s m e =>
      if bool_decide (0 <= e) then f
      else
        let q := (Zpos m + 2 ^ (- e - 1)) / 2 ^ (- e) in
        binary_normalize 53 1024 (cond_Zopp s q) 0 s
  | _ => f
  end.

(** The integer part, for finite values. *)
Definition f64_trunc (f : f64) : option Z :=
  match f with
  | S754_zero _ => Some 0
  | S754_finite s m e => Some (cond_Zopp s (Z.shiftl (Zpos m) e))
  | _ => None
  end.

(** [int64(f)] truncates toward zero. The language leaves the result open when
    the value does not fit (or is no number): that choice is the class. *)
Class FloatConv := {
  cvt_overflow : f64 -> Z;
  cvt_overflow_range f : in_int64 (cvt_overflow f)
}.

Definition int64_of_f64 `{FloatConv} (f : f64) : Z :=
  match f64_trunc f with
  | Some z => if bool_decide (in_int64 z) then z else cvt_overflow f
  | None => cvt_overflow f
  end.

(** The choice amd64 makes. *)
#[export] Program Instance amd64_conv : FloatConv := {| cvt_overflow _ := min_int64 |}.
Next Obligation. vm_compute; split; discriminate. Qed.

(** ** The rational a float stands for *)

Definition pow2 (e : Z) : Q := (inject_Z 2 ^ e)%Q.

Definition pos_val (m : positive) (e : Z) : Q := (inject_Z (Zpos m) * pow2 e)%Q.

(** [r] is [x] up to the rounding of one operation. *)
Definition rounded (r x : Q) : Prop := (r - x <= x * pow2 (-53) /\ x - r <= x * pow2 (-53))%Q.

(** Far from underflow and from overflow. *)
Definition normal_range (x : Q) : Prop := (pow2 (-900) <= x /\ x < pow2 900)%Q.

(** The mantissa and the two sticky bits of a shift record bracket [x], in
    units of [u]. *)
Definition brackets (mrs : shr_record) (x u : Q) : Prop :=
  let m := inject_Z (shr_m mrs) in
  (0 <= shr_m mrs)%Z /\
  match shr_r mrs, shr_s mrs with
  | false, false => x == m * u
  | false, true => m * u < x /\ x + x < (m + m + 1) * u
  | true, false => x + x == (m + m + 1) * u
  | true, true => (m + m + 1) * u < x + x /\ x < (m + 1) * u
  end%Q.

(** ** Lemmas *)

Lemma pow2_pos e : (0 < pow2 e)%Q.
Proof. apply Qpower_0_lt. done. Qed.

Lemma pow2_add a b : (pow2 (a + b) == pow2 a * pow2 b)%Q.
Proof. apply Qpower_plus. done. Qed.

Lemma pow2_succ e : (pow2 (e + 1) == 2 * pow2 e)%Q.
Proof. rewrite pow2_add. unfold pow2 at 2. rewrite Qpower_1_r. ring. Qed.

Lemma pow2_nonneg_Z e : 0 <= e -> (pow2 e == inject_Z (2 ^ e))%Q.
Proof. intros. symmetry. by apply Zpower_Qpower. Qed.

Lemma brackets_shr_1 mrs x u :
  (0 < u)%Q -> brackets mrs x u -> brackets (shr_1 mrs) x (2 * u)%Q.
Proof.
  intros Hu [Hm Hb]. destruct mrs as [m r s]. simpl in *.
  destruct m as [|[p|p|]|p]; [| | | |lia]; unfold brackets; simpl;
    (split; [lia|]); rewrite ?(Pos2Z.inj_xI p), ?(Pos2Z.inj_xO p), ?inject_Z_plus, ?inject_Z_mult in Hb;
    try (set (y := inject_Z (Z.pos p)) in *);
    destruct r, s; simpl in *; unfold inject_Z in *; nra.
Qed.

Lemma shr_1_div2 mrs : 0 <= shr_m mrs -> shr_m (shr_1 mrs) = shr_m mrs / 2.
Proof.
  destruct mrs as [m r s]; simpl. intros Hm.
  destruct m as [|[p|p|]|p]; simpl; try lia; try done.
  - rewrite (Pos2Z.inj_xI p). Z.div_mod_to_equations. lia.
  - rewrite (Pos2Z.inj_xO p). Z.div_mod_to_equations. lia.
Qed.

(** The shift's iteration is plain iteration. *)
Lemma iter_pos_comm {A} (f : A -> A) p x :
  SpecFloat.iter_pos f p (f x) = f (SpecFloat.iter_pos f p x).
Proof.
  revert x. induction p as [p IH|p IH|]; intros x; simpl; [|by rewrite !IH|done].
  by rewrite !IH.
Qed.

Lemma iter_pos_succ {A} (f : A -> A) p x :
  SpecFloat.iter_pos f (Pos.succ p) x = SpecFloat.iter_pos f p (f x).
Proof.
  revert x. induction p as [p IH|p IH|]; intros x; simpl; [|done|done].
  by rewrite !IH, !iter_pos_comm.
Qed.

#[export] Instance brackets_proper mrs : Proper (Qeq ==> Qeq ==> iff) (brackets mrs).
Proof.
  intros x x' Hx u u' Hu. unfold brackets. destruct (shr_r mrs), (shr_s mrs); rewrite Hx, Hu; done.
Qed.

Lemma brackets_shr_1_pow2 mrs x e :
  brackets mrs x (pow2 e) -> brackets (shr_1 mrs) x (pow2 (e + 1)).
Proof. intros Hb. rewrite pow2_succ. apply brackets_shr_1; [apply pow2_pos|done]. Qed.

Lemma shift_brackets p mrs x e :
  brackets mrs x (pow2 e) ->
  brackets (SpecFloat.iter_pos shr_1 p mrs) x (pow2 (e + Zpos p)) /\
  shr_m (SpecFloat.iter_pos shr_1 p mrs) = shr_m mrs / 2 ^ Zpos p.
Proof.
  revert mrs e. induction p as [|p IH] using Pos.peano_ind; intros mrs e Hb.
  - simpl. split; [|by apply shr_1_div2, Hb].
    by apply brackets_shr_1_pow2.
  - rewrite iter_pos_succ. destruct (IH _ _ (brackets_shr_1_pow2 _ _ _ Hb)) as [H1 H2]. split.
    + by replace (e + Zpos (Pos.succ p)) with (e + 1 + Zpos p) by lia.
    + rewrite H2, shr_1_div2 by apply Hb.
      replace (Zpos (Pos.succ p)) with (1 + Zpos p) by lia.
      rewrite Z.pow_add_r by lia. by rewrite <-Z.div_div by lia.
Qed.

Lemma shr_spec mrs x e n :
  brackets mrs x (pow2 e) -> 0 <= n ->
  let '(mrs', e') := shr mrs e n in
  brackets mrs' x (pow2 e') /\ e' = e + n /\ shr_m mrs' = shr_m mrs / 2 ^ n.
Proof.
  intros Hb Hn. destruct n as [|p|p]; [| |lia]; simpl.
  - rewrite Z.add_0_r, Z.div_1_r. done.
  - destruct (shift_brackets p mrs x e Hb). done.
Qed.

Lemma shr_neg mrs e n : n <= 0 -> shr mrs e n = (mrs, e).
Proof. by destruct n. Qed.

Lemma digits2_bounds p :
  2 ^ (Zpos (digits2_pos p) - 1) <= Zpos p < 2 ^ Zpos (digits2_pos p).
Proof.
  induction p as [p IH|p IH|]; [| |done];
    cbn [digits2_pos]; rewrite Pos2Z.inj_succ;
    replace (Z.succ (Zpos (digits2_pos p)) - 1) with (Z.succ (Zpos (digits2_pos p) - 1)) by lia;
    rewrite !Z.pow_succ_r by lia; lia.
Qed.

Lemma digits2_unique p d :
  0 <= d -> 2 ^ d <= Zpos p < 2 ^ (d + 1) -> Zpos (digits2_pos p) = d + 1.
Proof.
  intros Hd [H1 H2]. pose proof (digits2_bounds p) as [H3 H4].
  assert (d < Zpos (digits2_pos p)) by (apply (Z.pow_lt_mono_r_iff 2); lia).
  assert (Zpos (digits2_pos p) - 1 < d + 1) by (apply (Z.pow_lt_mono_r_iff 2); lia).
  lia.
Qed.

Lemma loc_of_record_of_loc m l : loc_of_shr_record (shr_record_of_loc m l) = l.
Proof. by destruct l as [|[]]. Qed.

Lemma record_of_loc_m m l : shr_m (shr_record_of_loc m l) = m.
Proof. by destruct l as [|[]]. Qed.

(** Rounding to nearest is off by at most half a unit. *)
Lemma round_nearest_half mrs x u :
  (0 < u)%Q -> brackets mrs x u ->
  let m1 := round_nearest_even (shr_m mrs) (loc_of_shr_record mrs) in
  shr_m mrs <= m1 <= shr_m mrs + 1 /\
  (inject_Z m1 * u - x <= u * (1 # 2) /\ x - inject_Z m1 * u <= u * (1 # 2))%Q.
Proof.
  intros Hu [Hm Hb]. destruct mrs as [m r s]. simpl in *.
  destruct r, s; simpl; try destruct (Z.even m); (split; [lia|]);
    rewrite ?inject_Z_plus; set (y := inject_Z m) in *; change (inject_Z 1) with 1%Q; nra.
Qed.

(** A mantissa of at most 53 bits at an exponent in range is kept as it is. *)
Lemma second_shift m1 e :
  0 < m1 <= 2 ^ 53 -> -1074 <= e <= 970 ->
  exists mrs m2 e2, shr_fexp 53 1024 m1 e loc_Exact = (mrs, e2) /\ shr_m mrs = Zpos m2 /\
    e2 <= 971 /\ (inject_Z (Zpos m2) * pow2 e2 == inject_Z m1 * pow2 e)%Q.
Proof.
  intros Hm He. unfold shr_fexp. destruct m1 as [|p|p]; [lia| |lia]. cbn [Zdigits2].
  pose proof (digits2_bounds p) as [Hd1 Hd2]. set (d := Zpos (digits2_pos p)) in *.
  assert (Hd : d <= 54).
  { enough (d - 1 < 54) by lia. apply (Z.pow_lt_mono_r_iff 2); lia. }
  unfold fexp, emin. destruct (decide (d <= 53)).
  - rewrite shr_neg by lia. eexists _, p, e. rewrite record_of_loc_m.
    repeat split; try lia; done.
  - assert (d = 54) by lia. assert (p = 9007199254740992%positive) as ->.
    { enough (2 ^ 53 <= Zpos p) by lia. by replace 53 with (d - 1) by lia. }
    replace (d + e) with (e + 54) by lia.
    replace (Z.max (e + 54 - 53) (3 - 1024 - 53) - e) with 1 by lia.
    eexists _, 4503599627370496%positive, (e + 1). split; [reflexivity|].
    split; [reflexivity|split; [lia|]]. rewrite pow2_succ, Qmult_assoc. reflexivity.
Qed.

Lemma pow2_lt_inv a b : (pow2 a < pow2 b)%Q -> a < b.
Proof.
  intros H. destruct (decide (a < b)) as [|Hn]; [done|].
  assert (pow2 b <= pow2 a)%Q; [|exfalso; lra].
  replace a with (b + (a - b)) by lia. rewrite pow2_add, (pow2_nonneg_Z (a - b)) by lia.
  pose proof (pow2_pos b). assert (inject_Z 1 <= inject_Z (2 ^ (a - b)))%Q as H1.
  { rewrite <-Zle_Qle. pose proof (Z.pow_pos_nonneg 2 (a - b)). lia. }
  change (inject_Z 1) with 1%Q in H1. nra.
Qed.

(** A mantissa of [d] bits puts the value between two powers of two. *)
Lemma brackets_range mrs x e d :
  brackets mrs x (pow2 e) -> 0 < d -> 2 ^ (d - 1) <= shr_m mrs < 2 ^ d ->
  (pow2 (d - 1 + e) <= x /\ x < pow2 (d + e))%Q.
Proof.
  intros [Hm Hb] Hd [H1 H2]. rewrite !pow2_add, (pow2_nonneg_Z (d - 1)), (pow2_nonneg_Z d) by lia.
  rewrite Zle_Qle in H1. assert (shr_m mrs + 1 <= 2 ^ d) as H3 by lia.
  rewrite Zle_Qle, inject_Z_plus in H3. change (inject_Z 1) with 1%Q in H3.
  pose proof (pow2_pos e). set (u := pow2 e) in *.
  set (a := inject_Z (2 ^ (d - 1))) in *. set (b := inject_Z (2 ^ d)) in *.
  set (m := inject_Z (shr_m mrs)) in *.
  assert (0 <= (m - a) * u)%Q by nra. assert (0 <= (b - m - 1) * u)%Q by nra.
  clear H1 H2 H3. destruct (shr_r mrs), (shr_s mrs); split; lra.
Qed.

(** Rounding a bracketed value in the normal range yields a finite float
    within half a unit in the last place of it, whatever the sign. *)
Lemma round_aux_spec m e l x :
  brackets (shr_record_of_loc (Zpos m) l) x (pow2 e) ->
  l = loc_Exact \/ e <= fexp 53 1024 (Zpos (digits2_pos m) + e) ->
  (pow2 (-900) <= x /\ x < pow2 900)%Q ->
  exists m2 e2, (forall s, binary_round_aux 53 1024 s (Zpos m) e l = S754_finite s m2 e2) /\
    let r := (inject_Z (Zpos m2) * pow2 e2)%Q in
    (r - x <= x * pow2 (-53) /\ x - r <= x * pow2 (-53))%Q /\
    (l = loc_Exact -> Zpos m < 2 ^ 53 -> -1074 <= e -> r == x).
Proof.
  intros Hb Hl [Hx1 Hx2]. pose proof (digits2_bounds m) as Hd.
  set (d := Zpos (digits2_pos m)) in *.
  destruct (brackets_range _ _ _ d Hb) as [Hr1 Hr2]; [lia|by rewrite record_of_loc_m|].
  assert (-900 < d + e) by (apply pow2_lt_inv; lra).
  assert (d - 1 + e < 900) by (apply pow2_lt_inv; lra).
  assert (Hf : fexp 53 1024 (d + e) = d + e - 53) by (unfold fexp, emin; lia).
  rewrite Hf in Hl. unfold binary_round_aux.
  assert (Hsh : shr_fexp 53 1024 (Zpos m) e l =
    shr (shr_record_of_loc (Zpos m) l) e (d + e - 53 - e)).
  { unfold shr_fexp. cbn [Zdigits2]. fold d. by rewrite Hf. }
  assert ((l = loc_Exact /\ d <= 53) \/ (53 <= d /\ ~ (l = loc_Exact /\ d <= 53)))
    as [[-> Hd53]|[Hd53 Hn]] 
    by (clear Hb; destruct (decide (d <= 53)); [destruct l|];
        destruct Hl; simplify_eq; (left; split; [done|lia]) || (right; split; [lia|intros [??]; done || lia])).
    rewrite Hsh, shr_neg by lia. rewrite record_of_loc_m, loc_of_record_of_loc. cbn [round_nearest_even].
    destruct (second_shift (Zpos m) e) as (mrs & m2 & e2 & -> & Hm2 & He2 & Hv);
      [assert (2 ^ d <= 2 ^ 53) by (apply Z.pow_le_mono_r; lia); lia|lia|].
    exists m2, e2. destruct Hb as [_ Hb]; simpl in Hb. rewrite <-Hv in Hb.
    assert (0 < x)%Q by (pose proof (pow2_pos (-900)); lra). pose proof (pow2_pos (-53)).
    rewrite Hm2, (proj2 (Z.leb_le e2 (1024 - 53))) by lia. split; [done|].
    cbv zeta. rewrite <-Hb. split; [|done].
    assert (0 <= x * pow2 (-53))%Q by (apply Qmult_le_0_compat; lra). split; lra.
  - pose proof (shr_spec _ x e (d + e - 53 - e) Hb) as Hs.
    rewrite Hsh. destruct (shr _ e (d + e - 53 - e)) as [mrs1 e1]. destruct Hs as (Hb1 & -> & Hm1); [lia|].
    replace (e + (d + e - 53 - e)) with (d + e - 53) in * by lia.
    rewrite record_of_loc_m in Hm1. replace (d + e - 53 - e) with (d - 53) in Hm1 by lia.
    assert (2 ^ 52 <= shr_m mrs1 < 2 ^ 53) as Hm52.
    { rewrite Hm1. replace (2 ^ (d - 1)) with (2 ^ 52 * 2 ^ (d - 53)) in Hd
        by (rewrite <-Z.pow_add_r by lia; f_equal; lia).
      replace (2 ^ d) with (2 ^ 53 * 2 ^ (d - 53)) in Hd
        by (rewrite <-Z.pow_add_r by lia; f_equal; lia).
      pose proof (Z.pow_pos_nonneg 2 (d - 53)).
      split; [apply Z.div_le_lower_bound; lia|apply Z.div_lt_upper_bound; lia]. }
    pose proof (round_nearest_half mrs1 x _ (pow2_pos _) Hb1) as [Hm2 Hr].
    set (m1 := round_nearest_even _ _) in *.
    destruct (second_shift m1 (d + e - 53)) as (mrs & m2 & e2 & -> & Hs2 & He2 & Hv); [lia|lia|].
    exists m2, e2. rewrite Hs2, (proj2 (Z.leb_le e2 (1024 - 53))) by lia. split; [done|]. cbv zeta.
    rewrite Hv. split; 
      [|intros -> **; assert (d - 1 < 53) by (apply (Z.pow_lt_mono_r_iff 2); lia);
        exfalso; apply Hn; split; [done|lia]].
    destruct (brackets_range _ _ _ 53 Hb1) as [Hx _]; [lia|done|].
    assert (pow2 (d + e - 53) * (1 # 2) <= x * pow2 (-53))%Q; [|lra].
    rewrite pow2_add in Hx. pose proof (pow2_pos (d + e - 53)).
    change (pow2 (53 - 1)) with (4503599627370496 # 1) in Hx.
    change (pow2 (-53)) with (1 # 9007199254740992). lra.
Qed.

Lemma f64_mul_spec m1 e1 m2 e2 :
  normal_range (pos_val m1 e1 * pos_val m2 e2) ->
  exists m e, (forall s1 s2, f64_mul (S754_finite s1 m1 e1) (S754_finite s2 m2 e2) =
                             S754_finite (xorb s1 s2) m e) /\
    rounded (pos_val m e) (pos_val m1 e1 * pos_val m2 e2).
Proof.
  intros Hx. destruct (round_aux_spec (m1 * m2) (e1 + e2) loc_Exact (pos_val m1 e1 * pos_val m2 e2))
    as (m & e & Hf & Hr & _); [|by left|done|].
  - split; [done|]. simpl. unfold pos_val. rewrite Pos2Z.inj_mul, inject_Z_mult, pow2_add. ring.
  - exists m, e. split; [intros s1 s2; apply Hf|done].
Qed.

Lemma f64_of_int_exact p :
  Zpos p < 2 ^ 53 ->
  exists m e, (forall s, f64_of_int (cond_Zopp s (Zpos p)) = S754_finite s m e) /\
    (pos_val m e == inject_Z (Zpos p))%Q.
Proof.
  intros Hp. pose proof (digits2_bounds p) as Hd. set (d := Zpos (digits2_pos p)) in *.
  assert (Hd53 : d <= 53) by (enough (d - 1 < 53) by lia; apply (Z.pow_lt_mono_r_iff 2); lia).
  assert (exists q, shl_align p 0 (fexp 53 1024 (d + 0)) = (q, d - 53) /\
    Zpos q = Zpos p * 2 ^ (53 - d)) as (q & Hq & Hqv).
  { unfold shl_align, fexp, emin.
    replace (Z.max (d + 0 - 53) (3 - 1024 - 53)) with (d - 53) by lia. rewrite Z.sub_0_r.
    destruct (d - 53) as [|k|k] eqn:Hk; [|lia|].
    - exists p. split; [done|]. replace (53 - d) with 0 by lia. lia.
    - exists (shift_pos k p). split; [done|]. rewrite shift_pos_correct.
      replace (53 - d) with (Zpos k) by lia. change (Z.pow_pos 2 k) with (2 ^ Zpos k). lia. }
  destruct (round_aux_spec q (d - 53) loc_Exact (inject_Z (Zpos p))) as (m & e & Hf & _ & Hr).
  - split; [done|]. simpl. rewrite Hqv, inject_Z_mult, <-pow2_nonneg_Z, <-Qmult_assoc, <-pow2_add by lia.
    replace (53 - d + (d - 53)) with 0 by lia. change (pow2 0) with 1%Q. ring.
  - by left.
  - assert (1 <= Zpos p) as H1 by lia. rewrite Zle_Qle in H1. rewrite Zlt_Qlt in Hp.
    assert (pow2 (-900) <= inject_Z 1)%Q by (vm_compute; discriminate).
    assert (inject_Z (2 ^ 53) < pow2 900)%Q by (vm_compute; reflexivity). split; lra.
  - exists m, e. split.
    + intros s. rewrite <-(Hf s). unfold f64_of_int, binary_normalize, binary_round.
      destruct s; cbn -[shl_align fexp binary_round_aux]; rewrite ?Pos2Z.opp_pos; fold d; by rewrite Hq.
    + apply Hr; [done| |lia]. rewrite Hqv. replace (2 ^ 53) with (2 ^ d * 2 ^ (53 - d))
        by (rewrite <-Z.pow_add_r by lia; f_equal; lia).
      pose proof (Z.pow_pos_nonneg 2 (53 - d)). apply Z.mul_lt_mono_pos_r; lia.
Qed.

Lemma fexp_mono a b : a <= b -> fexp 53 1024 a <= fexp 53 1024 b.
Proof. unfold fexp, emin. lia. Qed.

Lemma digits2_le_inv p d : 0 <= d -> 2 ^ d <= Zpos p -> d < Zpos (digits2_pos p).
Proof.
  intros Hd H. pose proof (digits2_bounds p) as [_ H'].
  apply (Z.pow_lt_mono_r_iff 2); lia.
Qed.

(** Euclidean division with its location brackets the quotient. *)
Lemma new_location_brackets n b q r u :
  0 < b -> 0 <= q -> n = b * q + r -> 0 <= r < b -> (0 < u)%Q ->
  brackets (shr_record_of_loc q (new_location b r)) (inject_Z n * u / inject_Z b) u.
Proof.
  intros Hb Hq -> Hr Hu.
  assert (Hbq : (0 < inject_Z b)%Q) by (change 0%Q with (inject_Z 0); by rewrite <-Zlt_Qlt).
  set (x := (inject_Z (b * q + r) * u / inject_Z b)%Q).
  assert (Hx : (x * inject_Z b == (inject_Z b * inject_Z q + inject_Z r) * u)%Q).
  { unfold x. rewrite inject_Z_plus, inject_Z_mult. field. intros H. lra. }
  clearbody x. split; [by rewrite record_of_loc_m|]. rewrite record_of_loc_m.
  assert (Hcases : (new_location b r = loc_Exact /\ r = 0) \/
    (new_location b r = loc_Inexact Lt /\ 0 < r /\ 2 * r < b) \/
    (new_location b r = loc_Inexact Eq /\ 0 < r /\ 2 * r = b) \/
    (new_location b r = loc_Inexact Gt /\ 0 < r /\ b < 2 * r)).
  { unfold new_location, new_location_even, new_location_odd.
    destruct (decide (r = 0)) as [->|Hn]; [left; by destruct (Z.even b)|right].
    assert (Hr0 : IntDef.Z.eqb r 0 = false) by (by apply Z.eqb_neq).
    assert (0 < r) by lia. destruct (Z.even b) eqn:E; rewrite Hr0.
    - destruct (Z.compare_spec (2 * r) b); [right; left|left|right; right]; (split; [done|lia]).
    - assert (2 * r <> b) by (intros Hbe; rewrite <-Hbe, Z.even_mul in E; simpl in E; congruence).
      destruct (Z.compare_spec (2 * r + 1) b); [left|left|right; right]; (split; [done|lia]). }
  set (B := inject_Z b) in *. set (Qq := inject_Z q) in *.
  destruct Hcases as [[-> Hc]|[[-> Hc]|[[-> Hc]|[-> Hc]]]]; cbn [shr_r shr_s shr_record_of_loc].
  - subst r. apply (Qmult_inj_r _ _ B); [lra|]. rewrite Hx. change (inject_Z 0) with 0%Q. ring.
  - destruct Hc as [H1 H2]. rewrite Zlt_Qlt in H1, H2. rewrite inject_Z_mult in H2. fold B in H2.
    change (inject_Z 0) with 0%Q in H1. change (inject_Z 2) with 2%Q in H2.
    split; apply (Qmult_lt_r _ _ B Hbq); nra.
  - destruct Hc as [H1 H2]. assert (2 * inject_Z r == B)%Q as H3.
    { unfold B. rewrite <-H2, inject_Z_mult. done. }
    apply (Qmult_inj_r _ _ B); [lra|]. nra.
  - destruct Hc as [H1 H2]. assert (r < b) as H3 by lia.
    rewrite Zlt_Qlt in H2, H3. rewrite inject_Z_mult in H2. fold B in H2, H3.
    change (inject_Z 2) with 2%Q in H2.
    split; apply (Qmult_lt_r _ _ B Hbq); nra.
Qed.

(** The quotient of two mantissas has a full mantissa when the dividend was
    shifted far enough. *)
Lemma div_quotient_digits m1 m2 s q r :
  Zpos m1 * 2 ^ s = Zpos m2 * q + r -> 0 <= r < Zpos m2 -> 0 <= s ->
  0 <= Zpos (digits2_pos m1) - 1 + s - Zpos (digits2_pos m2) ->
  2 ^ (Zpos (digits2_pos m1) - 1 + s - Zpos (digits2_pos m2)) <= q.
Proof.
  intros Hqr Hr Hs Ht. pose proof (digits2_bounds m1) as [H1 _]. pose proof (digits2_bounds m2) as [_ H2].
  set (d1 := Zpos (digits2_pos m1)) in *. set (d2 := Zpos (digits2_pos m2)) in *.
  set (t := d1 - 1 + s - d2) in *. pose proof (Z.pow_pos_nonneg 2 s ltac:(lia) Hs).
  assert (2 ^ t * 2 ^ d2 = 2 ^ (d1 - 1) * 2 ^ s) as He.
  { rewrite <-!Z.pow_add_r by lia. f_equal. lia. }
  assert (2 ^ t * 2 ^ d2 < (q + 1) * 2 ^ d2); [|enough (2 ^ t < q + 1) by lia; nia].
  assert (0 <= q) by nia. nia.
Qed.

Lemma pos_val_digits m e :
  (pow2 (Zpos (digits2_pos m) - 1 + e) <= pos_val m e /\ pos_val m e < pow2 (Zpos (digits2_pos m) + e))%Q.
Proof.
  apply (brackets_range {| shr_m := Zpos m; shr_r := false; shr_s := false |});
    [split; [done|]; reflexivity|lia|apply digits2_bounds].
Qed.

Lemma pos_val_pos m e : (0 < pos_val m e)%Q.
Proof. pose proof (pos_val_digits m e). pose proof (pow2_pos (Zpos (digits2_pos m) - 1 + e)). lra. Qed.

Lemma pos_val_div_digits m1 e1 m2 e2 :
  (pow2 (-900) <= pos_val m1 e1 / pos_val m2 e2)%Q ->
  -901 < Zpos (digits2_pos m1) + e1 - (Zpos (digits2_pos m2) + e2).
Proof.
  intros Hx. pose proof (pos_val_digits m1 e1) as [_ H1]. pose proof (pos_val_digits m2 e2) as [H2 _].
  set (d1 := Zpos (digits2_pos m1)) in *. set (d2 := Zpos (digits2_pos m2)) in *.
  enough (-900 + (d2 - 1 + e2) < d1 + e1) by lia. apply pow2_lt_inv. rewrite pow2_add.
  pose proof (pos_val_pos m2 e2). set (v2 := pos_val m2 e2) in *.
  assert (pos_val m1 e1 == pos_val m1 e1 / v2 * v2)%Q as Hv by (field; intros Hz; lra).
  rewrite Hv in H1. set (x := (pos_val m1 e1 / v2)%Q) in *.
  pose proof (pow2_pos (-900)). pose proof (pow2_pos (d2 - 1 + e2)). nra.
Qed.

(** The exponent and the scale at which mantissas are divided. *)
Definition div_exp (m1 : positive) (e1 : Z) (m2 : positive) (e2 : Z) : Z :=
  Z.min (fexp 53 1024 (Zpos (digits2_pos m1) + e1 - (Zpos (digits2_pos m2) + e2))) (e1 - e2).

Lemma div_core m1 e1 m2 e2 :
  let s := e1 - e2 - div_exp m1 e1 m2 e2 in
  exists q r, SFdiv_core_binary 53 1024 (Zpos m1) e1 (Zpos m2) e2 =
      (q, div_exp m1 e1 m2 e2, new_location (Zpos m2) r) /\
    0 <= s /\ Zpos m1 * 2 ^ s = Zpos m2 * q + r /\ 0 <= r < Zpos m2.
Proof.
  intros s. assert (Hs : 0 <= s) by (unfold s, div_exp; lia).
  unfold SFdiv_core_binary. cbn [Zdigits2]. fold (div_exp m1 e1 m2 e2). fold s.
  set (m' := match s with Z0 => _ | Zpos _ => _ | Zneg _ => _ end).
  assert (m' = Zpos m1 * 2 ^ s) as ->.
  { unfold m'. clearbody s. destruct s; [lia| |lia]. apply Z.shiftl_mul_pow2. lia. }
  change IntDef.Z.div_eucl with Z.div_eucl.
  pose proof (Z_div_mod (Zpos m1 * 2 ^ s) (Zpos m2) ltac:(lia)) as Hdm.
  destruct (Z.div_eucl _ _) as [q r]. by exists q, r.
Qed.

Lemma div_value m1 e1 m2 e2 :
  let e' := div_exp m1 e1 m2 e2 in
  (inject_Z (Zpos m1 * 2 ^ (e1 - e2 - e')) * pow2 e' / inject_Z (Zpos m2) == pos_val m1 e1 / pos_val m2 e2)%Q.
Proof.
  intros e'. assert (0 <= e1 - e2 - e') by (unfold e', div_exp; lia).
  unfold pos_val. rewrite inject_Z_mult, <-pow2_nonneg_Z by lia.
  assert (pow2 e1 == pow2 (e1 - e2 - e') * pow2 e' * pow2 e2)%Q as ->.
  { rewrite <-!pow2_add. by replace (e1 - e2 - e' + e' + e2) with e1 by lia. }
  field. split; [|done]. intros Hz. pose proof (pow2_pos e2). lra.
Qed.

Lemma f64_div_spec m1 e1 m2 e2 :
  normal_range (pos_val m1 e1 / pos_val m2 e2) ->
  exists m e, (forall s1 s2, f64_div (S754_finite s1 m1 e1) (S754_finite s2 m2 e2) =
                             S754_finite (xorb s1 s2) m e) /\
    rounded (pos_val m e) (pos_val m1 e1 / pos_val m2 e2).
Proof.
  intros Hx. pose proof (div_value m1 e1 m2 e2) as Hval.
  destruct (div_core m1 e1 m2 e2) as (q & r & Hcore & Hs & Hqr & Hr). cbv zeta in Hval.
  set (e' := div_exp m1 e1 m2 e2) in *. set (s := e1 - e2 - e') in *.
  set (d1 := Zpos (digits2_pos m1)). set (d2 := Zpos (digits2_pos m2)).
  assert (He' : e' = Z.min (fexp 53 1024 (d1 + e1 - (d2 + e2))) (e1 - e2)) by done.
  pose proof (pos_val_div_digits _ _ _ _ (proj1 Hx)) as HD. fold d1 d2 in HD.
  assert (Hf : fexp 53 1024 (d1 + e1 - (d2 + e2)) = d1 + e1 - (d2 + e2) - 53) by (unfold fexp, emin; lia).
  assert (Hq : 2 ^ (d1 - 1 + s - d2) <= q) by (apply (div_quotient_digits m1 m2 s q r); fold d1 d2; lia).
  pose proof (Z.pow_pos_nonneg 2 (d1 - 1 + s - d2) ltac:(lia) ltac:(lia)).
  destruct q as [|q|q]; [lia| |lia].
  pose proof (digits2_le_inv q (d1 - 1 + s - d2) ltac:(lia) Hq).
  pose proof (new_location_brackets _ _ _ _ _ (Pos2Z.is_pos m2) (Pos2Z.is_nonneg q) Hqr Hr (pow2_pos e')) as Hb.
  rewrite Hval in Hb.
  destruct (round_aux_spec q e' (new_location (Zpos m2) r) _ Hb) as (m & e & Hr2 & Hr3 & _); [|done|].
  - right. rewrite He'. etransitivity; [apply Z.le_min_l|]. apply fexp_mono. lia.
  - exists m, e. split; [|done]. intros s1 s2. unfold f64_div, SFdiv. rewrite Hcore. apply Hr2.
Qed.

(** ** From a float back to the integer it stands for *)

Lemma inject_Z_minus a b : (inject_Z (a - b) == inject_Z a - inject_Z b)%Q.
Proof. unfold Z.sub, Qminus. by rewrite inject_Z_plus, inject_Z_opp. Qed.

(** A product by a power of two, in integers. *)
Lemma pos_val_scale m e : e < 0 -> (pos_val m e * inject_Z (2 ^ (- e)) == inject_Z (Zpos m))%Q.
Proof.
  intros He. unfold pos_val. rewrite <-pow2_nonneg_Z, <-Qmult_assoc, <-pow2_add by lia.
  replace (e + - e) with 0 by lia. change (pow2 0) with 1%Q. ring.
Qed.

Lemma pos_val_int m e : 0 <= e -> (pos_val m e == inject_Z (Zpos m * 2 ^ e))%Q.
Proof. intros He. unfold pos_val. by rewrite inject_Z_mult, <-pow2_nonneg_Z. Qed.

Lemma f64_trunc_exact s m e c :
  (pos_val m e == inject_Z c)%Q -> f64_trunc (S754_finite s m e) = Some (cond_Zopp s c).
Proof.
  intros Hv. cbn [f64_trunc]. do 2 f_equal. destruct (decide (0 <= e)).
  - rewrite pos_val_int in Hv by done. apply (proj1 (inject_Z_injective _ _)) in Hv.
    rewrite Z.shiftl_mul_pow2 by done. done.
  - pose proof (pos_val_scale m e ltac:(lia)) as Hs. rewrite Hv, <-inject_Z_mult in Hs.
    apply (proj1 (inject_Z_injective _ _)) in Hs. rewrite Z.shiftl_div_pow2, <-Hs by lia.
    apply Z.div_mul. pose proof (Z.pow_pos_nonneg 2 (- e)). lia.
Qed.

(** [math.Round] of a float less than one half away from an integer. *)
Lemma math_Round_near s m e c :
  0 < c < 2 ^ 53 ->
  (pos_val m e - inject_Z c < 1 # 2 /\ inject_Z c - pos_val m e < 1 # 2)%Q ->
  f64_trunc (math_Round (S754_finite s m e)) = Some (cond_Zopp s c).
Proof.
  intros Hc [H1 H2]. cbn [math_Round]. case_bool_decide as He.
  - apply f64_trunc_exact. rewrite pos_val_int in * by done.
    set (n := Zpos m * 2 ^ e) in *. enough (n = c) as -> by done.
    assert (inject_Z n < inject_Z (c + 1) /\ inject_Z (c - 1) < inject_Z n)%Q as [H3 H4].
    { rewrite inject_Z_plus, inject_Z_minus. change (inject_Z 1) with 1%Q. lra. }
    rewrite <-Zlt_Qlt in H3, H4. lia.
  - pose proof (pos_val_scale m e ltac:(lia)) as Hs.
    set (D := 2 ^ (- e)) in *. assert (HD : D = 2 * 2 ^ (- e - 1)).
    { unfold D. rewrite <-Z.pow_succ_r by lia. f_equal. lia. }
    pose proof (Z.pow_pos_nonneg 2 (- e - 1) ltac:(lia) ltac:(lia)) as HH.
    set (H := 2 ^ (- e - 1)) in *.
    assert (Hb : 2 * c * D - D < 2 * Zpos m < 2 * c * D + D).
    { assert (0 < inject_Z D)%Q by (change 0%Q with (inject_Z 0); rewrite <-Zlt_Qlt; lia).
      split; rewrite Zlt_Qlt; rewrite ?inject_Z_minus, ?inject_Z_plus, !inject_Z_mult, <-Hs;
        change (inject_Z 2) with 2%Q; nra. }
    replace ((Zpos m + H) / D) with c.
    2:{ apply Z.div_unique_pos with (Zpos m + H - D * c); lia. }
    destruct c as [|p|p]; [lia| |lia].
    destruct (f64_of_int_exact p) as (m' & e' & Hf & Hv'); [lia|].
    assert (binary_normalize 53 1024 (cond_Zopp s (Zpos p)) 0 s = S754_finite s m' e') as ->.
    { rewrite <-(Hf s). by destruct s. }
    by apply f64_trunc_exact.
Qed.

Lemma int64_of_f64_range `{FloatConv} f : in_int64 (int64_of_f64 f).
Proof.
  unfold int64_of_f64. destruct (f64_trunc f); [case_bool_decide; [done|]|]; apply cvt_overflow_range.
Qed.

(** The hundred of the source, and an integer divided by it. *)
Lemma f64_hundred : f64_of_int 100 = S754_finite false 7036874417766400 (-46).
Proof. vm_compute. reflexivity. Qed.

Lemma f64_cents p :
  Zpos p <= 2 ^ 50 ->
  exists m e m1 e1, (forall s, f64_of_int (cond_Zopp s (Zpos p)) = S754_finite s m e) /\
    (forall s, f64_div (S754_finite s m e) (f64_of_int 100) = S754_finite s m1 e1) /\
    rounded (pos_val m1 e1) (inject_Z (Zpos p) * (1 # 100)).
Proof.
  intros Hp. destruct (f64_of_int_exact p) as (m & e & Hi & Hv); [lia|]. exists m, e.
  rewrite f64_hundred. set (h := pos_val 7036874417766400 (-46)). assert (Hh : (h == 100)%Q) by reflexivity.
  assert (Hp1 : (1 <= inject_Z (Zpos p) /\ inject_Z (Zpos p) <= inject_Z (2 ^ 50))%Q).
  { change 1%Q with (inject_Z 1). rewrite <-!Zle_Qle. lia. }
  set (x := inject_Z (Zpos p)) in *. change (inject_Z (2 ^ 50)) with (1125899906842624 # 1)%Q in Hp1.
  assert (Hlo : (pow2 (-900) <= 1 # 1000)%Q) by (vm_compute; discriminate).
  assert (Hhi : (2000000000000000000 # 1 < pow2 900)%Q) by (vm_compute; reflexivity).
  assert (Hx100 : (pos_val m e / pos_val 7036874417766400 (-46) == x * (1 # 100))%Q).
  { fold h. rewrite Hv, Hh. field. }
  destruct (f64_div_spec m e 7036874417766400 (-46)) as (m1 & e1 & Hd & Hr1).
  { split; rewrite Hx100; lra. }
  exists m1, e1. split; [done|]. split; [intros s; rewrite Hd; by destruct s|].
  unfold rounded in *. by rewrite Hx100 in Hr1.
Qed.

(** Dividing an integer by a hundred, multiplying by a hundred and rounding
    gives it back, for magnitudes up to [2^50]. *)
Lemma f64_percent_roundtrip `{FloatConv} c :
  Z.abs c <= 2 ^ 50 ->
  int64_of_f64 (math_Round (f64_mul (f64_div (f64_of_int c) (f64_of_int 100)) (f64_of_int 100))) = c.
Proof.
  intros Hc. destruct (decide (c = 0)) as [->|Hn]; [reflexivity|].
  assert (exists s p, c = cond_Zopp s (Zpos p) /\ Zpos p <= 2 ^ 50) as (s & p & -> & Hp).
  { destruct c as [|p|p]; [done|exists false, p|exists true, p]; done. }
  destruct (f64_cents p Hp) as (m & e & m1 & e1 & -> & -> & Hr1). rewrite f64_hundred.
  assert (Hp1 : (1 <= inject_Z (Zpos p) /\ inject_Z (Zpos p) <= inject_Z (2 ^ 50))%Q).
  { change 1%Q with (inject_Z 1). rewrite <-!Zle_Qle. lia. }
  set (x := inject_Z (Zpos p)) in *. change (inject_Z (2 ^ 50)) with (1125899906842624 # 1)%Q in Hp1.
  assert (Hlo : (pow2 (-900) <= 1 # 1000)%Q) by (vm_compute; discriminate).
  assert (Hhi : (2000000000000000000 # 1 < pow2 900)%Q) by (vm_compute; reflexivity).
  unfold rounded in Hr1. change (pow2 (-53)) with (1 # 9007199254740992)%Q in Hr1.
  assert (Hy : (pos_val m1 e1 * pos_val 7036874417766400 (-46) == pos_val m1 e1 * 100)%Q).
  { assert (pos_val 7036874417766400 (-46) == 100)%Q as -> by reflexivity. done. }
  destruct (f64_mul_spec m1 e1 7036874417766400 (-46)) as (m2 & e2 & Hm & Hr2).
  { split; rewrite Hy; lra. }
  rewrite Hm. unfold rounded in Hr2. rewrite Hy in Hr2.
  change (pow2 (-53)) with (1 # 9007199254740992)%Q in Hr2.
  unfold int64_of_f64. replace (xorb s false) with s by (by destruct s).
  rewrite (math_Round_near s m2 e2 (Zpos p)); [|lia|fold x; lra].
  rewrite bool_decide_true; [done|]. unfold in_int64, min_int64, max_int64. lia.
Qed.
