(* ===== verification/FloatNear.v ===== *)
(** * Rounding to the nearest float

    A number that lies closer to a float than half the gaps beside it rounds to
    that float, for quotients and products of integers of any size: what
    [strconv] relies on when it writes a [float64] with as few digits as needed. *)

From S2P Require Import Prelude GoFloat.
From Stdlib Require Import Floats.SpecFloat QArith Lqa.
#[local] Open Scope Z_scope.

(** ** Definitions *)

(** The float [m * 2 ^ e] in its only form. *)
Definition canonical (m : positive) (e : Z) : Prop :=
  fexp 53 1024 (Zpos (digits2_pos m) + e) = e /\ e <= 971.

(** [x] is nearer to [m * 2 ^ e] than the middle between it and its neighbours;
    the one below a power of two is at half the distance. *)
Definition near (x : Q) (m : positive) (e : Z) : Prop :=
  (x - pos_val m e < (1 # 2) * pow2 e /\ pos_val m e - x < (1 # 2) * pow2 e /\
   (m = 4503599627370496%positive -> pos_val m e - x < (1 # 4) * pow2 e))%Q.

(** ** Lemmas *)

Lemma fexp_max d : fexp 53 1024 d = Z.max (d - 53) (-1074).
Proof. done. Qed.

Lemma canonical_digits m e :
  canonical m e -> Zpos (digits2_pos m) <= 53 /\ (e = -1074 \/ (Zpos (digits2_pos m) = 53 /\ -1074 < e)).
Proof. unfold canonical. rewrite fexp_max. lia. Qed.

Lemma shr_fexp_spec q l e x :
  brackets (shr_record_of_loc q l) x (pow2 e) -> e <= fexp 53 1024 (Zdigits2 q + e) ->
  exists mrs, shr_fexp 53 1024 q e l = (mrs, fexp 53 1024 (Zdigits2 q + e)) /\
    brackets mrs x (pow2 (fexp 53 1024 (Zdigits2 q + e))).
Proof.
  intros Hb He. unfold shr_fexp. set (f := fexp _ _ _) in *.
  pose proof (shr_spec _ x e (f - e) Hb ltac:(lia)) as Hs. destruct (shr _ _ _) as [mrs e'].
  destruct Hs as (Hb' & -> & _). replace (e + (f - e)) with f in * by lia. by exists mrs.
Qed.

(** The place of a bracketed number among the powers of two. *)
Lemma brackets_above q l e x :
  0 <= q -> brackets (shr_record_of_loc q l) x (pow2 e) -> (x < pow2 (Zdigits2 q + e))%Q.
Proof.
  intros Hq Hb. destruct q as [|q|q]; [| |lia].
  - destruct Hb as [_ Hb]. rewrite record_of_loc_m in Hb. pose proof (pow2_pos e) as Hp. cbn [Zdigits2].
    rewrite Z.add_0_l. change (inject_Z 0) with 0%Q in Hb. destruct (shr_r _), (shr_s _); lra.
  - apply (brackets_range _ _ _ (Zpos (digits2_pos q)) Hb); [lia|]. rewrite record_of_loc_m. apply digits2_bounds.
Qed.

Lemma brackets_below q l e x :
  0 < q -> brackets (shr_record_of_loc q l) x (pow2 e) -> (pow2 (Zdigits2 q - 1 + e) <= x)%Q.
Proof.
  intros Hq Hb. destruct q as [|q|q]; [lia| |lia].
  apply (brackets_range _ _ _ (Zpos (digits2_pos q)) Hb); [lia|]. rewrite record_of_loc_m. apply digits2_bounds.
Qed.

Lemma pow2_le a b : a <= b -> (pow2 a <= pow2 b)%Q.
Proof.
  intros H. replace b with (a + (b - a)) by lia. rewrite pow2_add, (pow2_nonneg_Z (b - a)) by lia.
  assert (1 <= inject_Z (2 ^ (b - a)))%Q.
  { change 1%Q with (inject_Z 1). rewrite <-Zle_Qle. pose proof (Z.pow_pos_nonneg 2 (b - a)). lia. }
  pose proof (pow2_pos a). nra.
Qed.

(** The exponent at which a near number is rounded. *)
Lemma near_exponent q l e' x m e :
  canonical m e -> near x m e -> 0 <= q ->
  brackets (shr_record_of_loc q l) x (pow2 e') -> e' <= fexp 53 1024 (Zdigits2 q + e') ->
  let f := fexp 53 1024 (Zdigits2 q + e') in
  f = e \/ (f = e - 1 /\ m = 4503599627370496%positive /\ -1074 < e /\ (x < pos_val m e)%Q).
Proof.
  intros Hc (Hn1 & Hn2 & Hn3) Hq Hb He' f.
  pose proof (brackets_above _ _ _ _ Hq Hb) as Hab. pose proof (digits2_bounds m) as [Hd1 Hd2].
  apply canonical_digits in Hc as [Hd He]. set (d := Zpos (digits2_pos m)) in *.
  pose proof (pow2_pos e) as Hp. unfold pos_val in *. set (u := pow2 e) in *.
  assert (f <= e) as Hle.
  { destruct (decide (q = 0)) as [->|]; [unfold f in *; rewrite fexp_max in *; cbn [Zdigits2] in *; lia|].
    pose proof (brackets_below q l e' x ltac:(lia) Hb) as Hbe.
    assert (Zdigits2 q - 1 + e' < d + e); [|unfold f; rewrite fexp_max; lia].
    apply pow2_lt_inv. eapply Qle_lt_trans; [exact Hbe|]. rewrite pow2_add, pow2_nonneg_Z by lia. fold u.
    assert (Zpos m + 1 <= 2 ^ d) as Hm by lia. rewrite Zle_Qle, inject_Z_plus in Hm.
    change (inject_Z 1) with 1%Q in Hm. apply (Qmult_le_compat_r _ _ u) in Hm; lra. }
  destruct He as [->|[Hd53 He]]; [left; unfold f in *; rewrite fexp_max in *; lia|].
  rewrite Hd53 in Hd1. destruct (decide (m = 4503599627370496%positive)) as [Hm|Hm].
  - enough (51 + e < Zdigits2 q + e').
    { unfold f in *. rewrite fexp_max in *. destruct (decide (Zdigits2 q + e' = 52 + e)) as [e0|]; [right|left; lia].
      split; [lia|]. split; [done|]. split; [done|]. rewrite Hm. rewrite e0, pow2_add in Hab. exact Hab. }
    apply pow2_lt_inv. eapply Qle_lt_trans; [|exact Hab]. rewrite pow2_add. fold u. specialize (Hn3 Hm). rewrite Hm in Hn3.
    change (pow2 51) with (2251799813685248 # 1)%Q.
    change (inject_Z 4503599627370496) with (4503599627370496 # 1)%Q in Hn3. lra.
  - left. enough (52 + e < Zdigits2 q + e') by (unfold f in *; rewrite fexp_max in *; lia).
    apply pow2_lt_inv. eapply Qle_lt_trans; [|exact Hab]. rewrite pow2_add. fold u.
    assert (2 ^ 52 + 1 <= Zpos m) as Hm' by (change (2 ^ (53 - 1)) with (2 ^ 52) in Hd1; lia).
    rewrite Zle_Qle in Hm'. change (inject_Z (2 ^ 52 + 1)) with (4503599627370497 # 1)%Q in Hm'.
    change (pow2 52) with (4503599627370496 # 1)%Q. apply (Qmult_le_compat_r _ _ u) in Hm'; lra.
Qed.

(** An integer within half a unit of a number that is within half a unit of an integer. *)
Lemma same_integer (r m : Z) (x u : Q) :
  (0 < u)%Q ->
  (inject_Z r * u - x <= u * (1 # 2))%Q -> (x - inject_Z r * u <= u * (1 # 2))%Q ->
  (x - inject_Z m * u < (1 # 2) * u)%Q -> (inject_Z m * u - x < (1 # 2) * u)%Q -> r = m.
Proof.
  intros Hu H1 H2 H3 H4.
  assert (inject_Z r < inject_Z (m + 1))%Q as H5.
  { rewrite inject_Z_plus. change (inject_Z 1) with 1%Q. apply (Qmult_lt_r _ _ u Hu). lra. }
  assert (inject_Z (m - 1) < inject_Z r)%Q as H6.
  { rewrite inject_Z_minus. change (inject_Z 1) with 1%Q. apply (Qmult_lt_r _ _ u Hu). lra. }
  rewrite <-Zlt_Qlt in H5, H6. lia.
Qed.

Lemma shr_fexp_canonical m e :
  canonical m e -> exists mrs, shr_fexp 53 1024 (Zpos m) e loc_Exact = (mrs, e) /\ shr_m mrs = Zpos m.
Proof.
  intros [Hc _]. unfold shr_fexp. cbn [Zdigits2]. rewrite Hc, Z.sub_diag. eexists. split; [done|]. apply record_of_loc_m.
Qed.

(** A number near a float rounds to it. *)
Lemma round_near s q l e' x m e :
  canonical m e -> near x m e -> 0 <= q ->
  brackets (shr_record_of_loc q l) x (pow2 e') -> e' <= fexp 53 1024 (Zdigits2 q + e') ->
  binary_round_aux 53 1024 s q e' l = S754_finite s m e.
Proof.
  intros Hc Hn Hq Hb He'. destruct (near_exponent _ _ _ _ _ _ Hc Hn Hq Hb He') as [Hf|(Hf & Hm & He & Hlt)];
    destruct (shr_fexp_spec _ _ _ _ Hb He') as (mrs & Hs & Hb1); unfold binary_round_aux; rewrite Hs, Hf in *;
    destruct (round_nearest_half _ _ _ (pow2_pos _) Hb1) as [_ [Hr1 Hr2]];
    set (r := round_nearest_even _ _) in *; destruct Hn as (Hn1 & Hn2 & Hn3); destruct Hc as [Hc He971].
  - replace r with (Zpos m) by (symmetry; eapply same_integer; eauto using pow2_pos).
    destruct (shr_fexp_canonical m e) as (mrs2 & -> & ->); [done|]. by rewrite (proj2 (Z.leb_le e (1024 - 53))) by lia.
  - replace r with (2 ^ 53).
    + assert (shr_fexp 53 1024 (2 ^ 53) (e - 1) loc_Exact =
        ({| shr_m := 2 ^ 52; shr_r := false; shr_s := false |}, e)) as ->.
      { unfold shr_fexp. change (Zdigits2 (2 ^ 53)) with 54. rewrite fexp_max.
        replace (Z.max (54 + (e - 1) - 53) (-1074) - (e - 1)) with 1 by lia.
        cbn. by replace (e - 1 + 1) with e by lia. }
      cbn [shr_m]. rewrite (proj2 (Z.leb_le e (1024 - 53))) by lia. by rewrite Hm.
    + specialize (Hn3 Hm). assert (pos_val m e == inject_Z (2 ^ 53) * pow2 (e - 1))%Q as Hv.
      { rewrite Hm. replace e with (e - 1 + 1) at 1 by lia. unfold pos_val. rewrite pow2_succ, Qmult_assoc. done. }
      assert (pow2 e == 2 * pow2 (e - 1))%Q as Hu by (rewrite <-pow2_succ; by replace (e - 1 + 1) with e by lia).
      rewrite Hv in Hlt, Hn3. rewrite Hu in Hn3. symmetry. eapply (same_integer _ _ x (pow2 (e - 1))); eauto using pow2_pos;
        pose proof (pow2_pos (e - 1)); lra.
Qed.

(** ** Products and quotients *)

Lemma shl_align_spec p e0 e' :
  let '(q, e) := shl_align p e0 e' in (pos_val q e == pos_val p e0)%Q /\ e = Z.min e0 e'.
Proof.
  unfold shl_align. destruct (e' - e0) as [|k|k] eqn:Hk; [split; [done|lia]..|].
  split; [|lia]. change (Pos.iter xO p k) with (shift_pos k p). unfold pos_val. rewrite shift_pos_correct.
  change (Z.pow_pos 2 k) with (2 ^ Zpos k). rewrite inject_Z_mult, <-pow2_nonneg_Z by lia.
  rewrite (Qmult_comm (pow2 _)), <-Qmult_assoc, <-pow2_add. by replace (Zpos k + e') with e0 by lia.
Qed.

Lemma pos_val_0 m : (pos_val m 0 == inject_Z (Zpos m))%Q.
Proof. unfold pos_val. change (pow2 0) with 1%Q. ring. Qed.

(** What is rounded when a mantissa and an exponent become a float. *)
Lemma round_brackets p e0 :
  exists q e', (forall s, binary_round 53 1024 s p e0 = binary_round_aux 53 1024 s (Zpos q) e' loc_Exact) /\
    brackets (shr_record_of_loc (Zpos q) loc_Exact) (pos_val p e0) (pow2 e') /\
    e' <= fexp 53 1024 (Zdigits2 (Zpos q) + e').
Proof.
  unfold binary_round. set (f := fexp 53 1024 _). pose proof (shl_align_spec p e0 f) as Hs.
  destruct (shl_align p e0 f) as [q e'] eqn:Ha. destruct Hs as [Hv He]. exists q, e'. split; [done|].
  assert (brackets (shr_record_of_loc (Zpos q) loc_Exact) (pos_val p e0) (pow2 e')) as Hb
    by (split; [done|]; simpl; by rewrite <-Hv).
  split; [done|]. etransitivity; [rewrite He; apply Z.le_min_r|]. apply fexp_mono.
  pose proof (brackets_above (Zpos q) loc_Exact e' _ (Pos2Z.is_nonneg q) Hb) as Hab.
  pose proof (pos_val_digits p e0) as [Hlo _].
  enough (Zpos (digits2_pos p) - 1 + e0 < Zdigits2 (Zpos q) + e') by lia.
  apply pow2_lt_inv. lra.
Qed.

Lemma int_brackets p :
  exists q e', (forall s, binary_round 53 1024 s p 0 = binary_round_aux 53 1024 s (Zpos q) e' loc_Exact) /\
    brackets (shr_record_of_loc (Zpos q) loc_Exact) (inject_Z (Zpos p)) (pow2 e') /\
    e' <= fexp 53 1024 (Zdigits2 (Zpos q) + e').
Proof.
  destruct (round_brackets p 0) as (q & e' & Hr & Hb & He). exists q, e'. split; [done|]. split; [|done].
  by rewrite pos_val_0 in Hb.
Qed.

(** What is rounded when floats are divided. *)
Lemma quotient_brackets m1 e1 m2 e2 :
  exists q e' l,
    (forall s1 s2, f64_div (S754_finite s1 m1 e1) (S754_finite s2 m2 e2) = binary_round_aux 53 1024 (xorb s1 s2) q e' l) /\
    0 <= q /\ brackets (shr_record_of_loc q l) (pos_val m1 e1 / pos_val m2 e2) (pow2 e') /\
    e' <= fexp 53 1024 (Zdigits2 q + e').
Proof.
  destruct (div_core m1 e1 m2 e2) as (q & r & Hcore & Hs & Hqr & Hr). pose proof (div_value m1 e1 m2 e2) as Hval.
  cbv zeta in Hval. set (e' := div_exp m1 e1 m2 e2) in *. set (s := e1 - e2 - e') in *.
  assert (Hq0 : 0 <= q).
  { pose proof (Z.pow_pos_nonneg 2 s ltac:(lia) Hs). nia. }
  exists q, e', (new_location (Zpos m2) r).
  pose proof (new_location_brackets _ _ _ _ _ (Pos2Z.is_pos m2) Hq0 Hqr Hr (pow2_pos e')) as Hb.
  rewrite Hval in Hb. split; [|split; [done|split; [done|]]].
  { intros s1 s2. unfold f64_div, SFdiv. by rewrite Hcore. }
  assert (e' = Z.min (fexp 53 1024 (Zpos (digits2_pos m1) + e1 - (Zpos (digits2_pos m2) + e2))) (e1 - e2)) as He by done.
  set (d1 := Zpos (digits2_pos m1)) in *. set (d2 := Zpos (digits2_pos m2)) in *.
  pose proof (div_quotient_digits m1 m2 s q r Hqr Hr Hs) as Hq. fold d1 d2 in Hq.
  destruct (decide (0 <= d1 - 1 + s - d2)) as [Hd|Hd].
  - specialize (Hq Hd). pose proof (Z.pow_pos_nonneg 2 (d1 - 1 + s - d2) ltac:(lia) Hd).
    destruct q as [|q|q]; [lia| |lia]. pose proof (digits2_le_inv q _ Hd Hq). cbn [Zdigits2].
    rewrite He at 1. etransitivity; [apply Z.le_min_l|]. apply fexp_mono. lia.
  - assert (0 <= Zdigits2 q) by (by destruct q). rewrite !fexp_max in *. lia.
Qed.

(** ** Reading a decimal number

    [strconv.ParseFloat]: the float nearest to [c * 10 ^ p], with its sign. *)
Definition dec_float (s : bool) (c : positive) (p : Z) : f64 :=
  if bool_decide (0 <= p) then binary_round 53 1024 s (c * Z.to_pos (10 ^ p)) 0
  else f64_div (S754_finite s c 0) (S754_finite false (Z.to_pos (10 ^ (- p))) 0).

Definition dec_value (c : positive) (p : Z) : Q :=
  if bool_decide (0 <= p) then inject_Z (Zpos c * 10 ^ p) else (inject_Z (Zpos c) / inject_Z (10 ^ (- p)))%Q.

Lemma dec_brackets c p :
  exists q e' l, (forall s, dec_float s c p = binary_round_aux 53 1024 s q e' l) /\
    0 <= q /\ brackets (shr_record_of_loc q l) (dec_value c p) (pow2 e') /\
    e' <= fexp 53 1024 (Zdigits2 q + e').
Proof.
  unfold dec_float, dec_value. case_bool_decide.
  - pose proof (Z.pow_pos_nonneg 10 p ltac:(lia) ltac:(lia)).
    destruct (int_brackets (c * Z.to_pos (10 ^ p))) as (q & e' & Hr & Hb & He). exists (Zpos q), e', loc_Exact.
    rewrite Pos2Z.inj_mul, Z2Pos.id in Hb by done. done.
  - pose proof (Z.pow_pos_nonneg 10 (- p) ltac:(lia) ltac:(lia)).
    destruct (quotient_brackets c 0 (Z.to_pos (10 ^ (- p))) 0) as (q & e' & l & Hr & Hq & Hb & He). exists q, e', l.
    rewrite !pos_val_0, Z2Pos.id in Hb by done. split; [|done]. intros s. rewrite Hr. by destruct s.
Qed.

Lemma dec_float_near s c p m e :
  canonical m e -> near (dec_value c p) m e -> dec_float s c p = S754_finite s m e.
Proof. intros Hc Hn. destruct (dec_brackets c p) as (q & e' & l & -> & Hq & Hb & He). by eapply round_near. Qed.

(** ** Results are floats in their only form *)

Definition finite (f : f64) : Prop :=
  match f with S754_finite _ m e => canonical m e | S754_zero _ => True | _ => False end.

Definition valid (f : f64) : Prop :=
  match f with S754_finite _ m e => canonical m e | S754_nan => False | _ => True end.

Lemma shifted_mantissa q e' :
  0 <= q -> let f := fexp 53 1024 (Zdigits2 q + e') in
  e' <= f -> 0 <= q / 2 ^ (f - e') < 2 ^ 53 /\ -1074 <= f /\ (f = -1074 \/ 2 ^ 52 <= q / 2 ^ (f - e')).
Proof.
  intros Hq f He. pose proof (Z.pow_pos_nonneg 2 (f - e') ltac:(lia) ltac:(lia)) as Hp.
  assert (-1074 <= f) as Hf by (unfold f; rewrite fexp_max; lia).
  destruct q as [|q|q]; [rewrite Z.div_0_l by lia; unfold f in *; rewrite fexp_max in *; cbn [Zdigits2] in *; lia| |lia].
  pose proof (digits2_bounds q) as [Hd1 Hd2]. cbn [Zdigits2] in *. set (d := Zpos (digits2_pos q)) in *.
  split; [split; [apply Z.div_pos; lia|]|split; [done|]].
  - apply Z.div_lt_upper_bound; [lia|]. rewrite <-Z.pow_add_r by lia. eapply Z.lt_le_trans; [exact Hd2|].
    apply Z.pow_le_mono_r; [lia|]. unfold f in *. rewrite fexp_max in *. lia.
  - destruct (decide (f = -1074)); [by left|right]. apply Z.div_le_lower_bound; [lia|]. etransitivity; [|exact Hd1].
    rewrite <-Z.pow_add_r by lia. apply Z.pow_le_mono_r; [lia|]. unfold f in *. rewrite fexp_max in *. lia.
Qed.

Lemma round_up_canonical r f :
  0 <= r <= 2 ^ 53 -> -1074 <= f -> (f = -1074 \/ 2 ^ 52 <= r) ->
  exists mrs e, shr_fexp 53 1024 r f loc_Exact = (mrs, e) /\ 0 <= shr_m mrs /\
    (inject_Z (shr_m mrs) * pow2 e == inject_Z r * pow2 f)%Q /\
    forall m, shr_m mrs = Zpos m -> e <= 971 -> canonical m e.
Proof.
  intros Hr Hf Hcase. destruct (decide (r = 2 ^ 53)) as [->|Hn].
  - eexists _, (f + 1). unfold shr_fexp. change (Zdigits2 (2 ^ 53)) with 54. rewrite fexp_max.
    replace (Z.max (54 + f - 53) (-1074) - f) with 1 by lia. split; [reflexivity|]. split; [done|].
    split; [rewrite pow2_succ, Qmult_assoc; reflexivity|]. simpl. intros m [= <-] He. split; [|done]. rewrite fexp_max. simpl. lia.
  - eexists _, f. unfold shr_fexp. assert (fexp 53 1024 (Zdigits2 r + f) <= f /\
      forall m, r = Zpos m -> fexp 53 1024 (Zpos (digits2_pos m) + f) = f) as [Hle Heq].
    { destruct r as [|m|m]; [rewrite fexp_max; cbn [Zdigits2]; split; [lia|done]| |lia]. cbn [Zdigits2].
      pose proof (digits2_bounds m) as [Hd1 Hd2]. set (d := Zpos (digits2_pos m)) in *.
      assert (d <= 53) by (enough (d - 1 < 53) by lia; apply (Z.pow_lt_mono_r_iff 2); lia).
      rewrite fexp_max. split; [lia|]. intros m' [= <-]. fold d. rewrite ?fexp_max. destruct Hcase as [->|Hc]; [lia|].
      pose proof (digits2_le_inv m 52 ltac:(lia) Hc) as Hd. fold d in Hd. lia. }
    rewrite shr_neg by lia. split; [done|]. rewrite record_of_loc_m. split; [lia|]. split; [reflexivity|].
    intros m -> He. split; [by apply Heq|done].
Qed.

Lemma round_aux_valid s q l e' x :
  0 <= q -> brackets (shr_record_of_loc q l) x (pow2 e') -> e' <= fexp 53 1024 (Zdigits2 q + e') ->
  valid (binary_round_aux 53 1024 s q e' l).
Proof.
  intros Hq Hb He. pose proof (shifted_mantissa q e' Hq He) as (Hm & Hf & Hc).
  unfold binary_round_aux, shr_fexp at 1. set (f := fexp _ _ _) in *.
  pose proof (shr_spec _ x e' (f - e') Hb ltac:(lia)) as Hs. destruct (shr _ _ _) as [mrs e1].
  destruct Hs as (Hb1 & -> & Hm1). replace (e' + (f - e')) with f in * by lia. rewrite record_of_loc_m in Hm1.
  rewrite <-Hm1 in *. pose proof (round_nearest_half _ _ _ (pow2_pos _) Hb1) as [Hr _]. cbv zeta in Hr.
  set (r := round_nearest_even _ _) in *.
  destruct (round_up_canonical r f) as (mrs2 & e2 & -> & Hp & _ & Hcan); [lia|done|lia|].
  destruct (shr_m mrs2) as [|m|m]; [done| |lia]. destruct (Z.leb_spec e2 (1024 - 53)); [|done].
  apply Hcan; [done|lia].
Qed.

Lemma f64_div_valid s1 m1 e1 s2 m2 e2 : valid (f64_div (S754_finite s1 m1 e1) (S754_finite s2 m2 e2)).
Proof. destruct (quotient_brackets m1 e1 m2 e2) as (q & e' & l & -> & Hq & Hb & He). by eapply round_aux_valid. Qed.

Lemma dec_float_valid s c p : valid (dec_float s c p).
Proof. destruct (dec_brackets c p) as (q & e' & l & -> & Hq & Hb & He). by eapply round_aux_valid. Qed.
