(* ===== verification/FloatBounds.v ===== *)
(** * Bounds that rounding keeps

    Products, sums and powers of numbers that are not negative are not negative; what is
    at most a power of two is rounded to at most that; and floats in their only form
    are compared by their values. *)

From S2P Require Import Prelude GoFloat FloatNear.
From Stdlib Require Import Floats.SpecFloat QArith Lqa.
#[local] Open Scope Z_scope.

(** ** Definitions *)

(** Not negative, or no number; a finite one in its only form. *)
Definition pos_ok (f : f64) : Prop :=
  match f with
  | S754_nan => True
  | S754_zero s | S754_infinity s => s = false
  | S754_finite s m e => s = false /\ canonical m e
  end.

(** The value of a float of modest size. *)
Definition bound (B : Q) : Prop := exists m e, canonical m e /\ e <= 900 /\ (B == pos_val m e)%Q.

(** Finite and at most [B] away from zero. *)
Definition within (B : Q) (f : f64) : Prop :=
  match f with
  | S754_zero _ => True
  | S754_finite _ m e => canonical m e /\ (pos_val m e <= B)%Q
  | _ => False
  end.

(** Neither zero nor negative, and finite. *)
Definition amount (f : f64) : Prop := exists m e, f = S754_finite false m e /\ canonical m e.

(** Neither negative nor [NaN]. *)
Definition magnitude (f : f64) : Prop := pos_ok f /\ f64_is_nan f = false.

(** ** What is rounded *)

(** A mantissa with its place, in the form in which every operation rounds. *)
Definition roundable (q : Z) (e : Z) (l : location) (x : Q) : Prop :=
  0 <= q /\ brackets (shr_record_of_loc q l) x (pow2 e) /\ e <= fexp 53 1024 (Zdigits2 q + e).

Lemma canonical_pos_digits m e : canonical m e -> -1074 <= e /\ 1 <= Zpos (digits2_pos m).
Proof. intros [H1 H2]. rewrite fexp_max in H1. lia. Qed.

Lemma mul_roundable m1 e1 m2 e2 :
  canonical m1 e1 -> canonical m2 e2 ->
  roundable (Zpos (m1 * m2)) (e1 + e2) loc_Exact (pos_val m1 e1 * pos_val m2 e2).
Proof.
  intros H1 H2. split; [done|]. split.
  - split; [done|]. simpl. unfold pos_val. rewrite Pos2Z.inj_mul, inject_Z_mult, pow2_add. ring.
  - apply canonical_digits in H1 as [Hd1 H1]. apply canonical_digits in H2 as [Hd2 H2].
    pose proof (digits2_bounds m1) as [Hm1 _]. pose proof (digits2_bounds m2) as [Hm2 _].
    cbn [Zdigits2]. rewrite fexp_max.
    assert (Zpos (digits2_pos m1) - 1 + (Zpos (digits2_pos m2) - 1) < Zpos (digits2_pos (m1 * m2))); [|lia].
    apply digits2_le_inv; [lia|]. rewrite Z.pow_add_r, Pos2Z.inj_mul by lia. apply Z.mul_le_mono_nonneg; lia.
Qed.

(** ** Signs *)

Lemma round_aux_sign s q e l :
  match binary_round_aux 53 1024 s q e l with
  | S754_nan => True
  | S754_zero s' | S754_infinity s' | S754_finite s' _ _ => s' = s
  end.
Proof.
  unfold binary_round_aux. destruct (shr_fexp _ _ _ _ _) as [mrs e']. destruct (shr_fexp _ _ _ _ _) as [mrs' e''].
  destruct (shr_m mrs'); [done| |done]. by destruct (Z.leb _ _).
Qed.

Lemma round_pos_ok q e l x : roundable q e l x -> pos_ok (binary_round_aux 53 1024 false q e l).
Proof.
  intros (Hq & Hb & He). pose proof (round_aux_sign false q e l) as Hs.
  pose proof (round_aux_valid false q l e x Hq Hb He) as Hv. by destruct (binary_round_aux _ _ _ _ _ _).
Qed.

Lemma binary_round_pos_ok m e : pos_ok (binary_round 53 1024 false m e).
Proof. destruct (round_brackets m e) as (q & e' & -> & Hb & He). by eapply round_pos_ok. Qed.

Lemma mul_pos_ok f g : pos_ok f -> pos_ok g -> pos_ok (f64_mul f g).
Proof.
  destruct f as [s|s| |s m e], g as [s'|s'| |s' m' e']; cbn; try done; try (by intros -> ->);
    try (by intros -> [-> _]); try (by intros [-> _] ->).
  intros [-> H1] [-> H2]. by eapply round_pos_ok, mul_roundable.
Qed.

Lemma add_pos_ok f g : pos_ok f -> pos_ok g -> pos_ok (f64_add f g).
Proof.
  destruct f as [s|s| |s m e], g as [s'|s'| |s' m' e']; cbn; try done; try (by intros -> ->);
    try (by intros -> [-> _]); try (by intros [-> _] ->); try (by intros -> [-> ?]); try (by intros [-> ?] ->).
  intros [-> _] [-> _]. cbn -[binary_round]. apply binary_round_pos_ok.
Qed.

Lemma ldexp_pos_ok f e : pos_ok f -> pos_ok (math_Ldexp f e).
Proof. destruct f as [s|s| |s m e']; cbn; try done. intros [-> _]. apply binary_round_pos_ok. Qed.

Lemma digits2_shift m n : Zpos (digits2_pos (Pos.iter xO m n)) = Zpos (digits2_pos m) + Zpos n.
Proof.
  induction n as [|n IH] using Pos.peano_ind; [simpl; lia|]. rewrite Pos.iter_succ. cbn [digits2_pos]. lia.
Qed.

Lemma frexp_pos_ok f : pos_ok f -> pos_ok (fst (math_Frexp f)).
Proof.
  destruct f as [s|s| |s m e]; cbn; try done. intros [-> Hc]. apply canonical_digits in Hc as [Hd _].
  destruct (Z.leb_spec 53 (Zpos (digits2_pos m))) as [H|H]; cbn -[fexp]; (split; [done|]; split; [|done]).
  - rewrite fexp_max. lia.
  - rewrite digits2_shift, fexp_max. rewrite Z2Pos.id by lia. lia.
Qed.

Lemma pow_loop_pos_ok i x xe a ae : pos_ok x -> pos_ok a -> pos_ok (fst (pow_loop i x xe a ae)).
Proof.
  revert x xe a ae. induction i as [i IH|i IH|]; intros x xe a ae Hx Ha; cbn [pow_loop]; case_match; try done;
    pose proof (mul_pos_ok x x Hx Hx) as Hsq; pose proof (mul_pos_ok a x Ha Hx) as Hax;
    (destruct (f64_lt _ half); [pose proof (add_pos_ok _ _ Hsq Hsq)|]); first [exact Hax|by apply IH].
Qed.

Lemma of_int_pos_ok z : 0 <= z -> pos_ok (f64_of_int z).
Proof. destruct z as [|p|p]; [done| |lia]. intros _. apply binary_round_pos_ok. Qed.

Lemma pow_pos_ok x y : pos_ok x -> 0 <= y -> pos_ok (math_Pow x y).
Proof.
  intros Hx Hy. assert (pos_ok (f64_of_int 1)) as H1 by (by apply of_int_pos_ok).
  destruct x as [s|s| |s m e], y as [|[i|i|]|]; cbn [math_Pow]; try done; try (by rewrite Hx); try lia;
    (destruct (f64_eq _ _); [done|]); pose proof (frexp_pos_ok _ Hx) as Hf;
    destruct (math_Frexp _) as [x1 xe]; pose proof (fun i => pow_loop_pos_ok i x1 xe _ 0 Hf H1) as Hp;
    match goal with |- context [pow_loop ?i x1 xe _ 0] => specialize (Hp i) end;
    destruct (pow_loop _ _ _ _ _); by apply ldexp_pos_ok.
Qed.

(** ** Bounds *)

Lemma brackets_le mrs x u : (0 < u)%Q -> brackets mrs x u -> (inject_Z (shr_m mrs) * u <= x)%Q.
Proof. intros Hu [_ Hb]. destruct (shr_r mrs), (shr_s mrs); lra. Qed.

(** The rounded mantissa of a number up to the value of a float. *)
Lemma rounded_mantissa_le mrs x f m e :
  brackets mrs x (pow2 f) -> canonical m e -> (x <= pos_val m e)%Q -> f = -1074 \/ 2 ^ 52 <= shr_m mrs ->
  (inject_Z (round_nearest_even (shr_m mrs) (loc_of_shr_record mrs)) * pow2 f <= pos_val m e)%Q /\ f <= e.
Proof.
  intros Hb Hc Hx Hcase. pose proof (pow2_pos f) as Hf. pose proof (brackets_le _ _ _ Hf Hb) as Hle.
  destruct (round_nearest_half mrs x _ Hf Hb) as [_ [Hh _]]. set (r := round_nearest_even _ _) in *.
  pose proof (canonical_digits _ _ Hc) as [Hd _]. pose proof (canonical_pos_digits _ _ Hc) as [He _].
  assert (f <= e) as Hfe.
  { destruct Hcase as [->|HM]; [done|]. enough (52 + f < Zpos (digits2_pos m) + e) by lia.
    apply pow2_lt_inv. eapply Qle_lt_trans; [|apply pos_val_digits]. eapply Qle_trans; [|exact Hx].
    eapply Qle_trans; [|exact Hle]. rewrite pow2_add, (pow2_nonneg_Z 52) by lia.
    apply Qmult_le_compat_r; [by rewrite <-Zle_Qle|lra]. }
  split; [|done]. assert (pos_val m e == inject_Z (Zpos m * 2 ^ (e - f)) * pow2 f)%Q as Hv.
  { unfold pos_val. rewrite inject_Z_mult, <-pow2_nonneg_Z by lia. rewrite <-Qmult_assoc, <-pow2_add.
    by replace (e - f + f) with e by lia. }
  rewrite Hv in *. set (n := Zpos m * 2 ^ (e - f)) in *. apply Qmult_le_compat_r; [|lra].
  rewrite <-Zle_Qle. enough (inject_Z r < inject_Z (n + 1))%Q as Hlt by (rewrite <-Zlt_Qlt in Hlt; lia).
  apply (Qmult_lt_r _ _ (pow2 f) Hf). rewrite inject_Z_plus. change (inject_Z 1) with 1%Q. lra.
Qed.

(** A number of modest size is rounded to zero or to a finite float, and what is at
    least the smallest float is not rounded to zero. *)
Lemma round_modest s q e l x B :
  roundable q e l x -> (x <= B)%Q -> bound B ->
  (binary_round_aux 53 1024 s q e l = S754_zero s /\ (x < pow2 (-1074))%Q) \/
  exists m2 e2, binary_round_aux 53 1024 s q e l = S754_finite s m2 e2 /\ (pos_val m2 e2 <= B)%Q.
Proof.
  intros (Hq & Hb & He) Hx (mb & eb & Hcb & Heb & HB). rewrite HB in Hx.
  pose proof (shifted_mantissa q e Hq He) as (Hm & Hf & Hc). unfold binary_round_aux, shr_fexp at 1 3. set (f := fexp _ _ _) in *.
  pose proof (shr_spec _ x e (f - e) Hb ltac:(lia)) as Hs. destruct (shr _ _ _) as [mrs e1].
  destruct Hs as (Hb1 & -> & Hm1). replace (e + (f - e)) with f in * by lia. rewrite record_of_loc_m in Hm1.
  rewrite <-Hm1 in *. pose proof (round_nearest_half _ _ _ (pow2_pos _) Hb1) as [Hr [_ Hh]].
  destruct (rounded_mantissa_le mrs x f mb eb Hb1 Hcb Hx Hc) as [Hrb Hfb].
  set (r := round_nearest_even _ _) in *. destruct (decide (r = 0)) as [Hr0|Hr0].
  - left. rewrite Hr0 in *. assert (f = -1074) as Hf0 by lia. rewrite Hf0 in *. split.
    + by destruct (shr_fexp 53 1024 0 (-1074) loc_Exact) as [m0 e0] eqn:E; vm_compute in E; injection E as <- <-.
    + pose proof (pow2_pos (-1074)). change (inject_Z 0) with 0%Q in Hh. lra.
  - right. destruct (second_shift r f) as (mrs2 & m2 & e2 & -> & -> & He2 & Hval); [lia|lia|].
    rewrite (proj2 (Z.leb_le e2 (1024 - 53))) by lia. exists m2, e2. split; [done|]. unfold pos_val. by rewrite Hval, HB.
Qed.

Lemma round_within s q e l x B :
  roundable q e l x -> (x <= B)%Q -> bound B -> within B (binary_round_aux 53 1024 s q e l).
Proof.
  intros H Hx HB. destruct (round_modest s q e l x B H Hx HB) as [[-> _]|(m2 & e2 & Heq & Hv)]; [done|].
  destruct H as (Hq & Hb & He). pose proof (round_aux_valid s q l e x Hq Hb He) as Hok. rewrite Heq in *. done.
Qed.

Lemma binary_round_within s m e B :
  (pos_val m e <= B)%Q -> bound B -> within B (binary_round 53 1024 s m e).
Proof. destruct (round_brackets m e) as (q & e' & -> & Hb & He). by apply round_within. Qed.

Lemma within_mul B f g : bound B -> within 1 f -> within B g -> within B (f64_mul f g).
Proof.
  intros HB. destruct f as [s|s| |s m e], g as [s'|s'| |s' m' e']; cbn; try done. intros [H1 V1] [H2 V2].
  eapply round_within; [by apply mul_roundable|..|done]. pose proof (pos_val_pos m' e'). pose proof (pos_val_pos m e).
  nra.
Qed.

Lemma within_le B C f : (B <= C)%Q -> within B f -> within C f.
Proof. intros H. destruct f; cbn; try done. intros [??]. split; [done|lra]. Qed.

(** ** Bounds from below *)

(** Infinite, or finite and at least [L]. *)
Definition at_least (L : Q) (f : f64) : Prop :=
  f = S754_infinity false \/ exists m e, f = S754_finite false m e /\ canonical m e /\ (L <= pos_val m e)%Q.

Lemma at_least_le L L' f : (L <= L')%Q -> at_least L' f -> at_least L f.
Proof. intros H [->|(m & e & -> & Hc & Hv)]; [by left|right; exists m, e; repeat split; [apply Hc..|lra]]. Qed.

(** The rounded mantissa of a number from the value of a float on. *)
Lemma rounded_mantissa_ge mrs x f m e :
  brackets mrs x (pow2 f) -> canonical m e -> (pos_val m e <= x)%Q -> f = -1074 \/ 2 ^ 52 <= shr_m mrs ->
  (pos_val m e <= inject_Z (round_nearest_even (shr_m mrs) (loc_of_shr_record mrs)) * pow2 f)%Q.
Proof.
  intros Hb Hc Hx Hcase. pose proof (pow2_pos f) as Hf.
  destruct (round_nearest_half mrs x _ Hf Hb) as [[Hr _] [_ Hh]]. set (r := round_nearest_even _ _) in *.
  pose proof (canonical_digits _ _ Hc) as [Hd _]. pose proof (canonical_pos_digits _ _ Hc) as [He _].
  destruct (decide (f <= e)) as [Hfe|Hfe].
  - assert (pos_val m e == inject_Z (Zpos m * 2 ^ (e - f)) * pow2 f)%Q as Hv.
    { unfold pos_val. rewrite inject_Z_mult, <-pow2_nonneg_Z by lia. rewrite <-Qmult_assoc, <-pow2_add.
      by replace (e - f + f) with e by lia. }
    rewrite Hv in *. set (n := Zpos m * 2 ^ (e - f)) in *. apply Qmult_le_compat_r; [|lra].
    rewrite <-Zle_Qle. enough (inject_Z n < inject_Z (r + 1))%Q as Hlt by (rewrite <-Zlt_Qlt in Hlt; lia).
    apply (Qmult_lt_r _ _ (pow2 f) Hf). rewrite inject_Z_plus. change (inject_Z 1) with 1%Q. lra.
  - destruct Hcase as [->|HM]; [lia|]. apply Qle_trans with (pow2 (52 + f)).
    + eapply Qle_trans; [apply Qlt_le_weak, pos_val_digits|]. apply pow2_le. lia.
    + rewrite pow2_add, (pow2_nonneg_Z 52) by lia. apply Qmult_le_compat_r; [|lra]. rewrite <-Zle_Qle. lia.
Qed.

(** What is at least a float is rounded to at least that. *)
Lemma round_at_least q e l x m e0 :
  roundable q e l x -> canonical m e0 -> (pos_val m e0 <= x)%Q ->
  at_least (pos_val m e0) (binary_round_aux 53 1024 false q e l).
Proof.
  intros (Hq & Hb & He) Hc Hx. pose proof (shifted_mantissa q e Hq He) as (Hm & Hf & Hcase).
  unfold binary_round_aux, shr_fexp at 1. set (f := fexp _ _ _) in *.
  pose proof (shr_spec _ x e (f - e) Hb ltac:(lia)) as Hs. destruct (shr _ _ _) as [mrs e1].
  destruct Hs as (Hb1 & -> & Hm1). replace (e + (f - e)) with f in * by lia. rewrite record_of_loc_m in Hm1.
  rewrite <-Hm1 in *. pose proof (round_nearest_half _ _ _ (pow2_pos _) Hb1) as [Hr _]. cbv zeta in Hr.
  pose proof (rounded_mantissa_ge mrs x f m e0 Hb1 Hc Hx Hcase) as Hge.
  set (r := round_nearest_even _ _) in *.
  destruct (round_up_canonical r f) as (mrs2 & e2 & -> & Hp & Hval & Hcan); [lia|done|lia|].
  pose proof (pos_val_pos m e0) as Hpos. rewrite <-Hval in Hge.
  destruct (shr_m mrs2) as [|m2|m2]; [|destruct (Z.leb_spec e2 (1024 - 53)); [right|by left]|lia].
  - change (inject_Z 0) with 0%Q in Hge. lra.
  - exists m2, e2. split; [done|]. split; [apply Hcan; [done|lia]|exact Hge].
Qed.

Lemma binary_round_at_least m e m0 e0 :
  canonical m0 e0 -> (pos_val m0 e0 <= pos_val m e)%Q -> at_least (pos_val m0 e0) (binary_round 53 1024 false m e).
Proof. destruct (round_brackets m e) as (q & e' & -> & Hb & He). by apply round_at_least. Qed.

(** A number that is a float is rounded to itself. *)
Lemma round_exact s q l e x m e0 :
  roundable q e l x -> canonical m e0 -> (x == pos_val m e0)%Q ->
  binary_round_aux 53 1024 s q e l = S754_finite s m e0.
Proof.
  intros (Hq & Hb & He) Hc Hx. eapply round_near; [done| |done|exact Hb|done].
  pose proof (pow2_pos e0). unfold near. rewrite Hx. repeat split; lra.
Qed.

Lemma mul_exact s1 s2 m1 e1 m2 e2 m e :
  canonical m1 e1 -> canonical m2 e2 -> canonical m e -> (pos_val m1 e1 * pos_val m2 e2 == pos_val m e)%Q ->
  f64_mul (S754_finite s1 m1 e1) (S754_finite s2 m2 e2) = S754_finite (xorb s1 s2) m e.
Proof. intros H1 H2 Hc Hv. unfold f64_mul, SFmul. eapply round_exact; [by apply mul_roundable|done|done]. Qed.

(** ** Sums of aligned integers *)

Lemma align_value m e ez :
  ez <= e -> (inject_Z (Zpos (fst (shl_align m e ez))) * pow2 ez == pos_val m e)%Q.
Proof.
  intros H. pose proof (shl_align_spec m e ez) as Hs. destruct (shl_align m e ez) as [q e'].
  destruct Hs as [<- ->]. by replace (Z.min e ez) with ez by lia.
Qed.

Lemma normalize_within z ez B :
  (- B <= inject_Z z * pow2 ez /\ inject_Z z * pow2 ez <= B)%Q -> bound B ->
  within B (binary_normalize 53 1024 z ez false).
Proof.
  intros [H1 H2] HB. destruct z as [|p|p]; [done|apply binary_round_within; [exact H2|done]..|].
  apply binary_round_within; [|done]. unfold pos_val. change (Zneg p) with (- Zpos p) in H1. rewrite inject_Z_opp in H1. lra.
Qed.

Lemma normalize_positive z ez B :
  0 < z -> -1074 <= ez -> (inject_Z z * pow2 ez <= B)%Q -> bound B ->
  amount (binary_normalize 53 1024 z ez false).
Proof.
  intros Hz He H HB. destruct z as [|p|p]; [lia| |lia]. cbn [binary_normalize].
  pose proof (binary_round_pos_ok p ez) as Hok. revert Hok.
  destruct (round_brackets p ez) as (q & e' & -> & Hb & Hle).
  destruct (round_modest false (Zpos q) e' loc_Exact (pos_val p ez) B) as [[_ Hlt]|(m & e & -> & _)];
    [by split|done|done| |intros [_ Hok]; by eexists _, _].
  assert (pow2 (-1074) <= pos_val p ez)%Q; [|lra]. eapply Qle_trans; [apply (pow2_le _ ez); lia|].
  unfold pos_val. pose proof (pow2_pos ez). assert (1 <= inject_Z (Zpos p))%Q by (change 1%Q with (inject_Z 1); rewrite <-Zle_Qle; lia). nra.
Qed.

(** ** Comparison *)

Lemma canonical_lt m1 e1 m2 e2 :
  canonical m1 e1 -> canonical m2 e2 -> e1 < e2 -> (pos_val m1 e1 < pos_val m2 e2)%Q.
Proof.
  intros H1 H2 He. apply canonical_digits in H1 as [Hd1 He1], H2 as [_ Hd2].
  eapply Qlt_le_trans; [apply pos_val_digits|]. eapply Qle_trans; [|apply pos_val_digits]. apply pow2_le. lia.
Qed.

Lemma lt_spec m1 e1 m2 e2 :
  canonical m1 e1 -> canonical m2 e2 ->
  f64_lt (S754_finite false m1 e1) (S754_finite false m2 e2) = true <-> (pos_val m1 e1 < pos_val m2 e2)%Q.
Proof.
  intros H1 H2. unfold f64_lt, SFltb. cbn [SFcompare]. destruct (Z.compare_spec e1 e2) as [->|He|He].
  - change (Pos.compare_cont Eq m1 m2) with (Pos.compare m1 m2). unfold pos_val.
    pose proof (pow2_pos e2). rewrite Qmult_lt_r, <-Zlt_Qlt by done.
    destruct (Pos.compare_spec m1 m2) as [->|?|?]; (split; [|]); intros; try done; lia.
  - split; [|done]. intros _. by apply canonical_lt.
  - split; [done|]. intros Hv. pose proof (canonical_lt _ _ _ _ H2 H1 He). lra.
Qed.

(** ** Numbers: neither negative nor [NaN] *)

Lemma amount_magnitude f : amount f -> magnitude f.
Proof. intros (m & e & -> & H). done. Qed.

Lemma mul_magnitude f g : amount f -> magnitude g -> magnitude (f64_mul f g).
Proof.
  intros (m & e & -> & Hc) [Hg Hn]. split; [by apply mul_pos_ok|].
  destruct g as [s|s| |s m' e']; try done. destruct Hg as [-> Hc'].
  destruct (mul_roundable m e m' e' Hc Hc') as (Hq & Hb & He). unfold f64_mul, SFmul.
  pose proof (round_aux_valid (xorb false false) _ _ _ _ Hq Hb He). by destruct (binary_round_aux _ _ _ _ _ _).
Qed.

Lemma f64_mul_comm f g : f64_mul f g = f64_mul g f.
Proof.
  unfold f64_mul. destruct f as [s|s| |s m e], g as [s'|s'| |s' m' e']; cbn [SFmul]; rewrite ?(xorb_comm s); try done.
  by rewrite Pos.mul_comm, Z.add_comm.
Qed.

Lemma within_magnitude B f : pos_ok f -> within B f -> magnitude f.
Proof. by destruct f. Qed.

Lemma bound_1 : bound 1.
Proof. exists 4503599627370496%positive, (-52). vm_compute. repeat split; discriminate. Qed.

Lemma bound_2 : bound 2.
Proof. exists 4503599627370496%positive, (-51). vm_compute. repeat split; discriminate. Qed.

Lemma bound_half : bound (1 # 2).
Proof. exists 4503599627370496%positive, (-53). vm_compute. repeat split; discriminate. Qed.

Lemma amount_1 : amount (f64_of_int 1).
Proof. exists 4503599627370496%positive, (-52). vm_compute. repeat split; discriminate. Qed.

(** ** Powers *)

Lemma double_within f : pos_ok f -> within 1 f -> f64_lt f half = true -> within 1 (f64_add f f).
Proof.
  destruct f as [s|s| |s m e]; try done; [by destruct s|]. intros [-> Hc] _ Hlt.
  change half with (S754_finite false 4503599627370496 (-53)) in Hlt. apply lt_spec in Hlt; [|done|by vm_compute].
  change (pos_val 4503599627370496 (-53)) with (4503599627370496 # 9007199254740992)%Q in Hlt.
  unfold f64_add, SFadd. apply normalize_within; [|apply bound_1]. cbn [cond_Zopp]. pose proof (pos_val_pos m e).
  rewrite inject_Z_plus, Qmult_plus_distr_l, !align_value by lia. lra.
Qed.

Lemma pow_loop_within i x xe a ae :
  pos_ok x -> within 1 x -> within 1 a -> within 1 (fst (pow_loop i x xe a ae)).
Proof.
  revert x xe a ae. induction i as [i IH|i IH|]; intros x xe a ae Hp Hx Ha; cbn [pow_loop]; case_match; try done;
    pose proof (mul_pos_ok x x Hp Hp) as Hsqp; pose proof (within_mul 1 x x bound_1 Hx Hx) as Hsq;
    pose proof (within_mul 1 a x bound_1 Ha Hx) as Hax;
    (destruct (f64_lt _ half) eqn:Hlt;
      [pose proof (add_pos_ok _ _ Hsqp Hsqp); pose proof (double_within _ Hsqp Hsq Hlt)|]);
    first [exact Hax|by apply IH].
Qed.

Lemma frexp_within m e : canonical m e -> within 1 (fst (math_Frexp (S754_finite false m e))).
Proof.
  intros Hc. pose proof (frexp_pos_ok (S754_finite false m e) (conj eq_refl Hc)) as Hf.
  apply canonical_digits in Hc as [Hd _]. revert Hf. cbn.
  destruct (Z.leb_spec 53 (Zpos (digits2_pos m))) as [H|H]; cbn -[fexp]; intros [_ Hc]; (split; [done|]);
    (eapply Qle_trans; [apply Qlt_le_weak, pos_val_digits|]; apply (pow2_le _ 0)); [lia|].
  rewrite digits2_shift, Z2Pos.id by lia. lia.
Qed.

Lemma ldexp_magnitude f e : pos_ok f -> within 1 f -> magnitude (math_Ldexp f e).
Proof.
  intros Hp Hw. split; [by apply ldexp_pos_ok|]. destruct f as [s|s| |s m e']; try done. cbn.
  destruct (round_brackets m (e' + e)) as (q & e2 & -> & Hb & He).
  pose proof (round_aux_valid s _ _ _ _ (Pos2Z.is_nonneg q) Hb He). by destruct (binary_round_aux _ _ _ _ _ _).
Qed.

Lemma pow_magnitude x y : magnitude x -> 0 <= y -> magnitude (math_Pow x y).
Proof.
  intros Hx Hy. split; [by apply pow_pos_ok; [apply Hx|]|]. destruct x as [s|s| |s m e]; [| |by destruct Hx|];
    (destruct y as [|[i|i|]|]; [| | | |lia]); cbn [math_Pow]; try done;
    (destruct (f64_eq _ _); [done|]);
    pose proof (frexp_pos_ok _ (proj1 Hx)) as Hf; pose proof Hx as [[-> Hc] _];
    pose proof (frexp_within m e Hc) as Hw;
    destruct (math_Frexp _) as [x1 xe]; cbn [fst] in *;
    match goal with |- context [pow_loop ?i x1 xe ?a 0] =>
      pose proof (pow_loop_pos_ok i x1 xe a 0 Hf (of_int_pos_ok 1 ltac:(done))) as Hpl;
      pose proof (pow_loop_within i x1 xe a 0 Hf Hw ltac:(by vm_compute; split)) as Hpw;
      destruct (pow_loop i x1 xe a 0) end; by apply ldexp_magnitude.
Qed.

(** ** A factor around one *)

Lemma sub_one_within f : pos_ok f -> within 2 f -> within 1 (f64_sub f (f64_of_int 1)).
Proof.
  change (f64_of_int 1) with (S754_finite false 4503599627370496 (-52)).
  destruct f as [s|s| |s m e]; try done.
  intros [-> _] [_ Hv]. unfold f64_sub, SFsub. apply normalize_within; [|apply bound_1]. cbn [cond_Zopp].
  unfold Z.sub. rewrite inject_Z_plus, inject_Z_opp, Qmult_plus_distr_l, align_value by lia.
  assert (- inject_Z (Zpos (fst (shl_align 4503599627370496 (-52) (Z.min e (-52))))) * pow2 (Z.min e (-52))
    == - pos_val 4503599627370496 (-52))%Q as -> by (rewrite <-(align_value _ _ (Z.min e (-52))) by lia; ring).
  change (pos_val 4503599627370496 (-52)) with (4503599627370496 # 4503599627370496)%Q.
  pose proof (pos_val_pos m e). split; lra.
Qed.

Lemma add_one_amount B f : (B < 1)%Q -> within B f -> amount (f64_add (f64_of_int 1) f).
Proof.
  intros HB. change (f64_of_int 1) with (S754_finite false 4503599627370496 (-52)).
  destruct f as [s|s| |s m e]; try done; [intros _; exact amount_1|].
  intros [Hc Hv]. pose proof (canonical_pos_digits _ _ Hc) as [He _]. unfold f64_add, SFadd. set (ez := Z.min (-52) e).
  assert (1 == inject_Z (Zpos (fst (shl_align 4503599627370496 (-52) ez))) * pow2 ez)%Q as H1
    by (rewrite align_value by lia; reflexivity).
  assert (pos_val m e == inject_Z (Zpos (fst (shl_align m e ez))) * pow2 ez)%Q as H2 by (by rewrite align_value by lia).
  pose proof (pow2_pos ez) as Hu. pose proof (pos_val_pos m e). cbn [cond_Zopp].
  set (a := Zpos (fst (shl_align 4503599627370496 (-52) ez))) in *. set (b := Zpos (fst (shl_align m e ez))) in *.
  assert (b < a) by (rewrite Zlt_Qlt; apply (Qmult_lt_r _ _ (pow2 ez) Hu); lra).
  assert (0 < b) as Hb by (unfold b; done).
  apply (normalize_positive (a + cond_Zopp s b) ez 2); [destruct s; cbn [cond_Zopp]; lia|lia| |apply bound_2].
  destruct s; cbn [cond_Zopp]; rewrite inject_Z_plus, ?inject_Z_opp, Qmult_plus_distr_l; lra.
Qed.

(** ** Integers *)

Lemma of_int_amount z : 0 < z <= max_int64 -> amount (f64_of_int z).
Proof.
  intros Hz. apply (normalize_positive z 0 (inject_Z (2 ^ 63))); [lia|done| |].
  - change (pow2 0) with 1%Q. rewrite Qmult_1_r, <-Zle_Qle. unfold max_int64 in *. lia.
  - exists 4503599627370496%positive, 11. vm_compute. repeat split; discriminate.
Qed.

Lemma of_int_value z :
  0 < z < 2 ^ 53 ->
  exists m e, f64_of_int z = S754_finite false m e /\ canonical m e /\ (pos_val m e == inject_Z z)%Q.
Proof.
  intros Hz. destruct (of_int_amount z) as (m & e & Heq & Hc); [unfold max_int64; lia|]. exists m, e.
  split; [done|]. split; [done|]. destruct z as [|p|p]; [lia| |lia].
  destruct (f64_of_int_exact p) as (m' & e' & Hf & Hv); [lia|]. specialize (Hf false). cbn [cond_Zopp] in Hf.
  rewrite Heq in Hf. by injection Hf as -> ->.
Qed.

Lemma trunc_below m e z :
  (pos_val m e <= inject_Z z)%Q -> exists t, f64_trunc (S754_finite false m e) = Some t /\ 0 <= t <= z.
Proof.
  intros Hv. eexists. split; [reflexivity|]. cbn [cond_Zopp]. split; [by apply Z.shiftl_nonneg|].
  destruct (decide (0 <= e)).
  - rewrite pos_val_int in Hv by done. rewrite <-Zle_Qle in Hv. by rewrite Z.shiftl_mul_pow2.
  - rewrite Z.shiftl_div_pow2 by lia. pose proof (Z.pow_pos_nonneg 2 (- e) ltac:(lia) ltac:(lia)).
    apply Z.div_le_upper_bound; [done|]. rewrite Zle_Qle.
    pose proof (pos_val_scale m e ltac:(lia)) as Hs. rewrite Zlt_Qlt in H. change (inject_Z 0) with 0%Q in H.
    rewrite <-Hs, inject_Z_mult, (Qmult_comm (inject_Z (2 ^ _))). apply Qmult_le_compat_r; lra.
Qed.

Lemma trunc_above m e z :
  (inject_Z z <= pos_val m e)%Q -> exists t, f64_trunc (S754_finite false m e) = Some t /\ z <= t.
Proof.
  intros Hv. eexists. split; [reflexivity|]. cbn [cond_Zopp]. destruct (decide (0 <= e)).
  - rewrite pos_val_int in Hv by done. rewrite <-Zle_Qle in Hv. by rewrite Z.shiftl_mul_pow2.
  - rewrite Z.shiftl_div_pow2 by lia. pose proof (Z.pow_pos_nonneg 2 (- e) ltac:(lia) ltac:(lia)) as H.
    apply Z.div_le_lower_bound; [done|]. rewrite Zle_Qle.
    pose proof (pos_val_scale m e ltac:(lia)) as Hs. rewrite Zlt_Qlt in H. change (inject_Z 0) with 0%Q in H.
    rewrite <-Hs, inject_Z_mult, (Qmult_comm (inject_Z (2 ^ _))). apply Qmult_le_compat_r; lra.
Qed.

(** A number capped at a whole one, as an integer. *)
Lemma capped_range `{FloatConv} z f :
  0 < z < 2 ^ 53 -> magnitude f ->
  0 <= int64_of_f64 (if f64_lt (f64_of_int z) f then f64_of_int z else f) <= z.
Proof.
  intros Hz [Hp Hn]. destruct (of_int_value z Hz) as (m & e & Hz1 & Hc & Hv). rewrite !Hz1.
  assert (forall m' e', (pos_val m' e' <= inject_Z z)%Q -> 0 <= int64_of_f64 (S754_finite false m' e') <= z) as Ht.
  { intros m' e' H1. destruct (trunc_below m' e' z H1) as (t & Ht & Hr). unfold int64_of_f64. rewrite Ht.
    rewrite bool_decide_true; [done|]. unfold in_int64, min_int64, max_int64. lia. }
  destruct (f64_lt _ f) eqn:Hlt; [apply Ht; rewrite Hv; apply Qle_refl|].
  destruct f as [s|s| |s m' e']; [|by rewrite Hp in Hlt|done|].
  - unfold int64_of_f64. cbn [f64_trunc]. rewrite bool_decide_true by (vm_compute; split; discriminate). lia.
  - destruct Hp as [-> Hc']. apply Ht. rewrite <-Hv. destruct (Qlt_le_dec (pos_val m e) (pos_val m' e')) as [Hl|]; [|done].
    apply lt_spec in Hl; [|done..]. congruence.
Qed.
