(* ===== verification/Numbers.v ===== *)
(** * Decimal numbers

    The numbers of JSON documents as their digits, the integers and floats that
    [strconv] reads from them, and what [encoding/json] writes: an integer in full, a
    float with the fewest digits that read back as that float. *)

From S2P Require Import Prelude GoStrings Digits GoFloat FloatNear.
From Stdlib Require Import Floats.SpecFloat QArith Qpower Lqa.
#[local] Open Scope Z_scope.

(** ** Data *)

(** A number literal: its sign, the digits before and after the point, and the
    exponent if there is one. *)
Record number := Number {
  n_neg : bool;
  n_int : list Z;
  n_frac : list Z;
  n_exp : option Z
}.

#[export] Instance number_eq_dec : EqDecision number.
Proof. solve_decision. Defined.
#[export] Instance f64_eq_dec : EqDecision f64.
Proof. solve_decision. Defined.

(** What the grammar asks for: digits, at least one before the point, and no
    other one after a leading zero. *)
Definition number_wf (n : number) : Prop :=
  digits_below 10 (n_int n) /\ digits_below 10 (n_frac n) /\ n_int n <> [] /\
  (head (n_int n) = Some 0 -> n_int n = [0]).

(** ** Reading *)

(** [strconv.ParseInt] of base 10 and 64 bits: no fraction and no exponent. *)
Definition number_int (n : number) : option Z :=
  if bool_decide (n_frac n = [] /\ n_exp n = None) then
    let z := cond_Zopp (n_neg n) (of_digits 10 (n_int n)) in
    if bool_decide (in_int64 z) then Some z else None
  else None.

(** [strconv.ParseFloat] of 64 bits; a value too large is an error. *)
Definition number_float (n : number) : option f64 :=
  match of_digits 10 (n_int n ++ n_frac n) with
  | Zpos c =>
      match dec_float (n_neg n) c (default 0 (n_exp n) - Z.of_nat (length (n_frac n))) with
      | S754_infinity _ => None
      | f => Some f
      end
  | _ => Some (S754_zero (n_neg n))
  end.

(** ** Writing *)

Fixpoint digits10 (fuel : nat) (v : Z) : nat :=
  match fuel with
  | O => 1
  | S fuel => if bool_decide (v < 10) then 1 else S (digits10 fuel (v / 10))
  end.

Definition num_digits (v : Z) : nat := digits10 (S (Z.to_nat (Z.log2 v))) v.

Definition decimal (v : Z) : list Z := to_digits (num_digits v) 10 v.

Definition int_number (z : Z) : number :=
  {| n_neg := bool_decide (z < 0); n_int := decimal (Z.abs z); n_frac := []; n_exp := None |}.

(** How many places after the point the first digit of a number below one stands. *)
Fixpoint first_place (fuel : nat) (num den : Z) : Z :=
  match fuel with
  | O => 0
  | S fuel => if bool_decide (den <= num) then 0 else 1 + first_place fuel (num * 10) den
  end.

(** [10 ^ (point - 1) <= num / den < 10 ^ point] *)
Definition point (num den : Z) : Z :=
  if bool_decide (den <= num) then Z.of_nat (num_digits (num / den))
  else 1 - first_place (S (Z.to_nat (Z.log2 den))) num den.

(** The integers beside [a / b], the nearer one first. *)
Definition nearest (a b : Z) : list Z :=
  if bool_decide (2 * (a mod b) <= b) then [a / b; a / b + 1] else [a / b + 1; a / b].

Fixpoint strip10 (fuel : nat) (c p : Z) : Z * Z :=
  match fuel with
  | O => (c, p)
  | S fuel => if bool_decide (c mod 10 = 0) then strip10 fuel (c / 10) (p + 1) else (c, p)
  end.

(** The decimals of [n] digits beside [m * 2 ^ e], as [c * 10 ^ p]. *)
Definition candidates (m : positive) (e : Z) (n : Z) : list (Z * Z) :=
  let '(num, den) := if bool_decide (0 <= e) then (Zpos m * 2 ^ e, 1) else (Zpos m, 2 ^ (- e)) in
  let p := point num den - n in
  let '(a, b) := if bool_decide (0 <= p) then (num, den * 10 ^ p) else (num * 10 ^ (- p), den) in
  (fun c => strip10 17 c p) <$> nearest a b.

Definition reads (m : positive) (e : Z) (cp : Z * Z) : bool :=
  match cp with
  | (Zpos c, p) => bool_decide (dec_float false c p = S754_finite false m e)
  | _ => false
  end.

Definition shortest (m : positive) (e : Z) : positive * Z :=
  match list_find (fun cp => reads m e cp) (seqZ 1 17 ≫= candidates m e) with
  | Some (_, (Zpos c, p)) => (c, p)
  | _ => (1%positive, 0)
  end.

(** The layouts [e] and [f] of [strconv.AppendFloat]; very small and very large numbers
    get an exponent. *)
Definition layout_e (s : bool) (ds : list Z) (p : Z) : number :=
  {| n_neg := s; n_int := take 1 ds; n_frac := drop 1 ds; n_exp := Some (p + Z.of_nat (length ds) - 1) |}.

Definition layout_f (s : bool) (ds : list Z) (p : Z) : number :=
  let n := Z.of_nat (length ds) in
  if bool_decide (0 <= p) then {| n_neg := s; n_int := ds ++ replicate (Z.to_nat p) 0; n_frac := []; n_exp := None |}
  else if bool_decide (- p < n) then
    {| n_neg := s; n_int := take (Z.to_nat (n + p)) ds; n_frac := drop (Z.to_nat (n + p)) ds; n_exp := None |}
  else {| n_neg := s; n_int := [0]; n_frac := replicate (Z.to_nat (- p - n)) 0 ++ ds; n_exp := None |}.

Definition float_number (f : f64) : number :=
  match f with
  | S754_finite s m e =>
      let '(c, p) := shortest m e in
      let abs := S754_finite false m e in
      if f64_lt abs (dec_float false 1 (-6)) || f64_le (dec_float false 1 21) abs
      then layout_e s (decimal (Zpos c)) p else layout_f s (decimal (Zpos c)) p
  | S754_zero s => {| n_neg := s; n_int := [0]; n_frac := []; n_exp := None |}
  | _ => {| n_neg := false; n_int := []; n_frac := []; n_exp := None |}
  end.

(** ** Examples *)

Example float_tenth : float_number (dec_float false 1 (-1)) = Number false [0] [1] None.
Proof. vm_compute. reflexivity. Qed.

Example float_price : float_number (dec_float true 1299 (-2)) = Number true [1; 2] [9; 9] None.
Proof. vm_compute. reflexivity. Qed.

Example float_large : float_number (f64_of_int (2 ^ 62)) = Number false [4;6;1;1;6;8;6;0;1;8;4;2;7;3;8;8;0;0;0] [] None.
Proof. vm_compute. reflexivity. Qed.

Example float_power : float_number (dec_float false 1 23) = Number false [1] [] (Some 23).
Proof. vm_compute. reflexivity. Qed.

Example float_least : float_number (S754_finite false 1 (-1074)) = Number false [5] [] (Some (-324)).
Proof. vm_compute. reflexivity. Qed.

(** ** Digits *)

Lemma digits10_bounds fuel v :
  0 <= v < 2 ^ Z.of_nat fuel ->
  (0 < v -> 10 ^ (Z.of_nat (digits10 fuel v) - 1) <= v) /\ v < 10 ^ Z.of_nat (digits10 fuel v) /\
  (0 < digits10 fuel v)%nat.
Proof.
  revert v. induction fuel as [|fuel IH]; intros v Hv.
  { change (2 ^ Z.of_nat 0) with 1 in Hv. simpl. split; [lia|]. change (10 ^ Z.of_nat 1) with 10. lia. }
  rewrite Nat2Z.inj_succ, Z.pow_succ_r in Hv by lia. cbn [digits10]. case_bool_decide as H10.
  { change (10 ^ Z.of_nat 1) with 10. change (10 ^ (Z.of_nat 1 - 1)) with 1. lia. }
  destruct (IH (v / 10)) as (H1 & H2 & H3).
  { split; [apply Z.div_pos; lia|]. apply Z.div_lt_upper_bound; lia. }
  pose proof (Z.div_str_pos v 10 ltac:(lia)). specialize (H1 ltac:(done)).
  rewrite Nat2Z.inj_succ. set (n := Z.of_nat (digits10 fuel (v / 10))) in *.
  pose proof (Z.div_mod v 10 ltac:(lia)). pose proof (Z.mod_pos_bound v 10 ltac:(lia)).
  split; [intros _|split; [|lia]].
  - replace (Z.succ n - 1) with (Z.succ (n - 1)) by lia. rewrite Z.pow_succ_r by lia. lia.
  - rewrite Z.pow_succ_r by lia. lia.
Qed.

Lemma num_digits_bounds v :
  0 <= v -> (0 < v -> 10 ^ (Z.of_nat (num_digits v) - 1) <= v) /\ v < 10 ^ Z.of_nat (num_digits v) /\
  (0 < num_digits v)%nat.
Proof.
  intros Hv. apply digits10_bounds. split; [done|]. rewrite Nat2Z.inj_succ, Z2Nat.id by apply Z.log2_nonneg.
  destruct (decide (v = 0)) as [->|]; [done|]. apply Z.log2_spec. lia.
Qed.

Lemma of_decimal v : 0 <= v -> of_digits 10 (decimal v) = v.
Proof. intros Hv. apply of_to_digits; [lia|]. split; [done|]. by apply num_digits_bounds. Qed.

Lemma decimal_below v : digits_below 10 (decimal v).
Proof. apply to_digits_below. lia. Qed.

Lemma of_digits_cons d l : of_digits 10 (d :: l) = d * 10 ^ Z.of_nat (length l) + of_digits 10 l.
Proof.
  induction l as [|x l IH] using rev_ind; [unfold of_digits; simpl; lia|].
  change (d :: l ++ [x]) with ((d :: l) ++ [x]). rewrite !of_digits_snoc, IH, length_app, Nat2Z.inj_add.
  rewrite Z.pow_add_r by lia. change (10 ^ Z.of_nat (length [x])) with 10. lia.
Qed.

Lemma of_digits_app l l' : of_digits 10 (l ++ l') = of_digits 10 l * 10 ^ Z.of_nat (length l') + of_digits 10 l'.
Proof.
  induction l as [|d l IH]; [simpl; unfold of_digits at 2; simpl; lia|].
  rewrite <-app_comm_cons, !of_digits_cons, IH, length_app, Nat2Z.inj_add, Z.pow_add_r by lia. lia.
Qed.

Lemma of_digits_zeros k : of_digits 10 (replicate k 0) = 0.
Proof. induction k as [|k IH]; [done|]. cbn [replicate]. by rewrite of_digits_cons, IH. Qed.

(** The digits of a positive number start with another digit than zero. *)
Lemma decimal_head v : 0 < v -> exists d l, decimal v = d :: l /\ 0 < d < 10.
Proof.
  intros Hv. pose proof (num_digits_bounds v ltac:(lia)) as (H1 & _ & H3). specialize (H1 Hv).
  pose proof (of_decimal v ltac:(lia)) as Ho. pose proof (decimal_below v) as Hb.
  pose proof (to_digits_length (num_digits v) 10 v) as Hl. fold (decimal v) in Hl.
  destruct (decimal v) as [|d l]; [simpl in Hl; lia|]. exists d, l. split; [done|].
  apply Forall_cons in Hb as [Hd Hb]. rewrite of_digits_cons in Ho.
  pose proof (of_digits_range 10 l ltac:(lia) Hb) as Hr. rewrite <-Hl in H1. cbn [length] in H1.
  rewrite Nat2Z.inj_succ in H1. replace (Z.succ (Z.of_nat (length l)) - 1) with (Z.of_nat (length l)) in H1 by lia.
  split; [|lia]. destruct (decide (d = 0)) as [->|]; lia.
Qed.

Lemma decimal_wf v : 0 <= v -> decimal v <> [] /\ (head (decimal v) = Some 0 -> decimal v = [0]).
Proof.
  intros Hv. destruct (decide (v = 0)) as [->|]; [done|].
  destruct (decimal_head v ltac:(lia)) as (d & l & -> & Hd). split; [done|]. intros [= ->]. lia.
Qed.

(** ** Integers read back *)

Lemma int_number_wf z : number_wf (int_number z).
Proof.
  split; [apply decimal_below|]. split; [constructor|]. apply decimal_wf. lia.
Qed.

Lemma number_int_number z : in_int64 z -> number_int (int_number z) = Some z.
Proof.
  intros Hz. unfold number_int, int_number. cbn [n_frac n_exp n_int n_neg].
  rewrite bool_decide_true by done. rewrite of_decimal by lia.
  assert (cond_Zopp (bool_decide (z < 0)) (Z.abs z) = z) as -> by (case_bool_decide; simpl; lia).
  by rewrite bool_decide_true.
Qed.

(** ** Powers of ten *)

Definition pow10 (e : Z) : Q := (inject_Z 10 ^ e)%Q.

Lemma pow10_pos e : (0 < pow10 e)%Q.
Proof. by apply Qpower_0_lt. Qed.

Lemma pow10_add a b : (pow10 (a + b) == pow10 a * pow10 b)%Q.
Proof. by apply Qpower_plus. Qed.

Lemma pow10_Z e : 0 <= e -> (pow10 e == inject_Z (10 ^ e))%Q.
Proof. intros He. symmetry. by apply Zpower_Qpower. Qed.

Lemma pow10_neg e : 0 <= e -> (pow10 (- e) * inject_Z (10 ^ e) == 1)%Q.
Proof. intros He. rewrite <-pow10_Z, <-pow10_add by done. by replace (- e + e) with 0 by lia. Qed.

Lemma dec_value_pow10 c p : (dec_value c p == inject_Z (Zpos c) * pow10 p)%Q.
Proof.
  unfold dec_value. case_bool_decide; [by rewrite inject_Z_mult, <-pow10_Z|].
  pose proof (pow10_neg (- p) ltac:(lia)) as Hn. replace (- - p) with p in Hn by lia.
  assert (0 < inject_Z (10 ^ (- p)))%Q as Hp.
  { change 0%Q with (inject_Z 0). rewrite <-Zlt_Qlt. apply Z.pow_pos_nonneg; lia. }
  set (d := inject_Z (10 ^ (- p))) in *. set (t := pow10 p) in *.
  apply (Qmult_inj_r _ _ d); [lra|]. rewrite <-Qmult_assoc, Hn. field. lra.
Qed.

(** Trailing zeros move into the exponent. *)
Lemma strip10_value fuel c p :
  0 < c -> let '(c', p') := strip10 fuel c p in 0 < c' /\ (inject_Z c' * pow10 p' == inject_Z c * pow10 p)%Q.
Proof.
  revert c p. induction fuel as [|fuel IH]; intros c p Hc; [done|]. cbn [strip10]. case_bool_decide as Hm; [|done].
  assert (c = c / 10 * 10) as He by (pose proof (Z.div_mod c 10 ltac:(lia)); lia).
  specialize (IH (c / 10) (p + 1) ltac:(lia)). destruct (strip10 _ _ _) as [c' p']. destruct IH as [H1 H2].
  split; [done|]. rewrite H2, pow10_add. change (pow10 1) with 10%Q.
  assert (inject_Z c == inject_Z (c / 10) * 10)%Q as -> by (rewrite He at 1; by rewrite inject_Z_mult). ring.
Qed.

(** ** Seventeen digits suffice *)

Lemma first_place_lower fuel num den :
  0 < num -> den <= num * 10 ^ Z.of_nat fuel -> (pow10 (- first_place fuel num den) * inject_Z den <= inject_Z num)%Q.
Proof.
  revert num. induction fuel as [|fuel IH]; intros num Hn Hd; cbn [first_place].
  { change (10 ^ Z.of_nat 0) with 1 in Hd. change (pow10 (- 0)) with 1%Q. rewrite Qmult_1_l, <-Zle_Qle. lia. }
  case_bool_decide; [change (pow10 (- 0)) with 1%Q; by rewrite Qmult_1_l, <-Zle_Qle|].
  rewrite Nat2Z.inj_succ, Z.pow_succ_r in Hd by lia. specialize (IH (num * 10) ltac:(lia) ltac:(lia)).
  set (j := first_place fuel (num * 10) den) in *. replace (- (1 + j)) with (- j + -1) by lia.
  rewrite pow10_add. change (pow10 (-1)) with (1 # 10)%Q. rewrite inject_Z_mult in IH. change (inject_Z 10) with 10%Q in IH.
  lra.
Qed.

Lemma point_lower num den :
  0 < num -> 0 < den -> (pow10 (point num den - 1) * inject_Z den <= inject_Z num)%Q.
Proof.
  intros Hn Hd. unfold point. case_bool_decide as Hle.
  - pose proof (Z.div_str_pos num den ltac:(lia)) as Hq. pose proof (num_digits_bounds (num / den) ltac:(lia)) as (Hb & _ & Hk).
    specialize (Hb Hq). rewrite pow10_Z by lia. rewrite <-inject_Z_mult, <-Zle_Qle.
    pose proof (Z.mul_div_le num den Hd). nia.
  - replace (1 - first_place (S (Z.to_nat (Z.log2 den))) num den - 1) with (- first_place (S (Z.to_nat (Z.log2 den))) num den) by lia.
    apply first_place_lower; [done|]. rewrite Nat2Z.inj_succ, Z2Nat.id by apply Z.log2_nonneg.
    pose proof (proj2 (Z.log2_spec den Hd)). pose proof (Z.log2_nonneg den).
    pose proof (Z.pow_le_mono_l 2 10 (Z.succ (Z.log2 den)) ltac:(lia)). nia.
Qed.

Lemma nearest_head a b :
  0 <= a -> 0 < b -> exists c rest, nearest a b = c :: rest /\ 2 * Z.abs (c * b - a) <= b /\ 0 <= c.
Proof.
  intros Ha Hb. unfold nearest. pose proof (Z.div_mod a b ltac:(lia)). pose proof (Z.mod_pos_bound a b Hb).
  pose proof (Z.div_pos a b Ha Hb). case_bool_decide; eexists _, _; (split; [reflexivity|]); nia.
Qed.

(** The nearest decimal with its last digit at [10 ^ p]. *)
Lemma nearest_value a b c p X :
  0 < b -> (inject_Z a * pow10 p == X * inject_Z b)%Q -> 2 * Z.abs (c * b - a) <= b ->
  (inject_Z c * pow10 p - X <= (1 # 2) * pow10 p /\ X - inject_Z c * pow10 p <= (1 # 2) * pow10 p)%Q.
Proof.
  intros Hb Hab Hc. assert (2 * (c * b) <= 2 * a + b /\ 2 * a <= 2 * (c * b) + b) as [H1 H2] by lia.
  rewrite Zle_Qle, inject_Z_plus, !inject_Z_mult in H1. rewrite Zle_Qle, inject_Z_plus, !inject_Z_mult in H2.
  change (inject_Z 2) with 2%Q in *. pose proof (pow10_pos p) as Hp.
  assert (0 < inject_Z b)%Q as Hbq by (change 0%Q with (inject_Z 0); by rewrite <-Zlt_Qlt).
  set (P := pow10 p) in *. apply (Qmult_le_compat_r _ _ P) in H1; [|lra]. apply (Qmult_le_compat_r _ _ P) in H2; [|lra].
  split; apply (Qmult_le_r _ _ (inject_Z b) Hbq); lra.
Qed.

(** A decimal of seventeen digits is near. *)
Lemma seventeen_near m e c k y :
  canonical m e -> (pow10 (k - 1) <= pos_val m e)%Q -> (y == inject_Z c * pow10 (k - 17))%Q ->
  (y - pos_val m e <= (1 # 2) * pow10 (k - 17) /\ pos_val m e - y <= (1 # 2) * pow10 (k - 17))%Q ->
  (0 < y)%Q /\ near y m e.
Proof.
  intros Hc Hk _ Hy. replace (k - 17) with (k - 1 + -16) in Hy by lia. rewrite pow10_add in Hy.
  change (pow10 (-16)) with (1 # 10000000000000000)%Q in Hy. pose proof (pos_val_pos m e).
  split; [lra|]. apply canonical_digits in Hc as [Hd _]. pose proof (digits2_bounds m) as [_ Hm].
  assert (Zpos m <= 9007199254740991) as Hm'.
  { assert (2 ^ Zpos (digits2_pos m) <= 2 ^ 53) by (apply Z.pow_le_mono_r; lia). lia. }
  rewrite Zle_Qle in Hm'. change (inject_Z 9007199254740991) with (9007199254740991 # 1)%Q in Hm'.
  pose proof (pow2_pos e) as Hu. unfold near, pos_val in *. set (u := pow2 e) in *.
  apply (Qmult_le_compat_r _ _ u) in Hm'; [|lra]. split; [lra|]. split; [lra|]. intros ->.
  change (inject_Z 4503599627370496) with (4503599627370496 # 1)%Q in *. lra.
Qed.

Lemma candidates_near m e :
  canonical m e -> exists c p rest, candidates m e 17 = (Zpos c, p) :: rest /\ near (dec_value c p) m e.
Proof.
  intros Hc. unfold candidates.
  assert (exists num den, (if bool_decide (0 <= e) then (Zpos m * 2 ^ e, 1) else (Zpos m, 2 ^ (- e))) = (num, den) /\
    0 < num /\ 0 < den /\ (inject_Z num == pos_val m e * inject_Z den)%Q) as (num & den & -> & Hn & Hd & Hv).
  { case_bool_decide.
    - pose proof (Z.pow_pos_nonneg 2 e). eexists _, _. split; [done|]. split; [nia|]. split; [lia|].
      by rewrite pos_val_int, Qmult_1_r.
    - pose proof (Z.pow_pos_nonneg 2 (- e)). eexists _, _. split; [done|]. split; [lia|]. split; [lia|].
      rewrite pos_val_scale by lia. done. }
  pose proof (point_lower num den Hn Hd) as Hk. set (k := point num den) in *. set (p := k - 17).
  assert (0 < inject_Z den)%Q as Hdq by (change 0%Q with (inject_Z 0); by rewrite <-Zlt_Qlt).
  rewrite Hv in Hk. apply Qmult_lt_0_le_reg_r in Hk; [|done].
  assert (exists a b, (if bool_decide (0 <= p) then (num, den * 10 ^ p) else (num * 10 ^ (- p), den)) = (a, b) /\
    0 <= a /\ 0 < b /\ (inject_Z a * pow10 p == pos_val m e * inject_Z b)%Q) as (a & b & -> & Ha & Hb & Hab).
  { case_bool_decide.
    - pose proof (Z.pow_pos_nonneg 10 p). eexists _, _. split; [done|]. split; [lia|]. split; [nia|].
      rewrite Hv, inject_Z_mult, pow10_Z by done. ring.
    - pose proof (Z.pow_pos_nonneg 10 (- p)). eexists _, _. split; [done|]. split; [nia|]. split; [lia|].
      pose proof (pow10_neg (- p) ltac:(lia)) as Hp. replace (- - p) with p in Hp by lia.
      rewrite inject_Z_mult, Hv, <-Qmult_assoc, (Qmult_comm (inject_Z (10 ^ (- p)))), Hp. ring. }
  destruct (nearest_head a b Ha Hb) as (c0 & rest & -> & Hc0 & Hpos).
  pose proof (nearest_value a b c0 p (pos_val m e) Hb Hab Hc0) as Hy.
  destruct (seventeen_near m e c0 k (inject_Z c0 * pow10 p) Hc Hk (Qeq_refl _) Hy) as [Hyp Hnear].
  assert (0 < c0) as Hc0p.
  { destruct (decide (c0 = 0)) as [->|]; [|lia]. exfalso. change (inject_Z 0) with 0%Q in Hyp. lra. }
  pose proof (strip10_value 17 c0 p Hc0p) as Hs. cbn [fmap list_fmap]. destruct (strip10 17 c0 p) as [c' p'].
  destruct Hs as [Hc' Hv']. destruct c' as [|c'|c']; [lia| |lia]. eexists c', p', _. split; [done|].
  unfold near in *. rewrite dec_value_pow10, Hv'. done.
Qed.

Lemma reads_spec m e c p : reads m e (c, p) = true <-> exists q, c = Zpos q /\ dec_float false q p = S754_finite false m e.
Proof.
  unfold reads. destruct c as [|q|q]; [naive_solver| |naive_solver]. rewrite bool_decide_eq_true. naive_solver.
Qed.

Lemma shortest_reads m e : canonical m e -> let '(c, p) := shortest m e in dec_float false c p = S754_finite false m e.
Proof.
  intros Hc. unfold shortest. destruct (list_find _ _) as [[i [c p]]|] eqn:Hf.
  - apply list_find_Some in Hf as (_ & Hr%Is_true_eq_true%reads_spec & _). by destruct Hr as (q & -> & Hq).
  - exfalso. destruct (candidates_near m e Hc) as (c & p & rest & Hcand & Hn).
    apply list_find_None in Hf. rewrite Forall_forall in Hf. apply (Hf (Zpos c, p)).
    + apply list_elem_of_bind. exists 17. split; [rewrite Hcand; left|]. apply elem_of_seqZ. lia.
    + apply Is_true_eq_left, reads_spec. exists c. split; [done|]. by apply dec_float_near.
Qed.

Lemma dec_float_sign s c p m e : dec_float false c p = S754_finite false m e -> dec_float s c p = S754_finite s m e.
Proof.
  destruct (dec_brackets c p) as (q & e' & l & Hr & _). rewrite !Hr. unfold binary_round_aux.
  destruct (shr_fexp _ _ _ _ _) as [mrs1 e1]. destruct (shr_fexp _ _ _ _ _) as [mrs2 e2].
  destruct (shr_m mrs2); [done| |done]. destruct (IntDef.Z.leb _ _); naive_solver.
Qed.

(** ** Floats read back *)

Lemma number_float_value n c m e :
  of_digits 10 (n_int n ++ n_frac n) = Zpos c ->
  dec_float (n_neg n) c (default 0 (n_exp n) - Z.of_nat (length (n_frac n))) = S754_finite (n_neg n) m e ->
  number_float n = Some (S754_finite (n_neg n) m e).
Proof. unfold number_float. by intros -> ->. Qed.

Lemma layout_e_reads s c p m e :
  dec_float false c p = S754_finite false m e ->
  number_float (layout_e s (decimal (Zpos c)) p) = Some (S754_finite s m e).
Proof.
  intros Hd%(dec_float_sign s). apply (number_float_value (layout_e s (decimal (Zpos c)) p) c); cbn [layout_e n_int n_frac n_exp n_neg].
  - rewrite take_drop. by apply of_decimal.
  - destruct (decimal_head (Zpos c)) as (d & l & -> & _); [done|]. cbn [drop default].
    rewrite drop_0. unfold id. by replace (p + Z.of_nat (length (d :: l)) - 1 - Z.of_nat (length l)) with p by (simpl; lia).
Qed.

Lemma layout_f_reads s c p m e :
  dec_float false c p = S754_finite false m e ->
  number_float (layout_f s (decimal (Zpos c)) p) = Some (S754_finite s m e).
Proof.
  intros Hd%(dec_float_sign s). unfold layout_f. case_bool_decide as Hp; [|case_bool_decide as Hl].
  - pose proof (Z.pow_pos_nonneg 10 p ltac:(lia) Hp).
    apply (number_float_value (Number s (decimal (Zpos c) ++ replicate (Z.to_nat p) 0) [] None) (c * Z.to_pos (10 ^ p)));
      cbn [n_int n_frac n_exp n_neg].
    + rewrite app_nil_r, of_digits_app, of_digits_zeros, of_decimal, length_replicate, Z2Nat.id by lia.
      rewrite Pos2Z.inj_mul, Z2Pos.id by done. lia.
    + rewrite <-Hd. unfold dec_float. rewrite !bool_decide_true by done. simpl. by rewrite Pos.mul_1_r.
  - set (k := Z.to_nat _). apply (number_float_value (Number s (take k (decimal (Zpos c))) (drop k (decimal (Zpos c))) None) c);
      cbn [n_int n_frac n_exp n_neg].
    + rewrite take_drop. by apply of_decimal.
    + rewrite length_drop. cbn [default]. by replace (0 - Z.of_nat (length (decimal (Z.pos c)) - k)) with p by lia.
  - set (k := Z.to_nat _). apply (number_float_value (Number s [0] (replicate k 0 ++ decimal (Zpos c)) None) c);
      cbn [n_int n_frac n_exp n_neg].
    + rewrite app_assoc. change ([0] ++ replicate k 0) with (replicate (S k) 0).
      rewrite of_digits_app, of_digits_zeros, of_decimal by lia. lia.
    + rewrite length_app, length_replicate. cbn [default].
      by replace (0 - Z.of_nat (k + length (decimal (Z.pos c)))) with p by lia.
Qed.

(** Every finite float reads back from its shortest text. *)
Lemma number_float_number f : finite f -> number_float (float_number f) = Some f.
Proof.
  destruct f as [s| | |s m e]; [done|done|done|]. intros Hc. cbn [float_number].
  pose proof (shortest_reads m e Hc) as Hs. destruct (shortest m e) as [c p].
  destruct (_ || _); [by apply layout_e_reads|by apply layout_f_reads].
Qed.

Lemma digits_below_zeros k : digits_below 10 (replicate k 0).
Proof. apply Forall_replicate. lia. Qed.

(** ... and that text is a number literal. *)
Lemma float_number_wf f : finite f -> number_wf (float_number f).
Proof.
  destruct f as [s| | |s m e]; [|done|done|].
  { intros _. split; [by repeat constructor|]. split; [constructor|]. done. }
  intros _. cbn [float_number]. destruct (shortest m e) as [c p].
  pose proof (decimal_below (Zpos c)) as Hb. destruct (decimal_head (Zpos c)) as (d & l & Hdl & Hd); [done|]. rewrite Hdl in *.
  destruct (_ || _); unfold layout_e, layout_f, number_wf; cbn [n_int n_frac].
  - apply Forall_cons in Hb as [? Hb]. split; [by apply Forall_singleton|]. split; [done|]. split; [done|]. intros [= ->]. lia.
  - case_bool_decide; [|case_bool_decide]; cbn [n_int n_frac].
    + split; [by apply Forall_app; split; [|apply digits_below_zeros]|]. split; [constructor|]. split; [done|]. intros [= ->]. lia.
    + split; [by apply Forall_take|]. split; [by apply Forall_drop|].
      destruct (Z.to_nat _) as [|k] eqn:Hk; [lia|]. split; [done|]. intros [= ->]. lia.
    + split; [by apply Forall_singleton|]. split; [|done]. apply Forall_app. split; [apply digits_below_zeros|done].
Qed.
