(* ===== verification/FixedText.v ===== *)
(** * Floats with a fixed number of decimals

    The verb [%.nf] of fmt: the exact value of a binary64, rounded to the nearest number
    of [n] decimals, to the even one where two are as near. *)

From S2P Require Import Prelude GoStrings Digits GoFloat.
From Stdlib Require Import Floats.SpecFloat QArith Qpower Lqa.

#[local] Open Scope Z_scope.

(** [n / d] to the nearest integer. *)
Definition half_even (n d : Z) : Z :=
  let q := n / d in
  let r := n mod d in
  if bool_decide (2 * r < d) || (bool_decide (2 * r = d) && Z.even q) then q else q + 1.

(** The units of the last place in a mantissa and an exponent. *)
Definition fixed_units (prec : nat) (m : positive) (e : Z) : Z :=
  half_even (Zpos m * 2 ^ Z.max e 0 * 10 ^ Z.of_nat prec) (2 ^ Z.max (- e) 0).

(** A number of units, for at least one decimal. *)
Definition units_text (prec : nat) (n : Z) : string :=
  pretty (n / 10 ^ Z.of_nat prec) +:+ "." +:+ padded prec (n mod 10 ^ Z.of_nat prec).

Definition sign_text (s : bool) : string := if s then "-" else "".

Definition fixed_text (prec : nat) (f : f64) : string :=
  match f with
  | S754_nan => "NaN"
  | S754_infinity s => (if s then "-" else "+") +:+ "Inf"
  | S754_zero s => sign_text s +:+ units_text prec 0
  | S754_finite s m e => sign_text s +:+ units_text prec (fixed_units prec m e)
  end.

Example fixed_examples :
  fixed_text 2 (f64_div (f64_of_int 15000) (f64_of_int 100)) = "150.00" /\
  fixed_text 2 (f64_div (f64_of_int (-1)) (f64_of_int 100)) = "-0.01" /\
  fixed_text 2 (f64_div (f64_of_int 1) (f64_of_int 8)) = "0.12" /\
  fixed_text 2 (f64_div (f64_of_int 3) (f64_of_int 8)) = "0.38" /\
  fixed_text 2 (f64_div (f64_of_int 9223372036854775807) (f64_of_int 100)) = "92233720368547760.00".
Proof. vm_compute. done. Qed.

(** ** Lemmas *)

Lemma half_even_unique n d c : 0 < d -> 2 * c * d - d < 2 * n < 2 * c * d + d -> half_even n d = c.
Proof.
  intros Hd Hc. unfold half_even. pose proof (Z.div_mod n d ltac:(lia)) as Hn.
  pose proof (Z.mod_pos_bound n d Hd) as Hr. set (q := n / d) in *. set (r := n mod d) in *.
  assert (2 * (d * (q - c)) + 2 * r < d /\ - d < 2 * (d * (q - c)) + 2 * r) as [H1 H2] by lia.
  destruct (decide (2 * r < d)) as [Hr1|Hr1].
  - rewrite bool_decide_true by done. cbn. assert (q - c = 0) as Hq by nia. lia.
  - rewrite (bool_decide_false (2 * r < d)) by done. assert (q - c = -1) as Hq by nia.
    rewrite Hq in H2. rewrite bool_decide_false by lia. cbn. lia.
Qed.

(** A value less than half a unit away from a number of units is written as that. *)
Lemma fixed_units_near prec m e c :
  (pos_val m e * inject_Z (10 ^ Z.of_nat prec) - inject_Z c < 1 # 2 /\
   inject_Z c - pos_val m e * inject_Z (10 ^ Z.of_nat prec) < 1 # 2)%Q ->
  fixed_units prec m e = c.
Proof.
  intros [H1 H2]. unfold fixed_units. set (T := 10 ^ Z.of_nat prec) in *.
  assert (0 < 2 ^ Z.max (- e) 0) as Hd by (apply Z.pow_pos_nonneg; lia).
  assert (pos_val m e * inject_Z (2 ^ Z.max (- e) 0) == inject_Z (Zpos m * 2 ^ Z.max e 0))%Q as Hv.
  { destruct (decide (0 <= e)).
    - rewrite pos_val_int, (Z.max_r (- e) 0), Z.max_l by lia. change (2 ^ 0) with 1. ring.
    - rewrite (Z.max_l (- e) 0), Z.max_r, Z.mul_1_r by lia. apply pos_val_scale. lia. }
  apply half_even_unique; [done|]. set (D := 2 ^ Z.max (- e) 0) in *. set (M := Zpos m * 2 ^ Z.max e 0) in *.
  assert (0 < inject_Z D)%Q as HD by (change 0%Q with (inject_Z 0); rewrite <-Zlt_Qlt; lia).
  assert (inject_Z (M * T) == pos_val m e * inject_Z T * inject_Z D)%Q as Hm by (rewrite inject_Z_mult, <-Hv; ring).
  set (y := (pos_val m e * inject_Z T)%Q) in *. clearbody y.
  assert (forall k, inject_Z (2 * c * D + k * D) == (2 * inject_Z c + inject_Z k) * inject_Z D)%Q as Hk.
  { intros k. rewrite inject_Z_plus, !inject_Z_mult. change (inject_Z 2) with 2%Q. ring. }
  replace (2 * c * D - D) with (2 * c * D + -1 * D) by lia. replace (2 * c * D + D) with (2 * c * D + 1 * D) by lia.
  replace (Zpos m * 2 ^ Z.max e 0 * T) with (M * T) by done.
  split; rewrite Zlt_Qlt, Hk, (inject_Z_mult 2), Hm; [change (inject_Z (-1)) with (-1)%Q|change (inject_Z 1) with 1%Q];
    change (inject_Z 2) with 2%Q; rewrite (Qmult_assoc 2); apply Qmult_lt_compat_r; try done; lra.
Qed.
