(* ===== verification/Utf8.v ===== *)
(** * UTF-8

    The runes of a string as [unicode/utf8] decodes them: a byte that starts no
    well-formed sequence is the replacement character and is passed over alone. *)

From S2P Require Import Prelude GoStrings.
From Stdlib Require Import Ascii.

(** ** Definitions *)

Definition code (c : ascii) : Z := Z.of_nat (nat_of_ascii c).
Definition chr (z : Z) : ascii := ascii_of_nat (Z.to_nat z).

Definition is_surrogate (r : Z) : bool := bool_decide (55296 <= r < 57344).

(** Unicode scalar values. *)
Definition is_rune (r : Z) : bool := bool_decide (0 <= r <= 1114111) && negb (is_surrogate r).

Definition RuneError : Z := 65533.

(** A continuation byte, [n] more to come. *)
Fixpoint continuation (n : nat) (acc : Z) (s : string) : option (Z * string) :=
  match n, s with
  | O, _ => Some (acc, s)
  | S n, String c s =>
      if bool_decide (128 <= code c < 192) then continuation n (acc * 64 + (code c - 128)) s else None
  | S _, EmptyString => None
  end.

(** A sequence of [n] more bytes whose rune is at least [least]: shorter ones exist for
    the others. *)
Definition sequence (n : nat) (first least : Z) (s : string) : option (Z * string) :=
  '(r, s) ← continuation n first s;
  if bool_decide (least <= r) && is_rune r then Some (r, s) else None.

Definition DecodeRune (s : string) : option (Z * string) :=
  match s with
  | EmptyString => None
  | String c s =>
      let b := code c in
      if bool_decide (b < 128) then Some (b, s)
      else if bool_decide (192 <= b < 224) then sequence 1 (b - 192) 128 s
      else if bool_decide (224 <= b < 240) then sequence 2 (b - 224) 2048 s
      else if bool_decide (240 <= b < 248) then sequence 3 (b - 240) 65536 s
      else None
  end.

Definition EncodeRune (r : Z) : string :=
  let cont z := chr (128 + z mod 64) in
  if bool_decide (r < 128) then String (chr r) ""
  else if bool_decide (r < 2048) then String (chr (192 + r / 64)) (String (cont r) "")
  else if bool_decide (r < 65536) then String (chr (224 + r / 4096)) (String (cont (r / 64)) (String (cont r) ""))
  else String (chr (240 + r / 262144)) (String (cont (r / 4096)) (String (cont (r / 64)) (String (cont r) ""))).

(** The runes of a string, [None] for a byte that belongs to none. *)
Fixpoint runes_fuel (fuel : nat) (s : string) : list (option Z) :=
  match fuel, s with
  | S fuel, String _ s' =>
      match DecodeRune s with
      | Some (r, s) => Some r :: runes_fuel fuel s
      | None => None :: runes_fuel fuel s'
      end
  | _, _ => []
  end.

Definition runes (s : string) : list (option Z) := runes_fuel (String.length s) s.

Definition utf8 (rs : list Z) : string := foldr (fun r s => EncodeRune r +:+ s) "" rs.

(** [utf8.ValidString] *)
Definition valid_utf8 (s : string) : bool := forallb (fun r => bool_decide (is_Some r)) (runes s).

(** ** Lemmas *)

Lemma code_range c : 0 <= code c < 256.
Proof. unfold code. pose proof (nat_ascii_bounded c). lia. Qed.

Lemma chr_code c : chr (code c) = c.
Proof. unfold chr, code. by rewrite Nat2Z.id, ascii_nat_embedding. Qed.

Lemma code_chr z : 0 <= z < 256 -> code (chr z) = z.
Proof. intros Hz. unfold chr, code. rewrite nat_ascii_embedding; lia. Qed.

Lemma continuation_chr n acc z s :
  continuation (S n) acc (String (chr (128 + z mod 64)) s) = continuation n (acc * 64 + z mod 64) s.
Proof.
  pose proof (Z.mod_pos_bound z 64 ltac:(lia)). cbn [continuation]. rewrite code_chr by lia.
  rewrite bool_decide_true by lia. by replace (128 + z mod 64 - 128) with (z mod 64) by lia.
Qed.

Lemma sequence_rune n first least s r s' :
  continuation n first s = Some (r, s') -> least <= r -> is_rune r = true -> sequence n first least s = Some (r, s').
Proof. unfold sequence. intros -> Hl Hr. cbn. by rewrite bool_decide_true, Hr. Qed.

Ltac rune_lia := Z.div_mod_to_equations; lia.

(** A rune that was written is read, whatever follows it. *)
Lemma DecodeRune_EncodeRune r s : is_rune r = true -> DecodeRune (EncodeRune r +:+ s) = Some (r, s).
Proof.
  intros Hr. pose proof Hr as Hr'. unfold is_rune in Hr'. apply andb_true_iff in Hr' as [Hb _].
  apply bool_decide_eq_true in Hb. unfold EncodeRune.
  destruct (decide (r < 128)); [|destruct (decide (r < 2048)); [|destruct (decide (r < 65536))]];
    rewrite ?(bool_decide_true (r < 128)), ?(bool_decide_false (r < 128)), ?(bool_decide_true (r < 2048)),
      ?(bool_decide_false (r < 2048)), ?(bool_decide_true (r < 65536)), ?(bool_decide_false (r < 65536)) by done;
    rewrite ?append_String; change ("" +:+ s) with s; cbn [DecodeRune]; rewrite code_chr by rune_lia.
  - by rewrite bool_decide_true.
  - rewrite bool_decide_false, bool_decide_true by rune_lia.
    apply sequence_rune; [|lia|done]. rewrite continuation_chr. cbn [continuation]. do 2 f_equal. rune_lia.
  - rewrite !bool_decide_false, bool_decide_true by rune_lia.
    apply sequence_rune; [|lia|done]. rewrite !continuation_chr. cbn [continuation]. do 2 f_equal. rune_lia.
  - rewrite !bool_decide_false, bool_decide_true by rune_lia.
    apply sequence_rune; [|lia|done]. rewrite !continuation_chr. cbn [continuation]. do 2 f_equal. rune_lia.
Qed.

Lemma continuation_inv n acc s r s' :
  continuation (S n) acc s = Some (r, s') ->
  exists x s1, 0 <= x < 64 /\ s = String (chr (128 + x)) s1 /\ continuation n (acc * 64 + x) s1 = Some (r, s').
Proof.
  destruct s as [|c s]; [done|]. cbn [continuation]. case_bool_decide; [|done]. intros Hc.
  exists (code c - 128), s. split; [lia|]. split; [|done]. replace (128 + (code c - 128)) with (code c) by lia.
  by rewrite chr_code.
Qed.

Lemma sequence_inv n first least s r s' :
  sequence n first least s = Some (r, s') -> continuation n first s = Some (r, s') /\ least <= r /\ is_rune r = true.
Proof.
  unfold sequence. destruct (continuation _ _ _) as [[r1 s1]|]; [|done]. cbn. destruct (is_rune r1) eqn:Hr.
  - case_bool_decide; [|done]. cbn. by intros [= <- <-].
  - by rewrite andb_false_r.
Qed.

Ltac same_bytes :=
  repeat match goal with
  | |- String _ _ = String _ _ => f_equal
  | |- chr _ = chr _ => f_equal; rune_lia
  | |- ?c = chr _ => rewrite <- (chr_code c) at 1
  end.

(** What was read is the encoding of the rune. *)
Lemma DecodeRune_inv s r s' : DecodeRune s = Some (r, s') -> s = EncodeRune r +:+ s' /\ is_rune r = true.
Proof.
  destruct s as [|c s]; [done|]. cbn [DecodeRune]. pose proof (code_range c).
  case_bool_decide as H1; [|case_bool_decide as H2; [|case_bool_decide as H3; [|case_bool_decide as H4; [|done]]]];
    [|intros [Hc [Hl Hr]]%sequence_inv; split; [|done]..]; unfold EncodeRune.
  - intros [= <- <-]. rewrite bool_decide_true, chr_code by lia. split; [done|]. unfold is_rune, is_surrogate.
    rewrite bool_decide_true, bool_decide_false by lia. done.
  - apply continuation_inv in Hc as (x & s1 & Hx & -> & [= Hv ->]).
    rewrite bool_decide_false, bool_decide_true by lia. rewrite !append_String. change ("" +:+ s') with s'. same_bytes.
  - apply continuation_inv in Hc as (x & s1 & Hx & -> & (y & s2 & Hy & -> & [= Hv ->])%continuation_inv).
    rewrite !bool_decide_false, bool_decide_true by lia. rewrite !append_String. change ("" +:+ s') with s'. same_bytes.
  - apply continuation_inv in Hc as (x & s1 & Hx & -> &
      (y & s2 & Hy & -> & (z & s3 & Hz & -> & [= Hv ->])%continuation_inv)%continuation_inv).
    rewrite !bool_decide_false by lia. rewrite !append_String. change ("" +:+ s') with s'. same_bytes.
Qed.

Lemma EncodeRune_length r : (0 < String.length (EncodeRune r))%nat.
Proof. unfold EncodeRune. repeat case_bool_decide; simpl; lia. Qed.

Lemma runes_fuel_valid fuel s :
  (String.length s <= fuel)%nat -> forallb (fun r => bool_decide (is_Some r)) (runes_fuel fuel s) = true ->
  exists rs, s = utf8 rs /\ Forall (fun r => is_rune r = true) rs.
Proof.
  revert s. induction fuel as [|fuel IH]; intros s Hl; cbn [runes_fuel].
  { destruct s; [|simpl in Hl; lia]. intros _. by exists []. }
  destruct s as [|c s]; [intros _; by exists []|].
  destruct (DecodeRune (String c s)) as [[r s']|] eqn:Hd; [|done]. apply DecodeRune_inv in Hd as [He Hr].
  cbn [forallb]. rewrite He in Hl |- *. rewrite append_length in Hl. pose proof (EncodeRune_length r).
  intros [_ Hf]%andb_true_iff. destruct (IH s') as (rs & -> & Hrs); [lia|done|]. exists (r :: rs). split; [done|by constructor].
Qed.

(** A valid string is the encoding of its runes. *)
Lemma valid_utf8_runes s : valid_utf8 s = true -> exists rs, s = utf8 rs /\ Forall (fun r => is_rune r = true) rs.
Proof. by apply runes_fuel_valid. Qed.

(** Texts of seven bits are valid. *)
Fixpoint ascii_only (s : string) : bool :=
  match s with String c s => bool_decide (code c < 128) && ascii_only s | EmptyString => true end.

Lemma ascii_only_append s t : ascii_only (s +:+ t) = ascii_only s && ascii_only t.
Proof. induction s as [|c s IH]; [done|]. rewrite append_String. cbn [ascii_only]. by rewrite IH, andb_assoc. Qed.

Lemma valid_ascii s : ascii_only s = true -> valid_utf8 s = true.
Proof.
  unfold valid_utf8, runes. induction s as [|c s IH]; [done|]. cbn [ascii_only String.length runes_fuel DecodeRune].
  intros [Hc Hs]%andb_true_iff. rewrite Hc. cbn. by apply IH.
Qed.
