(* ===== verification/Json.v ===== *)
(** * JSON values and database scan values

    The library hands its values to [encoding/json] and [database/sql]. What the
    code looks at is the tree of a document, whose text is that of [JsonText], and
    the dynamic type of a scanned value. *)

From S2P Require Import Prelude GoStrings GoFloat FloatNear Numbers.
From Stdlib Require Import Floats.SpecFloat.
#[local] Open Scope Z_scope.

(** A number is kept as its digits; what it reads as depends on the variable. *)
Inductive json :=
| JNull
| JBool (b : bool)
| JNum (n : number)
| JStr (s : string)
| JArr (l : list json)
| JObj (members : list (string * json)).

(** [driver.Value] and what a driver may pass to [Scan]; [VInt] is Go's [int]. *)
Inductive scanval :=
| VNil
| VFloat64 (f : f64)
| VInt64 (z : Z)
| VInt (z : Z)
| VBytes (s : string)
| VString (s : string)
| VOther (typ : string).

Definition err_json : error := ErrVar "json.UnmarshalTypeError".

(** [json.Unmarshal] into a variable that holds the zero value. *)
Definition json_float64 (j : json) : result f64 :=
  match j with
  | JNull => Ok f64_zero
  | JNum n => match number_float n with Some f => Ok f | None => Err err_json end
  | _ => Err err_json
  end.

Definition json_int (j : json) : result Z :=
  match j with
  | JNull => Ok 0
  | JNum n => match number_int n with Some i => Ok i | None => Err err_json end
  | _ => Err err_json
  end.

(** What [json.Marshal] writes for a number. *)
Definition json_of_int (z : Z) : json := JNum (int_number z).
Definition json_of_f64 (f : f64) : json := JNum (float_number f).

(** ** Lemmas *)

Lemma json_int_of_int z : in_int64 z -> json_int (json_of_int z) = Ok z.
Proof. intros Hz. simpl. by rewrite number_int_number. Qed.

Lemma json_float64_of_f64 f : finite f -> json_float64 (json_of_f64 f) = Ok f.
Proof. intros Hf. simpl. by rewrite number_float_number. Qed.

Lemma json_int_range j z : json_int j = Ok z -> in_int64 z.
Proof.
  destruct j as [|?|n|?|?|?]; try done; simpl; [by intros [= <-]; vm_compute|].
  destruct (number_int n) as [i|] eqn:Hn; [|done]. intros [= <-]. revert Hn. unfold number_int.
  repeat case_bool_decide; by intros [= <-].
Qed.
