(* ===== verification/JsonText.v ===== *)
(** * The text of JSON documents

    What [encoding/json] writes for a tree of [Json], with its escapes, and how it
    reads one: blanks, literals, numbers, strings with their escapes and surrogates,
    nesting up to its limit. A tree that can be written is read back from its text. *)

From S2P Require Import Prelude GoStrings Regex Digits GoFloat Numbers Utf8 Json.
From Stdlib Require Import Ascii.

(** ** Writing *)

Definition hexchar (d : Z) : ascii := chr (if bool_decide (d < 10) then 48 + d else 87 + d).

Definition hex4 (r : Z) : string :=
  String (hexchar (r / 4096 mod 16)) (String (hexchar (r / 256 mod 16))
    (String (hexchar (r / 16 mod 16)) (String (hexchar (r mod 16)) ""))).

(** The characters after the backslash that stand for one byte, when writing. *)
Definition short_escapes : list (Z * Z) :=
  [(34, 34); (92, 92); (8, 98); (12, 102); (10, 110); (13, 114); (9, 116)].

(** [<], [>] and [&] and the two separators that end a line in scripts. *)
Definition long_escape (r : Z) : bool :=
  bool_decide (r < 32) || bool_decide (r ∈ [60; 62; 38; 8232; 8233]).

Definition backslash (s : string) : string := String (chr 92) s.

(** A rune of a string, or a byte that belongs to none. *)
Definition escape_rune (o : option Z) : string :=
  match o with
  | None => backslash "ufffd"
  | Some r =>
      match list_find (fun e => fst e = r) short_escapes with
      | Some (_, (_, c)) => backslash (String (chr c) "")
      | None => if long_escape r then backslash (String "u" (hex4 r)) else EncodeRune r
      end
  end.

Definition escape (s : string) : string := foldr (fun o t => escape_rune o +:+ t) "" (runes s).

Definition quote : ascii := chr 34.

Definition string_text (s : string) : string := String quote (escape s +:+ String quote "").

Definition frac_text (l : list Z) : string :=
  match l with [] => "" | _ => "." +:+ digit_string l end.

Definition exponent_text (e : option Z) : string :=
  match e with
  | None => ""
  | Some e => "e" +:+ (if bool_decide (e < 0) then "-" else "+") +:+ digit_string (decimal (Z.abs e))
  end.

Definition number_text (n : number) : string :=
  (if n_neg n then "-" else "") +:+ digit_string (n_int n) +:+
  frac_text (n_frac n) +:+ exponent_text (n_exp n).

(** [json.Marshal] of a tree. *)
Fixpoint encode (j : json) : string :=
  match j with
  | JNull => "null"
  | JBool b => if b then "true" else "false"
  | JNum n => number_text n
  | JStr s => string_text s
  | JArr l => "[" +:+ Join (map encode l) "," +:+ "]"
  | JObj ms => "{" +:+ Join (map (fun m => let '(k, v) := m in string_text k +:+ ":" +:+ encode v) ms) "," +:+ "}"
  end.

(** ** Reading *)

Definition hex_digit (c : ascii) : option Z :=
  let b := code c in
  if bool_decide (48 <= b < 58) then Some (b - 48)
  else if bool_decide (97 <= b < 103) then Some (b - 87)
  else if bool_decide (65 <= b < 71) then Some (b - 55)
  else None.

Definition read_hex4 (s : string) : option (Z * string) :=
  match s with
  | String a (String b (String c (String d s))) =>
      x ← hex_digit a; y ← hex_digit b; z ← hex_digit c; w ← hex_digit d;
      Some (((x * 16 + y) * 16 + z) * 16 + w, s)
  | _ => None
  end.

(** After [\u]: a surrogate counts with the other half that follows it. *)
Definition read_unicode (s : string) : option (Z * string) :=
  '(r, s) ← read_hex4 s;
  if is_surrogate r then
    match (s' ← expect (backslash "u") s; read_hex4 s') with
    | Some (r2, s2) =>
        if bool_decide (r < 56320 <= r2) && is_surrogate r2
        then Some ((r - 55296) * 1024 + (r2 - 56320) + 65536, s2) else Some (RuneError, s)
    | None => Some (RuneError, s)
    end
  else Some (r, s).

(** After a backslash. *)
Definition read_escape (s : string) : option (Z * string) :=
  match s with
  | EmptyString => None
  | String c s =>
      if bool_decide (c = "u"%char) then read_unicode s
      else if bool_decide (c = "/"%char) then Some (47, s)
      else match list_find (fun e => snd e = code c) short_escapes with
           | Some (_, (r, _)) => Some (r, s)
           | None => None
           end
  end.

(** The rest of a string after its opening quote. *)
Fixpoint read_string (fuel : nat) (s : string) : option (string * string) :=
  match fuel, s with
  | S fuel, String c s' =>
      if bool_decide (c = quote) then Some ("", s')
      else
        '(r, s) ← (if bool_decide (code c = 92) then read_escape s'
                   else if bool_decide (code c < 32) then None
                   else Some (default (RuneError, s') (DecodeRune s)));
        '(t, s) ← read_string fuel s;
        Some (EncodeRune r +:+ t, s)
  | _, _ => None
  end.

(** Digits, at least one. *)
Definition some_digits (s : string) : option (list Z * string) :=
  match digit_run s with ([], _) => None | r => Some r end.

Definition read_int (s : string) : option (list Z * string) :=
  match expect "0" s with Some s => Some ([0], s) | None => some_digits s end.

Definition read_frac (s : string) : option (list Z * string) :=
  match expect "." s with Some s => some_digits s | None => Some ([], s) end.

Definition read_exp (s : string) : option (option Z * string) :=
  if HasPrefix s "e" || HasPrefix s "E" then
    let s := if HasPrefix s "e" then TrimPrefix s "e" else TrimPrefix s "E" in
    let sign := if HasPrefix s "-" then -1 else 1 in
    let s := if HasPrefix s "-" then TrimPrefix s "-" else TrimPrefix s "+" in
    '(l, s) ← some_digits s;
    Some (Some (sign * of_digits 10 l), s)
  else Some (None, s).

Definition read_number (s : string) : option (number * string) :=
  let neg := HasPrefix s "-" in
  '(i, s) ← read_int (TrimPrefix s "-");
  '(f, s) ← read_frac s;
  '(e, s) ← read_exp s;
  Some ({| n_neg := neg; n_int := i; n_frac := f; n_exp := e |}, s).

Fixpoint skip_blank (s : string) : string :=
  match s with
  | String c s' => if bool_decide (code c ∈ [32; 9; 10; 13]) then skip_blank s' else s
  | EmptyString => ""
  end.

(** The elements of an array or the members of an object, [read] one at a time, up to
    the closing character. *)
Fixpoint read_items {A} (read : string -> option (A * string)) (close : string) (fuel : nat) (s : string)
    : option (list A * string) :=
  match fuel with
  | O => None
  | S fuel =>
      '(a, s) ← read s;
      let s := skip_blank s in
      match expect close s with
      | Some s => Some ([a], s)
      | None => s ← expect "," s; '(l, s) ← read_items read close fuel s; Some (a :: l, s)
      end
  end.

Definition read_list {A} (read : string -> option (A * string)) (close : string) (s : string) : option (list A * string) :=
  match expect close (skip_blank s) with
  | Some s => Some ([], s)
  | None => read_items read close (S (String.length s)) s
  end.

Definition read_member (read : string -> option (json * string)) (s : string) : option ((string * json) * string) :=
  s ← expect (String quote "") (skip_blank s);
  '(k, s) ← read_string (S (String.length s)) s;
  s ← expect ":" (skip_blank s);
  '(v, s) ← read s;
  Some ((k, v), s).

Definition read_literal (s : string) : option (json * string) :=
  match expect "null" s, expect "true" s, expect "false" s with
  | Some s, _, _ => Some (JNull, s)
  | _, Some s, _ => Some (JBool true, s)
  | _, _, Some s => Some (JBool false, s)
  | None, None, None =>
      match expect (String quote "") s with
      | Some s => '(t, s) ← read_string (S (String.length s)) s; Some (JStr t, s)
      | None => '(n, s) ← read_number s; Some (JNum n, s)
      end
  end.

(** A value, in which arrays and objects are nested up to [depth]. *)
Fixpoint read_value (depth : nat) (s : string) : option (json * string) :=
  let s := skip_blank s in
  match expect "[" s, expect "{" s, depth with
  | None, None, _ => read_literal s
  | Some s, _, S depth => '(l, s) ← read_list (read_value depth) "]" s; Some (JArr l, s)
  | None, Some s, S depth => '(ms, s) ← read_list (read_member (read_value depth)) "}" s; Some (JObj ms, s)
  | _, _, O => None
  end.

(** The language's limit. *)
Definition max_depth : nat := Z.to_nat 10000.

(** [json.Unmarshal] up to the tree: one value and nothing but blanks after it. *)
Definition decode_to (depth : nat) (s : string) : option json :=
  '(j, s) ← read_value depth s;
  if bool_decide (skip_blank s = "") then Some j else None.

Definition decode : string -> option json := decode_to max_depth.

(** Documents are read by computation only where it is asked for. *)
#[global] Opaque max_depth decode.

(** What can be written and read back: numbers as the grammar has them, strings of
    valid UTF-8, and nesting up to [d]. *)
Inductive writable : nat -> json -> Prop :=
| w_null d : writable d JNull
| w_bool d b : writable d (JBool b)
| w_num d n : number_wf n -> writable d (JNum n)
| w_str d s : valid_utf8 s = true -> writable d (JStr s)
| w_arr d l : Forall (writable d) l -> writable (S d) (JArr l)
| w_obj d ms : Forall (fun m => valid_utf8 (fst m) = true /\ writable d (snd m)) ms -> writable (S d) (JObj ms).

(** ** Examples *)

Example decode_spaces : decode " [ 1 , -2.50e+1 ,null,true] " =
  Some (JArr [JNum (Number false [1] [] None); JNum (Number true [2] [5; 0] (Some 1)); JNull; JBool true]).
Proof. vm_compute. reflexivity. Qed.

Definition quoted (s : string) : string := String quote (s +:+ String quote "").

Example decode_object : decode ("{" +:+ quoted "a\u0041\n" +:+ ": [{}] }") = Some (JObj [("aA" +:+ byte 10, JArr [JObj []])]).
Proof. vm_compute. reflexivity. Qed.

(** A pair of surrogates is one rune, half a pair is none. *)
Example decode_surrogates :
  decode (quoted "\ud83d\ude00") = Some (JStr (EncodeRune 128512)) /\
  decode (quoted "\ud83dx") = Some (JStr (EncodeRune RuneError +:+ "x")).
Proof. vm_compute. split; reflexivity. Qed.

Example decode_rejects :
  Forall (fun s => decode s = None)
    [""; "01"; "1."; ".5"; "1e"; "1eE5"; "+1"; "-"; "[1,]"; "[1 2]"; "{1:2}"; "nul"; "null x"; quoted "\x"; quoted "\u12g4"; "[";
     quoted (byte 10)].
Proof. repeat constructor. Qed.

Example encode_escapes : encode (JStr ("<" +:+ byte 10 +:+ byte 1 +:+ byte 255)) = quoted "\u003c\n\u0001\ufffd".
Proof. vm_compute. reflexivity. Qed.

(** ** Strings are read back *)

Lemma hex_digit_hexchar d : 0 <= d < 16 -> hex_digit (hexchar d) = Some d.
Proof.
  intros Hd. assert (Forall (fun d => hex_digit (hexchar d) = Some d) (seqZ 0 16)) as Hall
    by (apply (bool_decide_unpack _); vm_compute; exact I).
  rewrite Forall_forall in Hall. apply Hall, elem_of_seqZ. lia.
Qed.

Lemma read_hex4_text r s : 0 <= r < 65536 -> read_hex4 (hex4 r +:+ s) = Some (r, s).
Proof.
  intros Hr. unfold hex4. rewrite !append_String. change ("" +:+ s) with s. cbn [read_hex4].
  rewrite !hex_digit_hexchar by (apply Z.mod_pos_bound; lia). cbn [mbind option_bind]. do 2 f_equal. rune_lia.
Qed.

(** The escapes of one character, as finitely many facts. *)
Lemma short_escape_facts i r c :
  list_find (fun e => fst e = r) short_escapes = Some (i, (r, c)) ->
  bool_decide (chr c = "u"%char) = false /\ bool_decide (chr c = "/"%char) = false /\
  exists j, list_find (fun e => snd e = code (chr c)) short_escapes = Some (j, (r, c)).
Proof.
  intros (Hl & _)%list_find_Some. apply list_elem_of_lookup_2 in Hl.
  assert (Forall (fun rc => bool_decide (chr rc.2 = "u"%char) = false /\ bool_decide (chr rc.2 = "/"%char) = false /\
    exists j, list_find (fun e => snd e = code (chr rc.2)) short_escapes = Some (j, rc)) short_escapes) as Hall.
  { repeat constructor; try reflexivity; cbn [snd]; eexists; vm_compute; reflexivity. }
  rewrite Forall_forall in Hall. exact (Hall _ Hl).
Qed.

Lemma short_escape_self r i rc :
  list_find (fun e => fst e = r) short_escapes = Some (i, rc) -> rc = (r, snd rc).
Proof. intros (_ & Hr & _)%list_find_Some. destruct rc. simpl in *. by subst. Qed.

(** Neither a quote nor a backslash nor a control character. *)
Lemma plain_rune r :
  is_rune r = true -> list_find (fun e => fst e = r) short_escapes = None -> long_escape r = false ->
  exists c s, EncodeRune r = String c s /\ bool_decide (c = quote) = false /\ code c <> 92 /\ 32 <= code c.
Proof.
  intros Hr Hs Hl. unfold is_rune in Hr. apply andb_true_iff in Hr as [Hr%bool_decide_eq_true _].
  apply orb_false_iff in Hl as [Hl%bool_decide_eq_false _].
  rewrite list_find_None, Forall_forall in Hs.
  assert (r <> 34 /\ r <> 92) as [H34 H92].
  { split; intros ->; [apply (Hs (34, 34))|apply (Hs (92, 92))]; try done; apply (bool_decide_unpack _); vm_compute; exact I. }
  assert (Hcode : exists c s, EncodeRune r = String c s /\ (code c = r \/ 128 <= code c)).
  { unfold EncodeRune. repeat case_bool_decide; eexists _, _; (split; [reflexivity|]); rewrite code_chr by rune_lia; rune_lia. }
  destruct Hcode as (c & s & He & Hc). exists c, s. split; [done|]. split; [|lia].
  apply bool_decide_eq_false. intros ->. change (code quote) with 34 in Hc. lia.
Qed.

(** One rune of the text of a string. *)
Lemma read_string_rune fuel r s :
  is_rune r = true ->
  read_string (S fuel) (escape_rune (Some r) +:+ s) = ('(t, s) ← read_string fuel s; Some (EncodeRune r +:+ t, s)).
Proof.
  intros Hr. cbn [escape_rune]. destruct (list_find (fun e => fst e = r) short_escapes) as [[i [r' c]]|] eqn:Hs.
  - pose proof (short_escape_self _ _ _ Hs) as [= ->]. apply short_escape_facts in Hs as (Hu & Hsl & j & Hj).
    cbn [snd]. unfold backslash. rewrite !append_String. change ("" +:+ s) with s. cbn [read_string].
    rewrite (bool_decide_false (chr 92 = quote)) by done. change (code (chr 92)) with 92. rewrite bool_decide_true by done.
    cbn [read_escape snd] in *. by rewrite Hu, Hsl, Hj.
  - destruct (long_escape r) eqn:Hl.
    + unfold backslash. rewrite !append_String. cbn [read_string].
      rewrite (bool_decide_false (chr 92 = quote)) by done. change (code (chr 92)) with 92. rewrite bool_decide_true by done.
      cbn [read_escape]. rewrite bool_decide_true by done. unfold read_unicode.
      unfold is_rune in Hr. apply andb_true_iff in Hr as [Hr%bool_decide_eq_true Hsur%negb_true_iff].
      rewrite read_hex4_text.
      2:{ apply orb_true_iff in Hl as [Hl%bool_decide_eq_true|Hl%bool_decide_eq_true]; [lia|].
          repeat (apply elem_of_cons in Hl as [->|Hl]; [lia|]). by apply elem_of_nil in Hl. }
      cbn [mbind option_bind]. by rewrite Hsur.
    + destruct (plain_rune r Hr Hs Hl) as (c & u & He & Hq & H92 & H32).
      pose proof (DecodeRune_EncodeRune r s Hr) as Hd. rewrite He in *. rewrite append_String in *. cbn [read_string].
      rewrite Hq, !bool_decide_false by lia. rewrite Hd. cbn. by rewrite He.
Qed.

Lemma runes_utf8 rs : Forall (fun r => is_rune r = true) rs -> runes (utf8 rs) = Some <$> rs.
Proof.
  unfold runes. intros Hrs. assert (forall fuel, (String.length (utf8 rs) <= fuel)%nat -> runes_fuel fuel (utf8 rs) = Some <$> rs)
    as Hf; [|by apply Hf].
  induction Hrs as [|r rs Hr _ IH]; intros fuel Hl; [by destruct fuel|].
  change (utf8 (r :: rs)) with (EncodeRune r +:+ utf8 rs) in *. rewrite append_length in Hl.
  pose proof (EncodeRune_length r). pose proof (DecodeRune_EncodeRune r (utf8 rs) Hr) as Hd.
  destruct fuel as [|fuel]; [lia|]. destruct (EncodeRune r +:+ utf8 rs) as [|c s] eqn:He; [done|].
  cbn [runes_fuel]. rewrite Hd. cbn [fmap list_fmap]. f_equal. apply IH. lia.
Qed.

Lemma escape_rune_length o : (0 < String.length (escape_rune o))%nat.
Proof.
  destruct o as [r|]; cbn [escape_rune]; [|simpl; lia]. destruct (list_find _ _) as [[? []]|]; [simpl; lia|].
  destruct (long_escape r); [simpl; lia|]. apply EncodeRune_length.
Qed.

Lemma read_string_text fuel s rest :
  valid_utf8 s = true -> (String.length (escape s) < fuel)%nat ->
  read_string fuel (escape s +:+ String quote rest) = Some (s, rest).
Proof.
  intros (rs & -> & Hrs)%valid_utf8_runes. unfold escape. rewrite runes_utf8 by done. revert fuel.
  induction Hrs as [|r rs Hr _ IH]; intros fuel Hf; (destruct fuel as [|fuel]; [lia|]).
  - reflexivity.
  - cbn [fmap list_fmap foldr] in *. rewrite append_assoc, read_string_rune by done. rewrite append_length in Hf.
    pose proof (escape_rune_length (Some r)). rewrite IH by lia. done.
Qed.

(** ** Numbers are read back *)

Definition no_digit (s : string) : Prop :=
  match s with String c _ => is_digit c = false | EmptyString => True end.

(** What may follow a number. *)
Definition stops (s : string) : Prop :=
  match s with
  | String c _ => is_digit c = false /\ c <> "."%char /\ c <> "e"%char /\ c <> "E"%char
  | EmptyString => True
  end.

Lemma expect_other c s p t : c <> p -> expect (String p t) (String c s) = None.
Proof. intros Hc. unfold expect. simpl. by case_bool_decide. Qed.

Lemma HasPrefix_other c s p t : c <> p -> HasPrefix (String c s) (String p t) = false.
Proof. intros Hc. simpl. by case_bool_decide. Qed.

Lemma digit_char_not d : 0 <= d < 10 -> digit_char d <> "-"%char /\ digit_char d <> "+"%char /\ (d <> 0 -> digit_char d <> "0"%char).
Proof.
  intros Hd. assert (Forall (fun d => digit_char d <> "-"%char /\ digit_char d <> "+"%char /\ (d <> 0 -> digit_char d <> "0"%char))
    (seqZ 0 10)) as Hall by (apply (bool_decide_unpack _); vm_compute; exact I).
  rewrite Forall_forall in Hall. apply Hall, elem_of_seqZ. lia.
Qed.

Lemma digit_string_cons d l s : digit_string (d :: l) +:+ s = String (digit_char d) (digit_string l +:+ s).
Proof. done. Qed.

Lemma some_digits_text l s : l <> [] -> digits_below 10 l -> no_digit s -> some_digits (digit_string l +:+ s) = Some (l, s).
Proof. intros Hl Hb Hs. unfold some_digits. rewrite digit_run_string by done. by destruct l. Qed.

Lemma read_int_text l s :
  digits_below 10 l -> l <> [] -> (head l = Some 0 -> l = [0]) -> no_digit s -> read_int (digit_string l +:+ s) = Some (l, s).
Proof.
  intros Hb Hl Hz Hs. unfold read_int. destruct l as [|d l]; [done|]. destruct (decide (d = 0)) as [->|Hd].
  - specialize (Hz eq_refl). simplify_eq. change (digit_string [0] +:+ s) with ("0" +:+ s). by rewrite expect_append.
  - rewrite digit_string_cons, expect_other, <-digit_string_cons; [by apply some_digits_text|].
    apply Forall_cons in Hb as [Hr _]. by apply digit_char_not.
Qed.

Lemma read_frac_text l s :
  digits_below 10 l -> no_digit s -> (l = [] -> expect "." s = None) ->
  read_frac (frac_text l +:+ s) = Some (l, s).
Proof.
  intros Hb Hs He. unfold read_frac, frac_text. destruct l as [|d l].
  - change ("" +:+ s) with s. by rewrite He.
  - rewrite append_assoc, expect_append. by apply some_digits_text.
Qed.

Lemma read_exp_text e s : stops s -> read_exp (exponent_text e +:+ s) = Some (e, s).
Proof.
  intros Hs. unfold read_exp, exponent_text. destruct e as [e|].
  - pose proof (decimal_below (Z.abs e)) as Hb. pose proof (of_decimal (Z.abs e) ltac:(lia)) as Ho.
    destruct (decimal_wf (Z.abs e) ltac:(lia)) as [Hne _]. set (l := decimal (Z.abs e)) in *.
    assert (no_digit s) as Hn by (destruct s; [done|apply Hs]). rewrite !append_assoc.
    rewrite HasPrefix_append, TrimPrefix_append. cbn [orb].
    case_bool_decide.
    + rewrite HasPrefix_append, TrimPrefix_append, some_digits_text by done.
      cbn [mbind option_bind]. rewrite Ho. do 3 f_equal. lia.
    + assert (forall x, HasPrefix ("+" +:+ x) "-" = false) as -> by done. rewrite TrimPrefix_append, some_digits_text by done.
      cbn [mbind option_bind]. rewrite Ho. do 3 f_equal. lia.
  - change ("" +:+ s) with s. destruct s as [|c s]; [done|]. destruct Hs as (_ & _ & He & HE).
    by rewrite !HasPrefix_other.
Qed.

Lemma read_number_text n s : number_wf n -> stops s -> read_number (number_text n +:+ s) = Some (n, s).
Proof.
  intros (Hi & Hf & Hne & Hz) Hs. unfold read_number, number_text. rewrite !append_assoc.
  set (e := exponent_text (n_exp n) +:+ s).
  assert (no_digit e /\ expect "." e = None) as [He1 He2].
  { unfold e, exponent_text. destruct (n_exp n); [rewrite !append_assoc; by split|].
    change ("" +:+ s) with s. destruct s as [|c s]; [done|]. destruct Hs as (? & ? & _). split; [done|by rewrite expect_other]. }
  set (f := frac_text _ +:+ e). assert (no_digit f) as Hf1 by (unfold f; by destruct (n_frac n)).
  assert (HasPrefix (digit_string (n_int n) +:+ f) "-" = false) as Hm.
  { destruct (n_int n) as [|d l]; [done|]. apply Forall_cons in Hi as [Hd _]. rewrite digit_string_cons, HasPrefix_other; [done|].
    by apply digit_char_not. }
  assert (HasPrefix ((if n_neg n then "-" else "") +:+ digit_string (n_int n) +:+ f) "-" = n_neg n /\
    TrimPrefix ((if n_neg n then "-" else "") +:+ digit_string (n_int n) +:+ f) "-" = digit_string (n_int n) +:+ f) as [-> ->].
  { destruct (n_neg n).
    - split; [apply HasPrefix_append|apply TrimPrefix_append].
    - change ("" +:+ ?x) with x. split; [done|]. destruct (n_int n) as [|d l]; [done|]. rewrite digit_string_cons in *.
      simpl in Hm |- *. by case_bool_decide. }
  rewrite read_int_text by done. cbn [mbind option_bind]. unfold f. rewrite read_frac_text by done. cbn [mbind option_bind].
  unfold e. rewrite read_exp_text by done. cbn. by destruct n.
Qed.

(** ** Values are read back *)

(** A text that starts with a character that is no blank and not [x]. *)
Definition starts (x : ascii) (s : string) : Prop :=
  match s with String c _ => (code c ∉ [32; 9; 10; 13]) /\ c <> x | EmptyString => False end.

Lemma skip_starts x s t : starts x s -> skip_blank (s +:+ t) = (s +:+ t).
Proof.
  destruct s as [|c s]; [done|]. intros [Hc _]. rewrite append_String. cbn [skip_blank]. by rewrite bool_decide_false.
Qed.

Lemma expect_starts x s t : starts x s -> expect (String x "") (s +:+ t) = None.
Proof. destruct s as [|c s]; [done|]. intros [_ Hc]. rewrite append_String. by apply expect_other. Qed.

Lemma Join_length l : (length l <= S (String.length (Join l ",")))%nat.
Proof.
  induction l as [|x l IH]; [simpl; lia|]. destruct l as [|y l]; [simpl; lia|].
  change (Join (x :: y :: l) ",") with (x +:+ "," +:+ Join (y :: l) ","). rewrite !append_length.
  change (String.length ",") with 1%nat. cbn [length] in *. lia.
Qed.

Section Items.
Context {A : Type} (read : string -> option (A * string)) (text : A -> string) (close : ascii).
Hypothesis (close_stops : forall s, stops (String close s)) (close_blank : code close ∉ [32; 9; 10; 13]).
Hypothesis (close_comma : close <> ","%char).

(** Each item is read back, whatever follows that ends it. *)
Definition readable (a : A) : Prop :=
  starts close (text a) /\ forall s, stops s -> read (text a +:+ s) = Some (a, s).

Lemma skip_close s : skip_blank (String close s) = String close s.
Proof using Type*. cbn [skip_blank]. by rewrite bool_decide_false. Qed.

Lemma expect_close s : expect (String close "") (String close s) = Some s.
Proof using Type*. apply (expect_append (String close "") s). Qed.

Lemma read_items_text l fuel s :
  l <> [] -> Forall readable l -> (length l <= fuel)%nat ->
  read_items read (String close "") fuel (Join (map text l) "," +:+ String close s) = Some (l, s).
Proof using Type*.
  intros Hne Hl. revert fuel. induction Hl as [|a l [Ha Hr] Hl IH]; intros fuel Hf; [done|].
  destruct fuel as [|fuel]; [simpl in Hf; lia|]. cbn [map Join read_items]. destruct l as [|b l].
  - cbn [map]. rewrite Hr by done. cbn [mbind option_bind]. by rewrite skip_close, expect_close.
  - change (match map text (b :: l) with [] => text a | _ :: _ => text a +:+ "," +:+ Join (map text (b :: l)) "," end)
      with (text a +:+ "," +:+ Join (map text (b :: l)) ",").
    rewrite !append_assoc. rewrite Hr by (by repeat split). cbn [mbind option_bind].
    change (skip_blank ("," +:+ ?x)) with ("," +:+ x).
    assert (forall x, expect (String close "") ("," +:+ x) = None) as -> by (intros x; by apply expect_other).
    rewrite expect_append. cbn [mbind option_bind]. by rewrite IH by (done || simpl in *; lia).
Qed.

Lemma read_list_text l s :
  Forall readable l -> read_list read (String close "") (Join (map text l) "," +:+ String close s) = Some (l, s).
Proof using Type*.
  intros Hl. unfold read_list. destruct l as [|a l].
  - change (Join (map text []) "," +:+ String close s) with (String close s). by rewrite skip_close, expect_close.
  - assert (starts close (Join (map text (a :: l)) ",")) as Hs.
    { inversion_clear Hl as [|? ? [Ha _] _]. cbn [map Join]. destruct (text a) as [|c t]; [done|]. by destruct (map text l). }
    rewrite (skip_starts close), expect_starts by done. apply read_items_text; [done|done|].
    pose proof (Join_length (map text (a :: l))) as HJ. rewrite length_map in HJ. rewrite append_length. lia.
Qed.
End Items.

(** What a number can start with, and what it cannot. *)
Definition number_first (c : ascii) : Prop :=
  (code c ∉ [32; 9; 10; 13]) /\ c ∉ ["]"; "["; "{"; "n"; "t"; "f"; quote]%char.

Lemma digit_first : Forall number_first ((fun d => digit_char d) <$> seqZ 0 10).
Proof. apply (bool_decide_unpack _). vm_compute. exact I. Qed.

Lemma number_text_first n : number_wf n -> exists c t, number_text n = String c t /\ number_first c.
Proof.
  intros (Hi & _ & Hne & _). unfold number_text. destruct (n_neg n).
  - eexists _, _. split; [reflexivity|]. apply (bool_decide_unpack _). vm_compute. exact I.
  - destruct (n_int n) as [|d l]; [done|]. change ("" +:+ ?x) with x. rewrite digit_string_cons. eexists _, _.
    split; [reflexivity|]. apply Forall_cons in Hi as [Hd _]. pose proof digit_first as Hf. rewrite Forall_fmap, Forall_forall in Hf.
    apply (Hf d), elem_of_seqZ. lia.
Qed.

Lemma read_literal_number n s : number_wf n -> stops s -> read_literal (number_text n +:+ s) = Some (JNum n, s).
Proof.
  intros Hn Hs. pose proof (read_number_text n s Hn Hs) as Hr. destruct (number_text_first n Hn) as (c & t & He & [_ Hc]).
  rewrite He, append_String in *. unfold read_literal. rewrite !expect_other by set_solver. by rewrite Hr.
Qed.

Lemma read_string_value s rest :
  valid_utf8 s = true ->
  expect (String quote "") (string_text s +:+ rest) = Some (escape s +:+ String quote rest) /\
  read_string (S (String.length (escape s +:+ String quote rest))) (escape s +:+ String quote rest) = Some (s, rest).
Proof.
  intros Hs. unfold string_text. split.
  - rewrite append_String, append_assoc. apply (expect_append (String quote "")).
  - apply read_string_text; [done|]. rewrite append_length. lia.
Qed.

Lemma encode_starts d j : writable d j -> starts "]" (encode j).
Proof.
  intros [?|? b|? n Hn|? s _|? l _|? ms _]; try (destruct b); try (split; [apply (bool_decide_unpack _); vm_compute; exact I|done]).
  cbn [encode]. destruct (number_text_first n Hn) as (c & t & -> & H1 & H2). split; [done|]. intros ->. set_solver.
Qed.

Lemma read_scalar d j s :
  writable d j -> stops s -> (forall l, j <> JArr l) -> (forall ms, j <> JObj ms) ->
  expect "[" (encode j +:+ s) = None /\ expect "{" (encode j +:+ s) = None /\ read_literal (encode j +:+ s) = Some (j, s).
Proof.
  intros Hw Hs Ha Ho. destruct Hw as [?|? b|? n Hn|? t Ht|? l _|? ms _]; [done|by destruct b| | |by destruct (Ha l)|by destruct (Ho ms)].
  - cbn [encode]. pose proof (read_literal_number n s Hn Hs). destruct (number_text_first n Hn) as (c & t & He & [_ Hc]).
    rewrite He, append_String in *. rewrite !expect_other by set_solver. done.
  - cbn [encode]. destruct (read_string_value t s Ht) as [He Hr]. unfold read_literal. rewrite He, Hr.
    change (string_text t +:+ s) with (String quote ((escape t +:+ String quote "") +:+ s)).
    by rewrite !expect_other.
Qed.

Lemma member_readable d k v :
  valid_utf8 k = true -> (forall s, stops s -> read_value d (encode v +:+ s) = Some (v, s)) ->
  readable (read_member (read_value d)) (fun m => let '(k, v) := m in string_text k +:+ ":" +:+ encode v) "}" (k, v).
Proof.
  intros Hk Hv. split; [split; [apply (bool_decide_unpack _); vm_compute; exact I|done]|]. intros s Hs. unfold read_member.
  rewrite !append_assoc. destruct (read_string_value k (":" +:+ encode v +:+ s) Hk) as [He Hr].
  assert (forall x, skip_blank (string_text k +:+ x) = (string_text k +:+ x)) as -> by done.
  rewrite He. cbn [mbind option_bind]. rewrite Hr. cbn [mbind option_bind].
  change (skip_blank (":" +:+ ?x)) with (":" +:+ x). rewrite expect_append. cbn [mbind option_bind]. by rewrite Hv.
Qed.

(** A tree that can be written is read back from its text. *)
Lemma read_value_text d j s : writable d j -> stops s -> read_value d (encode j +:+ s) = Some (j, s).
Proof.
  revert j s. induction d as [|d IH]; intros j s Hw Hs.
  - destruct (read_scalar 0 j s Hw Hs) as (H1 & H2 & H3); [by inversion Hw|by inversion Hw|].
    cbn [read_value]. rewrite (skip_starts "]") by (by eapply encode_starts). by rewrite H1, H2.
  - assert ((exists l, j = JArr l) \/ (exists ms, j = JObj ms) \/ (forall l, j <> JArr l) /\ forall ms, j <> JObj ms) as Hc
      by (destruct j; naive_solver).
    destruct Hc as [Hc|[Hc|[Ha Ho]]].
    3:{ destruct (read_scalar (S d) j s Hw Hs Ha Ho) as (H1 & H2 & H3).
        cbn [read_value]. rewrite (skip_starts "]") by (by eapply encode_starts). by rewrite H1, H2. }
    all: cbn [read_value]; rewrite (skip_starts "]") by (by eapply encode_starts); destruct Hc as [l ->].
    + inversion_clear Hw as [| | | |? ? Hl|]. cbn [encode]. rewrite !append_assoc, expect_append.
      change ("]" +:+ s) with (String "]" s). rewrite read_list_text; [done|by repeat split|apply (bool_decide_unpack _); by vm_compute|done|].
      eapply Forall_impl; [exact Hl|]. intros v Hv. split; [by eapply encode_starts|]. intros s' Hs'. by apply IH.
    + inversion_clear Hw as [| | | | |? ms Hl]. cbn [encode]. rewrite !append_assoc, expect_append.
      rewrite append_String, expect_other by done.
      change ("}" +:+ s) with (String "}" s). rewrite read_list_text; [done|by repeat split|apply (bool_decide_unpack _); by vm_compute|done|].
      eapply Forall_impl; [exact Hl|]. intros [k v] [Hk Hv]. apply member_readable; [done|]. intros s' Hs'. by apply IH.
Qed.

Lemma writable_mono d d' j : (d <= d')%nat -> writable d j -> writable d' j.
Proof.
  revert d' j. induction d as [|d IH]; intros d' j Hd Hw; inversion Hw as [| | | |? l Hl|? ms Hl]; subst; try by constructor.
  - destruct d' as [|d']; [lia|]. constructor. eapply Forall_impl; [exact Hl|]. intros v Hv. apply IH; [lia|done].
  - destruct d' as [|d']; [lia|]. constructor. eapply Forall_impl; [exact Hl|]. intros m [? Hv]. split; [done|].
    apply IH; [lia|done].
Qed.

Lemma decode_encode j : writable max_depth j -> decode (encode j) = Some j.
Proof.
  intros Hw. Transparent decode. unfold decode, decode_to. Opaque decode. rewrite <- (append_nil_r (encode j)), read_value_text by done. cbn. done.
Qed.
