(* ===== verification/Jsonb.v ===== *)
(** * Documents in a database column

    A [jsonb] column gives back the document it was given, not its text: members in
    another order, numbers in another form. [same_document] is what it keeps; the class
    [Jsonb] is the column, with what the database promises. *)

From S2P Require Import Prelude GoStrings Digits GoFloat Numbers Utf8 Json JsonText.
From Stdlib Require Import Ascii.

(** ** The same document *)

(** A number without an exponent is kept as it is, another one keeps its value. *)
Definition same_number (n n' : number) : Prop :=
  number_float n' = number_float n /\ (n_exp n = None -> n' = n).

Inductive same_document : json -> json -> Prop :=
| same_null : same_document JNull JNull
| same_bool b : same_document (JBool b) (JBool b)
| same_num n n' : same_number n n' -> same_document (JNum n) (JNum n')
| same_str s : same_document (JStr s) (JStr s)
| same_arr l l' : Forall2 same_document l l' -> same_document (JArr l) (JArr l')
| same_obj ms ms1 ms' :
    Forall2 (fun m m1 => fst m = fst m1 /\ same_document (snd m) (snd m1)) ms ms1 -> ms1 ≡ₚ ms' ->
    same_document (JObj ms) (JObj ms').

(** The numbers that the database's [numeric] holds, by their digits before and after the
    point. *)
Definition in_numeric (n : number) : bool :=
  let e := default 0 (n_exp n) in
  (Z.of_nat (length (n_int n)) + e <=? 131072) && (Z.of_nat (length (n_frac n)) - e <=? 16383).

(** What a column keeps: strings without the character zero, keys once, no negative zero,
    numbers within its range. *)
Definition no_nul (s : string) : bool := negb (string_elem (chr 0) s).

Fixpoint storable (j : json) : bool :=
  match j with
  | JNull | JBool _ => true
  | JNum n => in_numeric n && (negb (n_neg n) || negb (bool_decide (of_digits 10 (n_int n ++ n_frac n) = 0)))
  | JStr s => no_nul s
  | JArr l => forallb storable l
  | JObj ms =>
      bool_decide (NoDup (map fst ms)) && forallb (fun m => let '(k, v) := m in no_nul k && storable v) ms
  end.

(** A string or a key with the character zero, somewhere. *)
Fixpoint has_nul (j : json) : bool :=
  match j with
  | JNull | JBool _ | JNum _ => false
  | JStr s => negb (no_nul s)
  | JArr l => existsb has_nul l
  | JObj ms => existsb (fun m => let '(k, v) := m in negb (no_nul k) || has_nul v) ms
  end.

(** ** The column

    [jsonb s] is the text that is read back after [s] was written, if that is accepted. *)
Class Jsonb := { jsonb : string -> option string }.

(** Nesting that any set-up of the database accepts. *)
Definition jsonb_depth : nat := 100.

Class JsonbLaws `{Jsonb} := {
  jsonb_keeps j :
    writable jsonb_depth j -> storable j = true ->
    exists s j', jsonb (encode j) = Some s /\ decode s = Some j' /\ same_document j j';
  jsonb_refuses s : (forall depth, decode_to depth s = None) -> jsonb s = None;
  jsonb_nul s j : decode s = Some j -> has_nul j = true -> jsonb s = None
}.

(** What a column of the database never takes: what is no document at any depth, and a
    document with the character zero. *)
Definition refused (s : string) : Prop :=
  (forall depth, decode_to depth s = None) \/ exists j, decode s = Some j /\ has_nul j = true.

(** The database's refusal. *)
Definition ErrInvalidJSON : error := ErrVar "invalid input syntax for type json".

(** A column that may be NULL: a nil slice, [""] here, is stored as NULL and read back as one. *)
Definition jsonb_or_null `{Jsonb} (s : string) : option string :=
  if bool_decide (s = "") then Some "" else jsonb s.

(** ** A column, for examples

    Members by the length of their keys and then by their keys, the last one of a key. *)
Definition key_le (m m' : string * json) : bool :=
  bool_decide (String.length (fst m) < String.length (fst m'))%nat ||
  bool_decide (String.length (fst m) = String.length (fst m')) && String.leb (fst m) (fst m').

#[export] Instance key_le_dec : RelDecision (fun m m' => key_le m m' = true).
Proof. intros m m'. apply _. Defined.

Fixpoint keep_last (ms : list (string * json)) : list (string * json) :=
  match ms with
  | [] => []
  | m :: ms => if bool_decide (fst m ∈ ms.*1) then keep_last ms else m :: keep_last ms
  end.

Fixpoint normal (j : json) : json :=
  match j with
  | JArr l => JArr (map normal l)
  | JObj ms => JObj (merge_sort (fun m m' => key_le m m' = true) (keep_last (map (fun m => let '(k, v) := m in (k, normal v)) ms)))
  | _ => j
  end.

#[export] Instance sorted_jsonb : Jsonb := {
  jsonb s := j ← decode s; if storable j then Some (encode (normal j)) else None
}.

(** ** Lemmas *)

Lemma json_nested_ind (P : json -> Prop) :
  P JNull -> (forall b, P (JBool b)) -> (forall n, P (JNum n)) -> (forall s, P (JStr s)) ->
  (forall l, Forall P l -> P (JArr l)) -> (forall ms, Forall (fun m => P (snd m)) ms -> P (JObj ms)) -> forall j, P j.
Proof.
  intros H1 H2 H3 H4 H5 H6. fix IH 1. intros [|b|n|s|l|ms]; [done|apply H2|apply H3|apply H4|apply H5|apply H6].
  - induction l as [|j l IHl]; constructor; [apply IH|exact IHl].
  - induction ms as [|[k j] ms IHl]; constructor; [apply IH|exact IHl].
Qed.

Lemma same_document_refl j : same_document j j.
Proof.
  induction j as [|b|n|s|l IH|ms IH] using json_nested_ind; try constructor; try done.
  - induction IH; by constructor.
  - apply (same_obj ms ms); [|done]. induction IH; by constructor.
Qed.

Lemma storable_no_nul j : storable j = true -> has_nul j = false.
Proof.
  induction j as [|b|n|s|l IH|ms IH] using json_nested_ind; cbn [storable has_nul]; intros Hs; try done.
  - by rewrite Hs.
  - induction IH as [|j l Hj _ IHl]; [done|]. simpl in Hs. apply andb_true_iff in Hs as [H1 H2].
    simpl. rewrite Hj by done. by apply IHl.
  - apply andb_true_iff in Hs as [_ Hs]. induction IH as [|[k v] ms Hj _ IHl]; [done|]. simpl in Hs.
    apply andb_true_iff in Hs as [[Hk H1]%andb_true_iff H2]. simpl in Hj |- *. rewrite Hk, (Hj H1). by apply IHl.
Qed.

Lemma refused_jsonb `{JsonbLaws} s : refused s -> jsonb s = None.
Proof. intros [Hs|(j & Hj & Hn)]; [by apply jsonb_refuses|by eapply jsonb_nul]. Qed.

(** The empty text, a nil slice, is no document. *)
Lemma jsonb_empty `{JsonbLaws} : jsonb "" = None.
Proof. apply jsonb_refuses. intros depth. by destruct depth. Qed.

Lemma keep_last_id ms : NoDup ms.*1 -> keep_last ms = ms.
Proof.
  induction ms as [|m ms IH]; [done|]. rewrite fmap_cons. intros [Hm Hn]%NoDup_cons. cbn [keep_last].
  by rewrite bool_decide_false, IH.
Qed.

Lemma normal_keys ms : (map (fun m : string * json => let '(k, v) := m in (k, normal v)) ms).*1 = map fst ms.
Proof. induction ms as [|[k v] ms IH]; [done|]. exact (f_equal (cons k) IH). Qed.

Lemma normal_obj ms :
  NoDup (map fst ms) ->
  exists ms', normal (JObj ms) = JObj ms' /\ map (fun m => let '(k, v) := m in (k, normal v)) ms ≡ₚ ms'.
Proof.
  intros Hn. cbn [normal]. eexists. split; [done|]. rewrite keep_last_id by (by rewrite normal_keys).
  symmetry. apply merge_sort_Permutation.
Qed.

Lemma normal_same j : storable j = true -> same_document j (normal j).
Proof.
  induction j as [|b|n|s|l IH|ms IH] using json_nested_ind; intros Hs; try apply same_document_refl.
  - cbn [storable normal] in *. constructor. induction IH as [|j l Hj _ IHl]; [constructor|].
    apply andb_true_iff in Hs as [H1 H2]. constructor; auto.
  - cbn [storable] in Hs. apply andb_true_iff in Hs as [Hn%bool_decide_eq_true Hs].
    destruct (normal_obj ms Hn) as (ms' & -> & Hp). eapply same_obj; [|exact Hp]. clear Hp Hn.
    induction IH as [|[k v] ms Hj _ IHl]; [constructor|]. simpl in Hs. apply andb_true_iff in Hs as [[_ H1]%andb_true_iff H2].
    constructor; [by split; [|apply Hj]|by apply IHl].
Qed.

Lemma normal_writable d j : storable j = true -> writable d j -> writable d (normal j).
Proof.
  revert d. induction j as [|b|n|s|l IH|ms IH] using json_nested_ind; intros d Hs Hw; try done.
  - inversion Hw as [| | | |d' ? Hl|]; subst. cbn [storable normal] in *. constructor.
    induction IH as [|j l Hj _ IHl]; [constructor|]. apply andb_true_iff in Hs as [H1 H2].
    apply Forall_cons in Hl as [Hjw Hl]. constructor; [by apply Hj|by apply IHl; [|constructor|]].
  - inversion Hw as [| | | | |d' ? Hl]; subst. cbn [storable] in Hs. apply andb_true_iff in Hs as [Hn%bool_decide_eq_true Hs].
    destruct (normal_obj ms Hn) as (ms' & -> & Hp). constructor. rewrite <-Hp. clear Hp Hn Hw.
    induction IH as [|[k v] ms Hj _ IHl]; [constructor|]. simpl in Hs. apply andb_true_iff in Hs as [[_ H1]%andb_true_iff H2].
    apply Forall_cons in Hl as [[Hk Hv] Hl]. constructor; [by split; [|apply Hj]|by apply IHl].
Qed.

#[export] Instance sorted_jsonb_laws : JsonbLaws.
Proof.
  split.
  - intros j Hw Hs. assert (writable max_depth j) as Hw'.
    { eapply writable_mono; [|exact Hw]. apply Nat.leb_le. vm_compute. reflexivity. }
    exists (encode (normal j)), (normal j). cbn [jsonb sorted_jsonb]. rewrite decode_encode by done. cbn. rewrite Hs.
    split; [done|]. split; [|by apply normal_same]. by apply decode_encode, normal_writable.
  - intros s Hs. cbn [jsonb sorted_jsonb]. by rewrite (Hs max_depth : decode s = None).
  - intros s j Hj Hn. cbn [jsonb sorted_jsonb]. rewrite Hj. cbn. destruct (storable j) eqn:Hs; [|done].
    apply storable_no_nul in Hs. congruence.
Qed.
