(* ===== verification/Timestamps.v ===== *)
(** * Times in a database column

    A timestamp is kept to the microsecond. The class says what the database and its
    driver promise of the instant that is stored, or compared, for one that is sent. They
    promise it of a column with a time zone, as the mapper declares them. A column without
    one, as in the SQL texts of the event store and of the API keys, keeps the reading of the
    clock in the zone of the sender: for it the class is right if the services run in UTC. *)

From S2P Require Import Prelude.

Definition Microsecond : Z := 1000.

Class Timestamps := {
  ts : Z -> Z;
  ts_near t : - Microsecond < ts t - t < Microsecond;
  ts_mono t u : t <= u -> ts t <= ts u;
  ts_idem t : ts (ts t) = ts t
}.

(** What is stored as earlier was earlier. *)
Lemma ts_lt `{Timestamps} t u : ts t < ts u -> t < u.
Proof. intros Hlt. destruct (Z.lt_ge_cases t u) as [|Hle%ts_mono]; [done|lia]. Qed.

(** A microsecond apart from what is stored, an instant is stored as another one. *)
Lemma ts_after `{Timestamps} t u : ts t + Microsecond <= u -> ts t < ts u.
Proof. intros Hle. pose proof (ts_near u). lia. Qed.

(** Truncation, as the driver does it. *)
#[export] Program Instance truncated : Timestamps := { ts t := t / Microsecond * Microsecond }.
Next Obligation. intros t. simpl. unfold Microsecond. Z.div_mod_to_equations. lia. Qed.
Next Obligation. intros t u Hle. simpl. unfold Microsecond. Z.div_mod_to_equations. lia. Qed.
Next Obligation. intros t. simpl. unfold Microsecond. rewrite Z.div_mul; lia. Qed.
