(* ===== verification/CircuitBreaker.v ===== *)
(** * The circuit breaker (src/resilience/circuit_breaker.go)

    The breaker's record with the operations that run under its mutex
    ([beforeRequest], [onFailure], [onSuccess], [afterRequest], [Reset]), the
    wrapper [Execute], a labelled step relation for several requests in flight
    at once, and an abstract three-state breaker which the record refines. *)

From S2P Require Import Prelude.

(** ** Data *)

Inductive CircuitState := StateClosed | StateOpen | StateHalfOpen.

#[export] Instance CircuitState_eq_dec : EqDecision CircuitState.
Proof. solve_decision. Defined.

Definition ErrCircuitOpen : error := ErrVar "resilience.ErrCircuitOpen".
Definition ErrTooManyRequests : error := ErrVar "resilience.ErrTooManyRequests".

Record CircuitBreakerConfig := {
  Name : string;
  MaxFailures : Z;
  Timeout : Z;
  ResetTimeout : Z
}.

Definition DefaultCircuitBreakerConfig (name : string) : CircuitBreakerConfig :=
  {| Name := name; MaxFailures := 5; Timeout := 30 * Second; ResetTimeout := 10 * Second |}.

Record CircuitBreaker := {
  config : CircuitBreakerConfig;
  state : CircuitState;
  failures : Z;
  successes : Z;
  lastFailTime : Z;
  lastAttempt : Z
}.

(** ** Operations *)

Definition NewCircuitBreaker (cfg : CircuitBreakerConfig) : CircuitBreaker :=
  {| config :=
       {| Name := Name cfg;
          MaxFailures := if bool_decide (MaxFailures cfg <= 0) then 5 else MaxFailures cfg;
          Timeout := if bool_decide (Timeout cfg <= 0) then 30 * Second else Timeout cfg;
          ResetTimeout :=
            if bool_decide (ResetTimeout cfg <= 0) then 10 * Second else ResetTimeout cfg |};
     state := StateClosed; failures := 0; successes := 0;
     lastFailTime := time_zero; lastAttempt := time_zero |}.

Definition beforeRequest (now : Z) (cb : CircuitBreaker) : CircuitBreaker * option error :=
  match state cb with
  | StateClosed => (cb, None)
  | StateOpen =>
      if bool_decide (Timeout (config cb) < time_Sub now (lastFailTime cb)) then
        ({| config := config cb; state := StateHalfOpen; failures := failures cb;
            successes := 0; lastFailTime := lastFailTime cb; lastAttempt := now |}, None)
      else (cb, Some ErrCircuitOpen)
  | StateHalfOpen =>
      if bool_decide (time_Sub now (lastAttempt cb) < Second) then (cb, Some ErrTooManyRequests)
      else
        ({| config := config cb; state := state cb; failures := failures cb;
            successes := successes cb; lastFailTime := lastFailTime cb;
            lastAttempt := now |}, None)
  end.

Definition onFailure (now : Z) (cb : CircuitBreaker) : CircuitBreaker :=
  let n := wrap64 (failures cb + 1) in
  {| config := config cb;
     state :=
       match state cb with
       | StateClosed => if bool_decide (MaxFailures (config cb) <= n) then StateOpen else StateClosed
       | StateHalfOpen => StateOpen
       | StateOpen => StateOpen
       end;
     failures := n; successes := successes cb; lastFailTime := now;
     lastAttempt := lastAttempt cb |}.

Definition onSuccess (cb : CircuitBreaker) : CircuitBreaker :=
  match state cb with
  | StateClosed =>
      {| config := config cb; state := StateClosed; failures := 0; successes := successes cb;
         lastFailTime := lastFailTime cb; lastAttempt := lastAttempt cb |}
  | StateHalfOpen =>
      let s := wrap64 (successes cb + 1) in
      if bool_decide (3 <= s) then
        {| config := config cb; state := StateClosed; failures := 0; successes := s;
           lastFailTime := lastFailTime cb; lastAttempt := lastAttempt cb |}
      else
        {| config := config cb; state := StateHalfOpen; failures := failures cb; successes := s;
           lastFailTime := lastFailTime cb; lastAttempt := lastAttempt cb |}
  | StateOpen => cb
  end.

(** [now] is the clock reading [onFailure] takes. *)
Definition afterRequest (now : Z) (err : option error) (cb : CircuitBreaker) : CircuitBreaker :=
  match err with Some _ => onFailure now cb | None => onSuccess cb end.

Definition Reset (cb : CircuitBreaker) : CircuitBreaker :=
  {| config := config cb; state := StateClosed; failures := 0; successes := 0;
     lastFailTime := lastFailTime cb; lastAttempt := lastAttempt cb |}.

Definition StateName (cb : CircuitBreaker) : string :=
  match state cb with
  | StateClosed => "closed" | StateOpen => "open" | StateHalfOpen => "half-open"
  end.

Definition IsOpen (cb : CircuitBreaker) : bool := bool_decide (state cb = StateOpen).

(** [Execute] and [ExecuteWithContext]: the wrapped function runs with the
    mutex released, so what it does to the breaker (through other requests) is
    part of its effect on the pair (breaker, world). [clock] reads the time. *)
Definition ExecuteWithContext {W : Type} (clock : W -> Z)
    (fn : CircuitBreaker * W -> (CircuitBreaker * W) * option error)
    (s : CircuitBreaker * W) : (CircuitBreaker * W) * option error :=
  let '(cb, w) := s in
  match beforeRequest (clock w) cb with
  | (cb1, Some e) => ((cb1, w), Some e)
  | (cb1, None) =>
      let '((cb2, w2), err) := fn (cb1, w) in
      ((afterRequest (clock w2) err cb2, w2), err)
  end.

(** ** Several requests in flight

    Each mutex-protected section is one step; the clock only moves forward. *)
Record sys := { sys_cb : CircuitBreaker; sys_clock : Z; sys_inflight : nat }.

Inductive label :=
| LTick | LAdmit | LReject (e : error) | LFinish (err : option error) | LReset.

#[export] Instance label_eq_dec : EqDecision label.
Proof. solve_decision. Defined.

Inductive cb_step : sys -> label -> sys -> Prop :=
| step_tick cb t n d : 0 <= d ->
    cb_step {| sys_cb := cb; sys_clock := t; sys_inflight := n |} LTick
            {| sys_cb := cb; sys_clock := t + d; sys_inflight := n |}
| step_admit cb cb' t n : beforeRequest t cb = (cb', None) ->
    cb_step {| sys_cb := cb; sys_clock := t; sys_inflight := n |} LAdmit
            {| sys_cb := cb'; sys_clock := t; sys_inflight := S n |}
| step_reject cb cb' t n e : beforeRequest t cb = (cb', Some e) ->
    cb_step {| sys_cb := cb; sys_clock := t; sys_inflight := n |} (LReject e)
            {| sys_cb := cb'; sys_clock := t; sys_inflight := n |}
| step_finish cb t n err :
    cb_step {| sys_cb := cb; sys_clock := t; sys_inflight := S n |} (LFinish err)
            {| sys_cb := afterRequest t err cb; sys_clock := t; sys_inflight := n |}
| step_reset cb t n :
    cb_step {| sys_cb := cb; sys_clock := t; sys_inflight := n |} LReset
            {| sys_cb := Reset cb; sys_clock := t; sys_inflight := n |}.

(** A run through states that all satisfy [P], with its labels. *)
Inductive run (P : sys -> Prop) : sys -> list label -> sys -> Prop :=
| run_nil s : P s -> run P s [] s
| run_cons s l s1 ls s2 : P s -> cb_step s l s1 -> run P s1 ls s2 -> run P s (l :: ls) s2.

(** The configuration's fields have the ranges of their Go types. *)
Definition cfg_typed (cfg : CircuitBreakerConfig) : Prop :=
  in_int64 (MaxFailures cfg) /\ in_int64 (Timeout cfg).

Definition cb_init (s : sys) : Prop :=
  exists cfg, cfg_typed cfg /\ sys_cb s = NewCircuitBreaker cfg /\ sys_inflight s = 0%nat /\
    time_zero <= sys_clock s.

Definition cb_reachable : sys -> Prop :=
  reachable cb_init (fun s s' => exists l, cb_step s l s').

(** The invariant of the record. *)
Definition cb_wf (cb : CircuitBreaker) : Prop :=
  0 < MaxFailures (config cb) <= max_int64 /\ 0 < Timeout (config cb) <= max_int64 /\
  match state cb with
  | StateClosed => 0 <= failures cb < MaxFailures (config cb)
  | StateHalfOpen => 0 <= successes cb < 3
  | StateOpen => True
  end.

Definition sys_wf (s : sys) : Prop :=
  cb_wf (sys_cb s) /\ lastFailTime (sys_cb s) <= sys_clock s /\
  lastAttempt (sys_cb s) <= sys_clock s.

Definition admits (ls : list label) : Z :=
  Z.of_nat (length (filter (fun l => l = LAdmit) ls)).

(** ** The abstract breaker

    What a caller can observe: how many failures in a row a closed circuit has
    seen, since when it is open, or how many probes a half-open one has won
    and when it let the last one through. *)
Inductive view :=
| VClosed (fails : Z)
| VOpen (since : Z)
| VHalfOpen (won : Z) (last : Z).

Definition spec_before (cfg : CircuitBreakerConfig) (now : Z) (v : view) : view * option error :=
  match v with
  | VClosed _ => (v, None)
  | VOpen since =>
      if bool_decide (Timeout cfg < time_Sub now since) then (VHalfOpen 0 now, None)
      else (v, Some ErrCircuitOpen)
  | VHalfOpen won last =>
      if bool_decide (time_Sub now last < Second) then (v, Some ErrTooManyRequests)
      else (VHalfOpen won now, None)
  end.

Definition spec_after (cfg : CircuitBreakerConfig) (now : Z) (err : option error) (v : view) : view :=
  match v, err with
  | VClosed n, Some _ =>
      if bool_decide (MaxFailures cfg <= wrap64 (n + 1)) then VOpen now else VClosed (wrap64 (n + 1))
  | VClosed _, None => VClosed 0
  | VHalfOpen _ _, Some _ => VOpen now
  | VHalfOpen won last, None =>
      if bool_decide (3 <= wrap64 (won + 1)) then VClosed 0 else VHalfOpen (wrap64 (won + 1)) last
  | VOpen _, Some _ => VOpen now
  | VOpen since, None => VOpen since
  end.

Definition abs (cb : CircuitBreaker) : view :=
  match state cb with
  | StateClosed => VClosed (failures cb)
  | StateOpen => VOpen (lastFailTime cb)
  | StateHalfOpen => VHalfOpen (successes cb) (lastAttempt cb)
  end.

Inductive call := CBefore (now : Z) | CAfter (now : Z) (err : option error) | CReset.

Definition exec_call (c : call) (cb : CircuitBreaker) : CircuitBreaker * option error :=
  match c with
  | CBefore now => beforeRequest now cb
  | CAfter now err => (afterRequest now err cb, None)
  | CReset => (Reset cb, None)
  end.

Definition spec_call (cfg : CircuitBreakerConfig) (c : call) (v : view) : view * option error :=
  match c with
  | CBefore now => spec_before cfg now v
  | CAfter now err => (spec_after cfg now err v, None)
  | CReset => (VClosed 0, None)
  end.

(** Run a list of calls and collect the answers. *)
Fixpoint exec_calls {S : Type} (f : call -> S -> S * option error) (cs : list call) (s : S)
    : S * list (option error) :=
  match cs with
  | [] => (s, [])
  | c :: cs => let '(s1, r) := f c s in
               let '(s2, rs) := exec_calls f cs s1 in (s2, r :: rs)
  end.

(** Two breakers no sequence of calls can tell apart. *)
#[export] Instance cb_equiv : Equiv CircuitBreaker :=
  fun a b => config a = config b /\ abs a = abs b.

(** The calls of requests that all fail, at the given times. *)
Definition fail_calls (e : error) (ts : list Z) : list call :=
  ts ≫= (fun t => [CBefore t; CAfter t (Some e)]).

(** A request admitted at [t] whose wrapped function succeeds. *)
Definition success_call (t : Z) : list call := [CBefore t; CAfter t None].

(** A default breaker that five failing requests have opened. *)
Definition witness_cb : CircuitBreaker :=
  fst (exec_calls exec_call (fail_calls (ErrExt 1) [1; 2; 3; 4; 5])
    (NewCircuitBreaker (DefaultCircuitBreakerConfig "w"))).

Definition witness_sys (t : Z) : sys :=
  {| sys_cb := witness_cb; sys_clock := t; sys_inflight := 0 |}.

(** The same breaker after its first probe, 31 seconds later. *)
Definition witness_probe : sys :=
  {| sys_cb := fst (beforeRequest (31 * Second) witness_cb);
     sys_clock := 31 * Second; sys_inflight := 1 |}.

(** ** Lemmas *)

#[export] Instance cb_equiv_equivalence : Equivalence (≡@{CircuitBreaker}).
Proof.
  split; [by intros ?| by intros ?? []| intros ??? [] []; split; congruence].
Qed.

(** Every operation keeps the configuration and commutes with [abs]. *)
Lemma exec_call_config c cb : config (fst (exec_call c cb)) = config cb.
Proof.
  destruct c as [now|now []|]; simpl; unfold beforeRequest, onSuccess; by branches.
Qed.

Lemma exec_call_abs c cb :
  abs (fst (exec_call c cb)) = fst (spec_call (config cb) c (abs cb)) /\
  snd (exec_call c cb) = snd (spec_call (config cb) c (abs cb)).
Proof.
  destruct c as [now|now []|], cb as [? [] ????]; simpl;
    unfold abs, beforeRequest, onFailure, onSuccess; simpl; by branches.
Qed.

#[export] Instance exec_call_proper c :
  Proper ((≡@{CircuitBreaker}) ==> (fun r1 r2 => fst r1 ≡ fst r2 /\ snd r1 = snd r2)) (exec_call c).
Proof.
  intros a b [Hc Ha]. pose proof (exec_call_abs c a) as [H1 H2].
  pose proof (exec_call_abs c b) as [H3 H4]. rewrite Hc, Ha in H1, H2.
  repeat split; [by rewrite !exec_call_config| congruence| congruence].
Qed.

Lemma wf_before now cb : cb_wf cb -> cb_wf (fst (beforeRequest now cb)).
Proof. unfold cb_wf, beforeRequest. intros (?&?&?). solve_branches. Qed.

Lemma wf_after now err cb : cb_wf cb -> cb_wf (afterRequest now err cb).
Proof.
  unfold cb_wf, afterRequest, onFailure, onSuccess. intros (?&?&?).
  destruct err; simpl; solve_branches.
Qed.

Lemma wf_new cfg : cfg_typed cfg -> cb_wf (NewCircuitBreaker cfg).
Proof. unfold cfg_typed, cb_wf, NewCircuitBreaker. simpl. intros []. solve_branches. Qed.

Lemma times_before now cb :
  lastFailTime (fst (beforeRequest now cb)) = lastFailTime cb /\
  (lastAttempt (fst (beforeRequest now cb)) = lastAttempt cb \/
   lastAttempt (fst (beforeRequest now cb)) = now).
Proof. unfold beforeRequest. branches; auto. Qed.

Lemma times_after now err cb :
  lastAttempt (afterRequest now err cb) = lastAttempt cb /\
  (lastFailTime (afterRequest now err cb) = lastFailTime cb \/
   lastFailTime (afterRequest now err cb) = now).
Proof. unfold afterRequest, onFailure, onSuccess. destruct err; simpl; branches; auto. Qed.

#[export] Hint Resolve wf_before wf_after wf_new : go.

Lemma sys_wf_step s l s' : sys_wf s -> cb_step s l s' -> sys_wf s'.
Proof.
  intros (Hw & Hf & Ha) Hs.
  destruct Hs as [cb t n d ?|cb cb' t n Hb|cb cb' t n e Hb|cb t n err|cb t n]; simpl in *.
  - repeat split; simpl; try apply Hw; lia.
  - pose proof (wf_before t cb Hw). pose proof (times_before t cb) as [? [?|?]];
      rewrite Hb in *; simpl in *; unfold sys_wf; simpl; auto with lia.
  - pose proof (wf_before t cb Hw). pose proof (times_before t cb) as [? [?|?]];
      rewrite Hb in *; simpl in *; unfold sys_wf; simpl; auto with lia.
  - pose proof (wf_after t err cb Hw). pose proof (times_after t err cb) as [? [?|?]];
      unfold sys_wf; simpl; auto with lia.
  - unfold sys_wf, cb_wf, Reset in *. simpl. solve_branches; lia.
Qed.

Lemma exec_calls_abs cs cb :
  abs (fst (exec_calls exec_call cs cb)) =
    fst (exec_calls (spec_call (config cb)) cs (abs cb)) /\
  snd (exec_calls exec_call cs cb) = snd (exec_calls (spec_call (config cb)) cs (abs cb)).
Proof.
  revert cb. induction cs as [|c cs IH]; intros cb; [done|]. simpl.
  pose proof (exec_call_abs c cb) as [H1 H2]. pose proof (exec_call_config c cb) as H3.
  destruct (exec_call c cb) as [cb1 r], (spec_call (config cb) c (abs cb)) as [v1 r'].
  simpl in *. subst v1 r'. specialize (IH cb1). rewrite H3 in IH.
  destruct (exec_calls exec_call cs cb1), (exec_calls (spec_call (config cb)) cs (abs cb1)).
  simpl in *. destruct IH; split; congruence.
Qed.

Lemma cb_reachable_wf s : cb_reachable s -> sys_wf s.
Proof.
  apply reachable_invariant.
  - intros [cb t n] (cfg & Hc & Hc' & ? & Ht). simpl in *. unfold sys_wf. rewrite Hc'. simpl.
    auto with go.
  - intros ???? [l Hs]. by eapply sys_wf_step.
Qed.

Lemma reach_tick cb t t' n :
  t <= t' -> cb_reachable {| sys_cb := cb; sys_clock := t; sys_inflight := n |} ->
  cb_reachable {| sys_cb := cb; sys_clock := t'; sys_inflight := n |}.
Proof.
  intros Ht Hr. replace t' with (t + (t' - t)) by lia.
  eapply reach_step; [exact Hr|]. exists LTick. constructor. lia.
Qed.

(** One request, admitted and finished at the same time. *)
Lemma reach_request cb cb' t n err :
  beforeRequest t cb = (cb', None) ->
  cb_reachable {| sys_cb := cb; sys_clock := t; sys_inflight := n |} ->
  cb_reachable {| sys_cb := afterRequest t err cb'; sys_clock := t; sys_inflight := n |}.
Proof.
  intros Hb Hr. eapply reach_step; [eapply reach_step; [exact Hr|]|].
  - exists LAdmit. by constructor.
  - exists (LFinish err). constructor.
Qed.

Lemma run_wf P s ls s' : run P s ls s' -> sys_wf s -> sys_wf s'.
Proof. induction 1; eauto using sys_wf_step. Qed.

Lemma step_clock s l s' : cb_step s l s' -> sys_clock s <= sys_clock s'.
Proof. destruct 1; simpl; lia. Qed.

Lemma run_clock P s ls s' : run P s ls s' -> sys_clock s <= sys_clock s'.
Proof. induction 1; [lia|]. by etrans; [eapply step_clock|]. Qed.

(** While the timeout has not run out, a step from an open breaker keeps it
    open, keeps its configuration and admits nothing. *)
Lemma open_step s l s' :
  sys_wf s -> state (sys_cb s) = StateOpen -> cb_step s l s' -> l <> LReset ->
  sys_clock s - lastFailTime (sys_cb s) <= Timeout (config (sys_cb s)) ->
  l <> LAdmit /\ state (sys_cb s') = StateOpen /\
  config (sys_cb s') = config (sys_cb s) /\
  lastFailTime (sys_cb s) <= lastFailTime (sys_cb s').
Proof.
  intros (Hw & Hf & _) Ho Hs Hr Ht. destruct Hw as (_ & Hmax & _).
  destruct Hs as [cb t n d ?|cb cb' t n Hb|cb cb' t n e Hb|cb t n err|cb t n]; simpl in *.
  - repeat split; try done; lia.
  - exfalso. unfold beforeRequest in Hb. rewrite Ho in Hb. case_bool_decide; [int_lia|done].
  - unfold beforeRequest in Hb. rewrite Ho in Hb.
    case_bool_decide; simplify_eq; repeat split; try done; lia.
  - unfold afterRequest, onFailure, onSuccess. destruct err; rewrite Ho; simpl;
      repeat split; try done; lia.
  - done.
Qed.

Lemma halfopen_step s l s' :
  state (sys_cb s) = StateHalfOpen -> state (sys_cb s') = StateHalfOpen -> cb_step s l s' ->
  admits [l] * Second <= lastAttempt (sys_cb s') - lastAttempt (sys_cb s).
Proof.
  intros Ho Ho' Hs.
  destruct Hs as [cb t n d ?|cb cb' t n Hb|cb cb' t n e Hb|cb t n err|cb t n]; simpl in *.
  - unfold admits; simpl; lia.
  - unfold beforeRequest in Hb. rewrite Ho in Hb. unfold admits; simpl.
    case_bool_decide; simplify_eq/=. int_lia.
  - unfold beforeRequest in Hb. rewrite Ho in Hb. unfold admits; simpl.
    case_bool_decide; simplify_eq/=. lia.
  - destruct (times_after t err cb) as [-> _]. unfold admits; simpl; lia.
  - done.
Qed.

Lemma admits_cons l ls : admits (l :: ls) = admits [l] + admits ls.
Proof. unfold admits. rewrite !filter_cons. case_decide; simpl; lia. Qed.

Lemma halfopen_run s ls s' :
  run (fun s => state (sys_cb s) = StateHalfOpen) s ls s' ->
  admits ls * Second <= lastAttempt (sys_cb s') - lastAttempt (sys_cb s).
Proof.
  induction 1 as [s H|s l s1 ls s2 H Hs Hr IH]; [unfold admits; simpl; lia|].
  rewrite admits_cons. assert (state (sys_cb s1) = StateHalfOpen) by by destruct Hr.
  pose proof (halfopen_step _ _ _ H ltac:(done) Hs). lia.
Qed.

Lemma fail_calls_closed cfg e ts n :
  0 <= n -> MaxFailures cfg <= max_int64 -> n + Z.of_nat (length ts) < MaxFailures cfg ->
  fst (exec_calls (spec_call cfg) (fail_calls e ts) (VClosed n)) =
    VClosed (n + Z.of_nat (length ts)).
Proof.
  revert n. induction ts as [|t ts IH]; intros n Hn Hm Hl; simpl in *; [f_equal; lia|].
  rewrite (wrap64_id (n + 1)) by int_lia. rewrite bool_decide_false by lia.
  specialize (IH (n + 1)). fold (fail_calls e ts).
  destruct (exec_calls _ _ (VClosed (n + 1))) eqn:E. simpl in *. rewrite IH; [f_equal|..]; lia.
Qed.

Lemma exec_calls_app_eq {S} (f : call -> S -> S * option error) cs1 cs2 s :
  exec_calls f (cs1 ++ cs2) s =
    (fst (exec_calls f cs2 (fst (exec_calls f cs1 s))),
     snd (exec_calls f cs1 s) ++ snd (exec_calls f cs2 (fst (exec_calls f cs1 s)))).
Proof.
  revert s. induction cs1 as [|c cs IH]; intros s; simpl; [by destruct (exec_calls f cs2 s)|].
  destruct (f c s) as [s1 r]. rewrite (IH s1).
  by destruct (exec_calls f cs s1).
Qed.

(** A probe that succeeds: the first one after the timeout, and a later one. *)
Lemma open_probe cfg t0 t :
  Timeout cfg < max_int64 -> t0 + Timeout cfg < t -> 0 < Timeout cfg ->
  exec_calls (spec_call cfg) (success_call t) (VOpen t0) = (VHalfOpen 1 t, [None; None]).
Proof. intros. simpl. by rewrite bool_decide_true by int_lia. Qed.

Lemma probe_step cfg won last t :
  0 <= won -> last + Second <= t ->
  won < 3 ->
  exec_calls (spec_call cfg) (success_call t) (VHalfOpen won last) =
    (if bool_decide (3 <= won + 1) then VClosed 0 else VHalfOpen (won + 1) t, [None; None]).
Proof.
  intros. simpl. rewrite bool_decide_false by int_lia. simpl.
  by rewrite wrap64_id by int_lia.
Qed.

(** ** Properties *)

(** C1: for every sequence of calls on a new breaker, the answers are those of
    the abstract three-state breaker started closed with no failures, and the
    record always represents the abstract state. *)
Theorem breaker_refines_view cfg cs :
  let cb := NewCircuitBreaker cfg in
  let spec := exec_calls (spec_call (config cb)) cs (VClosed 0) in
  snd (exec_calls exec_call cs cb) = snd spec /\
  abs (fst (exec_calls exec_call cs cb)) = fst spec.
Proof.
  cbv zeta. pose proof (exec_calls_abs cs (NewCircuitBreaker cfg)) as [H1 H2]. by split.
Qed.

(** C2: an open breaker fails fast. Whatever the interleaving of requests
    still in flight, from a reachable open state no request is admitted and
    the breaker stays open until the clock has passed the time of the last
    failure by more than [Timeout] (unless [Reset] is called). *)
Theorem open_blocks_until_timeout s ls s' :
  cb_reachable s -> state (sys_cb s) = StateOpen -> run (fun _ => True) s ls s' ->
  (LReset ∉ ls) ->
  sys_clock s' - lastFailTime (sys_cb s) <= Timeout (config (sys_cb s)) ->
  (LAdmit ∉ ls) /\ state (sys_cb s') = StateOpen.
Proof.
  intros Hr Ho Hrun Hn Ht. apply cb_reachable_wf in Hr.
  induction Hrun as [s _|s l s1 ls s2 _ Hs Hrun IH]; [split; [set_solver|done]|].
  apply not_elem_of_cons in Hn as [Hl Hn]. pose proof (step_clock _ _ _ Hs).
  pose proof (run_clock _ _ _ _ Hrun).
  destruct (open_step _ _ _ Hr Ho Hs) as (Ha & Ho1 & Hc & Hf); [done|lia|].
  destruct IH as [IH1 IH2]; eauto using sys_wf_step; [rewrite Hc; lia|].
  by split; [apply not_elem_of_cons|].
Qed.


(** C3: a half-open breaker lets at most one request through per second. Over
    any run that stays half-open, the number of admitted requests, in seconds,
    is bounded by the time since the previous admission. *)
Theorem halfopen_probe_rate s ls s' :
  cb_reachable s ->
  run (fun s => state (sys_cb s) = StateHalfOpen) s ls s' ->
  admits ls * Second <= sys_clock s' - lastAttempt (sys_cb s).
Proof.
  intros Hr Hrun. pose proof (halfopen_run _ _ _ Hrun).
  destruct (run_wf _ _ _ _ Hrun (cb_reachable_wf _ Hr)) as (_ & _ & ?). lia.
Qed.

(** the trip point is exact. Consecutive failing requests on a closed
    breaker keep it closed as long as their count, with the failures already
    recorded, is below [MaxFailures]; the request that reaches [MaxFailures]
    opens it and its time becomes the time of the last failure. *)
Theorem closed_trips_exactly cb e ts t :
  cb_wf cb -> state cb = StateClosed ->
  failures cb + Z.of_nat (length ts) + 1 = MaxFailures (config cb) ->
  abs (fst (exec_calls exec_call (fail_calls e ts) cb)) =
    VClosed (failures cb + Z.of_nat (length ts)) /\
  abs (fst (exec_calls exec_call (fail_calls e (ts ++ [t])) cb)) = VOpen t.
Proof.
  intros (Hm & _ & Hw) Hc Hl. rewrite Hc in Hw.
  rewrite !(proj1 (exec_calls_abs _ _)).
  assert (abs cb = VClosed (failures cb)) as -> by (unfold abs; by rewrite Hc).
  split; [apply fail_calls_closed; lia|].
  unfold fail_calls. rewrite bind_app, exec_calls_app_eq. simpl fst at 1. fold (fail_calls e ts).
  rewrite fail_calls_closed by lia. simpl. rewrite wrap64_id by int_lia.
  by rewrite bool_decide_true by lia.
Qed.

(** recovery. A breaker open since [t0] admits a request later than
    [t0 + Timeout], and once that request and two more, each at least one
    second after the one before, have succeeded, it is closed with no failures
    recorded; none of the three is refused. ([Timeout] must be below the
    largest duration, at which [Time.Sub] saturates.) *)
Theorem open_recovers cb t1 t2 t3 :
  cb_wf cb -> state cb = StateOpen -> Timeout (config cb) < max_int64 ->
  lastFailTime cb + Timeout (config cb) < t1 -> t1 + Second <= t2 -> t2 + Second <= t3 ->
  let r := exec_calls exec_call (success_call t1 ++ success_call t2 ++ success_call t3) cb in
  abs (fst r) = VClosed 0 /\ Forall (fun a => a = None) (snd r) /\ failures (fst r) = 0.
Proof.
  intros (_ & Hm & _) Ho Hmax H1 H2 H3 r.
  pose proof (exec_calls_abs (success_call t1 ++ success_call t2 ++ success_call t3) cb) as [Ha Hr].
  fold r in Ha, Hr.
  assert (abs cb = VOpen (lastFailTime cb)) as Hv by (unfold abs; by rewrite Ho).
  rewrite Hv in Ha, Hr. rewrite !exec_calls_app_eq in Ha, Hr.
  rewrite open_probe in Ha, Hr by lia. cbn [fst snd] in Ha, Hr.
  rewrite (probe_step _ 1) in Ha, Hr by lia.
  rewrite (bool_decide_false (3 <= 1 + 1)) in Ha, Hr by lia. cbn [fst snd] in Ha, Hr.
  rewrite (probe_step _ (1 + 1)) in Ha, Hr by lia.
  rewrite (bool_decide_true (3 <= 1 + 1 + 1)) in Ha, Hr by lia. cbn [fst snd] in Ha, Hr.
  rewrite Hr. split; [exact Ha|]. split; [by repeat constructor|].
  unfold abs in Ha. destruct (state (fst r)); by simplify_eq.
Qed.

(** ** Witnesses *)

Lemma witness_cb_wf : cb_wf witness_cb.
Proof. vm_compute. repeat split; done. Qed.

(** Advance the clock of the reachable state [R] to [t] and fail a request there. *)
Ltac fail_at t R :=
  apply (reach_tick _ _ t) in R; [|done];
  match type of R with
  | cb_reachable {| sys_cb := ?cb |} =>
      apply (reach_request cb cb t _ (Some (ErrExt 1))) in R; [|reflexivity]
  end.

Lemma witness_sys_reachable t : 5 <= t -> cb_reachable (witness_sys t).
Proof.
  intros Ht. apply (reach_tick _ 5); [done|].
  assert (cb_reachable {| sys_cb := NewCircuitBreaker (DefaultCircuitBreakerConfig "w");
                          sys_clock := 0; sys_inflight := 0 |}) as R.
  { apply reach_init. exists (DefaultCircuitBreakerConfig "w").
    split; [split; vm_compute; split; discriminate|]. done. }
  fail_at 1 R. fail_at 2 R. fail_at 3 R. fail_at 4 R. fail_at 5 R. exact R.
Qed.

Lemma witness_probe_reachable : cb_reachable witness_probe.
Proof.
  eapply reach_step; [apply (witness_sys_reachable (31 * Second)); vm_compute; discriminate|].
  exists LAdmit. by constructor.
Qed.

Lemma open_blocks_until_timeout_witness :
  (LAdmit ∉ [LTick; LReject ErrCircuitOpen]) /\
  state (sys_cb (witness_sys (5 + 30 * Second))) = StateOpen.
Proof.
  apply (open_blocks_until_timeout (witness_sys 5)).
  - by apply witness_sys_reachable.
  - vm_compute. reflexivity.
  - eapply run_cons; [done|apply (step_tick _ _ _ (30 * Second)); vm_compute; discriminate|].
    eapply run_cons; [done|apply step_reject; vm_compute; reflexivity|by apply run_nil].
  - by repeat (apply not_elem_of_cons; split); [..|apply not_elem_of_nil].
  - vm_compute. discriminate.
Defined.

Lemma halfopen_probe_rate_witness :
  admits [LTick; LAdmit; LTick] * Second <= 33 * Second - 31 * Second.
Proof.
  apply (halfopen_probe_rate witness_probe
    [LTick; LAdmit; LTick]
    {| sys_cb := fst (beforeRequest (32 * Second) (sys_cb witness_probe));
       sys_clock := 33 * Second; sys_inflight := 2 |}).
  - apply witness_probe_reachable.
  - eapply run_cons; [done|apply (step_tick _ _ _ Second); vm_compute; discriminate|].
    eapply run_cons; [done|apply step_admit; vm_compute; reflexivity|].
    eapply run_cons; [done|apply (step_tick _ _ _ Second); vm_compute; discriminate|].
    by apply run_nil.
Defined.

Lemma closed_trips_exactly_witness :
  abs (fst (exec_calls exec_call (fail_calls (ErrExt 7) ([1; 2; 3; 4] ++ [5]))
    (NewCircuitBreaker (DefaultCircuitBreakerConfig "w")))) = VOpen 5.
Proof.
  refine (proj2 (closed_trips_exactly
    (NewCircuitBreaker (DefaultCircuitBreakerConfig "w")) (ErrExt 7) [1; 2; 3; 4] 5 _ _ _)).
  - vm_compute. repeat split; done.
  - reflexivity.
  - reflexivity.
Defined.

Lemma open_recovers_witness :
  abs (fst (exec_calls exec_call
    (success_call (31 * Second) ++ success_call (32 * Second) ++ success_call (33 * Second))
    witness_cb)) = VClosed 0.
Proof.
  refine (proj1 (open_recovers witness_cb (31 * Second) (32 * Second) (33 * Second) _ _ _ _ _ _)).
  - apply witness_cb_wf.
  - reflexivity.
  - reflexivity.
  - reflexivity.
  - vm_compute. discriminate.
  - vm_compute. discriminate.
Defined.
