(* ===== verification/Bulkhead.v ===== *)
(** * The bulkhead (src/resilience/bulkhead.go)

    The semaphore channel is its occupancy [sem]; every section that runs under
    the mutex and every channel operation is a function on the record. A call
    is a thread that goes through these sections one at a time, so the step
    relation at the end interleaves any number of calls. [acquire], [release]
    and [ExecuteWithContext] are the same sections run without interference. *)

From S2P Require Import Prelude.

(** ** Data *)

Definition ErrBulkheadFull : error := ErrVar "resilience.ErrBulkheadFull".
Definition ErrBulkheadTimeout : error := ErrVar "resilience.ErrBulkheadTimeout".

Record BulkheadConfig := {
  Name : string;
  MaxConcurrent : Z;
  MaxWaitDuration : Z
}.

Definition DefaultBulkheadConfig (name : string) : BulkheadConfig :=
  {| Name := name; MaxConcurrent := 10; MaxWaitDuration := 0 |}.

Record Bulkhead := {
  config : BulkheadConfig;
  sem : Z;
  active : Z;
  rejected : Z;
  totalCalls : Z;
  waitingTime : Z
}.

Record BulkheadStats := {
  stats_Name : string;
  stats_MaxConcurrent : Z;
  stats_Active : Z;
  stats_Available : Z;
  stats_TotalCalls : Z;
  stats_Rejected : Z
}.

(** ** The sections of a call *)

Definition NewBulkhead (cfg : BulkheadConfig) : Bulkhead :=
  {| config :=
       {| Name := Name cfg;
          MaxConcurrent := if bool_decide (MaxConcurrent cfg <= 0) then 10 else MaxConcurrent cfg;
          MaxWaitDuration := MaxWaitDuration cfg |};
     sem := 0; active := 0; rejected := 0; totalCalls := 0; waitingTime := 0 |}.

(** [b.totalCalls++] *)
Definition count_call (b : Bulkhead) : Bulkhead :=
  {| config := config b; sem := sem b; active := active b; rejected := rejected b;
     totalCalls := wrap64 (totalCalls b + 1); waitingTime := waitingTime b |}.

(** [b.sem <- struct{}{}]: ready only while the channel has room. *)
Definition can_send (b : Bulkhead) : bool := bool_decide (sem b < MaxConcurrent (config b)).

Definition send (b : Bulkhead) : Bulkhead :=
  {| config := config b; sem := sem b + 1; active := active b; rejected := rejected b;
     totalCalls := totalCalls b; waitingTime := waitingTime b |}.

(** [b.active++], with the waiting time added on the waiting path. *)
Definition granted (waited : Z) (b : Bulkhead) : Bulkhead :=
  {| config := config b; sem := sem b; active := wrap64 (active b + 1); rejected := rejected b;
     totalCalls := totalCalls b; waitingTime := wrap64 (waitingTime b + waited) |}.

(** [b.rejected++] *)
Definition reject (b : Bulkhead) : Bulkhead :=
  {| config := config b; sem := sem b; active := active b; rejected := wrap64 (rejected b + 1);
     totalCalls := totalCalls b; waitingTime := waitingTime b |}.

(** [<-b.sem] *)
Definition recv (b : Bulkhead) : Bulkhead :=
  {| config := config b; sem := sem b - 1; active := active b; rejected := rejected b;
     totalCalls := totalCalls b; waitingTime := waitingTime b |}.

(** [b.active--] *)
Definition released (b : Bulkhead) : Bulkhead :=
  {| config := config b; sem := sem b; active := wrap64 (active b - 1); rejected := rejected b;
     totalCalls := totalCalls b; waitingTime := waitingTime b |}.

(** ** The operations, run without interference *)

(** The case the [select] of the waiting path takes. *)
Inductive select_case :=
| SlotFree (waited : Z)
| TimerFired
| CtxDone (e : error).

(** [None]: the runtime cannot take that case (the channel is full). *)
Definition acquire (c : select_case) (b : Bulkhead) : option (Bulkhead * option error) :=
  let b := count_call b in
  if bool_decide (MaxWaitDuration (config b) = 0) then
    if can_send b then Some (granted 0 (send b), None)
    else Some (reject b, Some ErrBulkheadFull)
  else
    match c with
    | SlotFree waited => if can_send b then Some (granted waited (send b), None) else None
    | TimerFired => Some (reject b, Some ErrBulkheadTimeout)
    | CtxDone e => Some (b, Some e)
    end.

Definition release (b : Bulkhead) : Bulkhead := released (recv b).

Definition ExecuteWithContext {W : Type} (c : select_case)
    (fn : Bulkhead * W -> (Bulkhead * W) * option error) (s : Bulkhead * W)
    : option ((Bulkhead * W) * option error) :=
  match acquire c (fst s) with
  | None => None
  | Some (b, Some e) => Some ((b, snd s), Some e)
  | Some (b, None) =>
      let '((b2, w2), err) := fn (b, snd s) in Some ((release b2, w2), err)
  end.

Definition ActiveCount (b : Bulkhead) : Z := active b.
Definition AvailableSlots (b : Bulkhead) : Z := wrap64 (MaxConcurrent (config b) - ActiveCount b).

Definition Stats (b : Bulkhead) : BulkheadStats :=
  {| stats_Name := Name (config b); stats_MaxConcurrent := MaxConcurrent (config b);
     stats_Active := active b; stats_Available := wrap64 (MaxConcurrent (config b) - active b);
     stats_TotalCalls := totalCalls b; stats_Rejected := rejected b |}.

(** ** Concurrent calls *)

(** Where a call is: about to select, holding a slot it has not counted yet,
    running the function, about to give the slot back, having given it back
    but still counted, about to count its rejection, or returned. *)
Inductive phase :=
| PSelect
| PSlot
| PRunning
| PReleasing (r : option error)
| PReceived (r : option error)
| PRejecting (e : error)
| PDone (r : option error).

Record bsys := { bh : Bulkhead; threads : list phase }.

Definition holds_slot (p : phase) : bool :=
  match p with PSlot | PRunning | PReleasing _ => true | _ => false end.
Definition is_counted (p : phase) : bool :=
  match p with PRunning | PReleasing _ | PReceived _ => true | _ => false end.
Definition is_running (p : phase) : bool :=
  match p with PRunning => true | _ => false end.
Definition is_done (p : phase) : bool :=
  match p with PDone _ => true | _ => false end.

Definition has_given_back (p : phase) : bool :=
  match p with PReceived _ => true | _ => false end.

(** How many sections a call has at most before it. *)
Definition sections_left (p : phase) : Z :=
  match p with
  | PSelect => 5 | PSlot => 4 | PRunning => 3 | PReleasing _ => 2 | PReceived _ | PRejecting _ => 1 | PDone _ => 0
  end.

(** One section of one thread: the thread's phase and the record change together. *)
Inductive section (b : Bulkhead) : phase -> Bulkhead -> phase -> Prop :=
| sec_send : can_send b = true -> section b PSelect (send b) PSlot
| sec_full : MaxWaitDuration (config b) = 0 -> can_send b = false ->
    section b PSelect b (PRejecting ErrBulkheadFull)
| sec_timer : MaxWaitDuration (config b) <> 0 ->
    section b PSelect b (PRejecting ErrBulkheadTimeout)
| sec_ctx e : MaxWaitDuration (config b) <> 0 -> section b PSelect b (PDone (Some e))
| sec_granted waited : 0 <= waited -> section b PSlot (granted waited b) PRunning
| sec_return r : section b PRunning b (PReleasing r)
| sec_recv r : 0 < sem b -> section b (PReleasing r) (recv b) (PReceived r)
| sec_released r : section b (PReceived r) (released b) (PDone r)
| sec_reject e : section b (PRejecting e) (reject b) (PDone (Some e)).

Inductive bstep : bsys -> bsys -> Prop :=
| bstep_call b ts :
    bstep {| bh := b; threads := ts |} {| bh := count_call b; threads := ts ++ [PSelect] |}
| bstep_section b ts i p b' p' :
    ts !! i = Some p -> section b p b' p' ->
    bstep {| bh := b; threads := ts |} {| bh := b'; threads := <[i:=p']> ts |}.

Definition cfg_typed (cfg : BulkheadConfig) : Prop := in_int64 (MaxConcurrent cfg).

Definition binit (s : bsys) : Prop :=
  exists cfg, cfg_typed cfg /\ bh s = NewBulkhead cfg /\ threads s = [].

Definition breachable : bsys -> Prop := reachable binit bstep.

(** The bookkeeping invariant. The channel occupancy is exact; the counter
    [active] counts the calls between their two mutex sections. *)
Definition bulkhead_inv (s : bsys) : Prop :=
  0 < MaxConcurrent (config (bh s)) /\
  sem (bh s) = countb holds_slot (threads s) /\
  sem (bh s) <= MaxConcurrent (config (bh s)) /\
  active (bh s) = wrap64 (countb is_counted (threads s)) /\
  totalCalls (bh s) = wrap64 (Z.of_nat (length (threads s))).

(** A bulkhead of one slot, and the state in which one call has given its slot
    back but is still counted when another call has been granted the slot;
    then the state after both have returned. *)
Definition overlap_config : BulkheadConfig :=
  {| Name := "w"; MaxConcurrent := 1; MaxWaitDuration := 0 |}.

Definition overlap (r : option error) : bsys :=
  {| bh := {| config := overlap_config; sem := 1; active := 2; rejected := 0;
              totalCalls := 2; waitingTime := 0 |};
     threads := [PReceived r; PRunning] |}.

Definition overlap_end : bsys :=
  {| bh := {| config := overlap_config; sem := 0; active := 0; rejected := 0;
              totalCalls := 2; waitingTime := 0 |};
     threads := [PDone None; PDone None] |}.

(** ** Lemmas *)

Lemma section_config b p b' p' : section b p b' p' -> config b' = config b.
Proof. by destruct 1. Qed.

(** Each section moves the two counters with the phase of its thread. *)
Lemma section_sem b p b' p' :
  section b p b' p' -> sem b' = sem b - b2z (holds_slot p) + b2z (holds_slot p').
Proof. destruct 1; simpl; lia. Qed.

Lemma section_active b p b' p' n :
  section b p b' p' -> active b = wrap64 n ->
  active b' = wrap64 (n - b2z (is_counted p) + b2z (is_counted p')).
Proof.
  destruct 1; simpl; intros ->; autorewrite with go_int; f_equal; lia.
Qed.

Lemma section_bound b p b' p' :
  section b p b' p' -> sem b <= MaxConcurrent (config b) ->
  sem b' <= MaxConcurrent (config b) /\ totalCalls b' = totalCalls b.
Proof.
  destruct 1 as [Hs| | | | | | | | ]; simpl; intros; try (split; [lia|done]).
  unfold can_send in Hs. apply bool_decide_eq_true in Hs. split; [lia|done].
Qed.

Lemma bulkhead_inv_step s s' : bulkhead_inv s -> bstep s s' -> bulkhead_inv s'.
Proof.
  intros (Hm & Hs & Hb & Ha & Ht) Hst.
  destruct Hst as [b ts|b ts i p b' p' Hi Hsec]; unfold bulkhead_inv; simpl in *.
  - rewrite !countb_app, length_app, Ht, wrap64_add_l. simpl.
    rewrite Ha. repeat split; try done; [lia|f_equal; lia|f_equal; lia].
  - rewrite (section_config _ _ _ _ Hsec).
    rewrite !(countb_insert _ _ _ _ p' Hi), length_insert, <-Hs.
    destruct (section_bound _ _ _ _ Hsec Hb) as [Hb' ->].
    repeat split; try done; [by eapply section_sem|by eapply section_active].
Qed.

Lemma breachable_inv s : breachable s -> bulkhead_inv s.
Proof.
  apply reachable_invariant; [|intros ????; by apply bulkhead_inv_step].
  intros [b ts] (cfg & Hc & Hb & Ht). simpl in *. subst. unfold bulkhead_inv. simpl.
  repeat split; case_bool_decide; lia.
Qed.

(** Only the threads that hold a slot run the function. *)
Lemma running_holds ts : countb is_running ts <= countb holds_slot ts.
Proof. induction ts as [|p ts IH]; simpl; [lia|]. destruct p; simpl; lia. Qed.

(** Which calls are counted: those between their two mutex sections. *)
Lemma counted_phases ts :
  countb is_running ts <= countb is_counted ts <= countb holds_slot ts + countb has_given_back ts.
Proof. induction ts as [|p ts IH]; simpl; [lia|]. destruct p; simpl; lia. Qed.

Lemma countb_pos {A} (f : A -> bool) l i x : l !! i = Some x -> f x = true -> 0 < countb f l.
Proof.
  intros Hi Hf. apply list_elem_of_lookup_2, list_elem_of_split in Hi as (l1 & l2 & ->).
  rewrite countb_app. simpl. rewrite Hf. pose proof (countb_nonneg f l1). pose proof (countb_nonneg f l2). simpl. lia.
Qed.

(** A call that has not returned can go on; where it holds a slot, the channel has it. *)
Lemma phase_moves b p :
  is_done p = false -> (holds_slot p = true -> 0 < sem b) -> exists b' p', section b p b' p'.
Proof.
  intros Hd Hh. destruct p as [| | |r|r|e|r]; try done.
  - destruct (decide (MaxWaitDuration (config b) = 0)) as [Hw|Hw]; [|eexists _, _; by apply sec_timer].
    destruct (can_send b) eqn:Hc; eexists _, _; [by apply sec_send|by apply sec_full].
  - eexists _, _. by apply (sec_granted _ 0).
  - eexists _, _. by apply (sec_return _ None).
  - eexists _, _. apply sec_recv. by apply Hh.
  - eexists _, _. apply sec_released.
  - eexists _, _. apply sec_reject.
Qed.

Lemma done_holds_nothing ts :
  Forall (fun p => is_done p = true) ts -> countb holds_slot ts = 0 /\ countb is_counted ts = 0.
Proof. induction 1 as [|p ts Hp _ IH]; [done|]. destruct p; simpl in *; naive_solver. Qed.

Lemma acquire_count c b b' r :
  acquire c b = Some (b', r) ->
  config b' = config b /\
  match r with
  | None => sem b < MaxConcurrent (config b) /\ sem b' = sem b + 1 /\
            active b' = wrap64 (active b + 1) /\ rejected b' = rejected b
  | Some _ => sem b' = sem b /\ active b' = active b
  end.
Proof.
  unfold acquire, can_send. simpl.
  repeat (case_bool_decide || case_match); intros; simplify_eq/=; auto.
Qed.

(** One section of thread [i] of a reachable state. *)
Lemma reach_section b ts i p b' p' :
  breachable {| bh := b; threads := ts |} -> ts !! i = Some p -> section b p b' p' ->
  breachable {| bh := b'; threads := <[i:=p']> ts |}.
Proof. intros Hr Hi Hs. eapply reach_step; [exact Hr|]. by econstructor. Qed.

Lemma reach_call b ts :
  breachable {| bh := b; threads := ts |} ->
  breachable {| bh := count_call b; threads := ts ++ [PSelect] |}.
Proof. intros Hr. eapply reach_step; [exact Hr|]. constructor. Qed.

(** Run the named section of thread [i] in the reachable state [R]. *)
Ltac run_section i sec R :=
  eapply (reach_section _ _ i) in R; [|reflexivity|sec; try reflexivity; try lia]; simpl in R.

Lemma overlap_reachable r : breachable (overlap r).
Proof.
  assert (breachable {| bh := NewBulkhead overlap_config; threads := [] |}) as R.
  { apply reach_init. exists overlap_config. split; [|done]. vm_compute. split; discriminate. }
  apply reach_call in R. run_section 0%nat ltac:(apply sec_send) R.
  run_section 0%nat ltac:(apply (sec_granted _ 0)) R.
  run_section 0%nat ltac:(apply (sec_return _ r)) R.
  run_section 0%nat ltac:(apply sec_recv) R.
  apply reach_call in R. run_section 1%nat ltac:(apply sec_send) R.
  run_section 1%nat ltac:(apply (sec_granted _ 0)) R.
  exact R.
Qed.

Lemma overlap_end_reachable : breachable overlap_end.
Proof.
  pose proof (overlap_reachable None) as R. unfold overlap in R.
  run_section 0%nat ltac:(apply sec_released) R.
  run_section 1%nat ltac:(apply (sec_return _ None)) R.
  run_section 1%nat ltac:(apply sec_recv) R.
  run_section 1%nat ltac:(apply sec_released) R.
  exact R.
Qed.

(** ** Properties *)

(** C17: For any interleaving of the sections of any number of calls: never more than
    [MaxConcurrent] of them run their function at once, and the channel is never
    overfilled; the count that [ActiveCount] gives is that of the running and returning
    calls, of which those that have given their slot back may be counted beyond the
    limit; no call is ever stuck, releasing does not block, and each ends within five
    sections; and once all have returned, whatever their outcomes, the channel is empty,
    nothing is counted active and every slot is available again. *)
Theorem concurrency_bounded s :
  breachable s ->
  let limit := MaxConcurrent (config (bh s)) in
  countb is_running (threads s) <= limit /\ 0 <= sem (bh s) <= limit /\
  ActiveCount (bh s) = wrap64 (countb is_counted (threads s)) /\
  countb is_running (threads s) <= countb is_counted (threads s) <= limit + countb has_given_back (threads s) /\
  (forall i p, threads s !! i = Some p -> is_done p = false -> exists b' p', section (bh s) p b' p') /\
  (forall b p b' p', section b p b' p' -> 0 <= sections_left p' < sections_left p /\ sections_left p <= 5) /\
  (Forall (fun p => is_done p = true) (threads s) ->
     sem (bh s) = 0 /\ ActiveCount (bh s) = 0 /\ AvailableSlots (bh s) = wrap64 limit).
Proof.
  intros Hr limit. destruct (breachable_inv _ Hr) as (_ & Hs & Hb & Ha & _).
  pose proof (running_holds (threads s)). pose proof (countb_nonneg holds_slot (threads s)).
  pose proof (counted_phases (threads s)). split_and!; [lia..|done|lia|lia| | |].
  - intros i p Hi Hd. apply phase_moves; [done|]. intros Hh. rewrite Hs. by apply (countb_pos _ _ i p).
  - intros b p b' p' Hsec. destruct Hsec; simpl; lia.
  - intros Hd. destruct (done_holds_nothing _ Hd) as [Hh Hc].
    unfold AvailableSlots, ActiveCount. rewrite Ha, Hs, Hh, Hc. by rewrite Z.sub_0_r.
Qed.

(** the counter behind [ActiveCount], [AvailableSlots] and [Stats] is not
    bounded by the limit: it is lowered in a later section than the one that
    frees the slot, so a schedule of two calls on a bulkhead of one slot shows
    two active calls and minus one available slots, although only one call is
    running its function. *)
Theorem active_may_exceed_limit :
  exists s, breachable s /\
    MaxConcurrent (config (bh s)) = 1 /\ countb is_running (threads s) = 1 /\
    ActiveCount (bh s) = 2 /\ AvailableSlots (bh s) = -1 /\ stats_Available (Stats (bh s)) = -1.
Proof. exists (overlap None). split; [apply overlap_reachable|]. by vm_compute. Qed.

(** fail-fast execution. With no waiting configured, a call on a full
    bulkhead returns [ErrBulkheadFull] without running the function and only
    counts the rejection; otherwise the function runs holding a slot, its
    result is returned, and when it leaves the bulkhead as it found it the
    occupancy and the active count are back to what they were. *)
Theorem execute_fail_fast {W : Type} c (fn : Bulkhead * W -> (Bulkhead * W) * option error) b w :
  MaxWaitDuration (config b) = 0 -> in_int64 (active b) ->
  (forall b1 w1, fst (fst (fn (b1, w1))) = b1) ->
  if can_send b then
    exists b1, sem b1 = sem b + 1 /\
    ExecuteWithContext c fn (b, w) =
      Some ((release b1, snd (fst (fn (b1, w)))), snd (fn (b1, w))) /\
    sem (release b1) = sem b /\ active (release b1) = active b
  else
    ExecuteWithContext c fn (b, w) = Some ((reject (count_call b), w), Some ErrBulkheadFull).
Proof.
  intros Hw Ha Hfn. unfold ExecuteWithContext, acquire. simpl.
  rewrite Hw, (bool_decide_true (0 = 0)) by done.
  assert (can_send (count_call b) = can_send b) as -> by done.
  destruct (can_send b) eqn:Hc; [|done].
  exists (granted 0 (send (count_call b))). pose proof (Hfn (granted 0 (send (count_call b))) w).
  destruct (fn _) as [[b2 w2] err]. simpl in *. subst. repeat split; simpl; [lia|].
  rewrite wrap64_sub_l. replace (active b + 1 - 1) with (active b) by lia.
  by apply wrap64_id.
Qed.

(** ** Witnesses *)

Lemma concurrency_bounded_witness :
  countb is_running (threads (overlap None)) <= MaxConcurrent (config (bh (overlap None))).
Proof. refine (proj1 (concurrency_bounded (overlap None) _)). apply overlap_reachable. Defined.

Lemma execute_fail_fast_witness :
  ExecuteWithContext TimerFired (fun s => (s, Some (ErrExt 3))) (bh (overlap None), tt) =
    Some ((reject (count_call (bh (overlap None))), tt), Some ErrBulkheadFull).
Proof.
  apply (execute_fail_fast TimerFired (fun s => (s, Some (ErrExt 3))) (bh (overlap None)) tt).
  - reflexivity.
  - vm_compute. split; discriminate.
  - intros. reflexivity.
Defined.
