(* ===== verification/Retry.v ===== *)
(** * Retry with backoff (src/resilience/retry.go)

    The configuration with its defaults, the attempt loop over any world that
    offers a context, a timer and a random source, the test of an error against
    the retryable ones, and the delay in binary64 arithmetic. *)

From S2P Require Import Prelude GoFloat FloatNear FloatBounds.
From Stdlib Require Import Floats.SpecFloat QArith Lqa.
#[local] Open Scope Z_scope.

(** ** Data *)

Record RetryConfig := {
  MaxAttempts : Z;
  InitialDelay : Z;
  MaxDelay : Z;
  Multiplier : f64;
  JitterFactor : f64;
  RetryableErrors : list error
}.

Record Retry := { config : RetryConfig }.

(** The constants [2.0] and [0.1]. *)
Definition two : f64 := f64_of_int 2.
Definition tenth : f64 := f64_div (f64_of_int 1) (f64_of_int 10).

Definition DefaultRetryConfig : RetryConfig :=
  {| MaxAttempts := 3; InitialDelay := 100 * Millisecond; MaxDelay := 10 * Second;
     Multiplier := two; JitterFactor := tenth; RetryableErrors := [] |}.

(** What a loop reads of its surroundings: [ctx.Err()] of a context that is
    done, the [select] that waits for the delay or the context, and the
    generator behind [rand.Float64]: an integer below [2^53], divided by it. *)
Class RetryEnv (W : Type) := {
  ctx_done : W -> option error;
  wait : Z -> W -> W * option error;
  rand53 : W -> W * Z
}.

(** ** Operations *)

Definition NewRetry (cfg : RetryConfig) : Retry :=
  {| config :=
       {| MaxAttempts := if bool_decide (MaxAttempts cfg <= 0) then 3 else MaxAttempts cfg;
          InitialDelay :=
            if bool_decide (InitialDelay cfg <= 0) then 100 * Millisecond else InitialDelay cfg;
          MaxDelay := if bool_decide (MaxDelay cfg <= 0) then 10 * Second else MaxDelay cfg;
          Multiplier := if f64_le (Multiplier cfg) f64_zero then two else Multiplier cfg;
          JitterFactor :=
            if f64_lt (JitterFactor cfg) f64_zero || f64_lt (f64_of_int 1) (JitterFactor cfg)
            then tenth else JitterFactor cfg;
          RetryableErrors := RetryableErrors cfg |} |}.

(** [==] on error values: an error built in place is a fresh pointer, equal to
    none of the configured values. *)
Definition same_error (a b : error) : bool :=
  match a, b with
  | ErrVar x, ErrVar y => bool_decide (x = y)
  | ErrExt i, ErrExt j => bool_decide (i = j)
  | _, _ => false
  end.

Definition isRetryable (r : Retry) (err : error) : bool :=
  match RetryableErrors (config r) with
  | [] => true
  | errs => existsb (same_error err) errs
  end.

(** [rand.Float64()] from the 53 bits it draws. *)
Definition rand_Float64 (k : Z) : f64 := f64_div (f64_of_int k) (f64_of_int (2 ^ 53)).

(** The delay before it becomes a [time.Duration]. *)
Definition backoff (r : Retry) (k : Z) (attempt : Z) : f64 :=
  let delay := f64_mul (f64_of_int (InitialDelay (config r)))
                       (math_Pow (Multiplier (config r)) (wrap64 (attempt - 1))) in
  let jitter := f64_mul (f64_sub (f64_mul (rand_Float64 k) two) (f64_of_int 1))
                        (JitterFactor (config r)) in
  let delay := f64_mul delay (f64_add (f64_of_int 1) jitter) in
  if f64_lt (f64_of_int (MaxDelay (config r))) delay
  then f64_of_int (MaxDelay (config r)) else delay.

Definition calculateDelay `{FloatConv} (r : Retry) (k : Z) (attempt : Z) : Z :=
  int64_of_f64 (backoff r k attempt).

(** The body of the loop from the given attempt on, [n] more attempts to go. *)
Fixpoint retry_loop {W} `{FloatConv, RetryEnv W} (r : Retry) (fn : W -> W * option error)
    (n : nat) (attempt : Z) (lastErr : option error) (w : W) : W * option error :=
  match n with
  | O => (w, lastErr)
  | S n =>
      match ctx_done w with
      | Some e => (w, Some e)
      | None =>
          match fn w with
          | (w, None) => (w, None)
          | (w, Some err) =>
              if negb (isRetryable r err) then (w, Some err)
              else if bool_decide (attempt = MaxAttempts (config r)) then (w, Some err)
              else
                let '(w, k) := rand53 w in
                match wait (calculateDelay r k attempt) w with
                | (w, Some e) => (w, Some e)
                | (w, None) => retry_loop r fn n (attempt + 1) (Some err) w
                end
          end
      end
  end.

Definition ExecuteWithContext {W} `{FloatConv, RetryEnv W} (r : Retry)
    (fn : W -> W * option error) (w : W) : W * option error :=
  retry_loop r fn (Z.to_nat (MaxAttempts (config r))) 1 None w.

Definition RetryWithBackoff {W} `{FloatConv, RetryEnv W} (maxAttempts : Z)
    (fn : W -> W * option error) (w : W) : W * option error :=
  let cfg := DefaultRetryConfig in
  let cfg := {| MaxAttempts := maxAttempts; InitialDelay := InitialDelay cfg;
                MaxDelay := MaxDelay cfg; Multiplier := Multiplier cfg;
                JitterFactor := JitterFactor cfg; RetryableErrors := RetryableErrors cfg |} in
  ExecuteWithContext (NewRetry cfg) fn w.

(** A world that keeps a journal of the results of the function: only the
    function adds to it. *)
Class Journal (W : Type) `{RetryEnv W} (fn : W -> W * option error) := {
  journal : W -> list (option error);
  journal_fn w : journal (fst (fn w)) = journal w ++ [snd (fn w)];
  journal_wait d w : journal (fst (wait d w)) = journal w;
  journal_rand w : journal (fst (rand53 w)) = journal w
}.

(** An attempt after which the loop goes on. *)
Definition may_retry (r : Retry) (res : option error) : bool :=
  match res with Some e => isRetryable r e | None => false end.

(** A world that keeps a journal of the delays it was told to wait: only the
    timer adds to it; and its generator draws 53 bits. *)
Class Waits (W : Type) `{RetryEnv W} (fn : W -> W * option error) := {
  waited : W -> list Z;
  waited_fn w : waited (fst (fn w)) = waited w;
  waited_wait d w : waited (fst (wait d w)) = waited w ++ [d];
  waited_rand w : waited (fst (rand53 w)) = waited w;
  rand53_range w : 0 <= snd (rand53 w) < 2 ^ 53
}.

(** What the results [rs] of up to [n] attempts say about the answer [res]:
    stopped by the context, decided by the last result, or never started. *)
Definition loop_outcome {W} `{RetryEnv W} (r : Retry) (n : nat) (last0 res : option error)
    (rs : list (option error)) : Prop :=
  (length rs <= n)%nat /\
  (forall i x, rs !! i = Some x -> (S i < length rs)%nat -> may_retry r x = true) /\
  ((exists e w1, res = Some e /\ (ctx_done w1 = Some e \/ exists d, snd (wait d w1) = Some e)) \/
   (last rs = Some res /\ (may_retry r res = false \/ length rs = n)) \/
   (rs = [] /\ n = O /\ res = last0)).

(** A concrete world: the results still to come, the journal, the clock and
    the time at which the context is cancelled. *)
Record script := {
  to_come : list (option error);
  seen : list (option error);
  clock : Z;
  cancel_at : option Z
}.

Definition script_ctx (w : script) : option error :=
  match cancel_at w with
  | Some t => if bool_decide (t <= clock w) then Some (ErrVar "context.Canceled") else None
  | None => None
  end.

#[export] Instance script_env : RetryEnv script := {|
  ctx_done := script_ctx;
  wait d w :=
    let w := {| to_come := to_come w; seen := seen w; clock := clock w + d;
                cancel_at := cancel_at w |} in (w, script_ctx w);
  rand53 w := (w, 2 ^ 52)
|}.

Definition script_fn (w : script) : script * option error :=
  let res := match to_come w with [] => None | x :: _ => x end in
  ({| to_come := tail (to_come w); seen := seen w ++ [res]; clock := clock w;
      cancel_at := cancel_at w |}, res).

#[export] Program Instance script_journal : Journal script script_fn := {| journal := seen |}.
Solve All Obligations with done.

Definition script0 (rs : list (option error)) (cancel : option Z) : script :=
  {| to_come := rs; seen := []; clock := 0; cancel_at := cancel |}.

(** The same world with a journal of its delays. *)
#[export] Instance timed_env : RetryEnv (script * list Z) := {|
  ctx_done w := script_ctx (fst w);
  wait d w := let '(s, e) := wait d (fst w) in (s, snd w ++ [d], e);
  rand53 w := let '(s, k) := rand53 (fst w) in (s, snd w, k)
|}.

Definition timed_fn (w : script * list Z) : script * list Z * option error :=
  let '(s, e) := script_fn (fst w) in (s, snd w, e).

#[export] Program Instance timed_waits : Waits (script * list Z) timed_fn := {| waited := snd |}.
Solve All Obligations with done.

(** ** Lemmas *)

Section Loop.
Context {W : Type} `{FloatConv, RetryEnv W}.
Context (fn : W -> W * option error) `{!Journal W fn} (r : Retry).

Lemma retry_loop_outcome n attempt last0 w :
  attempt + Z.of_nat n = MaxAttempts (config r) + 1 ->
  let '(w', res) := retry_loop r fn n attempt last0 w in
  exists rs, journal w' = journal w ++ rs /\ loop_outcome r n last0 res rs.
Proof.
  revert attempt last0 w. induction n as [|n IH]; intros attempt last0 w Hn; simpl.
  { exists []. rewrite app_nil_r. split; [done|]. split; [done|]. split; [done|]. by right; right. }
  destruct (ctx_done w) as [e|] eqn:Hctx.
  { exists []. rewrite app_nil_r. split; [done|]. split; [simpl; lia|]. split; [done|].
    left. exists e, w. split; [done|by left]. }
  pose proof (journal_fn w) as Hj. destruct (fn w) as [w1 [err|]] eqn:Hfn; simpl in Hj.
  2:{ exists [None]. split; [done|]. split; [simpl; lia|]. split; [intros [|] ?; simpl; lia|].
      right; left. split; [done|by left]. }
  destruct (isRetryable r err) eqn:Hre; simpl.
  2:{ exists [Some err]. split; [done|]. split; [simpl; lia|].
      split; [intros [|] ?; simpl; lia|]. right; left. split; [done|by left]. }
  case_bool_decide as Hm.
  { exists [Some err]. split; [done|]. split; [simpl; lia|].
    split; [intros [|] ?; simpl; lia|]. right; left. split; [done|right; simpl; lia]. }
  pose proof (journal_rand w1) as Hjr. destruct (rand53 w1) as [w2 k]; simpl in Hjr.
  pose proof (journal_wait (calculateDelay r k attempt) w2) as Hjw.
  destruct (wait _ w2) as [w3 [e|]] eqn:Hw; simpl in Hjw.
  { exists [Some err]. split; [congruence|]. split; [simpl; lia|].
    split; [intros [|] ?; simpl; lia|]. left. exists e, w2.
    split; [done|]. right. eexists. by rewrite Hw. }
  specialize (IH (attempt + 1) (Some err) w3 ltac:(lia)).
  destruct (retry_loop r fn n (attempt + 1) (Some err) w3) as [w' res].
  destruct IH as (rs & Hrs & Hlen & Hmid & Hout). exists (Some err :: rs).
  split; [rewrite Hrs, Hjw, Hjr, Hj, <-app_assoc; done|].
  split; [simpl; lia|]. split.
  - intros [|i] x Hx Hi; simpl in *; [by simplify_eq|]. apply (Hmid i); [done|lia].
  - destruct Hout as [Hout|[[Hl Hs]|(-> & -> & ->)]]; [by left| |].
    + right; left. split; [by destruct rs|]. destruct Hs; [by left|right; simpl; lia].
    + lia.
Qed.
End Loop.

(** What the function, the timer and the generator keep, the loop keeps. *)
Lemma retry_loop_keeps {W} `{FloatConv, RetryEnv W} (P : W -> Prop) r fn n attempt last0 w :
  (forall w, P w -> P (fst (fn w))) -> (forall d w, P w -> P (fst (wait d w))) ->
  (forall w, P w -> P (fst (rand53 w))) ->
  P w -> P (fst (retry_loop r fn n attempt last0 w)).
Proof.
  intros Hf Hw Hr. revert attempt last0 w.
  induction n as [|n IH]; intros attempt last0 w HP; simpl; [done|].
  destruct (ctx_done w); [done|]. pose proof (Hf w HP) as HP1.
  destruct (fn w) as [w1 [err|]]; simpl in *; [|done].
  destruct (isRetryable r err); simpl; [|done]. case_bool_decide; [done|].
  pose proof (Hr _ HP1) as HP2. destruct (rand53 w1) as [w2 k]. simpl in HP2.
  pose proof (Hw (calculateDelay r k attempt) _ HP2) as HP3.
  destruct (wait _ w2) as [w3 [e|]]; [done|]. by apply IH.
Qed.

(** The configured numbers are numbers, and the jitter is below all of the delay. *)
Definition sound_floats (cfg : RetryConfig) : Prop :=
  valid (Multiplier cfg) /\ valid (JitterFactor cfg) /\ f64_lt (JitterFactor cfg) (f64_of_int 1) = true.

Lemma rand_Float64_within k : 0 <= k < 2 ^ 53 -> pos_ok (rand_Float64 k) /\ within 1 (rand_Float64 k).
Proof.
  intros Hk. destruct (decide (k = 0)) as [->|Hn]; [by vm_compute|].
  destruct (of_int_value k) as (m & e & Hk1 & _ & Hv); [lia|]. unfold rand_Float64. rewrite Hk1.
  change (f64_of_int (2 ^ 53)) with (S754_finite false 4503599627370496 1).
  destruct (quotient_brackets m e 4503599627370496 1) as (q & e' & l & Hd & Hq & Hb & He). rewrite Hd.
  assert (roundable q e' l (pos_val m e / pos_val 4503599627370496 1)) as Hr by done.
  split; [by eapply round_pos_ok|]. eapply round_within; [exact Hr| |apply bound_1].
  apply Qle_shift_div_r; [apply pos_val_pos|]. rewrite Hv.
  change (pos_val 4503599627370496 1) with (inject_Z (2 ^ 53)). rewrite Qmult_1_l, <-Zle_Qle. lia.
Qed.

Lemma jitter_below j :
  valid j -> f64_lt j (f64_of_int 1) = true -> f64_lt j f64_zero = false ->
  exists B, bound B /\ (B < 1)%Q /\ within B j.
Proof.
  intros Hv Hlt Hz. destruct j as [s|[]| |[] m e]; try done.
  - exists (1 # 2)%Q. split; [apply bound_half|done].
  - change (f64_of_int 1) with (S754_finite false 4503599627370496 (-52)) in Hlt. apply lt_spec in Hlt; [|done|by vm_compute].
    assert (pos_val 4503599627370496 (-52) == 1)%Q as H1 by done. rewrite H1 in Hlt.
    exists (pos_val m e). split; [|split; [exact Hlt|split; [done|apply Qle_refl]]]. exists m, e. split; [done|]. split; [|reflexivity].
    enough (Zpos (digits2_pos m) - 1 + e < 0) by lia. apply pow2_lt_inv.
    eapply Qle_lt_trans; [apply pos_val_digits|exact Hlt].
Qed.

Lemma two_within f : pos_ok f -> within 1 f -> pos_ok (f64_mul f two) /\ within 2 (f64_mul f two).
Proof.
  intros Hp Hw. split; [apply mul_pos_ok; [done|by vm_compute]|].
  apply within_mul; [apply bound_2|done|]. vm_compute. repeat split; discriminate.
Qed.

Lemma NewRetry_floats cfg :
  sound_floats cfg ->
  magnitude (Multiplier (config (NewRetry cfg))) /\
  exists B, bound B /\ (B < 1)%Q /\ within B (JitterFactor (config (NewRetry cfg))).
Proof.
  intros (Hm & Hj & Hlt). unfold NewRetry. cbn [config Multiplier JitterFactor]. split.
  - destruct (Multiplier cfg) as [s|[]| |[] m e]; by vm_compute.
  - assert (exists B, bound B /\ (B < 1)%Q /\ within B tenth) as Ht by (by apply jitter_below; vm_compute).
    destruct (f64_lt (JitterFactor cfg) f64_zero) eqn:Hz; [exact Ht|].
    destruct (f64_lt (f64_of_int 1) (JitterFactor cfg)); [exact Ht|]. exact (jitter_below _ Hj Hlt Hz).
Qed.

(** No product or power leaves the numbers, an overflow to infinity is cut to the
    maximum, and the conversion to a duration is within range. *)
Lemma calculateDelay_bounds `{FloatConv} cfg k attempt :
  sound_floats cfg -> MaxDelay cfg < 2 ^ 53 -> InitialDelay cfg <= max_int64 ->
  0 <= k < 2 ^ 53 -> 1 <= attempt <= max_int64 ->
  0 <= calculateDelay (NewRetry cfg) k attempt <= MaxDelay (config (NewRetry cfg)).
Proof.
  intros Hs HM HI Hk Ha. destruct (NewRetry_floats cfg Hs) as (Hm & B & HB & HB1 & HJ).
  assert (0 < MaxDelay (config (NewRetry cfg)) < 2 ^ 53) as HM1
    by (simpl; case_bool_decide; unfold Second, Millisecond in *; lia).
  assert (amount (f64_of_int (InitialDelay (config (NewRetry cfg))))) as HI1.
  { apply of_int_amount. simpl. case_bool_decide; unfold Millisecond, max_int64 in *; lia. }
  set (r := NewRetry cfg) in *. unfold calculateDelay, backoff. apply capped_range; [done|].
  destruct (rand_Float64_within k Hk) as [Hu Hu1]. destruct (two_within _ Hu Hu1) as [Hu2 Hw2].
  pose proof (sub_one_within _ Hu2 Hw2) as Hw. pose proof (within_mul B _ _ HB Hw HJ) as Hjit.
  rewrite f64_mul_comm. apply mul_magnitude; [by eapply add_one_amount|]. apply mul_magnitude; [done|].
  apply pow_magnitude; [done|]. rewrite wrap64_id by (unfold in_int64, min_int64, max_int64 in *; lia). lia.
Qed.

Lemma total_le (m : Z) ds : Forall (fun d => 0 <= d <= m) ds -> foldr Z.add 0 ds <= Z.of_nat (length ds) * m.
Proof. induction 1 as [|d ds Hd _ IH]; cbn [foldr length]; lia. Qed.

(** Every wait is the delay of its attempt, and there are fewer waits than attempts. *)
Lemma retry_loop_waits {W} `{FloatConv, RetryEnv W} (fn : W -> W * option error) `{!Waits W fn} (r : Retry)
    (P : Z -> Z -> Prop) n attempt last0 w :
  (forall k attempt, 0 <= k < 2 ^ 53 -> 1 <= attempt <= max_int64 -> P attempt (calculateDelay r k attempt)) ->
  1 <= attempt -> attempt + Z.of_nat n = MaxAttempts (config r) + 1 -> MaxAttempts (config r) <= max_int64 ->
  exists ds, waited (fst (retry_loop r fn n attempt last0 w)) = waited w ++ ds /\
    (forall i d, ds !! i = Some d -> P (attempt + Z.of_nat i) d) /\ (length ds <= pred n)%nat.
Proof.
  intros Hd. revert attempt last0 w. induction n as [|n IH]; intros attempt last0 w Ha Hn Hm; simpl.
  { exists []. by rewrite app_nil_r. }
  assert (forall u, u = waited w -> exists ds, u = waited w ++ ds /\
    (forall i d, ds !! i = Some d -> P (attempt + Z.of_nat i) d) /\ (length ds <= n)%nat) as Hstop.
  { intros u ->. exists []. rewrite app_nil_r. repeat split; [done|simpl; lia]. }
  destruct (ctx_done w); [by apply Hstop|].
  pose proof (waited_fn w) as Hf. destruct (fn w) as [w1 [err|]]; simpl in Hf; [|by apply Hstop].
  destruct (isRetryable r err); simpl; [|by apply Hstop].
  case_bool_decide as Hx; [by apply Hstop|].
  pose proof (waited_rand w1) as Hr. pose proof (rand53_range w1) as Hk. destruct (rand53 w1) as [w2 k]; simpl in Hr, Hk.
  assert (P attempt (calculateDelay r k attempt)) as Hdk by (apply Hd; lia).
  pose proof (waited_wait (calculateDelay r k attempt) w2) as Hw.
  destruct (wait _ w2) as [w3 [e|]]; simpl in Hw.
  { exists [calculateDelay r k attempt]. split; [simpl; congruence|]. split; [|simpl; lia].
    intros [|i] d ?; simplify_eq/=. by rewrite Z.add_0_r. }
  destruct (IH (attempt + 1) (Some err) w3) as (ds & Hds & Hall & Hlen); [lia..|].
  exists (calculateDelay r k attempt :: ds). split; [rewrite Hds, Hw, Hr, Hf, <-app_assoc; done|].
  split; [|simpl; lia]. intros [|i] d Hi; simplify_eq/=; [by rewrite Z.add_0_r|].
  replace (attempt + Z.of_nat (S i)) with (attempt + 1 + Z.of_nat i) by lia. by apply Hall.
Qed.

(** A multiplier that is no number passes the checks of [NewRetry] (every comparison
    with it is false), and from the second attempt on the delay is the least integer:
    the timer fires at once. So does an infinite multiplier with a jitter of one that
    takes away all of the delay. *)
Lemma nan_delay :
  let cfg m j := {| MaxAttempts := 5; InitialDelay := 100 * Millisecond; MaxDelay := 10 * Second;
                    Multiplier := m; JitterFactor := j; RetryableErrors := [] |} in
  calculateDelay (NewRetry (cfg S754_nan tenth)) 0 2 = min_int64 /\
  calculateDelay (NewRetry (cfg two S754_nan)) 0 1 = min_int64 /\
  calculateDelay (NewRetry (cfg (S754_infinity false) (f64_of_int 1))) 0 2 = min_int64.
Proof. by vm_compute. Qed.

(** ** Properties *)

(** C18: the function is called at most [MaxAttempts] times; every result but
    the last is a retryable error; and the answer is either the context's error
    (the context was done before an attempt or during a wait), or the result of
    the last call, which then is a success, a non-retryable error, or the
    result of call number [MaxAttempts]. *)
Theorem retry_attempts {W} `{FloatConv, RetryEnv W} (fn : W -> W * option error) `{!Journal W fn}
    cfg w :
  let r := NewRetry cfg in
  let '(w', res) := ExecuteWithContext r fn w in
  exists rs, journal w' = journal w ++ rs /\
    Z.of_nat (length rs) <= MaxAttempts (config r) /\
    (forall i x, rs !! i = Some x -> (S i < length rs)%nat -> may_retry r x = true) /\
    ((exists e w1, res = Some e /\ (ctx_done w1 = Some e \/ exists d, snd (wait d w1) = Some e)) \/
     (last rs = Some res /\
      (may_retry r res = false \/ Z.of_nat (length rs) = MaxAttempts (config r)))).
Proof.
  intros r. assert (Hm : 0 < MaxAttempts (config r)) by (simpl; case_bool_decide; lia).
  unfold ExecuteWithContext.
  pose proof (retry_loop_outcome fn r (Z.to_nat (MaxAttempts (config r))) 1 None w ltac:(lia)) as Ho.
  destruct (retry_loop _ _ _ _ _ _) as [w' res]. destruct Ho as (rs & Hj & Hl & Hmid & Hout).
  exists rs. split; [done|]. split; [lia|]. split; [done|].
  destruct Hout as [Hc|[[Hl2 Hs]|(_ & ? & _)]]; [by left| |lia].
  right. split; [done|]. destruct Hs; [by left|right; lia].
Qed.

(** C19: every delay the loop waits is at least zero and at most the maximum of the
    configuration, whatever the generator draws and however large the powers of the
    multiplier get (they overflow to infinity, which is cut to the maximum), there are
    fewer waits than attempts, and so the waits of a whole call take at most
    [(MaxAttempts - 1) * MaxDelay]. *)
Theorem retry_waits {W} `{FloatConv, RetryEnv W} (fn : W -> W * option error) `{!Waits W fn} cfg w :
  sound_floats cfg -> MaxDelay cfg < 2 ^ 53 -> InitialDelay cfg <= max_int64 -> MaxAttempts cfg <= max_int64 ->
  let r := NewRetry cfg in
  exists ds, waited (fst (ExecuteWithContext r fn w)) = waited w ++ ds /\
    Forall (fun d => 0 <= d <= MaxDelay (config r)) ds /\
    Z.of_nat (length ds) < MaxAttempts (config r) /\
    foldr Z.add 0 ds <= (MaxAttempts (config r) - 1) * MaxDelay (config r).
Proof.
  intros Hs HM HI HA r. assert (0 < MaxAttempts (config r) <= max_int64) as Hm
    by (simpl; case_bool_decide; unfold max_int64 in *; lia).
  assert (0 < MaxDelay (config r)) as Hp by (simpl; case_bool_decide; unfold Second, Millisecond; lia).
  destruct (retry_loop_waits fn r (fun _ d => 0 <= d <= MaxDelay (config r)) (Z.to_nat (MaxAttempts (config r))) 1 None w)
    as (ds & Hds & Hall & Hlen); [intros; by apply calculateDelay_bounds|lia..|].
  assert (Forall (fun d => 0 <= d <= MaxDelay (config r)) ds) by (apply Forall_lookup; eauto).
  exists ds. split; [exact Hds|]. split; [done|]. split; [lia|].
  etransitivity; [by apply total_le|]. apply Z.mul_le_mono_nonneg_r; lia.
Qed.

(** ** Witnesses *)

Lemma retry_attempts_witness :
  exists rs, seen (fst (ExecuteWithContext (NewRetry DefaultRetryConfig) script_fn
      (script0 [Some (ErrExt 1); Some (ErrExt 2); None] None))) = rs /\
    Z.of_nat (length rs) <= 3 /\ last rs = Some None.
Proof.
  pose proof (retry_attempts script_fn DefaultRetryConfig
    (script0 [Some (ErrExt 1); Some (ErrExt 2); None] None)) as H.
  revert H. vm_compute. intros (rs & Hj & Hl & _). subst rs.
  exists [Some (ErrExt 1); Some (ErrExt 2); None]. split; [reflexivity|].
  split; [discriminate|reflexivity].
Defined.

(** Four calls that fail, with a multiplier of [2^600]: its square is infinite, and the
    waits after the first are the maximum. *)
Definition steep : RetryConfig :=
  {| MaxAttempts := 4; InitialDelay := 100 * Millisecond; MaxDelay := 10 * Second;
     Multiplier := math_Pow two 600; JitterFactor := tenth; RetryableErrors := [] |}.

Lemma retry_waits_witness :
  snd (fst (ExecuteWithContext (NewRetry steep) timed_fn (script0 (repeat (Some (ErrExt 1)) 4) None, []))) =
    [100 * Millisecond; 10 * Second; 10 * Second] /\
  exists ds, snd (fst (ExecuteWithContext (NewRetry steep) timed_fn
      (script0 (repeat (Some (ErrExt 1)) 4) None, []))) = ds /\
    foldr Z.add 0 ds <= 3 * (10 * Second).
Proof.
  split; [vm_compute; reflexivity|].
  destruct (retry_waits timed_fn steep (script0 (repeat (Some (ErrExt 1)) 4) None, [])) as (ds & Hds & _ & _ & Hle);
    [vm_compute; repeat split; discriminate|done|vm_compute; discriminate|vm_compute; discriminate|].
  exists ds. split; [exact Hds|exact Hle].
Defined.
