(* ===== verification/RetryDoubling.v ===== *)
(** * Delays that double (src/resilience/retry.go)

    With the multiplier two the delays before the jitter are exactly the initial delay
    times the powers of two, although they are computed in binary64 by the language's
    [math.Pow]; the jitter moves them by its factor at most, and the maximum cuts them. *)

From S2P Require Import Prelude GoFloat FloatNear FloatBounds Retry.
From Stdlib Require Import Floats.SpecFloat QArith Lqa.
#[local] Open Scope Z_scope.

(** The float [2 ^ n]. *)
Definition power (n : Z) : f64 := S754_finite false 4503599627370496 (n - 52).

(** The jitter of the configuration is [c / 2 ^ s] at most, up or down. *)
Definition jitter_at_most (c s : Z) (f : f64) : Prop := within (inject_Z c * pow2 (- s)) f.

(** The delay without jitter, and before it is cut to the maximum. *)
Definition ideal_delay (r : Retry) (attempt : Z) : Z := InitialDelay (config r) * 2 ^ (attempt - 1).

(** At most [c / 2 ^ s] of the ideal delay away from it, and a nanosecond, up to the cut. *)
Definition near_ideal (r : Retry) (c s : Z) (attempt d : Z) : Prop :=
  0 <= d <= MaxDelay (config r) /\
  2 ^ s * (d - 1) < (2 ^ s + c) * ideal_delay r attempt /\
  (d < MaxDelay (config r) -> (2 ^ s - c) * ideal_delay r attempt < 2 ^ s * (d + 1)) /\
  (c = 0 -> d = Z.min (MaxDelay (config r)) (ideal_delay r attempt)).

Definition doubling (r : Retry) (c s : Z) : Prop :=
  0 < InitialDelay (config r) < 2 ^ 53 /\ 0 < MaxDelay (config r) < 2 ^ 53 /\
  Multiplier (config r) = two /\ 0 <= s <= 52 /\ 0 <= c < 2 ^ s /\ jitter_at_most c s (JitterFactor (config r)).

(** All defaults but the jitter. *)
Definition plain_config : RetryConfig :=
  {| MaxAttempts := 9; InitialDelay := 0; MaxDelay := 0; Multiplier := f64_zero;
     JitterFactor := f64_zero; RetryableErrors := [] |}.

(** ** Powers of two *)

Lemma power_value n : (pos_val 4503599627370496 (n - 52) == pow2 n)%Q.
Proof.
  unfold pos_val. change (Zpos 4503599627370496) with (2 ^ 52). rewrite <-pow2_nonneg_Z, <-pow2_add by lia.
  by replace (52 + (n - 52)) with n by lia.
Qed.

Lemma power_canonical n : -1022 <= n <= 1023 -> canonical 4503599627370496 (n - 52).
Proof. intros. split; [rewrite fexp_max; simpl; lia|lia]. Qed.

Lemma power_mul i j :
  -1022 <= i <= 1023 -> -1022 <= j <= 1023 -> -1022 <= i + j <= 1023 ->
  f64_mul (power i) (power j) = power (i + j).
Proof.
  intros. unfold power. apply (mul_exact false false); [by apply power_canonical..|].
  by rewrite !power_value, pow2_add.
Qed.

(** The loop keeps one half in [x1]; it multiplies [a1] by it at each bit of the exponent
    that is set, and stops early only when the power is beyond all numbers. *)
Lemma pow_loop_two i xe j ae :
  2 <= xe -> 0 <= j -> j + Zpos (Pos.size i) <= 900 ->
  exists j' ae', pow_loop i half xe (power (- j)) ae = (power (- j'), ae') /\
    0 <= j' <= j + Zpos (Pos.size i) /\
    (ae' - j' = ae - j + (xe - 1) * Zpos i \/
     (2 ^ 12 <= ae' - j' - (ae - j) /\ 2 ^ 12 <= (xe - 1) * Zpos i)).
Proof.
  revert xe j ae. induction i as [i IH|i IH|]; intros xe j ae Hxe Hj Hsz; cbn [pow_loop Pos.size] in *;
    rewrite (bool_decide_false (xe < _)) by lia; case_bool_decide as Hbig; simpl orb; cbv iota.
  all: try (exists j, (ae + xe); repeat split; [lia..|right; nia]).
  all: change half with (power (-1)); change (f64_mul (power (-1)) (power (-1))) with (power (-2));
    change (f64_lt (power (-2)) (power (-1))) with true; change (f64_add (power (-2)) (power (-2))) with half;
    cbv iota; rewrite ?power_mul by lia; replace (- j + -1) with (- (j + 1)) by lia.
  - destruct (IH (2 * xe - 1) (j + 1) (ae + xe)) as (j' & ae' & Heq & Hj' & Hv); [lia..|].
    exists j', ae'. split; [exact Heq|]. split; [lia|]. destruct Hv as [Hv|[Hv1 Hv2]]; [left|right]; lia.
  - destruct (IH (2 * xe - 1) j ae) as (j' & ae' & Heq & Hj' & Hv); [lia..|].
    exists j', ae'. split; [exact Heq|]. split; [lia|]. destruct Hv as [Hv|[Hv1 Hv2]]; [left|right]; lia.
  - exists (j + 1), (ae + xe). repeat split; lia.
Qed.

Lemma round_power n : -1022 <= n -> binary_round 53 1024 false 4503599627370496 (n - 52) =
  if n <=? 1023 then power n else S754_infinity false.
Proof.
  intros Hn. assert (Hc : fexp 53 1024 (53 + (n - 52)) = n - 52) by (rewrite fexp_max; lia).
  unfold binary_round. cbn [digits2_pos]. change (Zpos _ + (n - 52)) with (53 + (n - 52)).
  rewrite Hc. unfold shl_align. rewrite Z.sub_diag. unfold binary_round_aux, shr_fexp. cbn [Zdigits2 digits2_pos].
  change (Zpos _ + (n - 52)) with (53 + (n - 52)). rewrite Hc, Z.sub_diag. cbn -[Z.leb Z.sub Z.add fexp].
  change (Zpos _ + (n - 52)) with (53 + (n - 52)). rewrite Hc, Z.sub_diag. cbn -[Z.leb Z.sub].
  destruct (Z.leb_spec (n - 52) (1024 - 53)), (Z.leb_spec n 1023); done || lia.
Qed.

Lemma size_bound i : Zpos i <= max_int64 -> Zpos (Pos.size i) <= 64.
Proof.
  intros Hi. assert (2 ^ Zpos (Pos.size i) <= 2 * Zpos i) as H by (rewrite <-Pos2Z.inj_pow; apply (Pos.size_le i)).
  assert (2 ^ Zpos (Pos.size i) < 2 ^ 64) as H2 by (unfold max_int64 in *; lia).
  apply Z.pow_lt_mono_r_iff in H2; lia.
Qed.

Lemma two_exponents i : Zpos i <= max_int64 -> (1 < i)%positive ->
  math_Pow two (Zpos i) = let '(a, ae) := pow_loop i half 2 (power (- 0)) 0 in math_Ldexp a ae.
Proof. intros _ Hi. by destruct i. Qed.

(** [math.Pow(2, y)]: exact, and infinite when [2 ^ y] is beyond all numbers. *)
Lemma math_Pow_two y :
  0 <= y <= max_int64 -> math_Pow two y = if y <=? 1023 then power y else S754_infinity false.
Proof.
  intros Hy. destruct y as [|i|i]; [done| |lia]. destruct (decide (i = 1%positive)) as [->|Hi]; [done|].
  rewrite two_exponents by lia. pose proof (size_bound i ltac:(lia)) as Hsz.
  destruct (pow_loop_two i 2 0 0) as (j & ae & -> & Hj & Hv); [lia..|].
  unfold power at 1. cbn [math_Ldexp SFldexp]. unfold math_Ldexp, SFldexp.
  replace (- j - 52 + ae) with (ae - j - 52) by lia. rewrite round_power by lia.
  destruct Hv as [Hv|Hv]; [by replace (ae - j) with (Zpos i) by lia|].
  rewrite !(proj2 (Z.leb_gt _ _)) by lia. done.
Qed.

(** ** Whole numbers times powers of two *)

Lemma int_scaled z n :
  0 < z < 2 ^ 53 -> -900 <= n <= 900 ->
  exists m e, canonical m e /\ e <= n /\ (pos_val m e == inject_Z z * pow2 n)%Q /\
    exists m0 e0, f64_of_int z = S754_finite false m0 e0 /\ canonical m0 e0 /\ m0 = m /\ e0 + n = e.
Proof.
  intros Hz Hn. destruct (of_int_value z Hz) as (m & e & Hi & Hc & Hv).
  pose proof (canonical_digits _ _ Hc) as [Hd Hcase]. pose proof (pos_val_digits m e) as [H1 H2]. rewrite Hv in H1, H2.
  assert (-53 < e) as He.
  { enough (0 < Zpos (digits2_pos m) + e) by lia. apply pow2_lt_inv. eapply Qle_lt_trans; [|exact H2].
    change (pow2 0) with (inject_Z 1). rewrite <-Zle_Qle. lia. }
  assert (Zpos (digits2_pos m) = 53) as Hd53 by lia. rewrite Hd53 in H1.
  assert (e <= 0) as He0.
  { enough (52 + e < 53) by lia. apply pow2_lt_inv. eapply Qle_lt_trans; [exact H1|].
    rewrite pow2_nonneg_Z, <-Zlt_Qlt by lia. lia. }
  exists m, (e + n). split; [|split; [lia|split]].
  - split; [rewrite Hd53, fexp_max; lia|lia].
  - unfold pos_val. rewrite pow2_add, Qmult_assoc. by setoid_rewrite Hv.
  - by exists m, e.
Qed.

Lemma bound_scaled c s : 0 < c < 2 ^ 53 -> 0 <= s <= 900 -> bound (inject_Z c * pow2 (- s)).
Proof.
  intros Hc Hs. destruct (int_scaled c (- s) Hc) as (m & e & Hcan & He & Hv & _); [lia|].
  exists m, e. repeat split; [apply Hcan..|lia|by rewrite Hv].
Qed.

(** ** The factor of the jitter *)

Section Factor.
Context (c s : Z) (Hs : 0 <= s <= 52) (Hc : 0 <= c < 2 ^ s).

Lemma scale_bound : 0 < 2 ^ s <= 2 ^ 52.
Proof using Hs. split; [apply Z.pow_pos_nonneg; lia|]. apply Z.pow_le_mono_r; lia. Qed.

Lemma jitter_product v j : within 1 v -> jitter_at_most c s j -> jitter_at_most c s (f64_mul v j).
Proof using Hs Hc.
  intros Hv Hj. pose proof scale_bound. destruct (decide (c = 0)) as [->|].
  - destruct j as [sj| | |sj m e]; try done; [by destruct v|]. destruct Hj as [_ Hj].
    pose proof (pos_val_pos m e). change (inject_Z 0) with 0%Q in Hj. lra.
  - apply within_mul; [apply bound_scaled; lia|done|done].
Qed.

Lemma one_plus_minus : (1 + inject_Z c * pow2 (- s) == inject_Z (2 ^ s + c) * pow2 (- s))%Q /\
  (1 - inject_Z c * pow2 (- s) == inject_Z (2 ^ s - c) * pow2 (- s))%Q.
Proof using Hs.
  assert (1 == inject_Z (2 ^ s) * pow2 (- s))%Q as H.
  { rewrite <-pow2_nonneg_Z, <-pow2_add by lia. by rewrite Z.add_opp_diag_r. }
  rewrite inject_Z_minus, inject_Z_plus. split; lra.
Qed.

(** One plus the jitter, rounded: a number between [1 - c / 2 ^ s] and [1 + c / 2 ^ s]. *)
Lemma factor_range j :
  jitter_at_most c s j -> exists m e, f64_add (f64_of_int 1) j = S754_finite false m e /\ canonical m e /\
    (inject_Z (2 ^ s - c) * pow2 (- s) <= pos_val m e)%Q /\ (pos_val m e <= inject_Z (2 ^ s + c) * pow2 (- s))%Q.
Proof using Hs Hc.
  intros Hj. pose proof scale_bound as Hsb. pose proof one_plus_minus as [Hp Hm].
  destruct (int_scaled (2 ^ s - c) (- s)) as (ml & el & Hcl & Hel & Hvl & _); [lia..|].
  pose proof (bound_scaled (2 ^ s + c) s ltac:(lia) ltac:(lia)) as Hu.
  enough (at_least (pos_val ml el) (f64_add (f64_of_int 1) j) /\
    within (inject_Z (2 ^ s + c) * pow2 (- s)) (f64_add (f64_of_int 1) j)) as [[Hf|(m & e & Hf & Hcan & Hl)] Hw].
  { by rewrite Hf in Hw. }
  { rewrite Hf in Hw. destruct Hw as [_ Hw]. exists m, e. rewrite <-Hvl. done. }
  change (f64_of_int 1) with (S754_finite false 4503599627370496 (-52)).
  assert (pos_val 4503599627370496 (-52) == 1)%Q as H1 by done. assert (0 <= inject_Z c * pow2 (- s))%Q as Hb0.
  { apply Qmult_le_0_compat; [change 0%Q with (inject_Z 0); rewrite <-Zle_Qle; lia|apply Qlt_le_weak, pow2_pos]. }
  destruct j as [sj| | |sj m e]; try done.
  { change (f64_add _ _) with (S754_finite false 4503599627370496 (-52)).
    split; [right; exists 4503599627370496%positive, (-52)|split]; [split; [done|split; [done|]]|done|]; lra. }
  destruct Hj as [Hcj Hj]. unfold f64_add, SFadd. set (ez := Z.min (-52) e). cbn [cond_Zopp].
  set (a := Zpos (fst (shl_align 4503599627370496 (-52) ez))). set (b := Zpos (fst (shl_align m e ez))).
  assert (inject_Z a * pow2 ez == 1)%Q as Ha by (unfold a; rewrite align_value by lia; done).
  assert (inject_Z b * pow2 ez == pos_val m e)%Q as Hb by (unfold b; rewrite align_value by lia; done).
  pose proof (pow2_pos ez) as Hez. pose proof (pos_val_pos m e) as Hpm. pose proof (pos_val_pos ml el) as Hpl.
  assert (pos_val ml el <= inject_Z (a + cond_Zopp sj b) * pow2 ez /\
    inject_Z (a + cond_Zopp sj b) * pow2 ez <= inject_Z (2 ^ s + c) * pow2 (- s))%Q as [Hlo Hhi].
  { destruct sj; cbn [cond_Zopp]; rewrite inject_Z_plus, ?inject_Z_opp, Qmult_plus_distr_l; split; lra. }
  split; [|apply normalize_within; [split; [lra|done]|done]].
  destruct (a + cond_Zopp sj b) as [|z|z] eqn:Hz.
  - change (inject_Z 0) with 0%Q in Hlo. lra.
  - by apply binary_round_at_least.
  - change (inject_Z (Zneg z)) with (- inject_Z (Zpos z))%Q in Hlo.
    pose proof (pos_val_pos z ez) as Hzp. unfold pos_val at 1 in Hzp. lra.
Qed.
End Factor.

(** ** The delay before the jitter, and the jittered one *)

Lemma scaled_delay i y :
  0 < i < 2 ^ 53 -> 0 <= y <= max_int64 ->
  (y <= 900 /\ exists m e, f64_mul (f64_of_int i) (math_Pow two y) = S754_finite false m e /\ canonical m e /\
     (pos_val m e == inject_Z (i * 2 ^ y))%Q) \/
  (900 < y /\ at_least (pow2 900) (f64_mul (f64_of_int i) (math_Pow two y))).
Proof.
  intros Hi Hy. rewrite math_Pow_two by done. destruct (decide (y <= 900)) as [Hle|Hgt].
  - left. split; [done|]. rewrite (proj2 (Z.leb_le _ _)) by lia.
    destruct (int_scaled i y Hi ltac:(lia)) as (m & e & Hc & _ & Hv & m0 & e0 & Hf & Hc0 & -> & <-).
    exists m, (e0 + y). rewrite inject_Z_mult, <-pow2_nonneg_Z by lia. split; [|done]. rewrite Hf. unfold power.
    apply (mul_exact false false); [done|apply power_canonical; lia|done|].
    rewrite power_value. unfold pos_val. rewrite pow2_add. ring.
  - right. split; [lia|]. destruct (of_int_value i Hi) as (m & e & -> & Hc & Hv).
    destruct (Z.leb_spec y 1023); [|by left].
    apply (at_least_le _ (pos_val 4503599627370496 (900 - 52))); [rewrite power_value; apply Qle_refl|].
    unfold power, f64_mul, SFmul. eapply round_at_least; [apply mul_roundable; [done|apply power_canonical; lia]| |].
    + apply power_canonical. lia.
    + rewrite !power_value, Hv. assert (pow2 900 <= pow2 y)%Q by (apply pow2_le; lia). pose proof (pow2_pos y).
      assert (1 <= inject_Z i)%Q by (change 1%Q with (inject_Z 1); rewrite <-Zle_Qle; lia). nra.
Qed.

Lemma product_at_least D m e L1 L2 z :
  at_least L1 D -> canonical m e -> (0 <= L1)%Q -> (0 <= L2)%Q -> (L2 <= pos_val m e)%Q ->
  0 < z < 2 ^ 53 -> (inject_Z z <= L1 * L2)%Q -> at_least (inject_Z z) (f64_mul D (S754_finite false m e)).
Proof.
  intros [->|(m1 & e1 & -> & Hc1 & HL1)] Hc H1 H2 HL2 Hz Hle; [by left|].
  destruct (of_int_value z Hz) as (mz & ez & _ & Hcz & Hvz).
  unfold f64_mul, SFmul. eapply (at_least_le _ (pos_val mz ez)); [rewrite Hvz; apply Qle_refl|].
  eapply round_at_least; [by apply mul_roundable|done|]. rewrite Hvz. nra.
Qed.

Lemma product_at_most m1 e1 m e z :
  canonical m1 e1 -> canonical m e -> 0 < z < 2 ^ 53 -> (pos_val m1 e1 * pos_val m e <= inject_Z z)%Q ->
  within (inject_Z z) (f64_mul (S754_finite false m1 e1) (S754_finite false m e)).
Proof.
  intros Hc1 Hc Hz Hle. unfold f64_mul, SFmul. eapply round_within; [by apply mul_roundable|done|].
  destruct (int_scaled z 0 Hz ltac:(lia)) as (mz & ez & Hcz & Hez & Hvz & _). exists mz, ez.
  split; [done|]. split; [lia|]. rewrite Hvz. change (pow2 0) with 1%Q. ring.
Qed.

(** A capped float from below and from above, as an integer. *)
Lemma capped_at_least `{FloatConv} M z f :
  0 < M < 2 ^ 53 -> 0 < z -> at_least (inject_Z z) f ->
  let d := int64_of_f64 (if f64_lt (f64_of_int M) f then f64_of_int M else f) in d < M -> z <= d.
Proof.
  intros HM Hz Hf. destruct (of_int_value M HM) as (m & e & Hm & Hc & Hv). rewrite Hm. cbv zeta.
  assert (int64_of_f64 (S754_finite false m e) = M) as HMd.
  { unfold int64_of_f64. rewrite (f64_trunc_exact _ _ _ M Hv). cbn [cond_Zopp].
    by rewrite bool_decide_true by (unfold in_int64, min_int64, max_int64; lia). }
  destruct (f64_lt _ f) eqn:Hlt; [rewrite HMd; lia|].
  destruct Hf as [->|(m' & e' & -> & Hc' & Hz')]; [done|]. intros Hd.
  assert (pos_val m' e' <= inject_Z M)%Q as Hle.
  { rewrite <-Hv. destruct (Qlt_le_dec (pos_val m e) (pos_val m' e')) as [Hl|]; [|done].
    apply lt_spec in Hl; [congruence|done..]. }
  destruct (trunc_below m' e' M Hle) as (t & Ht & Hr). destruct (trunc_above m' e' z Hz') as (t' & Ht' & Hr').
  unfold int64_of_f64. rewrite Ht. rewrite bool_decide_true by (unfold in_int64, min_int64, max_int64; lia). congruence.
Qed.

Lemma capped_at_most `{FloatConv} M z f :
  0 < M < 2 ^ 53 -> 0 < z < M -> magnitude f -> within (inject_Z z) f ->
  int64_of_f64 (if f64_lt (f64_of_int M) f then f64_of_int M else f) <= z.
Proof.
  intros HM Hz [Hp _] Hf. destruct (of_int_value M HM) as (m & e & Hm & Hc & Hv). rewrite Hm.
  destruct f as [s|s| |s m' e']; try done.
  - change (f64_lt _ _) with false. unfold int64_of_f64. cbn [f64_trunc].
    rewrite bool_decide_true by (vm_compute; split; discriminate). lia.
  - destruct Hp as [-> Hc']. destruct Hf as [_ Hf]. destruct (f64_lt _ _) eqn:Hlt.
    { apply lt_spec in Hlt; [|done..]. rewrite Hv in Hlt. assert (inject_Z M < inject_Z z)%Q as Hx by lra.
      rewrite <-Zlt_Qlt in Hx. lia. }
    destruct (trunc_below m' e' z Hf) as (t & Ht & Hr). unfold int64_of_f64. rewrite Ht.
    rewrite bool_decide_true by (unfold in_int64, min_int64, max_int64; lia). lia.
Qed.

Lemma unscale b s : (inject_Z b == inject_Z b * pow2 s * pow2 (- s))%Q.
Proof. rewrite <-Qmult_assoc, <-pow2_add, Z.add_opp_diag_r. change (pow2 0) with 1%Q. ring. Qed.

Lemma scaled_le a b s : 0 <= s -> a <= b * 2 ^ s -> (inject_Z a * pow2 (- s) <= inject_Z b)%Q.
Proof.
  intros Hs H. rewrite Zle_Qle, inject_Z_mult, <-pow2_nonneg_Z in H by done. pose proof (pow2_pos (- s)).
  rewrite (unscale b s). apply Qmult_le_compat_r; [done|lra].
Qed.

Lemma scaled_ge a b s : 0 <= s -> b * 2 ^ s <= a -> (inject_Z b <= inject_Z a * pow2 (- s))%Q.
Proof.
  intros Hs H. rewrite Zle_Qle, inject_Z_mult, <-pow2_nonneg_Z in H by done. pose proof (pow2_pos (- s)).
  rewrite (unscale b s). apply Qmult_le_compat_r; [done|lra].
Qed.

Section Jittered.
Context `{FloatConv} (M i y c s : Z) (m : positive) (e : Z).
Context (HM : 0 < M < 2 ^ 53) (Hi : 0 < i < 2 ^ 53) (Hy : 0 <= y <= max_int64).
Context (Hs : 0 <= s <= 52) (Hc : 0 <= c < 2 ^ s).
Context (Hcan : canonical m e) (Hlo : (inject_Z (2 ^ s - c) * pow2 (- s) <= pos_val m e)%Q).
Context (Hhi : (pos_val m e <= inject_Z (2 ^ s + c) * pow2 (- s))%Q).

Let delay := f64_mul (f64_mul (f64_of_int i) (math_Pow two y)) (S754_finite false m e).
Let d := int64_of_f64 (if f64_lt (f64_of_int M) delay then f64_of_int M else delay).

Lemma jittered_range : 0 <= d <= M.
Proof using All.
  apply capped_range; [done|]. unfold delay. rewrite f64_mul_comm. apply mul_magnitude; [by exists m, e|].
  destruct (scaled_delay i y Hi Hy) as [(_ & m1 & e1 & -> & ? & _)|[_ [->|(m1 & e1 & -> & ? & _)]]]; done.
Qed.

Lemma jittered_above : d < M -> (2 ^ s - c) * (i * 2 ^ y) < 2 ^ s * (d + 1).
Proof using All.
  pose proof jittered_range as [Hd0 _]. intros HdM. pose proof (scale_bound s Hs) as Hsb. set (base := i * 2 ^ y).
  pose proof (Z.pow_pos_nonneg 2 y ltac:(lia) ltac:(lia)) as H2y. assert (0 < base) as Hbase by (unfold base; nia).
  set (T := (2 ^ s - c) * base / 2 ^ s). assert ((2 ^ s - c) * base < 2 ^ s * (T + 1)) as HT.
  { unfold T. pose proof (Z.mul_succ_div_gt ((2 ^ s - c) * base) (2 ^ s)). lia. }
  destruct (decide (T <= 0)); [nia|]. assert (T * 2 ^ s <= (2 ^ s - c) * base) as HT2.
  { rewrite Z.mul_comm. apply Z.mul_div_le. lia. }
  enough (Z.min T M <= d) as Hd by nia. apply (capped_at_least M (Z.min T M) delay); [done|lia| |done].
  assert (0 <= inject_Z (2 ^ s - c) * pow2 (- s))%Q as H0 by (apply (scaled_ge _ 0); lia).
  destruct (scaled_delay i y Hi Hy) as [(Hy9 & m1 & e1 & HD & Hc1 & Hv1)|[Hy9 HD]]; unfold delay.
  - eapply (product_at_least _ m e (inject_Z base)); try done; [| |lia|].
    + right. exists m1, e1. split; [done|]. split; [done|]. rewrite Hv1. apply Qle_refl.
    + change 0%Q with (inject_Z 0). rewrite <-Zle_Qle. lia.
    + rewrite Qmult_assoc, <-inject_Z_mult. apply scaled_ge; nia.
  - apply (product_at_least _ m e (pow2 900) (inject_Z (2 ^ s - c) * pow2 (- s)));
      [done|done|apply Qlt_le_weak, pow2_pos|done|done|lia|].
    apply Qle_trans with (pow2 900 * pow2 (- 52))%Q.
    + rewrite <-pow2_add, pow2_nonneg_Z, <-Zle_Qle by lia.
      transitivity (2 ^ 53); [lia|]. apply Z.pow_le_mono_r; lia.
    + assert (pow2 (-52) <= inject_Z (2 ^ s - c) * pow2 (- s))%Q as Hp.
      { apply Qle_trans with (1 * pow2 (- s))%Q; [rewrite Qmult_1_l; apply pow2_le; lia|].
        apply Qmult_le_compat_r; [change 1%Q with (inject_Z 1); rewrite <-Zle_Qle; lia|apply Qlt_le_weak, pow2_pos]. }
      pose proof (pow2_pos 900). rewrite !(Qmult_comm (pow2 900)). apply Qmult_le_compat_r; [done|lra].
Qed.

Lemma jittered_below : 2 ^ s * (d - 1) < (2 ^ s + c) * (i * 2 ^ y).
Proof using All.
  pose proof jittered_range as [_ HdM].
  destruct (decide (2 ^ s * (d - 1) < (2 ^ s + c) * (i * 2 ^ y))) as [|Hn]; [done|exfalso].
  pose proof (scale_bound s Hs) as Hsb. pose proof (Z.pow_pos_nonneg 2 y ltac:(lia) ltac:(lia)) as H2y.
  assert (0 < i * 2 ^ y <= d - 1) as Hbase by nia.
  destruct (scaled_delay i y Hi Hy) as [(Hy9 & m1 & e1 & HD & Hc1 & Hv1)|[Hy9 _]].
  - enough (d <= d - 1) by lia. unfold d at 1. apply capped_at_most; [done|lia| |]; unfold delay; rewrite HD.
    + apply mul_magnitude; [by exists m1, e1|done].
    + apply product_at_most; [done|done|lia|]. rewrite Hv1.
      apply Qle_trans with (inject_Z (i * 2 ^ y) * (inject_Z (2 ^ s + c) * pow2 (- s)))%Q.
      * rewrite !(Qmult_comm (inject_Z (i * 2 ^ y))). apply Qmult_le_compat_r; [done|].
        change 0%Q with (inject_Z 0). rewrite <-Zle_Qle. lia.
      * rewrite Qmult_assoc, <-inject_Z_mult. apply scaled_le; lia.
  - assert (2 ^ 53 <= 2 ^ y) by (apply Z.pow_le_mono_r; lia). nia.
Qed.
End Jittered.

(** ** The retry *)

Lemma calculateDelay_near `{FloatConv} r c s k attempt :
  doubling r c s -> 0 <= k < 2 ^ 53 -> 1 <= attempt <= max_int64 ->
  near_ideal r c s attempt (calculateDelay r k attempt).
Proof.
  intros (HI & HM & Htwo & Hs & Hc & HJ) Hk Ha.
  destruct (rand_Float64_within k Hk) as [Hu Hu1]. destruct (two_within _ Hu Hu1) as [Hu2 Hw2].
  pose proof (jitter_product c s Hs Hc _ _ (sub_one_within _ Hu2 Hw2) HJ) as Hj.
  destruct (factor_range c s Hs Hc _ Hj) as (m & e & Hf & Hcan & Hlo & Hhi).
  assert (0 <= attempt - 1 <= max_int64) as Hy by lia. unfold near_ideal, ideal_delay.
  pose proof (jittered_range (MaxDelay (config r)) _ _ c s m e HM HI Hy Hs Hc Hcan Hlo Hhi) as H1.
  pose proof (jittered_below (MaxDelay (config r)) _ _ c s m e HM HI Hy Hs Hc Hcan Hlo Hhi) as H2.
  pose proof (jittered_above (MaxDelay (config r)) _ _ c s m e HM HI Hy Hs Hc Hcan Hlo Hhi) as H3.
  unfold calculateDelay, backoff. rewrite Hf, Htwo, wrap64_id by (unfold in_int64, min_int64, max_int64 in *; lia).
  set (d := int64_of_f64 _) in *. split_and!; [apply H1|apply H1|exact H2|exact H3|].
  intros ->. pose proof (scale_bound s Hs). rewrite Z.add_0_r in H2. rewrite Z.sub_0_r in H3.
  apply Z.mul_lt_mono_pos_l in H2; [|lia]. destruct (decide (d < MaxDelay (config r))) as [Hlt|]; [|lia].
  specialize (H3 Hlt). apply Z.mul_lt_mono_pos_l in H3; lia.
Qed.

(** ** Property *)

(** C20: delays that double. With the multiplier two, the wait after attempt [i] is the
    initial delay times [2 ^ (i - 1)], cut to the maximum: exactly without jitter, and
    with a jitter factor of at most [c / 2 ^ s] no further from it than that fraction and
    a nanosecond, whatever the generator draws, up to the last attempt an [int] can count
    and although every number on the way is a rounded binary64. *)
Theorem doubling_delays {W} `{FloatConv, RetryEnv W} (fn : W -> W * option error) `{!Waits W fn} cfg c s w :
  let r := NewRetry cfg in
  doubling r c s -> MaxAttempts cfg <= max_int64 ->
  exists ds, waited (fst (ExecuteWithContext r fn w)) = waited w ++ ds /\
    forall i d, ds !! i = Some d -> near_ideal r c s (1 + Z.of_nat i) d.
Proof.
  intros r Hd HA. assert (0 < MaxAttempts (config r) <= max_int64) as Hm
    by (simpl; case_bool_decide; unfold max_int64 in *; lia).
  destruct (retry_loop_waits fn r (near_ideal r c s) (Z.to_nat (MaxAttempts (config r))) 1 None w)
    as (ds & Hds & Hall & _); [intros; by apply calculateDelay_near|lia..|].
  by exists ds.
Qed.

(** ** Witnesses *)

(** The default jitter of [0.1] is below [13108 / 2 ^ 17]. *)
Lemma default_doubling : doubling (NewRetry DefaultRetryConfig) 13108 17.
Proof. vm_compute. repeat split; discriminate. Qed.

(** Nine calls that fail, with the default delays: they double from a tenth of a second
    until the maximum of ten seconds cuts them. *)
Lemma doubling_delays_witness :
  exists ds, ds = (fun n => n * Millisecond) <$> [100; 200; 400; 800; 1600; 3200; 6400; 10000] /\
    snd (fst (ExecuteWithContext (NewRetry plain_config) timed_fn
      (script0 (repeat (Some (ErrExt 1)) 9) None, []))) = ds /\
    near_ideal (NewRetry plain_config) 0 0 3 (400 * Millisecond) /\
    exists d, near_ideal (NewRetry DefaultRetryConfig) 13108 17 1 d.
Proof.
  destruct (doubling_delays timed_fn plain_config 0 0 (script0 (repeat (Some (ErrExt 1)) 9) None, []))
    as (ds & Hds & Hall); [vm_compute; repeat split; discriminate|vm_compute; discriminate|].
  destruct (doubling_delays timed_fn DefaultRetryConfig 13108 17 (script0 [Some (ErrExt 1); None] None, []))
    as (ds2 & Hds2 & Hall2); [apply default_doubling|vm_compute; discriminate|].
  assert (ds = (fun n => n * Millisecond) <$> [100; 200; 400; 800; 1600; 3200; 6400; 10000]) as Heq.
  { transitivity ([] ++ ds); [done|]. etransitivity; [symmetry; exact Hds|]. vm_compute. reflexivity. }
  exists ds. split; [exact Heq|]. split; [exact Hds|]. split.
  - apply (Hall 2%nat). rewrite Heq. reflexivity.
  - assert (ds2 <> []) as Hne by (intros ->; vm_compute in Hds2; discriminate Hds2).
    destruct ds2 as [|d ds2]; [destruct (Hne eq_refl)|]. exists d. apply (Hall2 0%nat). reflexivity.
Defined.
