(* ===== verification/Executor.v ===== *)
(** * The resilient executor (src/resilience/executor.go)

    The chain bulkhead, circuit breaker, retry, function, with the state of the
    bulkhead and of the breaker threaded through one call, and the two
    registries of named instances ([BulkheadGroup], [ExecutorGroup]) with the
    interleavings of their look-ups. *)

From S2P Require Import Prelude GoFloat CircuitBreaker Bulkhead Retry.

(** ** Data *)

Record ExecutorConfig := {
  Name : string;
  CircuitBreakerEnabled : bool;
  MaxFailures : Z;
  CircuitTimeout : Z;
  BulkheadEnabled : bool;
  MaxConcurrent : Z;
  MaxWaitDuration : Z;
  RetryEnabled : bool;
  MaxAttempts : Z;
  InitialDelay : Z;
  MaxDelay : Z
}.

Definition DefaultExecutorConfig (name : string) : ExecutorConfig :=
  {| Name := name; CircuitBreakerEnabled := true; MaxFailures := 5;
     CircuitTimeout := 30 * Second; BulkheadEnabled := true; MaxConcurrent := 10;
     MaxWaitDuration := 0; RetryEnabled := true; MaxAttempts := 3;
     InitialDelay := 100 * Millisecond; MaxDelay := 5 * Second |}.

(** A nil pointer is [None]. *)
Record Executor := {
  config : ExecutorConfig;
  circuitBreaker : option CircuitBreaker.CircuitBreaker;
  bulkhead : option Bulkhead.Bulkhead;
  retry : option Retry.Retry
}.

Record ExecutorStats := {
  es_Name : string;
  es_CircuitBreakerState : string;
  es_CircuitBreakerFailures : Z;
  es_BulkheadActive : Z;
  es_BulkheadAvailable : Z;
  es_BulkheadRejected : Z
}.

(** ** Operations *)

Definition NewExecutor (cfg : ExecutorConfig) : Executor :=
  {| config := cfg;
     circuitBreaker :=
       if CircuitBreakerEnabled cfg then
         Some (NewCircuitBreaker
           {| CircuitBreaker.Name := Name cfg +:+ "-cb";
              CircuitBreaker.MaxFailures := MaxFailures cfg;
              CircuitBreaker.Timeout := CircuitTimeout cfg;
              CircuitBreaker.ResetTimeout := 10 * Second |})
       else None;
     bulkhead :=
       if BulkheadEnabled cfg then
         Some (NewBulkhead
           {| Bulkhead.Name := Name cfg +:+ "-bh";
              Bulkhead.MaxConcurrent := MaxConcurrent cfg;
              Bulkhead.MaxWaitDuration := MaxWaitDuration cfg |})
       else None;
     retry :=
       if RetryEnabled cfg then
         Some (NewRetry
           {| Retry.MaxAttempts := MaxAttempts cfg;
              Retry.InitialDelay := InitialDelay cfg;
              Retry.MaxDelay := MaxDelay cfg;
              Retry.Multiplier := two;
              Retry.JitterFactor := tenth;
              Retry.RetryableErrors := [] |})
       else None |}.

(** The executor's fields are pointers: a call changes what they point to. The
    state of a call is the executor, its parts updated, and the world. *)
Definition call_state (W : Type) : Type := Executor * W.

Definition with_breaker (e : Executor) (cb : CircuitBreaker.CircuitBreaker) : Executor :=
  {| config := config e; circuitBreaker := Some cb; bulkhead := bulkhead e; retry := retry e |}.

Definition with_bulkhead (e : Executor) (b : Bulkhead.Bulkhead) : Executor :=
  {| config := config e; circuitBreaker := circuitBreaker e; bulkhead := Some b;
     retry := retry e |}.

(** The breaker of the executor, read back after the wrapped function ran. *)
Definition breaker_of (cb : CircuitBreaker.CircuitBreaker) (e : Executor) :
    CircuitBreaker.CircuitBreaker := default cb (circuitBreaker e).

Definition bulkhead_of (b : Bulkhead.Bulkhead) (e : Executor) : Bulkhead.Bulkhead :=
  default b (bulkhead e).

Section Chain.
Context {W : Type} `{FloatConv, RetryEnv W} (clock : W -> Z) (c : select_case).

(** The retry of an executor looks at the world only. *)
#[local] Instance call_env : RetryEnv (call_state W) := {|
  ctx_done s := ctx_done (snd s);
  wait d s := let '(w, r) := wait d (snd s) in ((fst s, w), r);
  rand53 s := let '(w, k) := rand53 (snd s) in ((fst s, w), k)
|}.

Definition run_retry (r : option Retry.Retry)
    (execution : call_state W -> call_state W * option error) :
    call_state W -> call_state W * option error :=
  match r with
  | Some r => Retry.ExecuteWithContext r execution
  | None => execution
  end.

Definition run_breaker (execution : call_state W -> call_state W * option error)
    (s : call_state W) : call_state W * option error :=
  let '(e, w) := s in
  match circuitBreaker e with
  | Some cb =>
      let '((cb', (e', w')), err) :=
        CircuitBreaker.ExecuteWithContext (fun ew => clock (snd ew))
          (fun '(cb1, (e1, w1)) =>
             let '((e2, w2), err) := execution (with_breaker e1 cb1, w1) in
             ((breaker_of cb1 e2, (e2, w2)), err))
          (cb, (e, w)) in
      ((with_breaker e' cb', w'), err)
  | None => execution s
  end.

(** [None] when the scheduler cannot take the case [c] of the bulkhead's
    [select]. *)
Definition run_bulkhead (execution : call_state W -> call_state W * option error)
    (s : call_state W) : option (call_state W * option error) :=
  let '(e, w) := s in
  match bulkhead e with
  | Some b =>
      '((b', (e', w')), err) ←
        Bulkhead.ExecuteWithContext c
          (fun '(b1, (e1, w1)) =>
             let '((e2, w2), err) := execution (with_bulkhead e1 b1, w1) in
             ((bulkhead_of b1 e2, (e2, w2)), err))
          (b, (e, w));
      Some ((with_bulkhead e' b', w'), err)
  | None => Some (execution s)
  end.

Definition ExecuteWithContext (fn : call_state W -> call_state W * option error)
    (s : call_state W) : option (call_state W * option error) :=
  run_bulkhead (run_breaker (run_retry (retry (fst s)) fn)) s.
End Chain.

#[export] Existing Instance call_env.

Definition Stats (e : Executor) : ExecutorStats :=
  let bh := Bulkhead.Stats <$> bulkhead e in
  {| es_Name := Name (config e);
     es_CircuitBreakerState := default "" (StateName <$> circuitBreaker e);
     es_CircuitBreakerFailures := default 0 (CircuitBreaker.failures <$> circuitBreaker e);
     es_BulkheadActive := default 0 (stats_Active <$> bh);
     es_BulkheadAvailable := default 0 (stats_Available <$> bh);
     es_BulkheadRejected := default 0 (stats_Rejected <$> bh) |}.

(** ** Registries *)

(** Named instances live in a heap of pointers; a registry maps names to
    pointers. *)
Record registry (T : Type) := { entries : gmap string nat; heap : list T }.
Arguments entries {T} _.
Arguments heap {T} _.
Arguments Build_registry {T} _ _.

Definition BulkheadGroup : Type := registry Bulkhead.Bulkhead.
Definition ExecutorGroup : Type := registry Executor.

Definition NewBulkheadGroup : BulkheadGroup := {| entries := ∅; heap := [] |}.
Definition NewExecutorGroup : ExecutorGroup := {| entries := ∅; heap := [] |}.

(** Allocate an instance and enter it under its name. *)
Definition register {T} (name : string) (x : T) (g : registry T) : registry T * nat :=
  ({| entries := <[name := length (heap g)]> (entries g); heap := heap g ++ [x] |},
   length (heap g)).

(** The section of [BulkheadGroup.Get] under the write lock, with its second
    look-up. *)
Definition group_create (name : string) (maxConcurrent : Z) (bg : BulkheadGroup)
    : BulkheadGroup * nat :=
  match entries bg !! name with
  | Some bh => (bg, bh)
  | None =>
      register name
        (NewBulkhead {| Bulkhead.Name := name; Bulkhead.MaxConcurrent := maxConcurrent;
                        Bulkhead.MaxWaitDuration := 0 |}) bg
  end.

Definition BulkheadGroup_Get (name : string) (maxConcurrent : Z) (bg : BulkheadGroup)
    : BulkheadGroup * nat :=
  match entries bg !! name with
  | Some bh => (bg, bh)
  | None => group_create name maxConcurrent bg
  end.

Definition BulkheadGroup_AllStats (bg : BulkheadGroup) : list BulkheadStats :=
  omap (fun '(_, bh) => Bulkhead.Stats <$> heap bg !! bh) (map_to_list (entries bg)).

(** [ExecutorGroup.GetOrCreate] and [Get]. No lock is taken: the write is its
    own section. *)
Definition executor_create (name : string) (cfg : ExecutorConfig) (eg : ExecutorGroup)
    : ExecutorGroup * nat := register name (NewExecutor cfg) eg.

Definition GetOrCreate (name : string) (cfg : ExecutorConfig) (eg : ExecutorGroup)
    : ExecutorGroup * nat :=
  match entries eg !! name with
  | Some exec => (eg, exec)
  | None => executor_create name cfg eg
  end.

Definition ExecutorGroup_Get (name : string) (eg : ExecutorGroup) : ExecutorGroup * nat :=
  GetOrCreate name (DefaultExecutorConfig name) eg.

Definition ExecutorGroup_AllStats (eg : ExecutorGroup) : list ExecutorStats :=
  omap (fun '(_, exec) => Stats <$> heap eg !! exec) (map_to_list (entries eg)).

(** Concurrent look-ups: a caller looks the name up in one section and creates
    the instance in a later one when it found nothing. *)
Inductive getter :=
| GLook (name : string)
| GCreate (name : string)
| GGot (name : string) (p : nat).

(** [create] is the second section, given the name. *)
Inductive group_step {T} (create : string -> registry T -> registry T * nat) :
    registry T * list getter -> registry T * list getter -> Prop :=
| gs_call g ts name : group_step create (g, ts) (g, ts ++ [GLook name])
| gs_hit g ts i name p :
    ts !! i = Some (GLook name) -> entries g !! name = Some p ->
    group_step create (g, ts) (g, <[i := GGot name p]> ts)
| gs_miss g ts i name :
    ts !! i = Some (GLook name) -> entries g !! name = None ->
    group_step create (g, ts) (g, <[i := GCreate name]> ts)
| gs_create g ts i name g' p :
    ts !! i = Some (GCreate name) -> create name g = (g', p) ->
    group_step create (g, ts) (g', <[i := GGot name p]> ts).

Definition group_reachable {T} create : registry T * list getter -> Prop :=
  reachable (fun s => s = ({| entries := ∅; heap := [] |}, [])) (group_step create).

(** Every pointer handed out is the one the registry holds for the name. *)
Definition getters_agree {T} (s : registry T * list getter) : Prop :=
  forall name p, GGot name p ∈ snd s -> entries (fst s) !! name = Some p.

(** Two calls of [Get] whose look-ups both come before the first write. *)
Definition split_brain : ExecutorGroup * list getter :=
  let cfg := DefaultExecutorConfig "orders" in
  ({| entries := {["orders" := 1%nat]}; heap := [NewExecutor cfg; NewExecutor cfg] |},
   [GGot "orders" 0; GGot "orders" 1]).

(** A function that follows its script and leaves the executor alone. *)
Definition failing (s : call_state script) : call_state script * option error :=
  let '(w, r) := script_fn (snd s) in ((fst s, w), r).

(** ** Lemmas *)

Lemma call_keeps_executor {W} `{FloatConv, RetryEnv W} r
    (fn : call_state W -> call_state W * option error) e w :
  (forall s, fst (fst (fn s)) = fst s) ->
  fst (fst (run_retry r fn (e, w))) = e.
Proof.
  intros Hfn. destruct r as [r|]; simpl; [|apply Hfn]. unfold Retry.ExecuteWithContext.
  apply (retry_loop_keeps (fun s : call_state W => fst s = e)); [| | |done].
  - intros s <-. apply Hfn.
  - intros d s <-. simpl. by destruct (wait d (snd s)).
  - intros s <-. simpl. by destruct (rand53 (snd s)).
Qed.

Lemma group_create_mono name m g g' p name' p' :
  group_create name m g = (g', p) ->
  entries g' !! name = Some p /\
  (entries g !! name' = Some p' -> entries g' !! name' = Some p').
Proof.
  unfold group_create, register. destruct (entries g !! name) eqn:Hn; intros; simplify_eq/=.
  - done.
  - split; [apply lookup_insert_eq|]. intros. rewrite lookup_insert_ne by congruence. done.
Qed.

Lemma getters_agree_step (limit : string -> Z) (s s' : BulkheadGroup * list getter) :
  getters_agree s -> group_step (fun name => group_create name (limit name)) s s' ->
  getters_agree s'.
Proof.
  intros Ha Hs. destruct Hs as [g ts name|g ts i name p Hi Hp|g ts i name Hi Hp|g ts i name g' p Hi Hc];
    intros name' p'; simpl.
  - rewrite elem_of_app, list_elem_of_singleton. intros [?|?]; [by apply Ha|done].
  - intros [j Hj]%list_elem_of_lookup.
    apply list_lookup_insert_Some in Hj as [(-> & ? & _)|[_ Hj]]; [by simplify_eq|].
    apply Ha. by eapply list_elem_of_lookup_2.
  - intros [j Hj]%list_elem_of_lookup.
    apply list_lookup_insert_Some in Hj as [(-> & ? & _)|[_ Hj]]; [done|].
    apply Ha. by eapply list_elem_of_lookup_2.
  - intros [j Hj]%list_elem_of_lookup.
    apply list_lookup_insert_Some in Hj as [(-> & ? & _)|[_ Hj]].
    + simplify_eq. eapply (proj1 (group_create_mono _ _ _ _ _ name' p' Hc)).
    + apply (group_create_mono _ _ _ _ _ name' p' Hc). apply Ha. by eapply list_elem_of_lookup_2.
Qed.

Lemma reachable_getters_agree (limit : string -> Z) s :
  group_reachable (fun name => group_create name (limit name)) s -> getters_agree s.
Proof.
  apply reachable_invariant.
  - intros ? -> ? ?. simpl. by rewrite elem_of_nil.
  - intros ???? Hs. by eapply getters_agree_step.
Qed.

Lemma split_brain_reachable :
  group_reachable (fun name => executor_create name (DefaultExecutorConfig name)) split_brain.
Proof.
  set (x := NewExecutor (DefaultExecutorConfig "orders")).
  pose (g0 := NewExecutorGroup). pose (g1 := fst (register "orders" x g0)).
  eapply reach_step; [|eapply (gs_create _ g1 [GGot "orders" 0; GCreate "orders"] 1 "orders" _ 1);
    reflexivity].
  eapply reach_step; [|eapply (gs_create _ g0 [GCreate "orders"; GCreate "orders"] 0 "orders" g1 0);
    reflexivity].
  eapply reach_step; [|eapply (gs_miss _ g0 [GCreate "orders"; GLook "orders"] 1 "orders");
    reflexivity].
  eapply reach_step; [|eapply (gs_call _ g0 [GCreate "orders"] "orders")].
  eapply reach_step; [|eapply (gs_miss _ g0 [GLook "orders"] 0 "orders"); reflexivity].
  eapply reach_step; [|eapply (gs_call _ g0 [] "orders")].
  by apply reach_init.
Qed.

(** ** Properties *)

(** C21: one call through the whole chain, with every pattern enabled and
    fail-fast admission. A full bulkhead answers [ErrBulkheadFull] and an open
    (or probing) breaker its own error, in both cases without running the
    function or waiting; otherwise the function runs under the retry and the
    breaker records exactly one result for the whole burst of attempts, the
    final one. The slot is given back in every case. *)
Theorem executor_one_call {W} `{FloatConv, RetryEnv W} (clock : W -> Z) c
    (fn : call_state W -> call_state W * option error) e w cb b :
  circuitBreaker e = Some cb -> bulkhead e = Some b ->
  Bulkhead.MaxWaitDuration (Bulkhead.config b) = 0 -> in_int64 (active b) ->
  (forall s, fst (fst (fn s)) = fst s) ->
  let b1 := granted 0 (send (count_call b)) in
  (sem (release b1) = sem b /\ active (release b1) = active b) /\
  ExecuteWithContext clock c fn (e, w) =
    if can_send b then
      let '(cb1, refused) := beforeRequest (clock w) cb in
      let e1 := with_breaker (with_bulkhead e b1) cb1 in
      match refused with
      | Some err => Some ((with_bulkhead e1 (release b1), w), Some err)
      | None =>
          let '((_, w2), err) := run_retry (retry e) fn (e1, w) in
          Some ((with_bulkhead (with_breaker e1 (afterRequest (clock w2) err cb1)) (release b1), w2), err)
      end
    else Some ((with_bulkhead e (reject (count_call b)), w), Some ErrBulkheadFull).
Proof.
  intros Hcb Hb Hw Ha Hfn b1. split.
  { simpl. split; [lia|]. rewrite wrap64_sub_l. rewrite wrap64_id; [lia|].
    by replace (active b + 1 - 1) with (active b) by lia. }
  unfold ExecuteWithContext, run_bulkhead. rewrite Hb. unfold Bulkhead.ExecuteWithContext, acquire.
  simpl. rewrite Hw, (bool_decide_true (0 = 0)) by done.
  assert (can_send (count_call b) = can_send b) as -> by done.
  destruct (can_send b); [|done]. simpl. fold b1. unfold CircuitBreaker.ExecuteWithContext.
  rewrite Hcb. destruct (beforeRequest (clock w) cb) as [cb1 [err|]]; [done|]. simpl.
  set (e1 := with_breaker (with_bulkhead e b1) cb1).
  pose proof (call_keeps_executor (retry e) fn e1 w Hfn) as Hk.
  destruct (run_retry (retry e) fn (e1, w)) as [[e2 w2] err]. simpl in *. by subst e2.
Qed.

(** the bulkhead registry never hands out two instances for one name:
    whatever the interleaving of concurrent [Get] calls, callers of one name
    hold the same pointer, because the second look-up is made under the write
    lock. *)
Theorem bulkhead_group_singleton (limit : string -> Z) s name p q :
  group_reachable (fun name => group_create name (limit name)) s ->
  GGot name p ∈ snd s -> GGot name q ∈ snd s -> p = q.
Proof.
  intros Hr Hp Hq. pose proof (reachable_getters_agree limit s Hr) as Ha.
  pose proof (Ha _ _ Hp). pose proof (Ha _ _ Hq). congruence.
Qed.

(** the executor registry takes no lock, so two concurrent [Get] calls can
    end with two executors for one name, each with a breaker and a bulkhead of
    its own. *)
Theorem executor_group_split_brain :
  group_reachable (fun name => executor_create name (DefaultExecutorConfig name)) split_brain /\
  GGot "orders" 0 ∈ snd split_brain /\ GGot "orders" 1 ∈ snd split_brain /\
  is_Some (heap (fst split_brain) !! 0%nat) /\ is_Some (heap (fst split_brain) !! 1%nat).
Proof. split; [apply split_brain_reachable|]. by vm_compute; repeat split; eauto; set_solver. Qed.

(** ** Witnesses *)

Lemma executor_one_call_witness :
  match ExecuteWithContext Retry.clock TimerFired failing
    (NewExecutor (DefaultExecutorConfig "w"), script0 [Some (ErrExt 1); None] None) with
  | Some ((e, w), r) => r = None /\ seen w = [Some (ErrExt 1); None]
  | None => False
  end.
Proof.
  rewrite (proj2 (executor_one_call Retry.clock TimerFired failing
    (NewExecutor (DefaultExecutorConfig "w")) (script0 [Some (ErrExt 1); None] None)
    _ _ eq_refl eq_refl eq_refl ltac:(vm_compute; split; discriminate)
    (fun s => ltac:(unfold failing; destruct (script_fn (snd s)); reflexivity)))).
  vm_compute. split; reflexivity.
Defined.

Lemma bulkhead_group_singleton_witness : 0%nat = 0%nat.
Proof.
  pose (g := fst (register "a" (NewBulkhead (DefaultBulkheadConfig "a")) NewBulkheadGroup)).
  apply (bulkhead_group_singleton (fun _ => 10) (g, [GGot "a" 0; GGot "a" 0]) "a").
  - eapply reach_step; [|eapply (gs_hit _ g [GGot "a" 0; GLook "a"] 1 "a" 0); reflexivity].
    eapply reach_step; [|eapply (gs_call _ g [GGot "a" 0] "a")].
    eapply reach_step; [|eapply (gs_create _ NewBulkheadGroup [GCreate "a"] 0 "a" g 0); reflexivity].
    eapply reach_step; [|eapply (gs_miss _ NewBulkheadGroup [GLook "a"] 0 "a"); reflexivity].
    eapply reach_step; [|eapply (gs_call _ NewBulkheadGroup [] "a")].
    by apply reach_init.
  - apply list_elem_of_here.
  - apply list_elem_of_here.
Defined.
