(* ===== verification/StructJson.v ===== *)
(** * Structs as JSON objects

    The rules of [encoding/json] by which the library's structs become trees of
    [Json] and are read back: tags with [omitempty], slices that may be nil, pointers,
    times. A struct gives its tags, its field values and its constructor; what
    it writes, what it ignores and that it reads back, as a tree and as a text,
    follow once and for all. *)

From S2P Require Import Prelude GoStrings GoFloat FloatNear Numbers Utf8 Json JsonText Jsonb Regex Digits GoTime.
From Stdlib Require Import Floats.SpecFloat Ascii.
From Stdlib Require Strings.String.

Definition err_unsupported : error := ErrVar "json.UnsupportedValueError".

(** ** Values

    [unmarshal cur j] reads [j] into a variable that holds [cur]; [is_empty] is what
    [omitempty] asks; [kept] are the values that a document can carry. *)
Class JsonValue (A : Type) := {
  zero : A;
  marshal : A -> result json;
  unmarshal : A -> json -> result A;
  is_empty : A -> bool;
  kept : A -> Prop
}.

(** [json.Marshal] and [json.Unmarshal] *)
Definition err_syntax : error := ErrVar "json.SyntaxError".

Definition Marshal {A} `{JsonValue A} (a : A) : result string := (j <- marshal a ;; Ok (encode j))%go.

Definition Unmarshal {A} `{JsonValue A} (cur : A) (s : string) : result A :=
  match decode s with Some j => unmarshal cur j | None => Err err_syntax end.

(** A [null] leaves a variable alone that is neither a pointer nor a slice. *)
Definition unless_null {A} (cur : A) (read : json -> result A) (j : json) : result A :=
  match j with JNull => Ok cur | _ => read j end.

#[export] Instance string_value : JsonValue string := {
  zero := "";
  marshal s := Ok (JStr s);
  unmarshal cur := unless_null cur (fun j => match j with JStr s => Ok s | _ => Err err_json end);
  is_empty s := bool_decide (s = "");
  kept s := valid_utf8 s = true
}.

#[export] Instance int_value : JsonValue Z := {
  zero := 0;
  marshal z := Ok (json_of_int z);
  unmarshal cur := unless_null cur json_int;
  is_empty z := bool_decide (z = 0);
  kept z := in_int64 z
}.

#[export] Instance float64_value : JsonValue f64 := {
  zero := f64_zero;
  marshal f := match f with S754_nan | S754_infinity _ => Err err_unsupported | _ => Ok (json_of_f64 f) end;
  unmarshal cur := unless_null cur json_float64;
  is_empty f := match f with S754_zero _ => true | _ => false end;
  kept f := finite f
}.

(** A slice: nil, or a slice of elements. *)
Inductive slice (A : Type) := Nil | Slice (l : list A).
Arguments Nil {A}.
Arguments Slice {A} l.

Definition elems {A} (s : slice A) : list A := match s with Nil => [] | Slice l => l end.

Definition map_result {A B} (f : A -> result B) : list A -> result (list B) :=
  foldr (fun a r => b <- f a ;; l <- r ;; Ok (b :: l))%go (Ok []).

(** An array is read into the elements the slice has, and then into new ones. *)
Fixpoint read_elems {A} `{JsonValue A} (cur : list A) (js : list json) : result (list A) :=
  match js with
  | [] => Ok []
  | j :: js =>
      (a <- unmarshal (default zero (head cur)) j ;; l <- read_elems (tail cur) js ;; Ok (a :: l))%go
  end.

#[export] Instance slice_value {A} `{JsonValue A} : JsonValue (slice A) := {
  zero := Nil;
  marshal s := match s with Nil => Ok JNull | Slice l => (js <- map_result marshal l ;; Ok (JArr js))%go end;
  unmarshal cur j :=
    match j with
    | JNull => Ok Nil
    | JArr js => (l <- read_elems (elems cur) js ;; Ok (Slice l))%go
    | _ => Err err_json
    end;
  is_empty s := bool_decide (length (elems s) = 0%nat);
  kept s := Forall kept (elems s)
}.

(** A pointer is nil or what it points to. *)
#[export] Instance pointer_value {A} `{JsonValue A} : JsonValue (option A) := {
  zero := None;
  marshal p := match p with None => Ok JNull | Some a => marshal a end;
  unmarshal cur j := match j with JNull => Ok None | _ => (a <- unmarshal (default zero cur) j ;; Ok (Some a))%go end;
  is_empty p := match p with None => true | Some _ => false end;
  kept p := match p with None => True | Some a => kept a end
}.

(** ** Times, in UTC

    RFC 3339 with the fraction of the second without trailing zeros; reading takes an
    offset too. What else the language's reader tolerates, such as hours of one digit,
    is refused here. A struct that holds a time is never empty. *)
Record time := Time { nanoseconds : Z }.

Fixpoint strip_zeros (l : list Z) : list Z :=
  match l with
  | [] => []
  | d :: l => match strip_zeros l with [] => if bool_decide (d = 0) then [] else [d] | l => d :: l end
  end.

Definition fraction (ns : Z) : string :=
  match strip_zeros (to_digits 9 10 ns) with [] => "" | l => "." +:+ digit_string l end.

Definition UTC : zone_data := Fixed 0.

Definition time_text (t : Z) : string :=
  let c := clock UTC t in
  format_date (local_date UTC t) +:+ "T" +:+ padded 2 (c / 3600) +:+ ":" +:+ padded 2 (c mod 3600 / 60) +:+ ":" +:+
  padded 2 (c mod 60) +:+ fraction (t mod Second) +:+ "Z".

(** A number of two digits up to [max], after [sep]. *)
Definition two_digits (sep : string) (max : Z) (s : string) : option (Z * string) :=
  s ← expect sep s;
  '(v, s) ← read_digits 2 0 s;
  if bool_decide (v <= max) then Some (v, s) else None.

(** The part after the seconds: nine digits of the fraction count. *)
Definition read_fraction (s : string) : option (Z * string) :=
  match expect "." s with
  | None => Some (0, s)
  | Some s =>
      let '(l, s) := digit_run s in
      if bool_decide (l = []) then None else Some (of_digits 10 (take 9 (l ++ replicate 9 0)), s)
  end.

Definition read_offset (s : string) : option Z :=
  if bool_decide (s = "Z") then Some 0
  else
    let sign := if HasPrefix s "-" then -1 else 1 in
    '(h, s) ← (if HasPrefix s "-" then two_digits "-" 23 s else two_digits "+" 23 s);
    '(m, s) ← two_digits ":" 59 s;
    if bool_decide (s = "") then Some (sign * (h * 3600 + m * 60)) else None.

Definition parse_time (s : string) : option Z :=
  d ← parse_date (String.substring 0 10 s);
  '(h, s) ← two_digits "T" 23 (String.substring 10 (String.length s - 10) s);
  '(m, s) ← two_digits ":" 59 s;
  '(c, s) ← two_digits ":" 59 s;
  '(ns, s) ← read_fraction s;
  off ← read_offset s;
  Some ((day_number d * 86400 + h * 3600 + m * 60 + c - off) * Second + ns).

#[export] Instance time_value : JsonValue time := {
  zero := Time time_zero;
  marshal t :=
    if bool_decide (0 <= Year (local_date UTC (nanoseconds t)) < 10000)
    then Ok (JStr (time_text (nanoseconds t)))
    else Err (ErrMsg "Time.MarshalJSON: year outside of range [0,9999]");
  unmarshal cur :=
    unless_null cur (fun j =>
      match j with
      | JStr s => match parse_time s with Some t => Ok (Time t) | None => Err (ErrVar "time.ParseError") end
      | _ => Err (ErrMsg "Time.UnmarshalJSON: input is not a JSON string")
      end);
  is_empty _ := false;
  kept t := four_digit_year (local_date UTC (nanoseconds t))
}.

(** ** Structs *)

(** Tags in the order of the fields: the key and [omitempty]. *)
Abbreviation tags := (list (string * bool)).

(** A member's field: the one of that key, else the first one whose key is the
    same without regard to the case of ASCII letters. *)
Definition resolve (ts : tags) (key : string) : option nat :=
  match list_find (fun t => fst t = key) ts with
  | Some (i, _) => Some i
  | None => fst <$> list_find (fun t => ToLower (fst t) = ToLower key) ts
  end.

(** The value of a field on its way out. *)
Record out := { out_json : result json; out_empty : bool; out_kept : Prop }.

Definition enc {A} `{JsonValue A} (a : A) : out :=
  {| out_json := marshal a; out_empty := is_empty a; out_kept := kept a |}.

Fixpoint write_members (ts : tags) (os : list out) : result (list (string * json)) :=
  match ts, os with
  | (key, omit) :: ts, o :: os =>
      (ms <- write_members ts os ;;
       if omit && out_empty o then Ok ms else j <- out_json o ;; Ok ((key, j) :: ms))%go
  | _, _ => Ok []
  end.

(** The values of a field, in the order of the text. *)
Definition values_at (ts : tags) (i : nat) (ms : list (string * json)) : list json :=
  omap (fun m => if bool_decide (resolve ts (fst m) = Some i) then Some (snd m) else None) ms.

(** They are read one after another into the field. *)
Definition read_field {A} `{JsonValue A} (ts : tags) (i : nat) (cur : A) (ms : list (string * json)) : result A :=
  foldl (fun r j => (a <- r ;; unmarshal a j)%go) (Ok cur) (values_at ts i ms).

Class JsonStruct (T : Type) := {
  st_tags : tags;
  st_zero : T;
  st_out : T -> list out;
  st_read : T -> list (string * json) -> result T
}.

#[export] Instance struct_value {T} `{JsonStruct T} : JsonValue T := {
  zero := st_zero;
  marshal t := (ms <- write_members st_tags (st_out t) ;; Ok (JObj ms))%go;
  unmarshal cur :=
    unless_null cur (fun j => match j with JObj ms => st_read cur ms | _ => Err err_json end);
  is_empty _ := false;
  kept t := Forall out_kept (st_out t)
}.

(** ** Laws

    A kept value is written, as a document of a known depth, and read back from the same
    document, in whatever form; and an omitted value is the zero value. *)
Class JsonLaws (A : Type) `{JsonValue A} := {
  json_depth : nat;
  marshal_kept a :
    kept a -> exists j, marshal a = Ok j /\ writable json_depth j /\
      forall j', same_document j j' -> unmarshal zero j' = Ok a
}.

Class JsonNotNull (A : Type) `{JsonValue A} := {
  marshal_not_null a j : marshal a = Ok j -> j <> JNull
}.

Class JsonOmit (A : Type) `{JsonValue A} := {
  omit_zero a : is_empty a = true -> a = zero
}.

(** ** Values are kept *)

#[export] Instance string_laws : JsonLaws string.
Proof.
  refine {| json_depth := 0 |}. intros s Hs. exists (JStr s). split; [done|]. split; [by constructor|].
  intros j' Hj. by inversion Hj.
Defined.

#[export] Instance string_omit : JsonOmit string.
Proof. split. intros s Hs. by apply bool_decide_eq_true in Hs. Qed.

#[export] Instance int_laws : JsonLaws Z.
Proof.
  refine {| json_depth := 0 |}. intros z Hz. exists (json_of_int z). split; [done|].
  split; [constructor; apply int_number_wf|]. intros j' Hj. inversion Hj as [| |? n' [_ Hn]| | |]; subst.
  rewrite Hn by done. by apply json_int_of_int.
Defined.

#[export] Instance int_omit : JsonOmit Z.
Proof. split. intros z Hz. by apply bool_decide_eq_true in Hz. Qed.

#[export] Instance float64_laws : JsonLaws f64.
Proof.
  refine {| json_depth := 0 |}. intros f Hf. exists (json_of_f64 f). split; [by destruct f|].
  split; [constructor; by apply float_number_wf|]. intros j' Hj. inversion Hj as [| |? n' [Hn _]| | |]; subst.
  cbn [unmarshal float64_value unless_null json_float64]. by rewrite Hn, number_float_number.
Defined.

#[export] Instance string_not_null : JsonNotNull string.
Proof. split. by intros s j [= <-]. Qed.

#[export] Instance pointer_laws {A} `{JsonLaws A, !JsonNotNull A} : JsonLaws (option A).
Proof.
  refine {| json_depth := json_depth (A := A) |}.
  intros [a|]; [|exists JNull; split; [done|split; [constructor|by inversion 1]]].
  cbn [kept pointer_value]. intros (j & Hj & Hw & Hu)%marshal_kept. exists j. split; [done|]. split; [done|].
  apply marshal_not_null in Hj. intros j' Hs. specialize (Hu j' Hs). simpl. destruct Hs; [done|by rewrite Hu..].
Defined.

#[export] Instance pointer_omit {A} `{JsonValue A} : JsonOmit (option A).
Proof. split. by intros []. Qed.

Lemma map_result_marshal {A} `{JsonLaws A} (l : list A) :
  Forall kept l -> exists js, map_result marshal l = Ok js /\ Forall (writable json_depth) js /\
    forall js', Forall2 same_document js js' -> read_elems [] js' = Ok l.
Proof.
  induction 1 as [|a l (j & Hj & Hw & Hu)%marshal_kept _ (js & Hjs & Hws & Hl)].
  { exists []. split; [done|]. split; [done|]. by inversion 1. }
  exists (j :: js). split; [simpl in *; by rewrite Hj, Hjs|]. split; [by constructor|].
  intros js' (j' & js2 & Hs & Hs2 & ->)%Forall2_cons_inv_l. simpl. rewrite (Hu j' Hs). simpl. by rewrite (Hl js2 Hs2).
Qed.

#[export] Instance slice_laws {A} `{JsonLaws A} : JsonLaws (slice A).
Proof.
  refine {| json_depth := S (json_depth (A := A)) |}.
  intros [|l]; [exists JNull; split; [done|split; [constructor|by inversion 1]]|].
  cbn [kept slice_value elems]. intros (js & Hjs & Hw & Hl)%map_result_marshal. exists (JArr js).
  split; [simpl in *; by rewrite Hjs|]. split; [by constructor|]. intros j' Hj. inversion Hj as [| | | |? js' Hs|]; subst.
  simpl. by rewrite (Hl js' Hs).
Defined.

(** ** Times are kept *)

Lemma strip_zeros_pad l : exists k, l = strip_zeros l ++ replicate k 0.
Proof.
  induction l as [|d l [k Hk]]; [by exists 0%nat|]. simpl. destruct (strip_zeros l) as [|d' l']; subst l.
  - case_bool_decide; [subst; by exists (S k)|by exists k].
  - by exists k.
Qed.

Lemma take_padding {A} (x : A) (l : list A) k n : length (l ++ replicate k x) = n -> take n (l ++ replicate n x) = l ++ replicate k x.
Proof.
  rewrite length_app, length_replicate. intros Hn. rewrite take_app, take_ge by lia. f_equal.
  rewrite take_replicate. f_equal. lia.
Qed.

Lemma read_fraction_text ns :
  0 <= ns < Second -> read_fraction (fraction ns +:+ "Z") = Some (ns, "Z").
Proof.
  intros Hns. unfold fraction. destruct (strip_zeros_pad (to_digits 9 10 ns)) as [k Hk].
  pose proof (to_digits_length 9 10 ns) as Hlen. pose proof (to_digits_below 9 10 ns ltac:(lia)) as Hb.
  pose proof (of_to_digits 9 10 ns ltac:(lia) Hns) as Hv.
  set (l := strip_zeros _) in *. clearbody l. rewrite Hk in Hb, Hlen, Hv. clear Hk. apply Forall_app in Hb as [Hb _].
  destruct l as [|d l].
  - assert (of_digits 10 ([] ++ replicate k 0) = 0) as H0; [|by rewrite <- Hv, H0].
    clear. simpl. induction k as [|k IH]; [done|]. exact IH.
  - rewrite append_assoc. unfold read_fraction. rewrite expect_append.
    rewrite digit_run_string by done. rewrite bool_decide_false by done.
    by rewrite (take_padding 0 (d :: l) k 9 Hlen), Hv.
Qed.

Lemma two_digits_text sep max v rest :
  0 <= v <= max -> max < 100 -> two_digits sep max (sep +:+ padded 2 v +:+ rest) = Some (v, rest).
Proof.
  intros Hv Hm. unfold two_digits. rewrite expect_append. cbn [mbind option_bind].
  rewrite read_padded by (change (10 ^ Z.of_nat 2) with 100; lia). cbn [mbind option_bind].
  by rewrite bool_decide_true by lia.
Qed.

Lemma substring_append (a b : string) :
  String.substring 0 (String.length a) (a +:+ b) = a /\
  String.substring (String.length a) (String.length (a +:+ b) - String.length a) (a +:+ b) = b.
Proof.
  induction a as [|c a [IH1 IH2]].
  - split; [by destruct b|]. simpl. rewrite Nat.sub_0_r. change ("" +:+ b) with b.
    induction b as [|c b IH]; [done|]. simpl. by rewrite IH.
  - rewrite append_String. simpl. by rewrite IH1, IH2.
Qed.

Lemma padded_length n v : String.length (padded n v) = n.
Proof.
  unfold padded. rewrite <- (to_digits_length n 10 v) at 2. generalize (to_digits n 10 v). intros l.
  induction l as [|d l IH]; [done|]. change (String.length (digit_string (d :: l))) with (S (String.length (digit_string l))).
  by rewrite IH.
Qed.

Lemma format_date_length d : String.length (format_date d) = 10%nat.
Proof. unfold format_date. by rewrite !append_length, !padded_length. Qed.

Lemma parse_time_text t :
  four_digit_year (local_date UTC t) -> parse_time (time_text t) = Some t.
Proof.
  intros Hy. unfold parse_time, time_text. set (d := local_date UTC t) in *. set (c := clock UTC t).
  pose proof (clock_range UTC t) as Hc. fold c in Hc.
  set (rest := "T" +:+ _).
  destruct (substring_append (format_date d) rest) as [Hd Hr]. rewrite format_date_length in Hd, Hr. rewrite Hd, Hr.
  rewrite (proj2 (parse_date_spec _ d)) by (split; [done|split; [apply local_date_valid|done]]). cbn [mbind option_bind].
  unfold rest. rewrite two_digits_text by (Z.div_mod_to_equations; lia). cbn [mbind option_bind].
  rewrite two_digits_text by (Z.div_mod_to_equations; lia). cbn [mbind option_bind].
  rewrite two_digits_text by (Z.div_mod_to_equations; lia). cbn [mbind option_bind].
  rewrite read_fraction_text by (apply Z.mod_pos_bound; done). cbn [mbind option_bind].
  replace (read_offset "Z") with (Some 0) by (vm_compute; reflexivity). cbn [mbind option_bind]. apply f_equal.
  pose proof (local_seconds_split UTC t) as Hs. fold d c in Hs. unfold local_seconds, unix in Hs.
  change (offset UTC (t / Second)) with 0 in Hs.
  pose proof (Z.div_mod t Second ltac:(done)).
  assert (c / 3600 * 3600 + c mod 3600 / 60 * 60 + c mod 60 = c) by (Z.div_mod_to_equations; lia). lia.
Qed.

Lemma valid_digits l : digits_below 10 l -> ascii_only (digit_string l) = true.
Proof.
  intros Hl. assert (Forall (fun d => bool_decide (code (digit_char d) < 128) = true) (seqZ 0 10)) as Hall
    by (apply (bool_decide_unpack _); vm_compute; exact I).
  induction (digits_below_lookup _ _ Hall Hl) as [|d l' Hd _ IH]; [done|]. inversion Hl; subst.
  change (digit_string (d :: l')) with (String (digit_char d) (digit_string l')). cbn [ascii_only]. by rewrite Hd, IH.
Qed.

Lemma time_text_ascii t : valid_utf8 (time_text t) = true.
Proof.
  apply valid_ascii. unfold time_text, format_date, fraction, padded. destruct (strip_zeros_pad (to_digits 9 10 (t mod Second))) as [k Hk].
  pose proof (to_digits_below 9 10 (t mod Second) ltac:(lia)) as Hb. rewrite Hk in Hb. apply Forall_app in Hb as [Hb _].
  destruct (strip_zeros _) as [|d l]; rewrite !ascii_only_append, !valid_digits by (done || by apply to_digits_below); done.
Qed.

#[export] Instance time_laws : JsonLaws time.
Proof.
  refine {| json_depth := 0 |}.
  intros [t] Ht. exists (JStr (time_text t)).
  cbn [marshal unmarshal kept time_value nanoseconds unless_null] in *.
  rewrite bool_decide_true by exact Ht. split; [reflexivity|].
  split; [constructor; apply time_text_ascii|]. intros j' Hj. inversion Hj; subst.
  cbn [unless_null]. by rewrite parse_time_text by exact Ht.
Defined.

#[export] Instance time_not_null : JsonNotNull time.
Proof. split. intros t j. cbn [marshal time_value]. case_bool_decide; [|done]. by intros [= <-]. Qed.

(** ** Structs are kept *)

(** Keys that are told apart without regard to case. *)
Definition distinct (ts : tags) : bool := bool_decide (NoDup ((fun t => ToLower (fst t)) <$> ts)).

Lemma resolve_own ts i key omit :
  distinct ts = true -> ts !! i = Some (key, omit) -> resolve ts key = Some i.
Proof.
  intros Hd Hi. apply bool_decide_eq_true in Hd. unfold resolve.
  destruct (list_find (fun t => fst t = key) ts) as [[j [key' o']]|] eqn:Hf.
  - apply list_find_Some in Hf as (Hj & Hk & _). simpl in Hk. subst key'. f_equal.
    eapply (NoDup_lookup _ _ _ (ToLower key) Hd); rewrite list_lookup_fmap, ?Hj, ?Hi; reflexivity.
  - rewrite list_find_None, Forall_forall in Hf. destruct (Hf (key, omit)); [by eapply list_elem_of_lookup_2|done].
Qed.

Lemma values_at_app ts i ms ms' : values_at ts i (ms ++ ms') = values_at ts i ms ++ values_at ts i ms'.
Proof. apply omap_app. Qed.

(** What is written for the fields from position [k] on. *)
Lemma write_members_values all ts os k ms i :
  distinct all = true -> drop k all = ts -> write_members ts os = Ok ms -> (k <= i)%nat ->
  values_at all i ms =
  match ts !! (i - k)%nat, os !! (i - k)%nat with
  | Some (_, omit), Some o =>
      if omit && out_empty o then [] else match out_json o with Ok j => [j] | Err _ => [] end
  | _, _ => []
  end /\ (forall i', (i' < k)%nat -> values_at all i' ms = []).
Proof.
  intros Hd. revert os k ms i. induction ts as [|[key omit] ts IH]; intros os k ms i Hk Hw Hi; simpl in Hw.
  { injection Hw as <-. by rewrite lookup_nil. }
  destruct os as [|o os]; [injection Hw as <-; by rewrite lookup_nil; destruct (_ !! _) as [[]|]|].
  destruct (write_members ts os) as [ms'|] eqn:Hw'; [|done]. simpl in Hw.
  assert (drop (S k) all = ts) as Hk' by (rewrite <- (Nat.add_1_r k), <- drop_drop, Hk; done).
  assert (resolve all key = Some k) as Hr.
  { apply (resolve_own _ _ _ omit Hd). rewrite <- (Nat.add_0_r k), <- lookup_drop, Hk. done. }
  assert (forall i', values_at all i' ms = 
    (if bool_decide (i' = k) then (if omit && out_empty o then [] else match out_json o with Ok j => [j] | Err _ => [] end) else [])
    ++ values_at all i' ms') as Hms.
  { intros i'. destruct (omit && out_empty o); [injection Hw as <-; by case_bool_decide|].
    destruct (out_json o) as [j|]; [|done]. injection Hw as <-. unfold values_at. simpl. rewrite Hr.
    repeat case_bool_decide; simplify_eq; done. }
  assert (values_at all k ms' = []) as Hk0 by (eapply (IH os (S k) ms' (S k)); (done || lia)).
  split.
  - rewrite Hms. case_bool_decide as Hik.
    + subst i. by rewrite Nat.sub_diag, Hk0, app_nil_r.
    + replace (i - k)%nat with (S (i - S k)) by lia. simpl. eapply IH; (done || lia).
  - intros i' Hi'. rewrite Hms, bool_decide_false by lia. eapply (IH os (S k) ms' (S k)); (done || lia).
Qed.

(** Whether a key is that of a field. *)
Definition known (ts : tags) (key : string) : bool := bool_decide (is_Some (resolve ts key)).

(** Unknown members change nothing. *)
Lemma values_at_known ts i ms ms' :
  filter (fun m => known ts (fst m) = true) ms' = ms -> values_at ts i ms' = values_at ts i ms.
Proof.
  intros <-. unfold values_at. induction ms' as [|[key j] ms' IH]; [done|]. rewrite filter_cons.
  unfold known in *. cbn [fst omap list_omap]. case_decide as Hk.
  - cbn [fst omap list_omap]. by rewrite IH.
  - rewrite bool_decide_eq_true in Hk. rewrite bool_decide_false; [done|]. intros Hr. apply Hk. by eexists.
Qed.

Lemma write_members_known all k ts os ms :
  distinct all = true -> drop k all = ts -> write_members ts os = Ok ms ->
  filter (fun m => known all (fst m) = true) ms = ms.
Proof.
  intros Hd. revert k os ms. induction ts as [|[key omit] ts IH]; intros k os ms Hk; simpl; [by intros [= <-]|].
  destruct os as [|o os]; [by intros [= <-]|]. destruct (write_members ts os) as [ms'|] eqn:Hw; [|done]. simpl.
  assert (drop (S k) all = ts) as Hk' by (rewrite <- (Nat.add_1_r k), <- drop_drop, Hk; done).
  specialize (IH _ _ _ Hk' Hw). destruct (omit && out_empty o); [by intros [= <-]|].
  destruct (out_json o) as [j|]; [|done]. intros [= <-]. rewrite filter_cons_True; [by rewrite IH|].
  unfold known. apply bool_decide_eq_true. exists k. cbn [fst]. apply (resolve_own _ _ _ omit Hd).
  rewrite <- (Nat.add_0_r k), <- lookup_drop, Hk. done.
Qed.

(** The keys that are always written. *)
Definition required (ts : tags) : list string := omap (fun t => if (snd t : bool) then None else Some (fst t)) ts.

Lemma write_members_keys ts os ms :
  length ts = length os -> write_members ts os = Ok ms ->
  required ts ⊆ ms.*1 /\ ms.*1 ⊆ ts.*1.
Proof.
  revert os ms. induction ts as [|[key omit] ts IH]; intros os ms Hlen; simpl; [by intros [= <-]|].
  destruct os as [|o os]; [done|]. injection Hlen as Hlen.
  destruct (write_members ts os) as [ms'|] eqn:Hw; [|done]. simpl. destruct (IH _ _ Hlen Hw) as [Hr Hk].
  unfold required in *. cbn [omap list_omap snd fst].
  destruct omit; simpl; [destruct (out_empty o)|]; try (destruct (out_json o) as [j|]; [|done]);
    intros [= <-]; cbn [fmap list_fmap fst]; set_solver.
Qed.

(** The same values in another form for each field. *)
Definition fields_same (ts : tags) (ms ms' : list (string * json)) : Prop :=
  forall i, Forall2 same_document (values_at ts i ms) (values_at ts i ms').

Lemma values_at_same ts i ms ms1 :
  Forall2 (fun m m1 => fst m = fst m1 /\ same_document (snd m) (snd m1)) ms ms1 ->
  Forall2 same_document (values_at ts i ms) (values_at ts i ms1).
Proof.
  induction 1 as [|[k v] [k1 v1] ms ms1 [Hk Hv] _ IH]; [constructor|]. simpl in Hk. subst k1. unfold values_at in *.
  cbn [omap list_omap fst snd]. case_bool_decide; [by constructor|done].
Qed.

(** A document of a struct in another form has the same fields. *)
Lemma write_members_same ts os ms ms' :
  distinct ts = true -> write_members ts os = Ok ms -> same_document (JObj ms) (JObj ms') -> fields_same ts ms ms'.
Proof.
  intros Hd Hw Hs i. inversion Hs as [| | | | |? ms1 ? Hms Hp]; subst.
  pose proof (values_at_same ts i ms ms1 Hms) as Hv.
  assert (values_at ts i ms1 ≡ₚ values_at ts i ms') as Hpv by (unfold values_at; by rewrite Hp).
  destruct (write_members_values ts ts os 0 ms i Hd eq_refl Hw ltac:(lia)) as [He _].
  assert (values_at ts i ms' = values_at ts i ms1) as ->; [|done]. clear Hp Hms Hs.
  assert (length (values_at ts i ms1) <= 1)%nat as Hl.
  { rewrite <-(Forall2_length _ _ _ Hv), He. destruct (_ !! _) as [[??]|]; [|simpl; lia].
    destruct (_ !! _); [|simpl; lia]. destruct (_ && _); [simpl; lia|]. destruct (out_json _); simpl; lia. }
  destruct (values_at ts i ms1) as [|j [|??]]; [by apply Permutation_nil_l in Hpv|by apply Permutation_singleton_l in Hpv|simpl in Hl; lia].
Qed.

(** A field whose value is kept is read back from the same document. *)
Lemma read_field_kept {A} `{JsonLaws A} ts os ms ms' i key omit (a : A) :
  distinct ts = true -> write_members ts os = Ok ms -> fields_same ts ms ms' ->
  ts !! i = Some (key, omit) -> os !! i = Some (enc a) -> kept a ->
  (omit = true -> is_empty a = true -> a = zero) ->
  read_field ts i zero ms' = Ok a.
Proof.
  intros Hd Hw Hs Hi Ho (j & Hj & _ & Hu)%marshal_kept Hz. unfold read_field. specialize (Hs i).
  destruct (write_members_values ts ts os 0 ms i Hd eq_refl Hw ltac:(lia)) as [He _].
  rewrite He, Nat.sub_0_r, Hi, Ho in Hs. cbn [out_empty out_json enc] in Hs.
  destruct (omit && is_empty a) eqn:Hoe.
  - apply andb_true_iff in Hoe as [Ho1 Ho2]. apply Forall2_nil_inv_l in Hs as ->. by rewrite (Hz Ho1 Ho2).
  - rewrite Hj in Hs. apply Forall2_cons_inv_l in Hs as (j' & l & Hs & ->%Forall2_nil_inv_l & ->). exact (Hu j' Hs).
Qed.

(** Every field that can be written makes the struct be written. *)
Lemma write_members_ok ts os :
  Forall (fun o => is_ok (out_json o) = true) os -> is_ok (write_members ts os) = true.
Proof.
  revert os. induction ts as [|[key omit] ts IH]; intros os Hos; [done|]. destruct Hos as [|o os Ho Hos]; [done|].
  simpl. specialize (IH os Hos). destruct (write_members ts os); [|done]. simpl.
  destruct (omit && out_empty o); [done|]. by destruct (out_json o).
Qed.

Lemma enc_ok {A} `{JsonLaws A} (a : A) : kept a -> is_ok (out_json (enc a)) = true.
Proof. intros (j & Hj & _)%marshal_kept. simpl. by rewrite Hj. Qed.

(** ... and what is written for it is a document. *)
Definition out_writable (d : nat) (o : out) : Prop := forall j, out_json o = Ok j -> writable d j.

Lemma enc_writable {A} `{JsonLaws A} (a : A) d : kept a -> (json_depth (A := A) <= d)%nat -> out_writable d (enc a).
Proof.
  intros (j & Hj & Hw & _)%marshal_kept Hd j' Hj'. cbn in Hj'. rewrite Hj in Hj'. injection Hj' as <-.
  by eapply writable_mono.
Qed.

Definition valid_keys (ts : tags) : bool := forallb (fun t => valid_utf8 (fst t)) ts.

Lemma write_members_writable d ts os ms :
  valid_keys ts = true -> Forall (out_writable d) os -> write_members ts os = Ok ms -> writable (S d) (JObj ms).
Proof.
  intros Hk Hos Hms. constructor. revert ts Hk ms Hms.
  induction Hos as [|o os Ho _ IH]; intros [|[key omit] ts] Hk ms Hms; simpl in Hms; simplify_eq; [constructor..|].
  apply andb_true_iff in Hk as [Hkey Hk]. destruct (write_members ts os) as [ms'|] eqn:Hw; [|done].
  specialize (IH _ Hk _ Hw). simpl in Hms. destruct (omit && out_empty o); [by simplify_eq|].
  destruct (out_json o) as [j|] eqn:Hj; [|done]. simpl in Hms. simplify_eq. constructor; [|done]. split; [done|by apply Ho].
Qed.

(** The contract of a struct: a kept one is written with the keys of the tags, all
    that are not optional among them; its text reads back the same; and so does any
    text of the same document, in whatever form and order, with whatever members a
    publisher adds and wherever. *)
Definition contract (T : Type) `{JsonStruct T} : Prop :=
  forall p : T, kept p ->
  exists ms, write_members st_tags (st_out p) = Ok ms /\
    required st_tags ⊆ ms.*1 /\ ms.*1 ⊆ st_tags.*1 /\
    (exists text, Marshal p = Ok text /\ decode text = Some (JObj ms) /\ Unmarshal zero text = Ok p) /\
    forall text ms', decode text = Some (JObj ms') ->
      same_document (JObj ms) (JObj (filter (fun m => known st_tags (fst m) = true) ms')) -> Unmarshal zero text = Ok p.

(** A struct with its tags told apart and its fields written and read one by one; it
    is then a value like any other. *)
Class StructLaws (T : Type) `{JsonStruct T} := {
  st_depth : nat;
  st_distinct : distinct st_tags && valid_keys st_tags = true;
  st_length (p : T) : length st_tags = length (st_out p);
  st_written (p : T) :
    kept p -> Forall (fun o => is_ok (out_json o) = true) (st_out p) /\ Forall (out_writable st_depth) (st_out p);
  st_read_back (p : T) ms ms' :
    kept p -> write_members st_tags (st_out p) = Ok ms -> fields_same st_tags ms ms' -> st_read st_zero ms' = Ok p
}.

#[export] Instance struct_laws {T} `{StructLaws T} : JsonLaws T.
Proof.
  refine {| json_depth := S (st_depth (T := T)) |}. intros p Hp.
  pose proof st_distinct as [Hd Hk]%andb_true_iff. destruct (st_written p Hp) as [Hok Hwr].
  pose proof (write_members_ok st_tags _ Hok) as Hw. cbn [marshal struct_value].
  destruct (write_members st_tags (st_out p)) as [ms|] eqn:Hms; [|done]. exists (JObj ms). split; [done|].
  split; [by eapply write_members_writable|]. intros j' Hj. inversion Hj as [| | | | |? ? ms']; subst.
  cbn. apply (st_read_back p ms); [done|done|]. by eapply write_members_same.
Defined.

(** A kept value is read back from its text. *)
Lemma Unmarshal_Marshal {A} `{JsonLaws A} (a : A) :
  kept a -> (json_depth (A := A) <= max_depth)%nat ->
  exists text, Marshal a = Ok text /\ Unmarshal zero text = Ok a.
Proof.
  intros (j & Hj & Hw & Hu)%marshal_kept Hd. exists (encode j). unfold Marshal, Unmarshal. rewrite Hj.
  split; [done|]. rewrite decode_encode; [apply Hu, same_document_refl|]. by eapply writable_mono.
Qed.

Lemma struct_contract (T : Type) `{StructLaws T} : (S (st_depth (T := T)) <= max_depth)%nat -> contract T.
Proof.
  intros Hdep p Hp. pose proof st_distinct as [Hd Hk]%andb_true_iff. destruct (st_written p Hp) as [Hok Hwr].
  pose proof (write_members_ok st_tags _ Hok) as Hw.
  destruct (write_members st_tags (st_out p)) as [ms|] eqn:Hms; [|done]. exists ms. split; [done|].
  destruct (write_members_keys _ _ _ (st_length p) Hms). split; [done|]. split; [done|].
  assert (decode (encode (JObj ms)) = Some (JObj ms)) as Hdec.
  { apply decode_encode. eapply writable_mono; [exact Hdep|]. by eapply write_members_writable. }
  assert (forall text ms', decode text = Some (JObj ms') ->
    same_document (JObj ms) (JObj (filter (fun m => known st_tags (fst m) = true) ms')) -> Unmarshal zero text = Ok p) as Hr.
  { intros text ms' Ht Hs. unfold Unmarshal. rewrite Ht. cbn. apply (st_read_back p ms); [done|done|]. intros i.
    rewrite (values_at_known _ i _ ms' eq_refl). by eapply write_members_same. }
  split; [|exact Hr]. exists (encode (JObj ms)). split; [unfold Marshal; cbn; by rewrite Hms|]. split; [done|].
  apply (Hr _ ms Hdec). rewrite (write_members_known st_tags 0 st_tags (st_out p)) by done. apply same_document_refl.
Qed.

Lemma bind_ok {A B} (r : result A) (f : A -> result B) a b : r = Ok a -> f a = b -> result_bind r f = b.
Proof. by intros ->. Qed.

(** The laws of a struct whose fields are [enc]: they are written and read one after
    another. *)
Ltac read_next Hd Hw Hf :=
  eapply bind_ok;
  [lazymatch goal with
   | |- @read_field ?A ?HA _ _ _ _ = _ => eapply (@read_field_kept A HA _ _ _ _ _ _ _ _ _ Hd Hw Hf)
   end; [reflexivity|reflexivity|assumption|let Ho := fresh in intros Ho; first [discriminate Ho|apply omit_zero]]|].

Ltac kept_fields Hp := cbn [kept struct_value] in Hp; unfold st_out in Hp; cbn in Hp; rewrite ?Forall_cons in Hp; destruct_and? Hp.

Ltac solve_struct :=
  lazymatch goal with
  | |- _ = true => vm_compute; reflexivity
  | |- forall p, length _ = _ => reflexivity
  | |- forall p, kept p -> _ =>
      let Hp := fresh "Hp" in intros p Hp; kept_fields Hp; split;
      repeat (apply Forall_cons_2; [first [apply enc_ok; assumption|apply enc_writable; [assumption|cbn; lia]]|]);
      apply Forall_nil_2
  | |- forall p ms ms', _ -> _ -> _ -> @st_read ?T _ _ _ = _ =>
      let Hd := fresh "Hd" in let Hp := fresh "Hp" in let Hw := fresh "Hw" in let Hf := fresh "Hf" in
      assert (distinct (st_tags (T := T)) = true) as Hd by (vm_compute; reflexivity);
      intros p ms ms' Hp Hw Hf; kept_fields Hp; unfold st_read; cbn -[read_field st_tags];
      repeat read_next Hd Hw Hf; by destruct p
  end.

(** All four laws, for the depth that is given. *)
Ltac struct_laws_of d := refine {| st_depth := d |}; solve_struct.

(** A struct is kept when its fields are. *)
Ltac solve_kept := repeat (apply Forall_cons_2; [try assumption; try done|]); try apply Forall_nil_2.

Ltac solve_contract := refine (struct_contract _ _); apply Nat.leb_le; vm_compute; reflexivity.

(** ** Values in a column

    A value that a column carries: its document has nothing that the database refuses. *)
Definition durable {A} `{JsonValue A} (a : A) : Prop :=
  kept a /\ match marshal a with Ok j => storable j = true | Err _ => False end.

(** It is written, stored, and read back the same from what the column gives back. *)
Lemma durable_column {A} `{JsonLaws A, JsonbLaws} (a : A) :
  durable a -> (json_depth (A := A) <= jsonb_depth)%nat ->
  exists text s, Marshal a = Ok text /\ jsonb text = Some s /\ Unmarshal zero s = Ok a.
Proof.
  intros [(j & Hj & Hw & Hu)%marshal_kept Hs] Hd. rewrite Hj in Hs.
  destruct (jsonb_keeps j) as (s & j' & Hc & Hd' & Hsame); [by eapply writable_mono|done|].
  exists (encode j), s. unfold Marshal, Unmarshal. rewrite Hj, Hd'. split_and!; [done|done|by apply Hu].
Qed.
