(* ===== verification/Money.v ===== *)
(** * Money (src/domain/money.go)

    Amounts as [int64] cents with their wrap-around, the float conversions in
    binary64, comparison, aggregation, and the round trips through JSON texts and the
    database. *)

From S2P Require Import Prelude GoFloat FloatNear Numbers Utf8 Json JsonText StructJson FixedText.
From Stdlib Require Import Floats.SpecFloat QArith Lqa.
#[local] Open Scope Z_scope.
#[local] Open Scope go_scope.

(** ** Data *)

Definition CurrencyMYR : string := "MYR".
Definition CurrencyUSD : string := "USD".
Definition CurrencySGD : string := "SGD".
Definition DefaultCurrency : string := CurrencyMYR.

Record Money := { amount : Z; currency : string }.

#[export] Instance Money_eq_dec : EqDecision Money.
Proof. solve_decision. Defined.

Record moneyJSON := { mj_Amount : f64; mj_Currency : string }.

Definition moneyJSON_tags : tags := [("amount", false); ("currency", false)].

#[export] Instance moneyJSON_json : JsonStruct moneyJSON := {
  st_tags := moneyJSON_tags;
  st_zero := {| mj_Amount := f64_zero; mj_Currency := "" |};
  st_out p := [enc (mj_Amount p); enc (mj_Currency p)];
  st_read c ms := (
    v0 <- read_field moneyJSON_tags 0 (mj_Amount c) ms ;;
    v1 <- read_field moneyJSON_tags 1 (mj_Currency c) ms ;;
    Ok {| mj_Amount := v0; mj_Currency := v1 |})%go
}.

#[export] Instance moneyJSON_laws : StructLaws moneyJSON.
Proof. struct_laws_of 0%nat. Defined.

Definition hundred : f64 := f64_of_int 100.

(** ** Construction and reading *)

Definition or_default (currency : string) : string :=
  if bool_decide (currency = "") then DefaultCurrency else currency.

Definition NewMoney `{FloatConv} (amount : f64) (currency : string) : Money :=
  {| amount := int64_of_f64 (math_Round (f64_mul amount hundred)); currency := or_default currency |}.

Definition MYR `{FloatConv} (amount : f64) : Money := NewMoney amount CurrencyMYR.
Definition USD `{FloatConv} (amount : f64) : Money := NewMoney amount CurrencyUSD.
Definition SGD `{FloatConv} (amount : f64) : Money := NewMoney amount CurrencySGD.

Definition Zero (currency : string) : Money := {| amount := 0; currency := or_default currency |}.

Definition FromCents (cents : Z) (currency : string) : Money :=
  {| amount := cents; currency := or_default currency |}.

Definition Amount (m : Money) : f64 := f64_div (f64_of_int (amount m)) hundred.
Definition Cents (m : Money) : Z := amount m.
Definition Currency (m : Money) : string := currency m.
Definition Float64 (m : Money) : f64 := Amount m.

(** The format is [%s %.2f]. *)
Definition String (m : Money) : string := currency m +:+ " " +:+ fixed_text 2 (Amount m).

(** ** Arithmetic *)

Definition err_currencies (verb : string) (m other : Money) : error :=
  ErrMsg ("cannot " +:+ verb +:+ " money with different currencies: " +:+
          currency m +:+ " and " +:+ currency other).

Definition Add (m other : Money) : result Money :=
  if bool_decide (currency m <> currency other) then Err (err_currencies "add" m other)
  else Ok {| amount := wrap64 (amount m + amount other); currency := currency m |}.

Definition MustAdd (m other : Money) : panics Money := must (Add m other).

Definition Subtract (m other : Money) : result Money :=
  if bool_decide (currency m <> currency other) then Err (err_currencies "subtract" m other)
  else Ok {| amount := wrap64 (amount m - amount other); currency := currency m |}.

Definition MustSubtract (m other : Money) : panics Money := must (Subtract m other).

Definition Multiply `{FloatConv} (m : Money) (factor : f64) : Money :=
  {| amount := int64_of_f64 (math_Round (f64_mul (f64_of_int (amount m)) factor));
     currency := currency m |}.

Definition Divide `{FloatConv} (m : Money) (divisor : f64) : result Money :=
  if f64_eq divisor f64_zero then Err (ErrMsg "cannot divide money by zero")
  else Ok {| amount := int64_of_f64 (math_Round (f64_div (f64_of_int (amount m)) divisor));
             currency := currency m |}.

Definition Percentage `{FloatConv} (m : Money) (percent : f64) : Money :=
  Multiply m (f64_div percent hundred).

Definition Negate (m : Money) : Money := {| amount := wrap64 (- amount m); currency := currency m |}.

Definition Abs (m : Money) : Money := if bool_decide (amount m < 0) then Negate m else m.

(** ** Comparison *)

Definition Equals (m other : Money) : bool :=
  bool_decide (amount m = amount other) && bool_decide (currency m = currency other).

Definition compare_with (test : Z -> Z -> bool) (m other : Money) : bool :=
  if bool_decide (currency m <> currency other) then false else test (amount m) (amount other).

Definition GreaterThan : Money -> Money -> bool := compare_with (fun a b => bool_decide (b < a)).
Definition GreaterThanOrEqual : Money -> Money -> bool := compare_with (fun a b => bool_decide (b <= a)).
Definition LessThan : Money -> Money -> bool := compare_with (fun a b => bool_decide (a < b)).
Definition LessThanOrEqual : Money -> Money -> bool := compare_with (fun a b => bool_decide (a <= b)).

Definition IsZero (m : Money) : bool := bool_decide (amount m = 0).
Definition IsPositive (m : Money) : bool := bool_decide (0 < amount m).
Definition IsNegative (m : Money) : bool := bool_decide (amount m < 0).

Definition Max (m other : Money) : Money :=
  if bool_decide (currency m <> currency other) then m
  else if bool_decide (amount m < amount other) then other else m.

Definition Min (m other : Money) : Money :=
  if bool_decide (currency m <> currency other) then m
  else if bool_decide (amount other < amount m) then other else m.

(** ** Aggregation *)

Fixpoint sum_loop (acc : Money) (values : list Money) : result Money :=
  match values with
  | [] => Ok acc
  | v :: values => sum <- Add acc v ;; sum_loop sum values
  end.

Definition SumMoney (values : list Money) : result Money :=
  match values with
  | [] => Ok (Zero DefaultCurrency)
  | v :: values => sum_loop v values
  end.

(** ** JSON and database values *)

(** On the bytes of a document. *)
Definition MarshalJSON (m : Money) : result string :=
  Marshal {| mj_Amount := Amount m; mj_Currency := currency m |}.

Definition UnmarshalJSON `{FloatConv} (data : string) : result Money :=
  match Unmarshal (zero (A := moneyJSON)) data with
  | Err _ =>
      match Unmarshal (zero (A := f64)) data with
      | Err e => Err e
      | Ok amount => Ok (NewMoney amount DefaultCurrency)
      end
  | Ok mj => Ok (NewMoney (mj_Amount mj) (mj_Currency mj))
  end.

Definition Value (m : Money) : scanval := VFloat64 (Amount m).

(** [sscanf] reads a decimal number from a text, as [fmt.Sscanf] does. *)
Definition Scan `{FloatConv} (sscanf : string -> result f64) (value : scanval) : result Money :=
  match value with
  | VNil => Ok (Zero DefaultCurrency)
  | VFloat64 v => Ok (NewMoney v DefaultCurrency)
  | VInt64 v => Ok (FromCents (wrap64 (v * 100)) DefaultCurrency)
  | VBytes v => amount <- sscanf v ;; Ok (NewMoney amount DefaultCurrency)
  | VString v => amount <- sscanf v ;; Ok (NewMoney amount DefaultCurrency)
  | VInt _ => Err (ErrMsg "cannot scan int into Money")
  | VOther t => Err (ErrMsg ("cannot scan " +:+ t +:+ " into Money"))
  end.

(** What one JSON or database round trip can carry exactly. *)
Definition exact_cents (m : Money) : Prop := Z.abs (amount m) <= 2 ^ 50.

(** An amount in cents, written exactly. *)
Definition cents_text (c : Z) : string := sign_text (bool_decide (c < 0)) +:+ units_text 2 (Z.abs c).

Definition total (values : list Money) : Z := foldr (fun m acc => amount m + acc) 0 values.

(** ** Lemmas *)

Lemma new_money_amount `{FloatConv} m c :
  exact_cents m -> NewMoney (Amount m) c = FromCents (amount m) c.
Proof. intros Hm. unfold NewMoney, FromCents, Amount, hundred. by rewrite f64_percent_roundtrip. Qed.

Lemma amount_finite m : exact_cents m -> finite (Amount m).
Proof.
  unfold exact_cents, Amount. intros Hm. destruct (decide (amount m = 0)) as [->|Hn]; [done|].
  assert (exists s p, amount m = cond_Zopp s (Zpos p) /\ Zpos p <= 2 ^ 50) as (s & p & -> & Hp).
  { destruct (amount m) as [|p|p]; [done|exists false, p|exists true, p]; done. }
  destruct (f64_cents p Hp) as (m1 & e1 & m2 & e2 & -> & Hd & _).
  pose proof (f64_div_valid s m1 e1 false 7036874417766400 (-46)) as Hv. rewrite <-f64_hundred in Hv.
  unfold hundred. by rewrite Hd in Hv |- *.
Qed.

Lemma String_exact m : exact_cents m -> String m = currency m +:+ " " +:+ cents_text (amount m).
Proof.
  unfold exact_cents, String, Amount. intros Hm. do 2 f_equal. destruct (decide (amount m = 0)) as [->|Hn]; [reflexivity|].
  assert (exists s p, amount m = cond_Zopp s (Zpos p) /\ Zpos p <= 2 ^ 50) as (s & p & -> & Hp).
  { destruct (amount m) as [|p|p]; [done|exists false, p|exists true, p]; done. }
  destruct (f64_cents p Hp) as (m1 & e1 & m2 & e2 & -> & Hd & Hr). unfold hundred. rewrite Hd. cbn [fixed_text].
  unfold cents_text. f_equal; [by destruct s|]. replace (Z.abs (cond_Zopp s (Zpos p))) with (Zpos p) by (by destruct s).
  f_equal. apply fixed_units_near. unfold rounded in Hr. change (pow2 (-53)) with (1 # 9007199254740992)%Q in Hr.
  assert (inject_Z (Zpos p) <= 1125899906842624 # 1)%Q by (change (1125899906842624 # 1)%Q with (inject_Z (2 ^ 50)); rewrite <-Zle_Qle; lia).
  assert (0 <= inject_Z (Zpos p))%Q by (change 0%Q with (inject_Z 0); rewrite <-Zle_Qle; lia).
  change (inject_Z (10 ^ Z.of_nat 2)) with 100%Q. set (x := inject_Z (Zpos p)) in *. clearbody x.
  set (y := pos_val m2 e2) in *. clearbody y. split; lra.
Qed.

Lemma sum_loop_spec acc values :
  in_int64 (amount acc) ->
  sum_loop acc values =
    match list_find (fun v => currency v <> currency acc) values with
    | None => Ok {| amount := wrap64 (amount acc + total values); currency := currency acc |}
    | Some (i, v) =>
        Err (err_currencies "add"
          {| amount := wrap64 (amount acc + total (take i values)); currency := currency acc |} v)
    end.
Proof.
  revert acc. induction values as [|v values IH]; intros acc Ha; simpl.
  { rewrite Z.add_0_r, wrap64_id by done. by destruct acc. }
  unfold Add. case_bool_decide as Hc.
  - rewrite decide_True by congruence. simpl. rewrite Z.add_0_r, wrap64_id by done. by destruct acc.
  - rewrite decide_False by congruence. simpl. rewrite IH by apply wrap64_range. simpl.
    destruct (list_find _ values) as [[i w]|]; simpl;
      by rewrite wrap64_add_l, Z.add_assoc.
Qed.

Lemma list_find_currency_None c values :
  list_find (fun v => currency v <> c) values = None <-> Forall (fun v => currency v = c) values.
Proof.
  rewrite list_find_None, !Forall_forall. split; intros Hf v Hv; specialize (Hf v Hv);
    destruct (decide (currency v = c)); naive_solver.
Qed.

#[export] Instance total_proper : Proper ((≡ₚ) ==> (=)) total.
Proof.
  unfold total. apply (foldr_permutation_proper (=)); [by intros ? ? ? ->|intros; lia].
Qed.

(** ** Properties *)

(** C23: sums. [SumMoney] fails exactly when some value's currency differs from
    the first one's, and its error names the first such value; otherwise the
    sum is the mathematical one modulo [2^64], so it is exact whenever it fits,
    even if a partial sum does not, and does not depend on the order. *)
Theorem sum_money_correct v values :
  in_int64 (amount v) ->
  match SumMoney (v :: values) with
  | Ok m =>
      Forall (fun w => currency w = currency v) values /\ currency m = currency v /\
      amount m = wrap64 (total (v :: values)) /\
      (in_int64 (total (v :: values)) -> amount m = total (v :: values)) /\
      forall v' values', v' :: values' ≡ₚ v :: values -> in_int64 (amount v') ->
        SumMoney (v' :: values') = Ok m
  | Err e =>
      exists i w m, values !! i = Some w /\ currency w <> currency v /\
        Forall (fun w => currency w = currency v) (take i values) /\
        currency m = currency v /\ e = err_currencies "add" m w
  end.
Proof.
  intros Hv. simpl. rewrite sum_loop_spec by done.
  destruct (list_find _ values) as [[i w]|] eqn:Hf.
  - apply list_find_Some in Hf as (Hi & Hne & Hbefore). exists i, w. eexists. repeat split; try done.
    apply Forall_lookup. intros j x Hj. apply lookup_take_Some in Hj as [Hj Hlt].
    apply dec_stable. intros Hx. by eapply Hbefore.
  - apply list_find_currency_None in Hf. simpl. split; [done|]. split; [done|]. split; [done|].
    split; [by apply wrap64_id|]. intros v' values' Hp Hv'. rewrite sum_loop_spec by done.
    assert (Hall : Forall (fun w => currency w = currency v) (v' :: values')).
    { rewrite Hp. by constructor. }
    inversion_clear Hall as [|? ? Hc Hall']. rewrite Hc.
    rewrite (proj2 (list_find_currency_None _ _) Hall'). do 3 f_equal.
    change (total (v' :: values') = total (v :: values)). by rewrite Hp.
Qed.

(** arithmetic on one currency is a group up to wrap-around: subtracting
    what was added gives the amount back even when the addition overflowed,
    and negation undoes itself, but the absolute value of the least amount is
    negative. *)
Theorem money_add_subtract m other sum :
  in_int64 (amount m) -> Add m other = Ok sum ->
  Subtract sum other = Ok m /\ Negate (Negate m) = m /\
  (IsNegative (Abs m) = bool_decide (amount m = min_int64)).
Proof.
  intros Hm. unfold Add. case_bool_decide as Hc; intros Heq; simplify_eq/=.
  unfold Subtract. simpl.
  rewrite (bool_decide_false (currency m <> currency other)), wrap64_sub_l by auto. replace (amount m + amount other - amount other) with (amount m) by lia.
  rewrite wrap64_id by done. split; [by destruct m|].
  unfold Negate, IsNegative, Abs. split.
  - destruct m as [a c]; simpl in *. f_equal. int_lia.
  - apply bool_decide_ext. case_bool_decide; simpl; int_lia.
Qed.

(** C22: round trips. Up to [2^50] cents either way, storing an amount as a
    [float64] and scanning it back gives exactly the same cents, in the default
    currency whatever the currency was; the JSON text of a value with a currency of
    valid UTF-8 is read back as the same value, whose decimal amount is the shortest
    one; a text that is a bare number is read in the default currency; and [String]
    writes the cents exactly. *)
Theorem money_roundtrips `{FloatConv} sscanf m :
  exact_cents m ->
  Scan sscanf (Value m) = Ok {| amount := amount m; currency := DefaultCurrency |} /\
  (currency m <> "" -> valid_utf8 (currency m) = true ->
   exists data, MarshalJSON m = Ok data /\ UnmarshalJSON data = Ok m) /\
  UnmarshalJSON (encode (json_of_f64 (Amount m))) = Ok {| amount := amount m; currency := DefaultCurrency |} /\
  String m = currency m +:+ " " +:+ cents_text (amount m).
Proof.
  intros Hm. pose proof (amount_finite m Hm) as Hf. split_and!; [| | |by apply String_exact].
  - simpl. by rewrite new_money_amount.
  - intros Hc Hu. destruct (Unmarshal_Marshal {| mj_Amount := Amount m; mj_Currency := currency m |}) as (data & Hd & Hr);
      [solve_kept|apply Nat.leb_le; vm_compute; reflexivity|].
    exists data. split; [exact Hd|]. unfold UnmarshalJSON. rewrite Hr. cbn [mj_Amount mj_Currency].
    rewrite new_money_amount by done. unfold FromCents, or_default. rewrite bool_decide_false by done. by destruct m.
  - unfold UnmarshalJSON, Unmarshal. rewrite decode_encode by (constructor; by apply float_number_wf).
    cbn -[number_float float_number]. rewrite number_float_number by done. by rewrite new_money_amount.
Qed.

(** ** Witnesses *)

Lemma sum_money_correct_witness :
  exists e, SumMoney [Zero "MYR"; FromCents 5 "MYR"; FromCents 7 "USD"] = Err e.
Proof.
  pose proof (sum_money_correct (Zero "MYR") [FromCents 5 "MYR"; FromCents 7 "USD"]) as Hs.
  destruct (SumMoney _) as [m|e].
  - destruct Hs as [Hc _]; [vm_compute; split; discriminate|].
    apply Forall_cons in Hc as [_ Hc]. apply Forall_cons in Hc as [Hc _]. discriminate Hc.
  - by exists e.
Defined.

Lemma money_add_subtract_witness :
  Subtract {| amount := min_int64; currency := "USD" |} (FromCents 1 "USD") =
    Ok {| amount := max_int64; currency := "USD" |}.
Proof.
  refine (proj1 (money_add_subtract {| amount := max_int64; currency := "USD" |}
    (FromCents 1 "USD") {| amount := min_int64; currency := "USD" |} _ _)).
  - vm_compute. split; discriminate.
  - reflexivity.
Defined.

Lemma money_roundtrips_witness :
  Scan (fun _ => Err err_json) (Value (FromCents (-123456789) "USD")) =
    Ok {| amount := -123456789; currency := "MYR" |}.
Proof.
  refine (proj1 (money_roundtrips (fun _ => Err err_json) (FromCents (-123456789) "USD") _)).
  vm_compute. discriminate.
Defined.
