(* ===== verification/Quantity.v ===== *)
(** * Quantities (src/domain/quantity.go)

    A non-negative [int] with an optional unit: construction, arithmetic with
    the overflow test of the code, comparison, aggregation, JSON and database
    values. *)

From S2P Require Import Prelude GoFloat Utf8 Json JsonText StructJson.
#[local] Open Scope Z_scope.
#[local] Open Scope go_scope.

(** ** Data *)

Definition ErrNegativeQuantity : error := ErrVar "domain.ErrNegativeQuantity".
Definition ErrQuantityOverflow : error := ErrVar "domain.ErrQuantityOverflow".

Record Quantity := { value : Z; unit : string }.

#[export] Instance Quantity_eq_dec : EqDecision Quantity.
Proof. solve_decision. Defined.

Record quantityJSON := { qj_Value : Z; qj_Unit : string }.

Definition quantityJSON_tags : tags := [("value", false); ("unit", true)].

#[export] Instance quantityJSON_json : JsonStruct quantityJSON := {
  st_tags := quantityJSON_tags;
  st_zero := {| qj_Value := 0; qj_Unit := "" |};
  st_out p := [enc (qj_Value p); enc (qj_Unit p)];
  st_read c ms := (
    v0 <- read_field quantityJSON_tags 0 (qj_Value c) ms ;;
    v1 <- read_field quantityJSON_tags 1 (qj_Unit c) ms ;;
    Ok {| qj_Value := v0; qj_Unit := v1 |})%go
}.

#[export] Instance quantityJSON_laws : StructLaws quantityJSON.
Proof. struct_laws_of 0%nat. Defined.

(** ** Construction and reading *)

Definition QuantityWithUnit (value : Z) (unit : string) : result Quantity :=
  if bool_decide (value < 0) then Err ErrNegativeQuantity
  else Ok {| value := value; unit := unit |}.

Definition NewQuantity (value : Z) : result Quantity :=
  if bool_decide (value < 0) then Err ErrNegativeQuantity
  else Ok {| value := value; unit := "" |}.

Definition MustQuantity (value : Z) : panics Quantity := must (NewQuantity value).
Definition MustQuantityWithUnit (value : Z) (unit : string) : panics Quantity :=
  must (QuantityWithUnit value unit).

Definition ZeroQuantity : Quantity := {| value := 0; unit := "" |}.
Definition RawValue (q : Quantity) : Z := value q.
Definition Unit (q : Quantity) : string := unit q.
Definition Int (q : Quantity) : Z := RawValue q.

Definition String (q : Quantity) : string :=
  if bool_decide (unit q <> "") then pretty (value q) +:+ " " +:+ unit q else pretty (value q).

Definition WithUnit (q : Quantity) (u : string) : Quantity := {| value := value q; unit := u |}.

(** ** Arithmetic *)

(** [q.unit != "" && other.unit != "" && q.unit != other.unit] *)
Definition units_clash (q other : Quantity) : bool :=
  bool_decide (unit q <> "") && bool_decide (unit other <> "") && bool_decide (unit q <> unit other).

Definition joint_unit (q other : Quantity) : string :=
  if bool_decide (unit q = "") then unit other else unit q.

Definition err_units (verb : string) (q other : Quantity) : error :=
  ErrMsg ("cannot " +:+ verb +:+ " quantities with different units: " +:+
          unit q +:+ " and " +:+ unit other).

Definition Add (q other : Quantity) : result Quantity :=
  if units_clash q other then Err (err_units "add" q other)
  else
    let newValue := wrap64 (value q + value other) in
    if bool_decide (newValue < value q) then Err ErrQuantityOverflow
    else Ok {| value := newValue; unit := joint_unit q other |}.

Definition Subtract (q other : Quantity) : result Quantity :=
  if units_clash q other then Err (err_units "subtract" q other)
  else if bool_decide (value q < value other) then Err ErrNegativeQuantity
  else Ok {| value := wrap64 (value q - value other); unit := joint_unit q other |}.

Definition CanSubtract (q other : Quantity) : bool :=
  if units_clash q other then false else bool_decide (value other <= value q).

Definition Multiply (q : Quantity) (factor : Z) : result Quantity :=
  if bool_decide (factor < 0) then Err ErrNegativeQuantity
  else Ok {| value := wrap64 (value q * factor); unit := unit q |}.

Definition MustAdd (q other : Quantity) : panics Quantity := must (Add q other).
Definition MustSubtract (q other : Quantity) : panics Quantity := must (Subtract q other).
Definition MustMultiply (q : Quantity) (factor : Z) : panics Quantity := must (Multiply q factor).

(** ** Comparison *)

Definition Equals (q other : Quantity) : bool :=
  bool_decide (value q = value other) && bool_decide (unit q = unit other).

Definition compare_with (test : Z -> Z -> bool) (q other : Quantity) : bool :=
  if units_clash q other then false else test (value q) (value other).

Definition GreaterThan : Quantity -> Quantity -> bool := compare_with (fun a b => bool_decide (b < a)).
Definition GreaterThanOrEqual : Quantity -> Quantity -> bool :=
  compare_with (fun a b => bool_decide (b <= a)).
Definition LessThan : Quantity -> Quantity -> bool := compare_with (fun a b => bool_decide (a < b)).
Definition LessThanOrEqual : Quantity -> Quantity -> bool :=
  compare_with (fun a b => bool_decide (a <= b)).

Definition IsZero (q : Quantity) : bool := bool_decide (value q = 0).

Definition Max (q other : Quantity) : Quantity :=
  if units_clash q other then q
  else if bool_decide (value q < value other) then other else q.

Definition Min (q other : Quantity) : Quantity :=
  if units_clash q other then q
  else if bool_decide (value other < value q) then other else q.

(** ** Aggregation *)

Fixpoint sum_loop (acc : Quantity) (values : list Quantity) : result Quantity :=
  match values with
  | [] => Ok acc
  | v :: values => sum <- Add acc v ;; sum_loop sum values
  end.

Definition SumQuantities (values : list Quantity) : result Quantity :=
  match values with
  | [] => Ok ZeroQuantity
  | v :: values => sum_loop v values
  end.

(** ** JSON and database values *)

(** On the bytes of a document. *)
Definition MarshalJSON (q : Quantity) : result string :=
  if bool_decide (unit q = "") then Marshal (value q)
  else Marshal {| qj_Value := value q; qj_Unit := unit q |}.

Definition UnmarshalJSON (data : string) : result Quantity :=
  match Unmarshal (zero (A := Z)) data with
  | Ok v => if bool_decide (v < 0) then Err ErrNegativeQuantity else Ok {| value := v; unit := "" |}
  | Err _ =>
      qj <- Unmarshal (zero (A := quantityJSON)) data ;;
      if bool_decide (qj_Value qj < 0) then Err ErrNegativeQuantity
      else Ok {| value := qj_Value qj; unit := qj_Unit qj |}
  end.

Definition Value (q : Quantity) : scanval := VInt64 (value q).

Definition Scan `{FloatConv} (v : scanval) : result Quantity :=
  match v with
  | VNil => Ok ZeroQuantity
  | VInt64 z | VInt z => if bool_decide (z < 0) then Err ErrNegativeQuantity
                         else Ok {| value := z; unit := "" |}
  | VFloat64 f =>
      let intVal := int64_of_f64 f in
      if bool_decide (intVal < 0) then Err ErrNegativeQuantity
      else Ok {| value := intVal; unit := "" |}
  | VBytes _ => Err (ErrMsg "cannot scan []uint8 into Quantity")
  | VString _ => Err (ErrMsg "cannot scan string into Quantity")
  | VOther t => Err (ErrMsg ("cannot scan " +:+ t +:+ " into Quantity"))
  end.

(** ** What a quantity promises *)

Definition wf (q : Quantity) : Prop := 0 <= value q <= max_int64.

(** The values a program can build without multiplying. *)
Inductive built `{FloatConv} : Quantity -> Prop :=
| built_new z u q : in_int64 z -> QuantityWithUnit z u = Ok q -> built q
| built_plain z q : in_int64 z -> NewQuantity z = Ok q -> built q
| built_zero : built ZeroQuantity
| built_unit q u : built q -> built (WithUnit q u)
| built_add q o r : built q -> built o -> Add q o = Ok r -> built r
| built_sub q o r : built q -> built o -> Subtract q o = Ok r -> built r
| built_max q o : built q -> built o -> built (Max q o)
| built_min q o : built q -> built o -> built (Min q o)
| built_json data r : UnmarshalJSON data = Ok r -> built r
| built_scan v r : match v with VInt64 z | VInt z => in_int64 z | _ => True end ->
    Scan v = Ok r -> built r.

Definition total (values : list Quantity) : Z := foldr (fun q acc => value q + acc) 0 values.

(** One unit, or none, for the whole list. *)
Definition one_unit (u : string) (values : list Quantity) : Prop :=
  Forall (fun q => unit q = "" \/ unit q = u) values.

(** ** Lemmas *)

Lemma units_clash_false q o :
  units_clash q o = false <-> unit q = "" \/ unit o = "" \/ unit q = unit o.
Proof.
  unfold units_clash. rewrite !andb_false_iff, !bool_decide_eq_false.
  split; [intros [[H|H]|H]|intros [H|[H|H]]]; (destruct (decide (unit q = "")), (decide (unit o = "")),
    (decide (unit q = unit o)); tauto).
Qed.

Lemma add_spec q o :
  wf q -> wf o ->
  Add q o =
    if units_clash q o then Err (err_units "add" q o)
    else if bool_decide (max_int64 < value q + value o) then Err ErrQuantityOverflow
    else Ok {| value := value q + value o; unit := joint_unit q o |}.
Proof.
  unfold wf, Add. intros Hq Ho. destruct (units_clash q o); [done|].
  destruct (decide (max_int64 < value q + value o)) as [H|H].
  - rewrite (bool_decide_true (max_int64 < _)) by done. rewrite bool_decide_true; [done|int_lia].
  - rewrite (bool_decide_false (max_int64 < _)) by done.
    rewrite wrap64_id by int_lia. rewrite bool_decide_false by int_lia. done.
Qed.

Lemma add_wf q o r : wf q -> wf o -> Add q o = Ok r -> wf r.
Proof.
  intros Hq Ho. rewrite add_spec by done. unfold wf in *. intros. branches. simpl. lia.
Qed.

Lemma sum_loop_wf acc l r : wf acc -> Forall wf l -> sum_loop acc l = Ok r -> wf r.
Proof.
  intros Ha Hl. revert acc Ha. induction Hl as [|v l Hv Hl IH]; intros acc Ha; simpl.
  - by intros [= <-].
  - destruct (Add acc v) as [s|] eqn:Hs; simpl; [|done]. apply IH. by apply (add_wf acc v).
Qed.

Lemma wf_ok z u : in_int64 z -> bool_decide (z < 0) = false -> wf {| value := z; unit := u |}.
Proof. unfold wf, in_int64. intros Hz Hb. apply bool_decide_eq_false in Hb. simpl. lia. Qed.

Lemma unmarshal_int_range cur j z : in_int64 cur -> unmarshal cur j = Ok z -> in_int64 z.
Proof.
  intros Hc Hz. destruct j as [|b|n|s|l|ms]; [by injection Hz as <-|..];
    [eapply (json_int_range (JBool b))|eapply (json_int_range (JNum n))|eapply (json_int_range (JStr s))
    |eapply (json_int_range (JArr l))|eapply (json_int_range (JObj ms))]; exact Hz.
Qed.

Lemma Unmarshal_int_range data z : Unmarshal (zero (A := Z)) data = Ok z -> in_int64 z.
Proof.
  unfold Unmarshal. destruct (decode data) as [j|]; [|done]. apply unmarshal_int_range. vm_compute. split; discriminate.
Qed.

Lemma read_int_field_range ts i cur ms z : in_int64 cur -> read_field ts i cur ms = Ok z -> in_int64 z.
Proof.
  unfold read_field. generalize (values_at ts i ms). intros js. revert cur.
  induction js as [|j js IH]; intros cur Hc; cbn [foldl]; [by intros [= <-]|]. cbn [result_bind].
  destruct (unmarshal cur j) as [v|] eqn:Hv; [by apply IH; eapply unmarshal_int_range|].
  clear. by induction js.
Qed.

Lemma quantityJSON_range data qj : Unmarshal (zero (A := quantityJSON)) data = Ok qj -> in_int64 (qj_Value qj).
Proof.
  unfold Unmarshal. destruct (decode data) as [[| | | | |ms]|]; try done; [by intros [= <-]|]. cbn -[read_field].
  destruct (read_field _ 0 _ _) as [v|] eqn:Hv; [|done]. cbn -[read_field]. destruct (read_field _ 1 _ _) as [u|]; [|done].
  intros [= <-]. by eapply read_int_field_range in Hv.
Qed.

#[export] Hint Resolve wf_ok add_wf sum_loop_wf : go.

Lemma add_unit q o r :
  Add q o = Ok r ->
  (unit r = "" -> unit q = "" /\ unit o = "") /\
  (unit q = "" \/ unit q = unit r) /\ (unit o = "" \/ unit o = unit r).
Proof.
  unfold Add. destruct (units_clash q o) eqn:Hc; [done|]. apply units_clash_false in Hc.
  case_bool_decide; [done|]. intros [= <-]. unfold joint_unit. simpl.
  case_bool_decide; naive_solver.
Qed.

Lemma subtract_spec q o :
  wf q -> wf o ->
  Subtract q o =
    if units_clash q o then Err (err_units "subtract" q o)
    else if bool_decide (value q < value o) then Err ErrNegativeQuantity
    else Ok {| value := value q - value o; unit := joint_unit q o |}.
Proof.
  unfold wf, Subtract. intros Hq Ho. destruct (units_clash q o); [done|].
  case_bool_decide; [done|]. rewrite wrap64_id; [done|int_lia].
Qed.

(** A sum that does not fail is exact and has one unit. *)
Lemma sum_loop_exact acc l r :
  wf acc -> Forall wf l -> sum_loop acc l = Ok r ->
  value r = value acc + total l /\ one_unit (unit r) (acc :: l).
Proof.
  intros Ha Hl. revert acc Ha. induction Hl as [|v l Hv Hl IH]; intros acc Ha; simpl.
  - intros [= <-]. split; [lia|]. constructor; [by right|constructor].
  - destruct (Add acc v) as [s|] eqn:Hs; simpl; [|done]. intros Hr.
    destruct (IH s) as [Ht Hu]; [by apply (add_wf acc v)|done|].
    pose proof (add_unit _ _ _ Hs) as (Hue & Hua & Huv). rewrite add_spec in Hs by done.
    assert (value s = value acc + value v) as Hsv by (branches; done).
    split; [lia|]. inversion_clear Hu as [|? ? Hus Hul].
    constructor; [|constructor; [|done]]; destruct Hus; intuition congruence.
Qed.

Lemma total_nonneg l : Forall wf l -> 0 <= total l.
Proof. induction 1 as [|q l Hq _ IH]; simpl; [lia|]. unfold wf in Hq. fold (total l). lia. Qed.

Lemma joint_unit_one u q o : one_unit u [q; o] -> joint_unit q o = "" \/ joint_unit q o = u.
Proof.
  intros Hu. inversion_clear Hu as [|? ? Hq Ho]. inversion_clear Ho as [|? ? Ho' _].
  unfold joint_unit. case_bool_decide; naive_solver.
Qed.

(** A sum of one unit that fits does not fail. *)
Lemma sum_loop_ok u acc l :
  wf acc -> Forall wf l -> one_unit u (acc :: l) -> value acc + total l <= max_int64 ->
  exists r, sum_loop acc l = Ok r.
Proof.
  intros Ha Hl. revert acc Ha. induction Hl as [|v l Hv Hl IH]; intros acc Ha Hu Ht; simpl in *.
  { by exists acc. }
  pose proof (total_nonneg l Hl). rewrite add_spec by done.
  inversion_clear Hu as [|? ? Hua Hul]. inversion_clear Hul as [|? ? Huv Hul'].
  assert (units_clash acc v = false) as -> by (apply units_clash_false; naive_solver congruence).
  rewrite bool_decide_false by lia. simpl. apply IH; [unfold wf in *; simpl; lia| |simpl; lia].
  constructor; [|done]. simpl. apply joint_unit_one.
  by apply Forall_cons_2, Forall_singleton.
Qed.

(** ** Properties *)

(** C24: the type's invariant. Every quantity a program can obtain from the
    constructors, from addition, subtraction, maximum and minimum, from JSON or
    from the database is non-negative and fits an [int]; so is every sum of such
    quantities. *)
Theorem quantity_invariant `{FloatConv} q :
  built q ->
  wf q /\ forall l r, Forall wf l -> SumQuantities (q :: l) = Ok r -> wf r.
Proof.
  intros Hb. enough (wf q) as Hq.
  { split; [done|]. intros l r Hl. by apply sum_loop_wf. }
  induction Hb as [z u q Hz Hq|z q Hz Hq| |q u _ IH|q o r _ IH1 _ IH2 Hr|q o r _ IH1 _ IH2 Hr
    |q o _ IH1 _ IH2|q o _ IH1 _ IH2|data r Hr|v r Hv Hr].
  - unfold QuantityWithUnit in Hq. destruct (bool_decide _) eqn:E; simplify_eq. by apply wf_ok.
  - unfold NewQuantity in Hq. destruct (bool_decide _) eqn:E; simplify_eq. by apply wf_ok.
  - split; simpl; int_lia.
  - done.
  - by apply (add_wf q o).
  - rewrite subtract_spec in Hr by done. unfold wf in *. branches. simpl. lia.
  - unfold Max. by branches.
  - unfold Min. by branches.
  - unfold UnmarshalJSON in Hr. destruct (Unmarshal (zero (A := Z)) data) as [z|] eqn:Hz.
    + destruct (bool_decide _) eqn:E; simplify_eq. apply wf_ok; [by eapply Unmarshal_int_range|done].
    + destruct (Unmarshal (zero (A := quantityJSON)) data) as [qj|] eqn:Hq; cbn [result_bind] in Hr; [|done].
      destruct (bool_decide _) eqn:E; simplify_eq. apply wf_ok; [by eapply quantityJSON_range|done].
  - destruct v; simpl in Hr; simplify_eq; try (destruct (bool_decide _) eqn:E; simplify_eq);
      try (by apply wf_ok).
    apply wf_ok; [apply int64_of_f64_range|done].
Qed.

(** C25: arithmetic is exact and its errors are exact. On well-formed
    quantities [Add] succeeds precisely when the units do not clash and the
    mathematical sum fits, [Subtract] precisely when the units do not clash and
    the difference is not negative (which is what [CanSubtract] tests), and
    [SumQuantities] precisely when one unit covers all values that have one and
    the total fits; the results are the mathematical ones. *)
Theorem quantity_arithmetic q o l :
  wf q -> wf o -> Forall wf l ->
  (forall r, Add q o = Ok r <->
     units_clash q o = false /\ value q + value o <= max_int64 /\
     r = {| value := value q + value o; unit := joint_unit q o |}) /\
  (forall r, Subtract q o = Ok r <->
     CanSubtract q o = true /\ r = {| value := value q - value o; unit := joint_unit q o |}) /\
  ((exists r, SumQuantities (q :: l) = Ok r) <->
     (exists u, one_unit u (q :: l)) /\ total (q :: l) <= max_int64) /\
  (forall r, SumQuantities (q :: l) = Ok r -> value r = total (q :: l)).
Proof.
  intros Hq Ho Hl. rewrite add_spec, subtract_spec by done. unfold CanSubtract.
  split_and!.
  - intros r. destruct (units_clash q o); [naive_solver|]. case_bool_decide; naive_solver lia.
  - intros r. destruct (units_clash q o); [naive_solver|].
    case_bool_decide; [rewrite bool_decide_false by lia|rewrite bool_decide_true by lia]; naive_solver.
  - split.
    + intros [r Hr]. pose proof (sum_loop_wf _ _ _ Hq Hl Hr) as Hw.
      apply sum_loop_exact in Hr as [Hv Hu]; [|done|done].
      split; [by exists (unit r)|]. simpl. fold (total l). unfold wf in Hw. lia.
    + intros [[u Hu] Ht]. by apply (sum_loop_ok u).
  - intros r Hr. by apply sum_loop_exact in Hr as [Hv _].
Qed.

(** multiplication has no overflow test. The product is right exactly when
    it fits an [int], and a well-formed quantity times a positive factor can be
    negative, in spite of the promise that a negative result is an error. *)
Theorem quantity_multiply q factor r :
  wf q -> in_int64 factor -> Multiply q factor = Ok r ->
  0 <= factor /\ (wf r /\ value r = value q * factor <-> value q * factor <= max_int64) /\
  exists q' f' r', wf q' /\ 0 < f' /\ Multiply q' f' = Ok r' /\ value r' < 0.
Proof.
  unfold wf, Multiply. intros Hq Hf. case_bool_decide; [done|]. intros [= <-]. simpl.
  split; [lia|]. split.
  - split; [lia|]. intros Hp. rewrite wrap64_id; [|unfold in_int64, min_int64; nia]. nia.
  - exists {| value := 2 ^ 62; unit := "" |}, 2, {| value := min_int64; unit := "" |}.
    by vm_compute.
Qed.

(** round trips. The JSON text of a well-formed quantity with a unit of valid UTF-8
    reads back as the same quantity, and the database keeps it but for its unit. *)
Theorem quantity_roundtrips `{FloatConv} q :
  wf q -> valid_utf8 (unit q) = true ->
  (exists data, MarshalJSON q = Ok data /\ UnmarshalJSON data = Ok q) /\
  Scan (Value q) = Ok {| value := value q; unit := "" |}.
Proof.
  unfold wf. intros Hq Hu. destruct q as [v u]; simpl in *.
  rewrite (bool_decide_false (v < 0)) by lia. split; [|done].
  assert (in_int64 v) as Hv by (unfold in_int64, min_int64; lia). unfold MarshalJSON, UnmarshalJSON. cbn [value unit].
  case_bool_decide as Hc.
  - destruct (Unmarshal_Marshal v) as (data & Hd & Hr); [done|apply Nat.leb_le; vm_compute; reflexivity|].
    exists data. split; [exact Hd|]. rewrite Hr, bool_decide_false by lia. by subst.
  - destruct (struct_contract quantityJSON) with (p := {| qj_Value := v; qj_Unit := u |})
      as (ms & _ & _ & _ & (data & Hd & Hj & Hr) & _); [apply Nat.leb_le; vm_compute; reflexivity|solve_kept|].
    exists data. split; [exact Hd|]. unfold Unmarshal at 1. rewrite Hj. cbn [unmarshal int_value unless_null json_int].
    rewrite Hr. cbn [result_bind qj_Value qj_Unit]. by rewrite bool_decide_false by lia.
Qed.

(** ** Witnesses *)

Lemma quantity_invariant_witness :
  wf (Max ZeroQuantity {| value := 3; unit := "kg" |}).
Proof.
  refine (proj1 (quantity_invariant _ _)). apply built_max; [apply built_zero|].
  apply (built_new 3 "kg"); [vm_compute; split; discriminate|reflexivity].
Defined.

Lemma quantity_arithmetic_witness :
  ~ exists r, SumQuantities [ZeroQuantity; {| value := 1; unit := "kg" |}; {| value := max_int64; unit := "" |}]
    = Ok r.
Proof.
  assert (Hw : Forall wf [{| value := 1; unit := "kg" |}; {| value := max_int64; unit := "" |}]).
  { repeat constructor; vm_compute; discriminate. }
  destruct (quantity_arithmetic ZeroQuantity ZeroQuantity _
    ltac:(vm_compute; split; discriminate) ltac:(vm_compute; split; discriminate) Hw) as (_ & _ & H & _).
  rewrite H. intros [_ Ht]. vm_compute in Ht. by apply Ht.
Defined.

Lemma quantity_multiply_witness :
  wf {| value := 6; unit := "" |} /\ value {| value := 6; unit := "" |} = 2 * 3.
Proof.
  refine (proj2 (proj1 (proj2 (quantity_multiply {| value := 2; unit := "" |} 3
    {| value := 6; unit := "" |} _ _ _))) _);
    try reflexivity; vm_compute; try split; discriminate.
Defined.

Lemma quantity_roundtrips_witness :
  exists data, MarshalJSON {| value := 12; unit := "pcs" |} = Ok data /\ UnmarshalJSON data = Ok {| value := 12; unit := "pcs" |}.
Proof.
  refine (proj1 (quantity_roundtrips {| value := 12; unit := "pcs" |} _ _)).
  - vm_compute. split; discriminate.
  - reflexivity.
Defined.
