(* ===== verification/DomainErrors.v ===== *)
(** * Domain errors (src/domain/errors.go)

    Error values as trees, [errors.Is] and [errors.As] walking them depth first,
    the constructors with their messages, and the mapping to codes and HTTP
    statuses. A nil [error] or a nil [*DomainError] is [None]. *)

From S2P Require Import Prelude.

(** ** Data *)

Definition CodeNotFound : string := "NOT_FOUND".
Definition CodeConflict : string := "CONFLICT".
Definition CodeValidation : string := "VALIDATION_ERROR".
Definition CodeConcurrentModification : string := "CONCURRENT_MODIFICATION".
Definition CodeInsufficientStock : string := "INSUFFICIENT_STOCK".
Definition CodeInvalidTransition : string := "INVALID_STATE_TRANSITION".
Definition CodeUnauthorized : string := "UNAUTHORIZED".
Definition CodeForbidden : string := "FORBIDDEN".
Definition CodeInternalError : string := "INTERNAL_ERROR".

(** The [Details] field: absent, a map the constructors build (its entries
    rendered), or a value of the caller. *)
Inductive details :=
| NoDetails
| DMap (entries : gmap string string)
| DOther (id : Z).

#[export] Instance details_eq_dec : EqDecision details.
Proof. solve_decision. Defined.

(** An error is a [*DomainError] or a foreign error, which unwraps to nothing,
    to one error ([%w]) or to several ([errors.Join]). *)
Inductive err :=
| EDomain (Code Message : string) (Details : details) (Err : option err)
| EForeign (text : string) (wrapped : list err).

(** [*DomainError] *)
Record DomainError := {
  Code : string;
  Message : string;
  Details : details;
  Err : option err
}.

(** The pointer as an [error]. *)
Definition to_err (e : DomainError) : err := EDomain (Code e) (Message e) (Details e) (Err e).

(** ** Methods *)

Fixpoint render (e : err) : string :=
  match e with
  | EDomain c m _ (Some e') => c +:+ ": " +:+ m +:+ ": " +:+ render e'
  | EDomain c m _ None => c +:+ ": " +:+ m
  | EForeign text _ => text
  end.

Definition Error (e : DomainError) : string := render (to_err e).

Definition Unwrap (e : DomainError) : option err := Err e.

Definition WithDetails (e : DomainError) (d : details) : DomainError :=
  {| Code := Code e; Message := Message e; Details := d; Err := Err e |}.

Definition WithError (e : DomainError) (x : option err) : DomainError :=
  {| Code := Code e; Message := Message e; Details := Details e; Err := x |}.

Definition Is (e : DomainError) (target : err) : bool :=
  match target with
  | EDomain c _ _ _ => bool_decide (Code e = c)
  | EForeign _ _ => false
  end.

(** [errors.Is(err, target)] for a target that is a domain sentinel: a node
    matches through the method above, and the walk goes on into what the node
    wraps, depth first. *)
Fixpoint errors_Is (e : err) (target : DomainError) : bool :=
  match e with
  | EDomain c m d w =>
      Is {| Code := c; Message := m; Details := d; Err := w |} (to_err target) ||
      match w with Some e' => errors_Is e' target | None => false end
  | EForeign _ ws => existsb (fun e' => errors_Is e' target) ws
  end.

(** [errors.As(err, &domainErr)]: the first domain error of the same walk. *)
Fixpoint errors_As (e : err) : option DomainError :=
  match e with
  | EDomain c m d w => Some {| Code := c; Message := m; Details := d; Err := w |}
  | EForeign _ ws =>
      (fix first (ws : list err) : option DomainError :=
         match ws with
         | [] => None
         | e' :: ws => match errors_As e' with Some d => Some d | None => first ws end
         end) ws
  end.

(** ** Sentinels and constructors *)

Definition sentinel (code message : string) : DomainError :=
  {| Code := code; Message := message; Details := NoDetails; Err := None |}.

Definition ErrNotFound := sentinel CodeNotFound "resource not found".
Definition ErrConflict := sentinel CodeConflict "conflict with existing data".
Definition ErrValidation := sentinel CodeValidation "validation failed".
Definition ErrConcurrentModification :=
  sentinel CodeConcurrentModification "concurrent modification detected".
Definition ErrInsufficientStock := sentinel CodeInsufficientStock "insufficient stock".
Definition ErrInvalidTransition := sentinel CodeInvalidTransition "invalid state transition".
Definition ErrUnauthorized := sentinel CodeUnauthorized "unauthorized access".
Definition ErrForbidden := sentinel CodeForbidden "permission denied".
Definition ErrInternal := sentinel CodeInternalError "internal error".

(** [id] is the rendered identifier ([%v]). *)
Definition NewNotFoundError (entity id : string) : DomainError :=
  sentinel CodeNotFound (entity +:+ " with ID '" +:+ id +:+ "' not found").

Definition NewConflictError (message : string) : DomainError := sentinel CodeConflict message.

Definition NewDuplicateError (entity field value : string) : DomainError :=
  sentinel CodeConflict
    (entity +:+ " with " +:+ field +:+ " '" +:+ value +:+ "' already exists").

Definition NewValidationError (message : string) (d : details) : DomainError :=
  {| Code := CodeValidation; Message := message; Details := d; Err := None |}.

Definition NewFieldValidationError (field message : string) : DomainError :=
  {| Code := CodeValidation;
     Message := "validation failed for field '" +:+ field +:+ "': " +:+ message;
     Details := DMap {[field := message]}; Err := None |}.

Definition NewConcurrentModificationError (entity id : string) (expected actual : Z) : DomainError :=
  {| Code := CodeConcurrentModification;
     Message := entity +:+ " with ID '" +:+ id +:+
       "' was modified by another process (expected version " +:+ pretty expected +:+
       ", found " +:+ pretty actual +:+ ")";
     Details := DMap {["expected_version" := pretty expected; "actual_version" := pretty actual]};
     Err := None |}.

Definition NewInsufficientStockError (productID : string) (requested available : Z) : DomainError :=
  {| Code := CodeInsufficientStock;
     Message := "insufficient stock for product '" +:+ productID +:+ "': requested " +:+
       pretty requested +:+ ", available " +:+ pretty available;
     Details := DMap {["product_id" := productID; "requested" := pretty requested;
                       "available" := pretty available]};
     Err := None |}.

Definition NewInvalidTransitionError (from to : string) : DomainError :=
  {| Code := CodeInvalidTransition;
     Message := "invalid state transition from '" +:+ from +:+ "' to '" +:+ to +:+ "'";
     Details := DMap {["from" := from; "to" := to]}; Err := None |}.

Definition NewUnauthorizedError (message : string) : DomainError :=
  sentinel CodeUnauthorized
    (if bool_decide (message = "") then "authentication required" else message).

Definition NewForbiddenError (message : string) : DomainError :=
  sentinel CodeForbidden
    (if bool_decide (message = "") then "you do not have permission to perform this action"
     else message).

Definition NewInternalError (message : string) (e : option err) : DomainError :=
  {| Code := CodeInternalError; Message := message; Details := NoDetails; Err := e |}.

(** ** Classification. [None] is the nil error. *)

Definition is_kind (target : DomainError) (e : option err) : bool :=
  match e with Some e => errors_Is e target | None => false end.

Definition IsNotFoundError := is_kind ErrNotFound.
Definition IsConflictError := is_kind ErrConflict.
Definition IsValidationError := is_kind ErrValidation.
Definition IsConcurrentModificationError := is_kind ErrConcurrentModification.
Definition IsInsufficientStockError := is_kind ErrInsufficientStock.
Definition IsInvalidTransitionError := is_kind ErrInvalidTransition.
Definition IsUnauthorizedError := is_kind ErrUnauthorized.
Definition IsForbiddenError := is_kind ErrForbidden.
Definition IsInternalError := is_kind ErrInternal.

Definition GetDomainError (e : option err) : option DomainError := e ≫= errors_As.

Definition GetErrorCode (e : option err) : string :=
  match GetDomainError e with Some d => Code d | None => "" end.

Definition GetHTTPStatus (e : option err) : Z :=
  let code := GetErrorCode e in
  if bool_decide (code = CodeNotFound) then 404
  else if bool_decide (code = CodeConflict) || bool_decide (code = CodeConcurrentModification) then 409
  else if bool_decide (code = CodeValidation) || bool_decide (code = CodeInsufficientStock)
       || bool_decide (code = CodeInvalidTransition) then 422
  else if bool_decide (code = CodeUnauthorized) then 401
  else if bool_decide (code = CodeForbidden) then 403
  else 500.

Definition WrapError (message : string) (e : option err) : option DomainError :=
  match e with
  | None => None
  | Some _ =>
      match GetDomainError e with
      | Some d =>
          Some {| Code := Code d; Message := message; Details := Details d; Err := e |}
      | None => Some (NewInternalError message e)
      end
  end.

(** Wrap an error any number of times, innermost message first. *)
Definition wrap_all (messages : list string) (e : option err) : option err :=
  foldl (fun e m => to_err <$> WrapError m e) e messages.

(** ** Lemmas *)

(** Induction over error trees. *)
Lemma err_ind' (P : err -> Prop) :
  (forall c m d, P (EDomain c m d None)) ->
  (forall c m d e, P e -> P (EDomain c m d (Some e))) ->
  (forall t ws, Forall P ws -> P (EForeign t ws)) ->
  forall e, P e.
Proof.
  intros H1 H2 H3. fix IH 1. intros [c m d [e|]|t ws]; [apply H2, IH|apply H1|].
  apply H3. induction ws; constructor; [apply IH|done].
Qed.

Lemma errors_As_foreign t e ws :
  errors_As (EForeign t (e :: ws)) =
    match errors_As e with Some d => Some d | None => errors_As (EForeign t ws) end.
Proof. done. Qed.

(** Something is found by [errors.As] exactly when the tree holds a domain
    error, and the error found is of the kind its code says. *)
Lemma errors_As_Is e d : errors_As e = Some d -> errors_Is e d = true.
Proof.
  induction e as [c m x|c m x e IH|t ws IH] using err_ind'.
  - intros [= <-]. simpl. by rewrite bool_decide_true.
  - intros [= <-]. simpl. by rewrite bool_decide_true.
  - induction IH as [|e ws He _ IH]; [done|]. rewrite errors_As_foreign. simpl.
    destruct (errors_As e) as [d'|].
    + intros [= <-]. by rewrite He.
    + intros Hd. specialize (IH Hd). simpl in IH. by rewrite IH, orb_true_r.
Qed.

Lemma errors_As_None e target : errors_As e = None -> errors_Is e target = false.
Proof.
  induction e as [c m x|c m x e IH|t ws IH] using err_ind'; [done|done|].
  induction IH as [|e ws He _ IH]; [done|]. rewrite errors_As_foreign. simpl.
  destruct (errors_As e) as [d'|]; [done|]. intros Hd. rewrite (He eq_refl). by apply IH.
Qed.

Lemma errors_Is_code e t1 t2 : Code t1 = Code t2 -> errors_Is e t1 = errors_Is e t2.
Proof.
  intros Ht. induction e as [c m x|c m x e IH|t ws IH] using err_ind'; simpl.
  - by rewrite Ht.
  - by rewrite Ht, IH.
  - induction IH as [|e ws He _ IH]; simpl; [done|]. by rewrite He, IH.
Qed.

Lemma wrap_known m e d :
  GetDomainError e = Some d ->
  exists w, WrapError m e = Some w /\ Code w = Code d /\ Details w = Details d /\
    (forall t, is_kind t (Some (to_err w)) = is_kind t e) /\
    GetDomainError (Some (to_err w)) = Some w.
Proof.
  intros Hd. destruct e as [e|]; [|done]. unfold WrapError. rewrite Hd.
  eexists. split; [done|]. split; [done|]. split; [done|]. split; [|done].
  intros t. simpl. case_bool_decide as Hc; [|done]. simpl. symmetry.
  rewrite <-(errors_Is_code e d t) by done. by apply errors_As_Is.
Qed.

Lemma wrap_all_known ms e d :
  GetDomainError e = Some d ->
  exists w, GetDomainError (wrap_all ms e) = Some w /\ Code w = Code d /\ Details w = Details d /\
    forall t, is_kind t (wrap_all ms e) = is_kind t e.
Proof.
  revert e d. induction ms as [|m ms IH]; intros e d Hd; simpl; [by exists d|].
  destruct (wrap_known m e d Hd) as (w & -> & Hc & Hx & Hk & Hw). simpl.
  destruct (IH _ _ Hw) as (w' & Hw' & Hc' & Hx' & Hk').
  exists w'. split; [done|]. split; [congruence|]. split; [congruence|].
  intros t. by rewrite Hk', Hk.
Qed.

Lemma wrap_foreign m x :
  GetDomainError (Some x) = None ->
  exists w, WrapError m (Some x) = Some w /\ Code w = CodeInternalError /\
    (forall t, is_kind t (Some (to_err w)) = bool_decide (Code t = CodeInternalError)) /\
    GetDomainError (Some (to_err w)) = Some w.
Proof.
  intros Hd. unfold WrapError. rewrite Hd. eexists. split; [done|]. split; [done|]. split; [|done].
  intros t. simpl. rewrite (errors_As_None x t Hd), orb_false_r. apply bool_decide_ext.
  split; congruence.
Qed.

(** The status depends on the code alone. *)
Lemma status_code e e' : GetErrorCode e = GetErrorCode e' -> GetHTTPStatus e = GetHTTPStatus e'.
Proof. unfold GetHTTPStatus. by intros ->. Qed.

Lemma in_statuses n :
  bool_decide (n ∈ [404; 409; 422; 401; 403; 500]) = true -> n ∈ [404; 409; 422; 401; 403; 500].
Proof. apply bool_decide_eq_true. Qed.

(** Find the disjunct that the code of [Hc] proves. *)
Ltac pick_kind Hk Hc :=
  first [ apply (Hk _ _ Hc); [discriminate|reflexivity]
        | left; pick_kind Hk Hc | right; pick_kind Hk Hc ].

(** ** Properties *)

(** wrapping is transparent. However often an error is wrapped with
    [WrapError], its HTTP status is that of the original; if the original holds
    a domain error then its code, details and every [Is...] answer survive, and
    if it holds none the wrapped error is an internal one and nothing else. The
    nil error stays nil. *)
Theorem wrap_transparent m ms x :
  let e := Some x in
  let w := wrap_all (m :: ms) e in
  GetHTTPStatus w = GetHTTPStatus e /\
  match GetDomainError e with
  | Some d =>
      GetErrorCode w = Code d /\ Details <$> GetDomainError w = Some (Details d) /\
      forall t, is_kind t w = is_kind t e
  | None =>
      GetErrorCode w = CodeInternalError /\
      forall t, is_kind t w = bool_decide (Code t = CodeInternalError)
  end /\
  wrap_all (m :: ms) None = None.
Proof.
  intros e w. subst e w.
  assert (Hnil : forall l, wrap_all l None = None) by (by intros l; induction l).
  destruct (GetDomainError (Some x)) as [d|] eqn:Hd.
  - destruct (wrap_all_known (m :: ms) (Some x) d Hd) as (w & Hw & Hc & Hx & Hk).
    assert (GetErrorCode (wrap_all (m :: ms) (Some x)) = Code d) as HC.
    { unfold GetErrorCode. by rewrite Hw. }
    split; [apply status_code; rewrite HC; unfold GetErrorCode; by rewrite Hd|].
    split; [|apply Hnil]. split; [done|]. split; [|done]. rewrite Hw. simpl. by rewrite Hx.
  - destruct (wrap_foreign m x Hd) as (w0 & Hw0 & Hc0 & Hk0 & Hg0).
    assert (wrap_all (m :: ms) (Some x) = wrap_all ms (Some (to_err w0))) as ->
      by (change (wrap_all ms (to_err <$> WrapError m (Some x)) = wrap_all ms (Some (to_err w0))); by rewrite Hw0).
    destruct (wrap_all_known ms (Some (to_err w0)) w0 Hg0) as (w & Hw & Hc & _ & Hk).
    assert (GetErrorCode (wrap_all ms (Some (to_err w0))) = CodeInternalError) as HC.
    { unfold GetErrorCode. rewrite Hw. congruence. }
    split; [|split; [|apply Hnil]; split; [done|]; intros t; by rewrite Hk].
    assert (GetErrorCode (Some x) = "") as HX by (unfold GetErrorCode; by rewrite Hd).
    transitivity 500; unfold GetHTTPStatus; [rewrite HC|rewrite HX]; reflexivity.
Qed.

(** the status is sound for the [Is...] tests: a status other than 500
    comes only from an error that the corresponding test accepts, wherever in
    the tree the domain error sits; and every constructor gets its status. *)
Theorem status_sound e :
  (GetHTTPStatus e = 404 -> IsNotFoundError e = true) /\
  (GetHTTPStatus e = 409 -> IsConflictError e || IsConcurrentModificationError e = true) /\
  (GetHTTPStatus e = 422 ->
     IsValidationError e || IsInsufficientStockError e || IsInvalidTransitionError e = true) /\
  (GetHTTPStatus e = 401 -> IsUnauthorizedError e = true) /\
  (GetHTTPStatus e = 403 -> IsForbiddenError e = true) /\
  GetHTTPStatus e ∈ [404; 409; 422; 401; 403; 500].
Proof.
  assert (Hk : forall c t, GetErrorCode e = c -> c <> "" -> Code t = c -> is_kind t e = true).
  { intros c t Hc Hne Ht. destruct e as [x|]; [|by subst]. simpl.
    unfold GetErrorCode in Hc. simpl in Hc. destruct (errors_As x) as [d|] eqn:Hd; [|by subst].
    rewrite <-(errors_Is_code x d t) by congruence. by apply errors_As_Is. }
  unfold GetHTTPStatus. set (code := GetErrorCode e) in *.
  repeat (case_bool_decide as Hc; simpl;
    [split_and!; intros; try lia; try (apply in_statuses; vm_compute; reflexivity); rewrite ?orb_true_iff; pick_kind Hk Hc
    |clear Hc]).
  split_and!; intros; try lia. apply in_statuses. vm_compute. reflexivity.
Qed.

(** ** Example *)

Lemma wrap_status_example :
  GetHTTPStatus (wrap_all ["repository"; "handler"]
    (Some (EForeign "query" [to_err (NewNotFoundError "order" "7")]))) = 404.
Proof. vm_compute. reflexivity. Qed.
