(* ===== verification/Outbox.v ===== *)
(** * The transactional outbox (src/outbox/outbox.go, src/outbox/processor.go)

    The events table, the queries and updates on it, [ProcessNext] as one
    transaction whose publication is not undone by a rollback, the processor's
    tick, and a step relation for several processors that share the table,
    with row locks and crashes. *)

From S2P Require Import Prelude GoStrings Json JsonText Jsonb Timestamps StructJson.
From Stdlib Require Import Ascii.

(** ** Data *)

(** UUIDs are numbers, the nil one zero. *)
Definition uuid_Nil : Z := 0.

Record Event := {
  ID : Z;
  AggregateType : string;
  AggregateID : Z;
  EventType : string;
  Payload : string;
  CreatedAt : Z;
  ProcessedAt : option Z;
  LastError : option string;
  RetryCount : Z
}.

#[export] Instance Event_eq_dec : EqDecision Event.
Proof. solve_decision. Defined.

(** The table, by primary key. *)
Abbreviation table := (gmap Z Event).
Definition rows (t : table) : list Event := (map_to_list t).*2.

Record ClaimResult := { cr_Event : option Event; Claimed : bool; PublishErr : option error }.

Record ProcessorConfig := { Interval : Z; BatchSize : Z; MaxRetries : Z }.

(** [publish_headers] is present when the publisher also implements
    [HeaderPublisher]. [W] is the world behind the publisher. *)
Record Publisher (W : Type) := {
  Publish : string -> string -> W -> W * option error;
  PublishWithHeaders : option (string -> string -> gmap string string -> W -> W * option error)
}.
Arguments Publish {W} _.
Arguments PublishWithHeaders {W} _.

Record Processor (W : Type) := {
  publisher : Publisher W;
  interval : Z;
  batchSize : Z;
  maxRetries : Z
}.
Arguments publisher {W} _.
Arguments interval {W} _.
Arguments batchSize {W} _.
Arguments maxRetries {W} _.

(** What the database promises of [ORDER BY created_at ASC LIMIT 1]: a row of
    the candidates that none precedes; which one of several is its choice. *)
Class RowChoice := {
  first_row : list Event -> option Event;
  first_row_None l : first_row l = None <-> l = [];
  first_row_in l e : first_row l = Some e -> e ∈ l;
  first_row_min l e e' : first_row l = Some e -> e' ∈ l -> CreatedAt e <= CreatedAt e'
}.

(** Where the database fails during one transaction, if it does. *)
Inductive fault := NoFault | SelectFails (e : error) | MarkFails (e : error) | CommitFails (e : error).

(** ** Rows *)

Definition BeforeCreate (fresh now : Z) (e : Event) : Event :=
  {| ID := if bool_decide (ID e = uuid_Nil) then fresh else ID e;
     AggregateType := AggregateType e; AggregateID := AggregateID e; EventType := EventType e;
     Payload := Payload e;
     CreatedAt := if IsZero (CreatedAt e) then now else CreatedAt e;
     ProcessedAt := ProcessedAt e; LastError := LastError e; RetryCount := RetryCount e |}.

(** The row as its columns hold it, [payload jsonb NOT NULL] among them. *)
Definition in_columns `{Jsonb, Timestamps} (e : Event) : option Event :=
  payload ← jsonb (Payload e);
  Some {| ID := ID e; AggregateType := AggregateType e; AggregateID := AggregateID e;
          EventType := EventType e; Payload := payload; CreatedAt := ts (CreatedAt e);
          ProcessedAt := ts <$> ProcessedAt e; LastError := LastError e; RetryCount := RetryCount e |}.

(** [Publish] and [PublishInTransaction]: an insertion, refused for a payload that is not
    JSON and for a duplicate key. *)
Definition Outbox_Publish `{Jsonb, Timestamps} (fresh now : Z) (e : Event) (t : table) : table * option error :=
  match in_columns (BeforeCreate fresh now e) with
  | None => (t, Some ErrInvalidJSON)
  | Some e =>
      match t !! ID e with
      | Some _ => (t, Some (ErrVar "gorm.ErrDuplicatedKey"))
      | None => (<[ID e := e]> t, None)
      end
  end.

Definition CreateEvent (now : Z) {A : Type} `{JsonValue A} (aggregateType : string) (aggregateID : Z)
    (eventType : string) (payload : A) : result Event :=
  match Marshal payload with
  | Err e => Err e
  | Ok data =>
      Ok {| ID := uuid_Nil; AggregateType := aggregateType; AggregateID := aggregateID;
            EventType := eventType; Payload := data; CreatedAt := now; ProcessedAt := None;
            LastError := None; RetryCount := 0 |}
  end.

Definition set_processed `{Timestamps} (now : Z) (e : Event) : Event :=
  {| ID := ID e; AggregateType := AggregateType e; AggregateID := AggregateID e;
     EventType := EventType e; Payload := Payload e; CreatedAt := CreatedAt e;
     ProcessedAt := Some (ts now); LastError := LastError e; RetryCount := RetryCount e |}.

Definition set_failed (errMsg : string) (e : Event) : Event :=
  {| ID := ID e; AggregateType := AggregateType e; AggregateID := AggregateID e;
     EventType := EventType e; Payload := Payload e; CreatedAt := CreatedAt e;
     ProcessedAt := ProcessedAt e; LastError := Some errMsg; RetryCount := RetryCount e + 1 |}.

Definition MarkProcessed `{Timestamps} (now eventID : Z) (t : table) : table :=
  alter (set_processed now) eventID t.

Definition MarkFailed (eventID : Z) (errMsg : string) (t : table) : table :=
  alter (set_failed errMsg) eventID t.

Definition is_unprocessed (e : Event) : bool := bool_decide (ProcessedAt e = None).

Definition CleanupProcessedEvents `{Timestamps} (now olderThan : Z) (t : table) : table :=
  let cutoff := ts (time_Add now (wrap64 (- olderThan))) in
  let keep e := match ProcessedAt e with Some p => bool_decide (cutoff <= p) | None => true end in
  filter (fun ke => keep (snd ke)) t.

(** [ORDER BY created_at ASC LIMIT n], as [n] successive choices. *)
Fixpoint first_rows `{RowChoice} (n : nat) (l : list Event) : list Event :=
  match n with
  | O => []
  | S n =>
      match first_row l with
      | None => []
      | Some e => e :: first_rows n (filter (fun e' => ID e' <> ID e) l)
      end
  end.

Definition GetUnprocessedEvents `{RowChoice} (limit : nat) (t : table) : list Event :=
  first_rows limit (filter (fun e => is_unprocessed e) (rows t)).

Definition GetFailedEvents `{RowChoice} (maxRetries : Z) (limit : nat) (t : table) : list Event :=
  first_rows limit
    (filter (fun e => is_unprocessed e && bool_decide (LastError e <> None)
                      && bool_decide (RetryCount e < maxRetries)) (rows t)).

(** ** Claiming one row *)

(** The condition of the query; [locked] are the rows other transactions hold. *)
Definition claimable (maxRetries : Z) (exclude locked : list Z) (e : Event) : bool :=
  is_unprocessed e && bool_decide (RetryCount e < maxRetries) &&
  bool_decide (ID e ∉ exclude) && bool_decide (ID e ∉ locked).

Definition no_claim : ClaimResult := {| cr_Event := None; Claimed := false; PublishErr := None |}.

Definition claim `{RowChoice} (maxRetries : Z) (exclude locked : list Z) (t : table) : option Event :=
  first_row (filter (fun e => claimable maxRetries exclude locked e) (rows t)).

(** One transaction. [clock] reads the time, [text] is the [Error] method. A
    fault rolls the table back, but not what the publisher did. *)
Definition ProcessNext {W} `{Timestamps, RowChoice} (clock : W -> Z) (text : error -> string)
    (f : fault) (locked : list Z) (maxRetries : Z) (exclude : list Z)
    (publish : Event -> W -> W * option error) (s : table * W)
    : (table * W) * (ClaimResult * option error) :=
  let '(t, w) := s in
  match f with
  | SelectFails e => (s, (no_claim, Some e))
  | _ =>
      match claim maxRetries exclude locked t with
      | None => (s, (no_claim, match f with CommitFails e => Some e | _ => None end))
      | Some ev =>
          let '(w, perr) := publish ev w in
          let res := {| cr_Event := Some ev; Claimed := true; PublishErr := perr |} in
          let marked :=
            match perr with
            | Some e => MarkFailed (ID ev) (text e) t
            | None => MarkProcessed (clock w) (ID ev) t
            end in
          match f with
          | NoFault => ((marked, w), (res, None))
          | SelectFails e | MarkFails e | CommitFails e => ((t, w), (res, Some e))
          end
      end
  end.

(** ** The processor *)

Definition DefaultProcessorConfig : ProcessorConfig :=
  {| Interval := 5 * Second; BatchSize := 100; MaxRetries := 5 |}.

Definition NewProcessor {W} (pub : Publisher W) (cfg : ProcessorConfig) : Processor W :=
  let def := DefaultProcessorConfig in
  {| publisher := pub;
     interval := if bool_decide (Interval cfg <= 0) then Interval def else Interval cfg;
     batchSize := if bool_decide (BatchSize cfg <= 0) then BatchSize def else BatchSize cfg;
     maxRetries := if bool_decide (MaxRetries cfg <= 0) then MaxRetries def else MaxRetries cfg |}.

(** [uuid_text] is [uuid.UUID.String]. *)
Definition processEvent {W} (uuid_text : Z -> string) (p : Processor W) (event : Event) (w : W)
    : W * option error :=
  let subject := EventType event in
  let headers : gmap string string := {["Nats-Msg-Id" := uuid_text (ID event)]} in
  match PublishWithHeaders (publisher p) with
  | Some publish => publish subject (Payload event) headers w
  | None => Publish (publisher p) subject (Payload event) w
  end.

(** The loop of one tick, [n] rows left to take: the rows tried, in order. The
    faults are those of its successive transactions. *)
Fixpoint batch_loop {W} `{Timestamps, RowChoice} (clock : W -> Z) (text : error -> string)
    (publish : Event -> W -> W * option error) (maxRetries : Z) (locked : list Z)
    (n : nat) (tried : list Z) (faults : list fault) (s : table * W) : (table * W) * list Z :=
  match n with
  | O => (s, tried)
  | S n =>
      let '(s, (res, err)) :=
        ProcessNext clock text (hd NoFault faults) locked maxRetries tried publish s in
      match err with
      | Some _ => (s, tried)
      | None =>
          match cr_Event res with
          | None => (s, tried)
          | Some ev =>
              batch_loop clock text publish maxRetries locked n (tried ++ [ID ev]) (tail faults) s
          end
      end
  end.

Definition processBatch {W} `{Timestamps, RowChoice} (clock : W -> Z) (text : error -> string)
    (uuid_text : Z -> string) (p : Processor W) (locked : list Z) (faults : list fault)
    (s : table * W) : (table * W) * list Z :=
  batch_loop clock text (processEvent uuid_text p) (maxRetries p) locked
    (Z.to_nat (batchSize p)) [] faults s.

(** The cases the [select] of [run] takes, one after the other. *)
Inductive run_case := Ticked (locked : list Z) (faults : list fault) | CtxCancelled | Stopped.

Fixpoint run_loop {W} (tick : list Z -> list fault -> table * W -> table * W)
    (cases : list run_case) (s : table * W) : table * W :=
  match cases with
  | Ticked locked faults :: cases => run_loop tick cases (tick locked faults s)
  | CtxCancelled :: _ | Stopped :: _ | [] => s
  end.

(** The batch at the start meets locked rows and faults like any other: [first]. *)
Definition run {W} `{Timestamps, RowChoice} (clock : W -> Z) (text : error -> string)
    (uuid_text : Z -> string) (p : Processor W) (first : list Z * list fault) (cases : list run_case)
    (s : table * W) : table * W :=
  let tick locked faults s := fst (processBatch clock text uuid_text p locked faults s) in
  run_loop tick cases (tick (fst first) (snd first) s).

(** ** A concrete choice of rows, for examples: the first of the least ones. *)

Fixpoint least_row (l : list Event) : option Event :=
  match l with
  | [] => None
  | e :: l =>
      match least_row l with
      | Some e' => if bool_decide (CreatedAt e <= CreatedAt e') then Some e else Some e'
      | None => Some e
      end
  end.

Lemma least_row_None l : least_row l = None <-> l = [].
Proof. destruct l as [|e l]; simpl; [done|]. destruct (least_row l); [case_bool_decide|]; done. Qed.

Lemma least_row_in l e : least_row l = Some e -> e ∈ l.
Proof.
  revert e. induction l as [|x l IH]; intros e; simpl; [done|].
  destruct (least_row l); [case_bool_decide|]; intros; simplify_eq; set_solver.
Qed.

Lemma least_row_min l e e' : least_row l = Some e -> e' ∈ l -> CreatedAt e <= CreatedAt e'.
Proof.
  revert e. induction l as [|x l IH]; intros e; simpl; [done|].
  rewrite elem_of_cons. destruct (least_row l) as [y|] eqn:Hy.
  - case_bool_decide; intros ? [->|Hin]; simplify_eq; try lia; specialize (IH _ eq_refl Hin); lia.
  - apply least_row_None in Hy as ->. set_solver.
Qed.

#[export] Instance least_row_choice : RowChoice :=
  {| first_row := least_row; first_row_None := least_row_None;
     first_row_in := least_row_in; first_row_min := least_row_min |}.

(** The table's keys are its rows' identifiers. *)
Definition table_wf (t : table) : Prop := map_Forall (fun k e => ID e = k) t.

(** What a committed attempt does to a row: the outcome of its publication. *)
Definition attempted {W} `{Timestamps} (clock : W -> Z) (text : error -> string)
    (publish : Event -> W -> W * option error) (e e' : Event) : Prop :=
  exists w, let '(w', r) := publish e w in
  e' = match r with Some err => set_failed (text err) e | None => set_processed (clock w') e end.

(** A world that records which rows were handed to the publisher. *)
Class Deliveries {W} (publish : Event -> W -> W * option error) := {
  delivered : W -> list Z;
  delivered_publish e w : delivered (fst (publish e w)) = delivered w ++ [ID e]
}.

Definition created_le (t : table) (i j : Z) : Prop :=
  forall e e', t !! i = Some e -> t !! j = Some e' -> CreatedAt e <= CreatedAt e'.

(** What a run of the loop from [(t, w)] to [(t', w')] did: it tried the rows
    [new] and committed their outcomes, and handed the rows [lost] to the
    publisher in a transaction that then failed. *)
Record loop_effect {W} `{Timestamps} (clock : W -> Z) (text : error -> string)
    (publish : Event -> W -> W * option error) `{!Deliveries publish}
    (cap : Z) (locked tried : list Z) (n : nat) (t : table) (w : W) (t' : table) (w' : W)
    (new lost : list Z) : Prop := {
  eff_wf : table_wf t';
  eff_length : (length new + length lost <= n)%nat /\ (length lost <= 1)%nat;
  eff_nodup : NoDup (new ++ lost);
  eff_delivered : delivered w' = delivered w ++ new ++ lost;
  eff_claimable i : i ∈ new ++ lost ->
    exists e, t !! i = Some e /\ claimable cap tried locked e = true;
  eff_new i e : i ∈ new -> t !! i = Some e ->
    exists e', t' !! i = Some e' /\ attempted clock text publish e e';
  eff_rest i : (i ∉ new) -> t' !! i = t !! i;
  eff_order : StronglySorted (created_le t) new
}.

(** The accounts of one row between two states: it stays in the table, a
    processed row is not touched again, failures are counted up to the cap, and
    [n] deliveries were enough for the outcomes recorded. *)
Definition processed (e : Event) : Z := b2z (negb (is_unprocessed e)).

Definition accounts (cap : Z) (e e' : Event) (n : Z) : Prop :=
  (processed e = 1 -> e' = e) /\
  RetryCount e <= RetryCount e' <= Z.max cap (RetryCount e) /\
  RetryCount e' - RetryCount e + processed e' - processed e <= n.

Definition is_id (i j : Z) : bool := bool_decide (i = j).

(** Accounts for every row, with the deliveries made in between. *)
Definition ledger {W} (log : W -> list Z) (cap : Z) (exact : bool) (s s' : table * W) : Prop :=
  table_wf (fst s') /\ exists new, log (snd s') = log (snd s) ++ new /\
  (forall i, fst s' !! i = None <-> fst s !! i = None) /\
  forall i e, fst s !! i = Some e ->
    exists e', fst s' !! i = Some e' /\ accounts cap e e' (countb (is_id i) new) /\
      (exact = true ->
       RetryCount e' - RetryCount e + processed e' - processed e = countb (is_id i) new).

Definition fault_free (cases : list run_case) : bool :=
  forallb (fun c => match c with
    | Ticked _ faults => forallb (fun f => match f with NoFault => true | _ => false end) faults
    | _ => true end) cases.

(** A concrete publisher, for examples: its world is the list of message
    identifiers it received, which it reads from the header; every other
    publication fails. Identifiers are written in binary. *)
Definition id_text (z : Z) : string :=
  match z with Z0 => "" | Zpos p => String "+"%char (bits p) | Zneg p => String "-"%char (bits p) end.

Definition text_id (s : string) : Z :=
  match s with
  | EmptyString => 0
  | String c s => if bool_decide (c = "+"%char) then Zpos (unbits s) else Zneg (unbits s)
  end.

Definition sample_publisher : Publisher (list Z) := {|
  Publish _ _ w := (w, None);
  PublishWithHeaders := Some (fun _ _ (headers : gmap string string) w =>
    (w ++ [text_id (default "" (headers !! "Nats-Msg-Id"))],
     if Nat.odd (length w) then Some (ErrExt 1) else None))
|}.

Definition sample_event (id : Z) : Event :=
  {| ID := id; AggregateType := "order"; AggregateID := 1; EventType := "events.order.created";
     Payload := "{}"; CreatedAt := - id; ProcessedAt := None; LastError := None; RetryCount := 0 |}.

Definition sample_table : table := {[7 := sample_event 7; 8 := sample_event 8]}.

Definition sample_processor : Processor (list Z) := NewProcessor sample_publisher DefaultProcessorConfig.

(** ** Lemmas *)

Lemma text_id_text z : text_id (id_text z) = z.
Proof. destruct z; simpl; by rewrite ?unbits_bits. Qed.

#[export] Program Instance sample_deliveries :
  Deliveries (processEvent id_text sample_processor) := {| delivered w := w |}.
Next Obligation.
  intros e w. unfold processEvent. simpl. rewrite lookup_singleton_eq. simpl.
  by rewrite text_id_text.
Qed.

Lemma sample_wf : table_wf sample_table.
Proof. by apply (bool_decide_unpack (map_Forall (fun k e => ID e = k) sample_table)). Qed.

Lemma elem_of_rows t e : table_wf t -> ((e ∈ rows t) <-> t !! ID e = Some e).
Proof.
  intros Hw. unfold rows. rewrite list_elem_of_fmap. split.
  - intros ([k e'] & -> & Hk). apply elem_of_map_to_list in Hk. simpl.
    by rewrite (Hw _ _ Hk).
  - intros He. exists (ID e, e). split; [done|]. by apply elem_of_map_to_list.
Qed.

Lemma claim_Some `{RowChoice} cap exclude locked t e :
  table_wf t -> claim cap exclude locked t = Some e ->
  t !! ID e = Some e /\ claimable cap exclude locked e = true.
Proof.
  intros Hw Hc. apply first_row_in in Hc. apply list_elem_of_filter in Hc as [Hc He].
  split; [by apply elem_of_rows|]. by apply Is_true_eq_true.
Qed.

Lemma claim_None `{RowChoice} cap exclude locked t e :
  table_wf t -> claim cap exclude locked t = None -> t !! ID e = Some e ->
  claimable cap exclude locked e = false.
Proof.
  intros Hw Hc He. apply first_row_None in Hc. apply not_true_iff_false. intros Ht.
  assert (e ∈ @nil Event) as Hin; [|by apply elem_of_nil in Hin].
  rewrite <-Hc. apply list_elem_of_filter. split; [by apply Is_true_eq_left|].
  by apply elem_of_rows.
Qed.

Lemma claimable_spec cap exclude locked e :
  claimable cap exclude locked e = true <->
  ProcessedAt e = None /\ RetryCount e < cap /\ (ID e ∉ exclude) /\ (ID e ∉ locked).
Proof. unfold claimable, is_unprocessed. rewrite !andb_true_iff, !bool_decide_eq_true. tauto. Qed.

Lemma alter_wf f k t :
  (forall e, ID (f e) = ID e) -> table_wf t -> table_wf (alter f k t).
Proof.
  intros Hf Hw i e He. apply lookup_alter_Some in He as [(-> & e' & He' & ->)|[_ He]]; [|by apply Hw].
  rewrite Hf. by apply Hw.
Qed.

Lemma mark_wf `{Timestamps} now text k t :
  table_wf t -> table_wf (MarkProcessed now k t) /\ table_wf (MarkFailed k text t).
Proof. intros Hw. split; by apply alter_wf. Qed.

Lemma claimable_weaken cap i tried locked e :
  claimable cap (tried ++ [i]) locked e = true -> claimable cap tried locked e = true /\ ID e <> i.
Proof.
  rewrite !claimable_spec, not_elem_of_app, list_elem_of_singleton. tauto.
Qed.

Section Loop.
Context {W : Type} `{Timestamps, RowChoice} (clock : W -> Z) (text : error -> string).
Context (publish : Event -> W -> W * option error) `{!Deliveries publish}.
Context (cap : Z) (locked : list Z).

(** A transaction that ends the loop. *)
Lemma effect_stop tried n t w w' lost :
  table_wf t -> (length lost <= n)%nat /\ (length lost <= 1)%nat ->
  delivered w' = delivered w ++ lost ->
  (forall i, i ∈ lost -> exists e, t !! i = Some e /\ claimable cap tried locked e = true) ->
  loop_effect clock text publish cap locked tried n t w t w' [] lost.
Proof.
  intros Hw [Hl Hl1] Hd Hc. split; try done.
  - destruct lost as [|? [|]]; [constructor|apply NoDup_singleton|simpl in Hl1; lia].
  - intros i e Hi. by apply elem_of_nil in Hi.
  - constructor.
Qed.

Lemma effect_idle tried n t w :
  table_wf t -> loop_effect clock text publish cap locked tried n t w t w [] [].
Proof.
  intros Hw. apply effect_stop; [done|simpl; lia|by rewrite app_nil_r|].
  intros i Hi. by apply elem_of_nil in Hi.
Qed.

(** A committed attempt in front of the rest of the loop. *)
Lemma effect_cons tried n t w ev w1 t1 t' w' new lost :
  table_wf t -> claim cap tried locked t = Some ev ->
  delivered w1 = delivered w ++ [ID ev] ->
  (exists e', t1 = <[ID ev := e']> t /\ attempted clock text publish ev e') ->
  loop_effect clock text publish cap locked (tried ++ [ID ev]) n t1 w1 t' w' new lost ->
  loop_effect clock text publish cap locked tried (S n) t w t' w' (ID ev :: new) lost.
Proof.
  intros Hw Hcl Hd (e1 & -> & Hat) E. destruct (claim_Some _ _ _ _ _ Hw Hcl) as [Hev Hcev].
  assert (Hin : forall i, i ∈ new ++ lost -> i <> ID ev /\
    exists e, t !! i = Some e /\ claimable cap tried locked e = true /\ ID e = i).
  { intros i Hi. destruct (eff_claimable _ _ _ _ _ _ _ _ _ _ _ _ _ E i Hi) as (e & He & Hc).
    apply claimable_weaken in Hc as [Hc Hne].
    destruct (decide (ID ev = i)) as [<-|Hi'].
    - rewrite lookup_insert_eq in He. simplify_eq. destruct Hat as [w0 Hat].
      destruct (publish ev w0) as [? []]; by subst.
    - rewrite lookup_insert_ne in He by done. split; [done|]. exists e.
      split; [done|]. split; [done|]. by apply Hw. }
  split.
  - apply E.
  - pose proof (eff_length _ _ _ _ _ _ _ _ _ _ _ _ _ E). simpl. lia.
  - simpl. constructor; [|apply E]. intros Hi. by destruct (Hin _ Hi).
  - rewrite (eff_delivered _ _ _ _ _ _ _ _ _ _ _ _ _ E), Hd, <-app_assoc. done.
  - intros i [->|Hi]%elem_of_cons; [by exists ev|].
    destruct (Hin _ Hi) as (_ & e & ? & ? & _). by exists e.
  - intros i e [->|Hi]%elem_of_cons He.
    + exists e1. simplify_eq. split; [|done].
      rewrite (eff_rest _ _ _ _ _ _ _ _ _ _ _ _ _ E); [apply lookup_insert_eq|].
      intros Hi. destruct (Hin (ID ev)) as [? _]; [set_solver|done].
    + apply (eff_new _ _ _ _ _ _ _ _ _ _ _ _ _ E); [done|].
      rewrite lookup_insert_ne; [done|]. destruct (Hin i) as [? _]; [set_solver|done].
  - intros i [Hne Hi]%not_elem_of_cons.
    rewrite (eff_rest _ _ _ _ _ _ _ _ _ _ _ _ _ E), lookup_insert_ne by done. done.
  - constructor.
    + pose proof (eff_order _ _ _ _ _ _ _ _ _ _ _ _ _ E) as Ho.
      clear -Ho Hin. assert (Hne : Forall (fun i => i <> ID ev) new).
      { apply Forall_forall. intros i Hi. destruct (Hin i); [set_solver|done]. }
      clear Hin. induction Ho as [|i l Ho IH Hf]; constructor; inversion_clear Hne; [by apply IH|].
      eapply Forall_impl; [apply Forall_and; split; [exact Hf|exact H0]|].
      intros j [Hj Hjne] e e' He He'. apply Hj; by rewrite lookup_insert_ne.
    + apply Forall_forall. intros j Hj e e' He He'.
      destruct (Hin j) as (_ & ej & Hej & Hcj & _); [set_solver|]. simplify_eq.
      eapply first_row_min; [exact Hcl|]. apply list_elem_of_filter.
      split; [by apply Is_true_eq_left|]. apply elem_of_rows; [done|]. by rewrite (Hw _ _ He').
Qed.

Lemma fault_dec (f : fault) : {f = NoFault} + {f <> NoFault}.
Proof. destruct f; by (left + right). Qed.

(** One transaction: nothing to claim, a committed attempt, or a failure. *)
Lemma process_next_cases f tried t w :
  let '((t', w'), (res, err)) := ProcessNext clock text f locked cap tried publish (t, w) in
  (t' = t /\ w' = w /\ cr_Event res = None /\ (err = None -> claim cap tried locked t = None)
     /\ (f = NoFault -> err = None)) \/
  (exists ev, claim cap tried locked t = Some ev /\ w' = fst (publish ev w) /\
     cr_Event res = Some ev /\ PublishErr res = snd (publish ev w) /\
     ((err = None /\ f = NoFault /\
         t' = alter (match snd (publish ev w) with
                     | Some e => set_failed (text e) | None => set_processed (clock w') end) (ID ev) t) \/
      (err <> None /\ f <> NoFault /\ t' = t))).
Proof.
  unfold ProcessNext. destruct f; [| left; done | |];
    (destruct (claim cap tried locked t) as [ev|]; [|left; done]);
    unfold MarkFailed, MarkProcessed; destruct (publish ev w) as [w1 []] eqn:Hp; simpl;
    right; exists ev; rewrite Hp; simpl; repeat split; auto; by (left + right).
Qed.

Lemma batch_loop_effect n tried faults t w :
  table_wf t ->
  let '((t', w'), tried') :=
    batch_loop clock text publish cap locked n tried faults (t, w) in
  exists new lost, tried' = tried ++ new /\
    loop_effect clock text publish cap locked tried n t w t' w' new lost /\
    (Forall (fun f => f = NoFault) faults ->
       lost = [] /\ ((length new < n)%nat -> claim cap tried' locked t' = None)).
Proof.
  revert tried faults t w. induction n as [|n IH]; intros tried faults t w Hw; cbn [batch_loop].
  { exists [], []. rewrite app_nil_r. split; [done|]. split; [|intros; split; [done|lia]].
    by apply effect_idle. }
  pose proof (process_next_cases (hd NoFault faults) tried t w) as Hp.
  destruct (ProcessNext _ _ _ _ _ _ _ _) as [[t1 w1] [res err]].
  destruct Hp as [(-> & -> & Hres & Hcl & Hnf)|(ev & Hcl & Hw1 & Hres & Hperr & Hout)].
  - assert (match err with Some _ => ((t, w), tried) | None => ((t, w), tried) end = ((t, w), tried))
      as He by (by destruct err).
    rewrite Hres, He. exists [], []. rewrite app_nil_r. split; [done|].
    split; [by apply effect_idle|]. intros Hf. split; [done|]. intros _.
    apply Hcl, Hnf. by destruct Hf.
  - pose proof (delivered_publish ev w) as Hd. rewrite <-Hw1 in Hd. rewrite Hres.
    destruct (claim_Some _ _ _ _ _ Hw Hcl) as [Hev Hcev].
    destruct Hout as [(-> & Hf & Ht1)|(Herr & Hf & ->)].
    + set (e' := match snd (publish ev w) with
                 | Some e => set_failed (text e) ev | None => set_processed (clock w1) ev end).
      assert (Ht1' : t1 = <[ID ev := e']> t).
      { rewrite Ht1. apply map_eq. intros i. rewrite lookup_alter, lookup_insert.
        case_decide; [subst; rewrite Hev; simpl; unfold e'; by destruct (snd _)|done]. }
      assert (table_wf t1) as Hwt1.
      { rewrite Ht1. apply alter_wf; [|done]. by destruct (snd _). }
      specialize (IH (tried ++ [ID ev]) (tail faults) t1 w1 Hwt1).
      destruct (batch_loop _ _ _ _ _ n _ _ _) as [[t' w'] tried'].
      destruct IH as (new & lost & -> & E & Hc). exists (ID ev :: new), lost.
      rewrite <-app_assoc in *. split; [done|]. split.
      * eapply effect_cons; [done|done|exact Hd| |exact E].
        exists e'. split; [done|]. exists w. subst w1. unfold e'. by destruct (publish ev w) as [? []].
      * intros Hfs. destruct Hc as [-> Hc]; [by destruct Hfs|]. split; [done|].
        intros Hl. apply Hc. simpl in Hl. lia.
    + destruct err; [|done]. exists [], [ID ev]. rewrite app_nil_r. split; [done|]. split.
      * apply effect_stop; [done|simpl; lia|done|].
        intros i ->%list_elem_of_singleton. by exists ev.
      * intros Hfs. destruct Hf. by destruct Hfs.
Qed.
End Loop.

(** ** Accounts *)

Lemma processed_bound e : 0 <= processed e <= 1.
Proof. apply b2z_bound. Qed.

Lemma countb_is_id_NoDup i l : NoDup l -> countb (is_id i) l = if bool_decide (i ∈ l) then 1 else 0.
Proof.
  induction 1 as [|x l Hx Hl IH]; simpl; [done|]. rewrite IH. unfold is_id.
  repeat case_bool_decide; subst; simpl; try done; set_solver.
Qed.

Lemma attempted_accounts {W} `{Timestamps} (clock : W -> Z) text publish cap e e' :
  attempted clock text publish e e' -> ProcessedAt e = None -> RetryCount e < cap ->
  accounts cap e e' 1 /\ RetryCount e' - RetryCount e + processed e' - processed e = 1.
Proof.
  intros [w Ha] Hp Hr. destruct (publish e w) as [w' [err|]]; subst e';
    unfold accounts, processed, is_unprocessed; simpl; rewrite Hp; simpl; (split; [|lia]);
    (split; [done|lia]).
Qed.

Lemma accounts_refl cap e n : 0 <= n -> accounts cap e e n.
Proof. unfold accounts. intros. split; [done|lia]. Qed.

Lemma accounts_trans cap e e' e'' n m :
  accounts cap e e' n -> accounts cap e' e'' m -> accounts cap e e'' (n + m).
Proof.
  intros (H1 & H2 & H3) (H4 & H5 & H6). split; [|lia].
  intros Hp. rewrite (H1 Hp) in *. by apply H4.
Qed.

Lemma forallb_NoFault fs :
  forallb (fun f => match f with NoFault => true | _ => false end) fs = true ->
  Forall (fun f => f = NoFault) fs.
Proof.
  induction fs as [|f fs IH]; simpl; [done|]. rewrite andb_true_iff. intros [? ?].
  constructor; [by destruct f|by apply IH].
Qed.

Section Ledger.
Context {W : Type} `{Timestamps, RowChoice} (clock : W -> Z) (text : error -> string).
Context (publish : Event -> W -> W * option error) `{!Deliveries publish}.

Lemma loop_ledger cap locked tried n t w t' w' new lost (exact : bool) :
  loop_effect clock text publish cap locked tried n t w t' w' new lost ->
  (exact = true -> lost = []) ->
  ledger delivered cap exact (t, w) (t', w').
Proof.
  intros E Hex. split; [apply E|]. exists (new ++ lost). split; [apply E|].
  pose proof (eff_nodup _ _ _ _ _ _ _ _ _ _ _ _ _ E) as Hnd.
  assert (Hin : forall i, i ∈ new -> exists e e', t !! i = Some e /\ t' !! i = Some e' /\
     accounts cap e e' 1 /\ RetryCount e' - RetryCount e + processed e' - processed e = 1).
  { intros i Hi. destruct (eff_claimable _ _ _ _ _ _ _ _ _ _ _ _ _ E i) as (e & He & Hc); [set_solver|].
    destruct (eff_new _ _ _ _ _ _ _ _ _ _ _ _ _ E i e Hi He) as (e' & He' & Ha).
    apply claimable_spec in Hc as (? & ? & _). exists e, e'.
    by destruct (attempted_accounts _ _ _ cap _ _ Ha). }
  simpl. split.
  - intros i. destruct (decide (i ∈ new)) as [Hi|Hi].
    + destruct (Hin i Hi) as (e & e' & -> & -> & _). done.
    + by rewrite (eff_rest _ _ _ _ _ _ _ _ _ _ _ _ _ E i Hi).
  - intros i e He. rewrite countb_is_id_NoDup by done.
    destruct (decide (i ∈ new)) as [Hi|Hi].
    + destruct (Hin i Hi) as (e0 & e' & He0 & He' & Ha & Hx). simplify_eq.
      rewrite bool_decide_true by set_solver. by exists e'.
    + exists e. rewrite (eff_rest _ _ _ _ _ _ _ _ _ _ _ _ _ E i Hi). split; [done|].
      split; [apply accounts_refl; case_bool_decide; lia|]. intros Hx.
      rewrite (Hex Hx), app_nil_r, bool_decide_false by done. lia.
Qed.

Lemma ledger_refl cap exact s : table_wf (fst s) -> ledger delivered cap exact s s.
Proof.
  intros Hw. split; [done|]. exists []. rewrite app_nil_r. split; [done|]. split; [done|].
  intros i e He. exists e. split; [done|]. split; [apply accounts_refl; simpl; lia|]. simpl. lia.
Qed.

Lemma ledger_trans cap exact s s' s'' :
  ledger delivered cap exact s s' -> ledger delivered cap exact s' s'' ->
  ledger delivered cap exact s s''.
Proof.
  intros (_ & n1 & Hl1 & Hd1 & Ha1) (Hw & n2 & Hl2 & Hd2 & Ha2). split; [done|].
  exists (n1 ++ n2). split; [by rewrite Hl2, Hl1, app_assoc|].
  split; [intros i; by rewrite Hd2, Hd1|]. intros i e He.
  destruct (Ha1 i e He) as (e1 & He1 & Hacc1 & Hx1). destruct (Ha2 i e1 He1) as (e2 & He2 & Hacc2 & Hx2).
  exists e2. rewrite countb_app. split; [done|]. split; [by eapply accounts_trans|].
  intros Hx. specialize (Hx1 Hx). specialize (Hx2 Hx). lia.
Qed.

Lemma batch_ledger cap locked n faults (exact : bool) s :
  table_wf (fst s) -> (exact = true -> Forall (fun f => f = NoFault) faults) ->
  ledger delivered cap exact s (fst (batch_loop clock text publish cap locked n [] faults s)).
Proof.
  destruct s as [t w]. intros Hw Hx.
  pose proof (batch_loop_effect clock text publish cap locked n [] faults t w Hw) as E.
  destruct (batch_loop _ _ _ _ _ _ _ _ _) as [[t' w'] tried']. simpl.
  destruct E as (new & lost & _ & E & Hf). eapply loop_ledger; [exact E|].
  intros He. by apply Hf, Hx.
Qed.
(** Ticks that keep the accounts make runs that keep them. *)
Lemma run_loop_ledger cap tick cases s :
  (forall locked faults exact s, table_wf (fst s) ->
    (exact = true -> Forall (fun f => f = NoFault) faults) ->
    ledger delivered cap exact s (tick locked faults s)) ->
  table_wf (fst s) -> ledger delivered cap (fault_free cases) s (run_loop tick cases s).
Proof.
  intros Htick. revert s. induction cases as [|c cases IH]; intros s Hs; [by apply ledger_refl|].
  destruct c as [locked faults| |]; [|by apply ledger_refl|by apply ledger_refl].
  cbn [run_loop]. assert (Hl : ledger delivered cap (fault_free (Ticked locked faults :: cases)) s
    (tick locked faults s)).
  { apply Htick; [done|]. intros [Hfs _]%andb_true_iff. by apply forallb_NoFault. }
  eapply ledger_trans; [exact Hl|].
  destruct (IH (tick locked faults s) (proj1 Hl)) as (Hw2 & new & H1 & H2 & H3).
  split; [done|]. exists new. split; [done|]. split; [done|]. intros i e He.
  destruct (H3 i e He) as (e' & ? & ? & Hx). exists e'. split; [done|]. split; [done|].
  intros [_ Hff]%andb_true_iff. by apply Hx.
Qed.
End Ledger.

(** ** Properties *)

(** C5: one tick. [processBatch] tries at most [batchSize] rows, each at most
    once and only rows that are unprocessed, below the cap, and not locked by
    another processor; it takes them oldest first; each committed attempt marks
    its row processed or failed as the publication came out and leaves every
    other row alone; every delivery of the tick is one of those attempts, or the
    single one whose transaction failed and ended the tick. A tick without
    faults that took fewer rows than it may has left nothing claimable. *)
Theorem tick_correct {W} `{Timestamps, RowChoice} (clock : W -> Z) text uuid_text (p : Processor W)
    `{!Deliveries (processEvent uuid_text p)} locked faults t w :
  table_wf t ->
  let '((t', w'), tried) := processBatch clock text uuid_text p locked faults (t, w) in
  exists lost,
    Z.of_nat (length tried) <= Z.max 0 (batchSize p) /\ (length lost <= 1)%nat /\
    NoDup (tried ++ lost) /\
    delivered w' = delivered w ++ tried ++ lost /\
    (forall i, i ∈ tried ++ lost -> exists e, t !! i = Some e /\ ProcessedAt e = None /\
       RetryCount e < maxRetries p /\ (i ∉ locked)) /\
    (forall i e, i ∈ tried -> t !! i = Some e ->
       exists e', t' !! i = Some e' /\ attempted clock text (processEvent uuid_text p) e e') /\
    (forall i, (i ∉ tried) -> t' !! i = t !! i) /\
    StronglySorted (created_le t) tried /\
    (Forall (fun f => f = NoFault) faults -> lost = [] /\
       (Z.of_nat (length tried) < batchSize p -> forall i e, t' !! i = Some e ->
          ProcessedAt e = None -> RetryCount e < maxRetries p -> (i ∉ locked) -> i ∈ tried)).
Proof.
  intros Hw. unfold processBatch.
  pose proof (batch_loop_effect clock text (processEvent uuid_text p) (maxRetries p) locked
    (Z.to_nat (batchSize p)) [] faults t w Hw) as E.
  destruct (batch_loop _ _ _ _ _ _ _ _ _) as [[t' w'] tried].
  destruct E as (new & lost & -> & E & Hf). simpl in *. exists lost.
  destruct (eff_length _ _ _ _ _ _ _ _ _ _ _ _ _ E). split; [lia|]. split; [done|].
  split; [apply E|]. split; [apply E|]. split.
  { intros i Hi. destruct (eff_claimable _ _ _ _ _ _ _ _ _ _ _ _ _ E i Hi) as (e & He & Hc).
    exists e. apply claimable_spec in Hc as (? & ? & _ & Hlk). rewrite (Hw _ _ He) in Hlk. done. }
  split; [apply E|]. split; [apply E|]. split; [apply E|].
  intros Hfs. destruct (Hf Hfs) as [-> Hc]. split; [done|]. intros Hl i e He Hp Hr Hlk.
  destruct (decide (i ∈ new)) as [|Hn]; [done|].
  pose proof (eff_wf _ _ _ _ _ _ _ _ _ _ _ _ _ E) as Hw'. pose proof (Hw' _ _ He) as Hid.
  pose proof (claim_None (maxRetries p) new locked t' e Hw') as Hcn.
  rewrite Hid in Hcn. specialize (Hcn ltac:(apply Hc; lia) He).
  assert (claimable (maxRetries p) new locked e = true); [|congruence].
  apply claimable_spec. by rewrite Hid.
Qed.

(** C6: whole runs. From the batch at the start to the stop, no row leaves the table,
    a processed row is never published or changed again, failures are counted up
    to the cap and no further, and every recorded outcome had its delivery: the
    deliveries of a row are at least its new failures plus one if it became
    processed, and exactly that many when no transaction failed. *)
Theorem run_accounts {W} `{Timestamps, RowChoice} (clock : W -> Z) text uuid_text (p : Processor W)
    `{!Deliveries (processEvent uuid_text p)} first cases t w :
  table_wf t ->
  ledger delivered (maxRetries p) (fault_free (Ticked (fst first) (snd first) :: cases)) (t, w)
    (run clock text uuid_text p first cases (t, w)).
Proof.
  intros Hw. unfold run.
  set (tick locked faults s := fst (processBatch clock text uuid_text p locked faults s)).
  change (ledger delivered (maxRetries p) (fault_free (Ticked (fst first) (snd first) :: cases)) (t, w)
    (run_loop tick (Ticked (fst first) (snd first) :: cases) (t, w))).
  apply run_loop_ledger; [|done]. intros. by apply batch_ledger.
Qed.

(** ** Witnesses *)

Lemma tick_correct_witness :
  exists lost, [8; 7] = [8; 7] ++ lost.
Proof.
  pose proof (tick_correct (fun w : list Z => 0) (fun _ => "") id_text sample_processor [] []
    sample_table [] sample_wf) as H.
  revert H. vm_compute. intros (lost & _ & _ & _ & H & _). exists lost. exact H.
Defined.

(** The first commit fails after its publication, so the batch ends; later ticks
    publish the row again. *)
Lemma run_accounts_witness :
  exists e, fst (run (fun w : list Z => 0) (fun _ => "") id_text sample_processor ([], [CommitFails (ErrExt 1)])
    [Ticked [] []; Ticked [] []] (sample_table, [])) !! 8 = Some e /\ accounts 5 (sample_event 8) e 3.
Proof.
  pose proof (run_accounts (fun w : list Z => 0) (fun _ => "") id_text sample_processor ([], [CommitFails (ErrExt 1)])
    [Ticked [] []; Ticked [] []] sample_table [] sample_wf) as (_ & new & Hd & _ & H).
  assert (new = [8; 8; 7; 8]) as -> by (vm_compute in Hd; congruence).
  destruct (H 8 (sample_event 8) eq_refl) as (e & He & Ha & _). exists e. split; [exact He|exact Ha].
Defined.
