(* ===== verification/OutboxShared.v ===== *)
(** * Several processors on one outbox (src/outbox/outbox.go, src/outbox/processor.go)

    Any number of processors drain one table. A claim locks its row for the
    length of the transaction, the publication happens in the middle of it, and
    a crash or a database failure ends the transaction at any point. Each step
    below is one of those events, built from the operations of [Outbox]. *)

From S2P Require Import Prelude Timestamps Outbox.

(** ** The shared system *)

(** Where a processor is: between transactions, with the rows already tried in
    this tick; holding a claimed row; or holding it after the publication. *)
Inductive proc :=
| Idle (tried : list Z)
| Holding (tried : list Z) (e : Event)
| Published (tried : list Z) (e : Event) (r : option error).

Record shared := {
  tab : table;
  procs : list proc;
  deliveries : list Z;
  undone : list Z
}.

Definition held (p : proc) : list Z :=
  match p with Idle _ => [] | Holding _ e | Published _ e _ => [ID e] end.

Definition locked_rows (s : shared) : list Z := procs s ≫= held.

Definition holds (i : Z) (p : proc) : bool :=
  match p with Idle _ => false | Holding _ e | Published _ e _ => is_id i (ID e) end.

Definition published (i : Z) (p : proc) : bool :=
  match p with Published _ e _ => is_id i (ID e) | _ => false end.

Definition new_row (e : Event) : Prop := ProcessedAt e = None /\ RetryCount e = 0.

Inductive shared_step `{Timestamps, RowChoice} (text : error -> string) (cap : Z) : shared -> shared -> Prop :=
(** a service starts another processor *)
| ss_start t ps d u :
    shared_step text cap {| tab := t; procs := ps; deliveries := d; undone := u |}
      {| tab := t; procs := ps ++ [Idle []]; deliveries := d; undone := u |}
(** a business transaction commits an event *)
| ss_insert t ps d u e :
    new_row e -> t !! ID e = None -> (ID e ∉ d) ->
    shared_step text cap {| tab := t; procs := ps; deliveries := d; undone := u |}
      {| tab := <[ID e := e]> t; procs := ps; deliveries := d; undone := u |}
(** SELECT ... FOR UPDATE SKIP LOCKED *)
| ss_claim t ps d u k tried e :
    ps !! k = Some (Idle tried) -> claim cap tried (ps ≫= held) t = Some e ->
    shared_step text cap {| tab := t; procs := ps; deliveries := d; undone := u |}
      {| tab := t; procs := <[k := Holding tried e]> ps; deliveries := d; undone := u |}
(** [publish(res.Event)] *)
| ss_publish t ps d u k tried e r :
    ps !! k = Some (Holding tried e) ->
    shared_step text cap {| tab := t; procs := ps; deliveries := d; undone := u |}
      {| tab := t; procs := <[k := Published tried e r]> ps;
         deliveries := d ++ [ID e]; undone := u |}
(** the mark and the commit *)
| ss_commit t ps d u k tried e r now :
    ps !! k = Some (Published tried e r) ->
    shared_step text cap {| tab := t; procs := ps; deliveries := d; undone := u |}
      {| tab := match r with Some err => MarkFailed (ID e) (text err) t
                        | None => MarkProcessed now (ID e) t end;
         procs := <[k := Idle (tried ++ [ID e])]> ps; deliveries := d; undone := u |}
(** a rollback: before the publication, or after it *)
| ss_abort t ps d u k tried e :
    ps !! k = Some (Holding tried e) ->
    shared_step text cap {| tab := t; procs := ps; deliveries := d; undone := u |}
      {| tab := t; procs := <[k := Idle []]> ps; deliveries := d; undone := u |}
| ss_crash t ps d u k tried e r :
    ps !! k = Some (Published tried e r) ->
    shared_step text cap {| tab := t; procs := ps; deliveries := d; undone := u |}
      {| tab := t; procs := <[k := Idle []]> ps; deliveries := d; undone := u ++ [ID e] |}
(** the next tick *)
| ss_tick t ps d u k tried :
    ps !! k = Some (Idle tried) ->
    shared_step text cap {| tab := t; procs := ps; deliveries := d; undone := u |}
      {| tab := t; procs := <[k := Idle []]> ps; deliveries := d; undone := u |}
| ss_cleanup t ps d u now olderThan :
    shared_step text cap {| tab := t; procs := ps; deliveries := d; undone := u |}
      {| tab := CleanupProcessedEvents now olderThan t; procs := ps; deliveries := d; undone := u |}.

Definition shared_init (s : shared) : Prop :=
  s = {| tab := ∅; procs := []; deliveries := []; undone := [] |}.

Definition shared_reachable `{Timestamps, RowChoice} text cap : shared -> Prop :=
  reachable shared_init (shared_step text cap).

(** The invariant: locks are exclusive, a held row is as it was when claimed,
    failures stay within the cap, and the accounts of deliveries balance. *)
Definition shared_inv (cap : Z) (s : shared) : Prop :=
  table_wf (tab s) /\
  (forall k tried e, procs s !! k = Some (Holding tried e) \/
     (exists r, procs s !! k = Some (Published tried e r)) ->
     tab s !! ID e = Some e /\ ProcessedAt e = None /\ RetryCount e < cap) /\
  (forall i, countb (holds i) (procs s) <= 1) /\
  (forall i e, tab s !! i = Some e -> 0 <= RetryCount e <= Z.max 0 cap) /\
  (forall i, countb (is_id i) (undone s) + countb (published i) (procs s) <=
     countb (is_id i) (deliveries s)) /\
  (forall i e, tab s !! i = Some e ->
     countb (is_id i) (deliveries s) =
       RetryCount e + processed e + countb (published i) (procs s) + countb (is_id i) (undone s)).

(** One row, delivered by a processor that died before its commit and then by
    another one that committed. *)
Definition sample_row : Event :=
  {| ID := 7; AggregateType := "order"; AggregateID := 1; EventType := "events.order.created";
     Payload := "{}"; CreatedAt := 5; ProcessedAt := None; LastError := None; RetryCount := 0 |}.

Definition sample_end : shared :=
  {| tab := {[7 := set_processed 9 sample_row]}; procs := [Idle []; Idle [7]];
     deliveries := [7; 7]; undone := [7] |}.

(** ** Lemmas *)

Lemma holds_locked i ps : 0 < countb (holds i) ps <-> i ∈ ps ≫= held.
Proof.
  induction ps as [|p ps IH]; simpl; [split; [lia|set_solver]|].
  rewrite elem_of_app, <-IH. pose proof (countb_nonneg (holds i) ps).
  assert (holds i p = true <-> i ∈ held p) as Hp.
  { destruct p; simpl; unfold is_id; rewrite ?bool_decide_eq_true; set_solver. }
  destruct (holds i p); simpl; [split; [intros _; left; by apply Hp|intros _; lia]|].
  split; [intros; by right|]. intros [Hi|?]; [|lia]. by apply Hp in Hi.
Qed.

Lemma published_holds i p : b2z (published i p) <= b2z (holds i p).
Proof. destruct p; simpl; [lia|apply b2z_bound|lia]. Qed.

Lemma countb_published i ps : 0 <= countb (published i) ps <= countb (holds i) ps.
Proof.
  split; [apply countb_nonneg|]. induction ps as [|p ps IH]; simpl; [lia|].
  pose proof (published_holds i p). lia.
Qed.

Lemma countb_absent i l : (i ∉ l) -> countb (is_id i) l = 0.
Proof.
  intros Hi. apply countb_0, Forall_forall. intros x Hx. unfold is_id.
  apply bool_decide_eq_false. by intros ->.
Qed.

Lemma is_id_refl i : is_id i i = true.
Proof. unfold is_id. by apply bool_decide_eq_true. Qed.

Lemma is_id_ne i j : i <> j -> is_id i j = false.
Proof. intros. unfold is_id. by apply bool_decide_eq_false. Qed.

(** Each step changes one processor; the rest of the counts follow. *)
Ltac counts Hk := rewrite ?(countb_insert _ _ _ _ _ Hk), ?countb_app in *; simpl in *.

Lemma holder_unique cap s k tried e k' e' tried' :
  shared_inv cap s ->
  (procs s !! k = Some (Holding tried e) \/ exists r, procs s !! k = Some (Published tried e r)) ->
  (procs s !! k' = Some (Holding tried' e') \/ exists r, procs s !! k' = Some (Published tried' e' r)) ->
  ID e = ID e' -> k = k'.
Proof.
  intros (_ & _ & Hex & _) Hk Hk' Hid. specialize (Hex (ID e)).
  assert (exists p, procs s !! k = Some p /\ holds (ID e) p = true) as (p & Hp & Hh).
  { destruct Hk as [|[r ?]]; eexists; (split; [done|simpl; apply is_id_refl]). }
  assert (exists p, procs s !! k' = Some p /\ holds (ID e) p = true) as (p' & Hp' & Hh').
  { rewrite Hid. destruct Hk' as [|[r ?]]; eexists; (split; [done|simpl; apply is_id_refl]). }
  destruct (decide (k = k')) as [|Hne]; [done|exfalso].
  assert (Hp2 : <[k := Idle []]> (procs s) !! k' = Some p') by (by rewrite list_lookup_insert_ne).
  pose proof (countb_lookup (holds (ID e)) _ _ _ Hp2) as Hc.
  rewrite (countb_insert _ _ _ _ _ Hp), Hh, Hh' in Hc. simpl in Hc. lia.
Qed.

Lemma inv_start cap t ps d u :
  shared_inv cap {| tab := t; procs := ps; deliveries := d; undone := u |} ->
  shared_inv cap {| tab := t; procs := ps ++ [Idle []]; deliveries := d; undone := u |}.
Proof.
  intros (Hw & Hh & Hex & Hr & Hu & Ha). split_and!; simpl in *; try done.
  - intros k tried e Hk. apply (Hh k tried). destruct Hk as [Hk|[r Hk]]; [left|right; exists r];
      apply lookup_app_Some in Hk as [Hk|[_ Hk]]; try done;
      apply list_lookup_singleton_Some in Hk as [_ ?]; done.
  - intros i. specialize (Hex i). rewrite countb_app. simpl. lia.
  - intros i. specialize (Hu i). rewrite countb_app. simpl. lia.
  - intros i e He. specialize (Ha i e He). rewrite countb_app. simpl. lia.
Qed.

Lemma inv_insert cap t ps d u e :
  new_row e -> t !! ID e = None -> (ID e ∉ d) ->
  shared_inv cap {| tab := t; procs := ps; deliveries := d; undone := u |} ->
  shared_inv cap {| tab := <[ID e := e]> t; procs := ps; deliveries := d; undone := u |}.
Proof.
  intros [Hp Hr0] Hfresh Hd (Hw & Hh & Hex & Hr & Hu & Ha). split_and!; simpl in *; try done.
  - by apply map_Forall_insert_2.
  - intros k tried e' Hk. destruct (Hh k tried e' Hk) as (He' & ? & ?).
    rewrite lookup_insert_ne by congruence. done.
  - intros i e' [[<- <-]|[_ He']]%lookup_insert_Some; [lia|by apply (Hr i)].
  - intros i e' [[<- <-]|[_ He']]%lookup_insert_Some; [|by apply Ha].
    specialize (Hu (ID e)). rewrite (countb_absent _ _ Hd) in *.
    pose proof (countb_nonneg (is_id (ID e)) u). pose proof (countb_nonneg (published (ID e)) ps).
    unfold processed, is_unprocessed. rewrite Hp, Hr0. simpl. lia.
Qed.

Lemma inv_claim `{RowChoice} cap t ps d u k tried e :
  ps !! k = Some (Idle tried) -> claim cap tried (ps ≫= held) t = Some e ->
  shared_inv cap {| tab := t; procs := ps; deliveries := d; undone := u |} ->
  shared_inv cap {| tab := t; procs := <[k := Holding tried e]> ps; deliveries := d; undone := u |}.
Proof.
  intros Hk Hcl (Hw & Hh & Hex & Hr & Hu & Ha). simpl in *.
  destruct (claim_Some _ _ _ _ _ Hw Hcl) as [He Hc]. apply claimable_spec in Hc as (Hp & Hlt & _ & Hlk).
  assert (Hfree : countb (holds (ID e)) ps = 0).
  { pose proof (countb_nonneg (holds (ID e)) ps). destruct (decide (0 < countb (holds (ID e)) ps)) as [Hpos|]; [|lia].
    by apply holds_locked in Hpos. }
  split_and!; simpl; try done.
  - intros k' tried' e' Hk'. destruct Hk' as [Hk'|[r Hk']];
      apply list_lookup_insert_Some in Hk' as [(-> & ? & _)|[_ Hk']]; simplify_eq; try done;
      apply (Hh k' tried'); eauto.
  - intros i. specialize (Hex i). counts Hk.
    destruct (decide (i = ID e)) as [->|Hne]; [rewrite is_id_refl; simpl; lia|].
    rewrite is_id_ne by done. simpl. lia.
  - intros i. specialize (Hu i). counts Hk. lia.
  - intros i e' He'. specialize (Ha i e' He'). counts Hk. lia.
Qed.

Lemma inv_publish cap t ps d u k tried e r :
  ps !! k = Some (Holding tried e) ->
  shared_inv cap {| tab := t; procs := ps; deliveries := d; undone := u |} ->
  shared_inv cap {| tab := t; procs := <[k := Published tried e r]> ps;
                    deliveries := d ++ [ID e]; undone := u |}.
Proof.
  intros Hk (Hw & Hh & Hex & Hr & Hu & Ha). simpl in *.
  split_and!; simpl; try done.
  - intros k' tried' e' Hk'. destruct Hk' as [Hk'|[r' Hk']];
      apply list_lookup_insert_Some in Hk' as [(-> & ? & _)|[_ Hk']]; simplify_eq;
      eauto.
  - intros i. specialize (Hex i). counts Hk. lia.
  - intros i. specialize (Hu i). counts Hk. lia.
  - intros i e' He'. specialize (Ha i e' He'). counts Hk. lia.
Qed.

(** The end of a transaction, whatever became of the row. *)
Lemma inv_release cap t t' ps d u u' k p tried' e :
  ps !! k = Some p ->
  (exists tried, p = Holding tried e \/ exists r, p = Published tried e r) ->
  (forall i, i <> ID e -> t' !! i = t !! i) ->
  (exists e', t' !! ID e = Some e' /\ ID e' = ID e /\
     0 <= RetryCount e' <= Z.max 0 cap /\
     RetryCount e' + processed e' + countb (is_id (ID e)) u' =
       RetryCount e + processed e + countb (is_id (ID e)) u + b2z (published (ID e) p)) ->
  (forall i, i <> ID e -> countb (is_id i) u' = countb (is_id i) u) ->
  countb (is_id (ID e)) u' <= countb (is_id (ID e)) u + b2z (published (ID e) p) ->
  shared_inv cap {| tab := t; procs := ps; deliveries := d; undone := u |} ->
  shared_inv cap {| tab := t'; procs := <[k := Idle tried']> ps; deliveries := d; undone := u' |}.
Proof.
  intros Hk Hp Ht (e1 & He1 & Hid1 & Hr1 & Hacc) Hune Hule Hinv.
  pose proof Hinv as (Hw & Hh & Hex & Hr & Hu & Ha). simpl in *.
  assert (Hheld : exists tried, ps !! k = Some (Holding tried e) \/ exists r, ps !! k = Some (Published tried e r)).
  { destruct Hp as (tr & [->|[r ->]]); exists tr; eauto. }
  assert (Hhp : holds (ID e) p = true).
  { destruct Hp as (tr & [->|[r ->]]); simpl; apply is_id_refl. }
  assert (Hpne : forall i, i <> ID e -> published i p = false).
  { intros i Hi. destruct Hp as (tr & [->|[r ->]]); simpl; [done|by apply is_id_ne]. }
  split_and!; simpl.
  - intros i e'. destruct (decide (i = ID e)) as [->|Hne]; [by intros; simplify_eq|].
    rewrite Ht by done. apply Hw.
  - intros k' tr' e' Hk'. destruct (decide (k = k')) as [<-|Hne].
    { destruct Hk' as [Hk'|[r Hk']];
        apply list_lookup_insert_Some in Hk' as [(_ & ? & _)|[? _]]; done. }
    rewrite !list_lookup_insert_ne in Hk' by done. destruct (Hh _ _ _ Hk') as (He' & ? & ?).
    destruct Hheld as [tr Hheld]. destruct (decide (ID e' = ID e)) as [Heq|Hine].
    + destruct Hne. by eapply (holder_unique _ _ k tr e k' e' tr' Hinv).
    + by rewrite Ht.
  - intros i. specialize (Hex i). counts Hk. pose proof (b2z_bound (holds i p)). lia.
  - intros i e'. destruct (decide (i = ID e)) as [->|Hne]; [by intros; simplify_eq|].
    rewrite Ht by done. apply Hr.
  - intros i. specialize (Hu i). counts Hk. destruct (decide (i = ID e)) as [->|Hne]; [lia|].
    rewrite Hune, Hpne by done. simpl. lia.
  - intros i e' He'. counts Hk. destruct (decide (i = ID e)) as [->|Hne].
    + simplify_eq. destruct Hheld as [tr Hheld]. destruct (Hh _ _ _ Hheld) as (He & _ & _).
      specialize (Ha _ _ He). lia.
    + rewrite Ht in He' by done. specialize (Ha i e' He'). rewrite Hune, Hpne by done. simpl. lia.
Qed.

Lemma shared_inv_step `{Timestamps, RowChoice} text cap s s' :
  shared_inv cap s -> shared_step text cap s s' -> shared_inv cap s'.
Proof.
  intros Hinv Hs. destruct Hs as [t ps d u|t ps d u e Hn Hf Hd|t ps d u k tried e Hk Hc
    |t ps d u k tried e r Hk|t ps d u k tried e r now Hk|t ps d u k tried e Hk
    |t ps d u k tried e r Hk|t ps d u k tried Hk|t ps d u now olderThan].
  - by apply inv_start.
  - by apply inv_insert.
  - by apply (inv_claim cap t ps d u k tried e).
  - by apply (inv_publish cap t ps d u k tried e r).
  - pose proof Hinv as (Hw & Hh & _ & Hr & _). simpl in *.
    destruct (Hh k tried e) as (He & Hp & Hlt); [eauto|]. pose proof (Hr _ _ He).
    eapply (inv_release cap t _ ps d u u k _ _ e Hk); [eauto| | |done| |exact Hinv].
    + intros i Hi. destruct r; by apply lookup_alter_ne.
    + destruct r; unfold MarkFailed, MarkProcessed; rewrite lookup_alter_eq, He; eexists;
        (split; [done|]); simpl; rewrite is_id_refl; unfold processed, is_unprocessed; simpl;
        rewrite Hp; simpl; repeat split; lia.
    + simpl. rewrite is_id_refl. simpl. lia.
  - pose proof Hinv as (Hw & Hh & _ & Hr & _). simpl in *.
    destruct (Hh k tried e) as (He & Hp & Hlt); [eauto|]. pose proof (Hr _ _ He).
    eapply (inv_release cap t _ ps d u u k _ _ e Hk); [eauto|done| |done|simpl; lia|exact Hinv].
    exists e. simpl. repeat split; try done; lia.
  - pose proof Hinv as (Hw & Hh & _ & Hr & _). simpl in *.
    destruct (Hh k tried e) as (He & Hp & Hlt); [eauto|]. pose proof (Hr _ _ He).
    eapply (inv_release cap t _ ps d u _ k _ _ e Hk); [eauto|done| | | |exact Hinv].
    + exists e. rewrite countb_app. simpl. rewrite is_id_refl. simpl. repeat split; try done; lia.
    + intros i Hi. rewrite countb_app. simpl. rewrite is_id_ne by done. simpl. lia.
    + rewrite countb_app. simpl. rewrite is_id_refl. simpl. lia.
  - destruct Hinv as (Hw & Hh & Hex & Hr & Hu & Ha). simpl in *. split_and!; simpl; try done.
    + intros k' tried' e' Hk'. apply (Hh k' tried'). destruct Hk' as [Hk'|[r Hk']];
        apply list_lookup_insert_Some in Hk' as [(-> & ? & _)|[_ Hk']]; simplify_eq; eauto.
    + intros i. specialize (Hex i). counts Hk. lia.
    + intros i. specialize (Hu i). counts Hk. lia.
    + intros i e He. specialize (Ha i e He). counts Hk. lia.
  - destruct Hinv as (Hw & Hh & Hex & Hr & Hu & Ha). simpl in *.
    assert (Hsub : forall i e, CleanupProcessedEvents now olderThan t !! i = Some e -> t !! i = Some e).
    { intros i e He. by apply map_lookup_filter_Some in He as [He _]. }
    split_and!; simpl; try done.
    + intros i e He. by apply Hw, Hsub.
    + intros k tried e Hk. destruct (Hh k tried e Hk) as (He & Hp & Hlt). split; [|done].
      apply map_lookup_filter_Some. split; [done|]. simpl. by rewrite Hp.
    + intros i e He. by apply (Hr i), Hsub.
    + intros i e He. by apply Ha, Hsub.
Qed.

Lemma shared_reachable_inv `{Timestamps, RowChoice} text cap s :
  shared_reachable text cap s -> shared_inv cap s.
Proof.
  apply reachable_invariant; [|intros ????; by apply shared_inv_step].
  intros ? ->. split_and!; simpl; try done; intros; try lia; naive_solver.
Qed.

Lemma shared_next `{Timestamps, RowChoice} text cap s s' :
  shared_step text cap s s' -> shared_reachable text cap s -> shared_reachable text cap s'.
Proof. intros Hs Hr. by eapply reach_step. Qed.

(** ** Properties *)

(** C4: several processors. Whatever the interleaving of claims, publications,
    commits, crashes, ticks, insertions and clean-ups, no row is held by two
    processors; no row is attempted beyond the cap; a processed row has been
    delivered at least once; and a row whose transactions all committed has been
    delivered exactly once per recorded failure, once for its success, and once
    if a publication is in flight: repeats come only from transactions that
    died between the publication and the commit. *)
Theorem shared_outbox_deliveries `{Timestamps, RowChoice} text cap s :
  shared_reachable text cap s ->
  (forall k k' tried tried' e e',
     (procs s !! k = Some (Holding tried e) \/ exists r, procs s !! k = Some (Published tried e r)) ->
     (procs s !! k' = Some (Holding tried' e') \/ exists r, procs s !! k' = Some (Published tried' e' r)) ->
     ID e = ID e' -> k = k') /\
  forall i e, tab s !! i = Some e ->
    0 <= RetryCount e <= Z.max 0 cap /\
    (ProcessedAt e <> None -> i ∈ deliveries s) /\
    ((i ∉ undone s) ->
       countb (is_id i) (deliveries s) =
         RetryCount e + processed e + countb (published i) (procs s)).
Proof.
  intros Hr. pose proof (shared_reachable_inv text cap s Hr) as Hinv. split.
  { intros k k' tried tried' e e' Hk Hk'. by apply (holder_unique cap s k tried e k' e' tried'). }
  destruct Hinv as (Hw & Hh & Hex & Hrc & Hu & Ha). intros i e He. split; [by apply (Hrc i)|].
  specialize (Ha i e He). pose proof (Hrc i e He). split.
  - intros Hp. destruct (decide (i ∈ deliveries s)) as [|Hn]; [done|exfalso].
    rewrite (countb_absent _ _ Hn) in Ha.
    assert (processed e = 1).
    { unfold processed, is_unprocessed. by rewrite bool_decide_false. }
    pose proof (countb_nonneg (published i) (procs s)). pose proof (countb_nonneg (is_id i) (undone s)). lia.
  - intros Hun. rewrite (countb_absent _ _ Hun) in Ha. lia.
Qed.

(** ** Witness *)

Lemma sample_end_reachable : shared_reachable (fun _ => "") 5 sample_end.
Proof.
  assert (R : shared_reachable (fun _ => "") 5
    {| tab := ∅; procs := []; deliveries := []; undone := [] |}) by by apply reach_init.
  eapply shared_next in R; [|apply ss_start]. eapply shared_next in R; [|apply ss_start].
  eapply shared_next in R; [|apply (ss_insert _ _ _ _ _ _ sample_row); [done|done|set_solver]].
  eapply shared_next in R; [|apply (ss_claim _ _ _ _ _ _ 0 [] sample_row); [done|by vm_compute]].
  eapply shared_next in R; [|apply (ss_publish _ _ _ _ _ _ 0 [] sample_row None); done].
  eapply shared_next in R; [|apply (ss_crash _ _ _ _ _ _ 0 [] sample_row None); done].
  eapply shared_next in R; [|apply (ss_claim _ _ _ _ _ _ 1 [] sample_row); [done|by vm_compute]].
  eapply shared_next in R; [|apply (ss_publish _ _ _ _ _ _ 1 [] sample_row None); done].
  eapply shared_next in R; [|apply (ss_commit _ _ _ _ _ _ 1 [] sample_row None 9); done].
  exact R.
Qed.

Lemma shared_outbox_deliveries_witness : 7 ∈ deliveries sample_end.
Proof.
  refine (proj1 (proj2 (proj2 (shared_outbox_deliveries (fun _ => "") 5 sample_end _) 7
    (set_processed 9 sample_row) _)) _); [apply sample_end_reachable|reflexivity|discriminate].
Defined.
