(* ===== verification/OutboxDrain.v ===== *)
(** * The outbox drains (src/outbox/processor.go)

    How many ticks a processor needs until nothing is left to publish: a bound from the
    attempts that the rows have left, whatever the publisher answers. Ticks that fail, or
    that find rows locked by others, do not count towards the bound and do no harm. *)

From S2P Require Import Prelude Timestamps Outbox.

(** ** What is left to do *)

(** The attempts a row has left, and those that all rows have left together. *)
Definition attempts_left (cap : Z) (e : Event) : Z :=
  if is_unprocessed e then Z.max 0 (cap - RetryCount e) else 0.

Definition left_at (cap : Z) (t : table) (i : Z) : Z :=
  match t !! i with Some e => attempts_left cap e | None => 0 end.

Definition total (l : list Z) : Z := foldr Z.add 0 l.

Definition backlog (cap : Z) (t : table) : Z := total (left_at cap t <$> elements (dom t)).

(** A tick with nothing in its way: no row locked by others, no failing transaction. *)
Definition undisturbed (tick : list Z * list fault) : bool :=
  bool_decide (fst tick = []) &&
  forallb (fun f => match f with NoFault => true | _ => false end) (snd tick).

Definition ticked (tick : list Z * list fault) : run_case := Ticked (fst tick) (snd tick).

(** [n] undisturbed ticks are enough: [a] that take a whole batch and [m] that take
    whatever is claimable. *)
Definition enough (cap batch n : Z) (t : table) : Prop :=
  exists a m, 0 <= a /\ 0 <= m /\ a + m <= n /\ backlog cap t <= a * batch /\
    forall i, left_at cap t i <= m.

(** The row [i] is [e], or [e] published. *)
Definition kept_or_published `{Timestamps} (e : Event) (i : Z) (t : table) : Prop :=
  t !! i = Some e \/ exists now, t !! i = Some (set_processed now e).

(** An example: the publisher refuses the older of two rows every time, and a batch is
    one row; every other tick finds a row locked. *)
Definition picky_publisher : Publisher (list Z) := {|
  Publish _ _ w := (w, None);
  PublishWithHeaders := Some (fun _ _ (headers : gmap string string) w =>
    let id := text_id (default "" (headers !! "Nats-Msg-Id")) in
    (w ++ [id], if bool_decide (id = 8) then Some (ErrExt 1) else None))
|}.

Definition picky_processor : Processor (list Z) :=
  NewProcessor picky_publisher {| Interval := Second; BatchSize := 1; MaxRetries := 3 |}.

Definition sample_ticks : list (list Z * list fault) :=
  concat (replicate 9 [([7], []); ([], [])]).

#[export] Program Instance picky_deliveries :
  Deliveries (processEvent id_text picky_processor) := {| delivered w := w |}.
Next Obligation.
  intros e w. unfold processEvent. simpl. rewrite lookup_singleton_eq. simpl.
  by rewrite text_id_text.
Qed.

(** ** Sums *)

Lemma total_cons {A} (f : A -> Z) x l : total (f <$> x :: l) = f x + total (f <$> l).
Proof. done. Qed.

Lemma total_of_nonneg {A} (f : A -> Z) l : (forall x, 0 <= f x) -> 0 <= total (f <$> l).
Proof. intros Hf. induction l as [|x l IH]; [done|]. rewrite total_cons. specialize (Hf x). lia. Qed.

Lemma total_member {A} (f : A -> Z) l x : (forall x, 0 <= f x) -> x ∈ l -> f x <= total (f <$> l).
Proof.
  intros Hf. induction 1 as [x l|x y l _ IH]; rewrite total_cons.
  - pose proof (total_of_nonneg f l Hf). lia.
  - specialize (Hf y). lia.
Qed.

(** A sum goes down by one for each element whose summand does. *)
Lemma total_decreases {A} (f g : A -> Z) (p : A -> bool) l :
  (forall i, g i <= f i - b2z (p i)) -> total (g <$> l) <= total (f <$> l) - countb p l.
Proof. intros Hf. induction l as [|i l IH]; [done|]. rewrite !total_cons. cbn [countb]. specialize (Hf i). lia. Qed.

Lemma countb_filter {A} (P : A -> Prop) `{!forall x, Decision (P x)} l :
  countb (fun x => bool_decide (P x)) l = Z.of_nat (length (filter P l)).
Proof.
  induction l as [|x l IH]; [done|]. cbn [countb]. rewrite IH, filter_cons.
  case_decide; case_bool_decide; simpl; tauto || lia.
Qed.

Lemma countb_members (tried l : list Z) :
  NoDup tried -> tried ⊆ l -> Z.of_nat (length tried) <= countb (fun i => bool_decide (i ∈ tried)) l.
Proof.
  intros Hnd Hsub. rewrite countb_filter. apply inj_le, submseteq_length, NoDup_submseteq; [done|].
  intros i Hi. apply list_elem_of_filter. auto.
Qed.

(** ** One tick *)

Lemma attempts_left_nonneg cap e : 0 <= attempts_left cap e.
Proof. unfold attempts_left. destruct (is_unprocessed e); lia. Qed.

Lemma left_at_nonneg cap t i : 0 <= left_at cap t i.
Proof. unfold left_at. destruct (t !! i); [apply attempts_left_nonneg|done]. Qed.

Lemma attempts_left_done cap e :
  attempts_left cap e <= 0 <-> ProcessedAt e <> None \/ cap <= RetryCount e.
Proof.
  unfold attempts_left, is_unprocessed. case_bool_decide as Hp; [|split; [by left|lia]].
  split; [right; lia|]. intros [|]; [done|lia].
Qed.

Lemma enough_0 cap batch t : enough cap batch 0 t <-> forall i, left_at cap t i <= 0.
Proof.
  split.
  - intros (a & m & ? & ? & ? & _ & Hm) i. specialize (Hm i). lia.
  - intros Hq. exists 0, 0. repeat split; try lia; [|done].
    unfold backlog. induction (elements (dom t)) as [|i l IH]; [done|]. rewrite total_cons. specialize (Hq i). lia.
Qed.

Lemma enough_mono cap batch n n' t : n <= n' -> enough cap batch n t -> enough cap batch n' t.
Proof. intros ? (a & m & ? & ? & ? & ? & ?). exists a, m. repeat split; auto; lia. Qed.

(** No full batch left to take, or no attempt: nothing is left. *)
Lemma enough_backlog cap batch t : backlog cap t <= 0 -> enough cap batch 0 t.
Proof.
  intros Hb. apply enough_0. intros i. destruct (t !! i) as [e|] eqn:He; [|by unfold left_at; rewrite He].
  etransitivity; [apply (total_member (left_at cap t) (elements (dom t)) i (left_at_nonneg cap t))|exact Hb].
  apply elem_of_elements, elem_of_dom. by exists e.
Qed.

Section Tick.
Context {W : Type} `{Timestamps, RowChoice} (clock : W -> Z) (text : error -> string).
Context (publish : Event -> W -> W * option error) `{!Deliveries publish} (cap : Z).

Lemma attempted_left e e' :
  attempted clock text publish e e' -> ProcessedAt e = None -> RetryCount e < cap ->
  attempts_left cap e' <= attempts_left cap e - 1.
Proof.
  intros [w Ha] Hp Hr. destruct (publish e w) as [w' [err|]]; subst e';
    unfold attempts_left, is_unprocessed; simpl; rewrite Hp; simpl; lia.
Qed.

Lemma attempted_published e e' :
  attempted clock text publish e e' -> (forall w, snd (publish e w) = None) ->
  exists now, e' = set_processed now e.
Proof.
  intros [w Ha] Hok. specialize (Hok w). destruct (publish e w) as [w' r]. simpl in Hok. subst. eauto.
Qed.

(** What a tick leaves of every row's attempts. *)
Lemma tick_left locked n faults t w t' w' tried :
  table_wf t -> batch_loop clock text publish cap locked n [] faults (t, w) = ((t', w'), tried) ->
  table_wf t' /\ dom t' = dom t /\ NoDup tried /\ tried ⊆ elements (dom t) /\ (length tried <= n)%nat /\
  (forall i, left_at cap t' i <= left_at cap t i - b2z (bool_decide (i ∈ tried))) /\
  (undisturbed (locked, faults) = true -> (length tried < n)%nat ->
     forall i, 0 < left_at cap t' i -> i ∈ tried) /\
  (forall i e, (forall w, snd (publish e w) = None) -> kept_or_published e i t -> kept_or_published e i t').
Proof using All.
  intros Hw Hb. pose proof (batch_loop_effect clock text publish cap locked n [] faults t w Hw) as E.
  rewrite Hb in E. destruct E as (new & lost & -> & E & Hf). simpl in *.
  pose proof (eff_wf _ _ _ _ _ _ _ _ _ _ _ _ _ E) as Hw'.
  pose proof (eff_length _ _ _ _ _ _ _ _ _ _ _ _ _ E) as [Hlen _].
  assert (Hnew : forall i, i ∈ new -> exists e e', t !! i = Some e /\ t' !! i = Some e' /\
    ProcessedAt e = None /\ RetryCount e < cap /\ attempted clock text publish e e').
  { intros i Hi. destruct (eff_claimable _ _ _ _ _ _ _ _ _ _ _ _ _ E i) as (e & He & Hc); [set_solver|].
    destruct (eff_new _ _ _ _ _ _ _ _ _ _ _ _ _ E i e Hi He) as (e' & ? & ?).
    apply claimable_spec in Hc as (? & ? & _). eauto 10. }
  pose proof (eff_rest _ _ _ _ _ _ _ _ _ _ _ _ _ E) as Hrest. split_and!; try done.
  - apply set_eq. intros i. rewrite !elem_of_dom. destruct (decide (i ∈ new)) as [Hi|Hi].
    + destruct (Hnew i Hi) as (e & e' & -> & -> & _). split; eauto.
    + by rewrite Hrest.
  - pose proof (eff_nodup _ _ _ _ _ _ _ _ _ _ _ _ _ E) as Hnd. by apply NoDup_app in Hnd as (? & _).
  - intros i Hi. apply elem_of_elements, elem_of_dom. destruct (Hnew i Hi) as (e & _ & -> & _). eauto.
  - lia.
  - intros i. unfold left_at. case_bool_decide as Hi; simpl; [|rewrite Hrest by done; lia].
    destruct (Hnew i Hi) as (e & e' & -> & -> & ? & ? & Ha). by apply attempted_left.
  - intros [Hlk%bool_decide_eq_true Hfs]%andb_true_iff Hl i Hi. simpl in Hlk. subst locked.
    destruct (Hf (forallb_NoFault _ Hfs)) as [_ Hc]. unfold left_at in Hi.
    destruct (t' !! i) as [e|] eqn:He; [|lia]. destruct (decide (i ∈ new)) as [|Hn]; [done|exfalso].
    pose proof (Hw' _ _ He) as Hid. simpl in Hid. subst i.
    pose proof (claim_None cap new [] t' e Hw' (Hc Hl) He) as Hno.
    assert (claimable cap new [] e = true) as Hyes; [|congruence].
    assert (Hnd : ~ (ProcessedAt e <> None \/ cap <= RetryCount e)) 
      by (intros Hx; apply attempts_left_done in Hx; lia).
    apply claimable_spec. repeat split; [|lia|done|set_solver].
    destruct (ProcessedAt e); [|done]. destruct Hnd. by left.
  - intros i e Hok Hk. unfold kept_or_published in *. destruct (decide (i ∈ new)) as [Hi|Hi].
    2: { by rewrite (Hrest i Hi). }
    destruct (Hnew i Hi) as (e0 & e' & He & He' & Hp & _ & Ha). destruct Hk as [Hk|[now Hk]]; simplify_eq.
    right. destruct (attempted_published _ _ Ha Hok) as [now ->]. eauto.
Qed.
End Tick.

(** ** Runs *)

Section Run.
Context {W : Type} `{Timestamps, RowChoice} (clock : W -> Z) (text : error -> string)
  (uuid_text : Z -> string) (p : Processor W) `{!Deliveries (processEvent uuid_text p)}.
Hypothesis batch_positive : 0 < batchSize p.

Definition tick (locked : list Z) (faults : list fault) (s : table * W) : table * W :=
  fst (processBatch clock text uuid_text p locked faults s).

(** What every tick does, and what an undisturbed one does besides. *)
Lemma tick_progress locked faults n s :
  table_wf (fst s) -> 0 <= n -> enough (maxRetries p) (batchSize p) n (fst s) ->
  table_wf (fst (tick locked faults s)) /\
  enough (maxRetries p) (batchSize p) (Z.max 0 (n - b2z (undisturbed (locked, faults))))
    (fst (tick locked faults s)) /\
  (forall i e, (forall w, snd (processEvent uuid_text p e w) = None) ->
     kept_or_published e i (fst s) -> kept_or_published e i (fst (tick locked faults s))).
Proof using All.
  destruct s as [t w]. intros Hw Hn (a & m & Ha & Hm & Hsum & Hback & Hleft). unfold tick, processBatch.
  destruct (batch_loop _ _ _ _ _ _ _ _ _) as [[t' w'] tried] eqn:Hb.
  destruct (tick_left clock text _ (maxRetries p) locked _ faults t w t' w' tried Hw Hb)
    as (Hw' & Hdom & Hnd & Hsub & Hlen & Hdec & Hfree & Hkept). simpl in *.
  split; [done|]. split; [|exact Hkept].
  assert (Hb' : backlog (maxRetries p) t' <= backlog (maxRetries p) t - Z.of_nat (length tried)).
  { unfold backlog. rewrite Hdom. pose proof (countb_members tried _ Hnd Hsub).
    pose proof (total_decreases _ _ _ (elements (dom t)) Hdec). lia. }
  assert (Hl' : forall i, left_at (maxRetries p) t' i <= m).
  { intros i. specialize (Hdec i). specialize (Hleft i). pose proof (b2z_bound (bool_decide (i ∈ tried))). lia. }
  destruct (undisturbed (locked, faults)); simpl.
  2: { exists a, m. split_and!; try done; lia. }
  destruct (decide (length tried < Z.to_nat (batchSize p))%nat) as [Hshort|Hfull].
  - destruct (decide (m = 0)) as [->|]; [apply (enough_mono _ _ 0); [lia|by apply enough_0]|].
    exists a, (m - 1). split_and!; try done; try lia.
    intros i. specialize (Hdec i). specialize (Hleft i).
    destruct (decide (0 < left_at (maxRetries p) t' i)) as [Hpos|]; [|lia].
    rewrite bool_decide_true in Hdec by auto. simpl in Hdec. lia.
  - destruct (decide (a = 0)) as [->|]; [apply (enough_mono _ _ 0); [lia|apply enough_backlog; lia]|].
    exists (a - 1), m. split_and!; try done; lia.
Qed.

Lemma ticks_progress ticks n s :
  table_wf (fst s) -> 0 <= n -> enough (maxRetries p) (batchSize p) n (fst s) ->
  let s' := run_loop tick (ticked <$> ticks) s in
  table_wf (fst s') /\
  enough (maxRetries p) (batchSize p) (Z.max 0 (n - countb undisturbed ticks)) (fst s') /\
  (forall i e, (forall w, snd (processEvent uuid_text p e w) = None) ->
     kept_or_published e i (fst s) -> kept_or_published e i (fst s')).
Proof using All.
  revert n s. induction ticks as [|[locked faults] ticks IH]; intros n s Hw Hn He; simpl.
  { split_and!; [done| |done]. by replace (Z.max 0 (n - 0)) with n by lia. }
  destruct (tick_progress locked faults n s Hw Hn He) as (Hw' & He' & Hk).
  destruct (IH _ _ Hw' (Z.le_max_l _ _) He') as (Hw'' & He'' & Hk').
  split_and!; [done| |auto]. eapply enough_mono; [|exact He''].
  pose proof (b2z_bound (undisturbed (locked, faults))). pose proof (countb_nonneg undisturbed ticks). lia.
Qed.
End Run.

(** ** Property *)

(** C7: the outbox drains. Let the rows have at most [m] attempts left each, and at most
    [a] full batches of attempts together. If [a + m] ticks, the batch at the start among
    them, meet no locked row and no failing transaction, then in the end every
    row has been published or has used up its attempts, whatever the publisher answered and
    whatever happened in the other ticks; and a row with attempts left whose publications
    succeed ends published and without a failure, however often the other rows fail. *)
Theorem outbox_drains {W} `{Timestamps, RowChoice} (clock : W -> Z) text uuid_text (p : Processor W)
    `{!Deliveries (processEvent uuid_text p)} first ticks a m t w :
  table_wf t -> 0 < batchSize p -> 0 <= a -> 0 <= m ->
  (forall i e, t !! i = Some e -> attempts_left (maxRetries p) e <= m) ->
  backlog (maxRetries p) t <= a * batchSize p ->
  a + m <= countb undisturbed (first :: ticks) ->
  let t' := fst (run clock text uuid_text p first (ticked <$> ticks) (t, w)) in
  (forall i e, t' !! i = Some e -> ProcessedAt e <> None \/ maxRetries p <= RetryCount e) /\
  (forall i e, t !! i = Some e -> RetryCount e < maxRetries p ->
     (forall w, snd (processEvent uuid_text p e w) = None) ->
     exists e', t' !! i = Some e' /\ ProcessedAt e' <> None /\
       RetryCount e' = RetryCount e /\ LastError e' = LastError e).
Proof.
  intros Hw Hb Ha Hm Hleft Hback Hn. unfold run.
  destruct (ticks_progress clock text uuid_text p Hb (first :: ticks) (a + m) (t, w) Hw ltac:(lia))
    as (Hw' & He & Hk).
  { exists a, m. split_and!; try done. intros i. unfold left_at. simpl.
    destruct (t !! i) eqn:Hi; [by eapply Hleft|done]. }
  replace (Z.max 0 _) with 0 in He by lia.
  rewrite enough_0 in He. cbn [fmap list_fmap ticked run_loop fst snd] in *.
  change (fun locked faults s => fst (processBatch clock text uuid_text p locked faults s))
    with (tick clock text uuid_text p).
  set (t' := fst (run_loop _ _ _)) in *.
  assert (Hend : forall i e, t' !! i = Some e -> ProcessedAt e <> None \/ maxRetries p <= RetryCount e).
  { intros i e Hi. apply attempts_left_done. specialize (He i). unfold left_at in He. by rewrite Hi in He. }
  split; [exact Hend|]. intros i e Hi Hr Hok.
  destruct (Hk i e Hok ltac:(by left)) as [Hi'|[now Hi']].
  - exists e. destruct (Hend i e Hi') as [|]; [done|lia].
  - eexists. split; [exact Hi'|]. done.
Qed.

(** ** Witness *)

(** The batch at the start fails to select; nine of the ticks after it are undisturbed. *)
Definition failed_start : list Z * list fault := ([], [SelectFails (ErrExt 1)]).

Lemma outbox_drains_witness :
  exists e, fst (run (fun w : list Z => 0) (fun _ => "") id_text picky_processor failed_start
    (ticked <$> sample_ticks) (sample_table, [])) !! 7 = Some e /\ ProcessedAt e <> None.
Proof.
  destruct (outbox_drains (fun w : list Z => 0) (fun _ => "") id_text picky_processor failed_start sample_ticks 6 3
    sample_table [] sample_wf) as [_ H]; [done..| | | |].
  - intros i e He. unfold sample_table in He.
    apply lookup_insert_Some in He as [[_ <-]|[_ He]]; [done|].
    apply lookup_singleton_Some in He as [_ <-]. done.
  - done.
  - done.
  - destruct (H 7 (sample_event 7)) as (e & He & Hp & _); [done|done| |exists e; split; [exact He|exact Hp]].
    intros w. reflexivity.
Defined.
