(* ===== verification/ProcessorLife.v ===== *)
(** * The life of an outbox processor (src/outbox/processor.go: Start, Stop, run, ProcessNow)

    The goroutines that [Start] leaves running and the channel that [Stop] closes, as
    labelled steps: which case of the [select] is taken when several are ready is the
    scheduler's choice. What a batch does is [Outbox.processBatch]; here it begins and
    ends. *)

From S2P Require Import Prelude.
From S2P Require Outbox.

(** ** State *)

(** Where a goroutine of [run] is: not yet scheduled, in [processBatch], at the
    [select], or over. *)
Inductive place := Spawned | InBatch | AtSelect | Returned.

#[export] Instance place_eq_dec : EqDecision place.
Proof. solve_decision. Defined.

(** [pending]: the ticker's channel has room for one tick. *)
Record goroutine := { at_ : place; pending : bool; ctx : nat }.

(** [cancelled] are the contexts that are over, [panics] the calls of [Stop] that
    panicked, [now_batches] the batches of [ProcessNow]. *)
Record processor := {
  done_closed : bool;
  cancelled : list nat;
  goroutines : list goroutine;
  stop_panics : Z;
  now_batches : Z
}.

Definition fresh_processor : processor :=
  {| done_closed := false; cancelled := []; goroutines := []; stop_panics := 0; now_batches := 0 |}.

(** What happens: calls from outside, and steps of the goroutine of that number. *)
Inductive label :=
| LStart (ctx : nat)
| LStop
| LCancel (ctx : nat)
| LProcessNow
| LTick (i : nat)        (* the ticker fires *)
| LBegin (i : nat)       (* [run] starts with a batch *)
| LEnd (i : nat)         (* [processBatch] returns *)
| LTickCase (i : nat)    (* [case <-ticker.C], and the batch begins *)
| LCtxCase (i : nat)     (* [case <-ctx.Done()] *)
| LDoneCase (i : nat).   (* [case <-p.done] *)

#[export] Instance label_eq_dec : EqDecision label.
Proof. solve_decision. Defined.

(** ** Operations *)

Definition with_goroutines (gs : list goroutine) (p : processor) : processor :=
  {| done_closed := done_closed p; cancelled := cancelled p; goroutines := gs;
     stop_panics := stop_panics p; now_batches := now_batches p |}.

Definition Start (ctx : nat) (p : processor) : processor :=
  with_goroutines (goroutines p ++ [{| at_ := Spawned; pending := false; ctx := ctx |}]) p.

(** [close(p.done)]: closing a closed channel panics. *)
Definition Stop (p : processor) : processor :=
  if done_closed p
  then {| done_closed := true; cancelled := cancelled p; goroutines := goroutines p;
          stop_panics := stop_panics p + 1; now_batches := now_batches p |}
  else {| done_closed := true; cancelled := cancelled p; goroutines := goroutines p;
          stop_panics := stop_panics p; now_batches := now_batches p |}.

Definition ProcessNow (p : processor) : processor :=
  {| done_closed := done_closed p; cancelled := cancelled p; goroutines := goroutines p;
     stop_panics := stop_panics p; now_batches := now_batches p + 1 |}.

Definition cancel (c : nat) (p : processor) : processor :=
  {| done_closed := done_closed p; cancelled := c :: cancelled p; goroutines := goroutines p;
     stop_panics := stop_panics p; now_batches := now_batches p |}.

Definition move (g : goroutine) (a : place) (tick : bool) : goroutine :=
  {| at_ := a; pending := tick; ctx := ctx g |}.

(** The step of a goroutine that a label names, if it can take it. The ticker lives
    from the start of [run] to its return, and drops a tick that finds another. *)
Definition goroutine_step (l : label) (p : processor) (g : goroutine) : option goroutine :=
  match l, at_ g with
  | LTick _, (InBatch | AtSelect) => Some (move g (at_ g) true)
  | LBegin _, Spawned => Some (move g InBatch (pending g))
  | LEnd _, InBatch => Some (move g AtSelect (pending g))
  | LTickCase _, AtSelect => if pending g then Some (move g InBatch false) else None
  | LCtxCase _, AtSelect => if bool_decide (ctx g ∈ cancelled p) then Some (move g Returned (pending g)) else None
  | LDoneCase _, AtSelect => if done_closed p then Some (move g Returned (pending g)) else None
  | _, _ => None
  end.

Definition label_of (l : label) : option nat :=
  match l with
  | LTick i | LBegin i | LEnd i | LTickCase i | LCtxCase i | LDoneCase i => Some i
  | LStart _ | LStop | LCancel _ | LProcessNow => None
  end.

Definition step (l : label) (p : processor) : option processor :=
  match label_of l with
  | Some i =>
      g ← goroutines p !! i;
      g' ← goroutine_step l p g;
      Some (with_goroutines (<[i := g']> (goroutines p)) p)
  | None =>
      Some (match l with
            | LStart c => Start c p
            | LStop => Stop p
            | LCancel c => cancel c p
            | _ => ProcessNow p
            end)
  end.

Fixpoint steps (ls : list label) (p : processor) : option processor :=
  match ls with
  | [] => Some p
  | l :: ls => p ← step l p; steps ls p
  end.

(** ** What is counted *)

(** Batches that goroutine [i] begins, its ticks, and its own steps. *)
Definition begins (i : nat) (l : label) : bool := bool_decide (l = LBegin i) || bool_decide (l = LTickCase i).
Definition ticks (i : nat) (l : label) : bool := bool_decide (l = LTick i).
Definition own (i : nat) (l : label) : bool := bool_decide (label_of l = Some i) && negb (ticks i l).

(** Steps that are left to a goroutine after the channel is closed, without new ticks. *)
Definition rank (g : goroutine) : Z :=
  match at_ g with
  | Spawned => 3 + 2 * b2z (pending g)
  | InBatch => 2 + 2 * b2z (pending g)
  | AtSelect => 1 + 2 * b2z (pending g)
  | Returned => 0
  end.

(** The cases of the [select] that goroutine [i] took, as [Outbox.run] has them. *)
Inductive case := CTick | CCtx | CDone.

Definition case_of (i : nat) (l : label) : option case :=
  if bool_decide (l = LTickCase i) then Some CTick
  else if bool_decide (l = LCtxCase i) then Some CCtx
  else if bool_decide (l = LDoneCase i) then Some CDone else None.

Definition cases_of (i : nat) (ls : list label) : list case := omap (case_of i) ls.

(** [n] rounds in which the tick is taken although the channel is closed. *)
Fixpoint tick_rounds (i n : nat) : list label :=
  match n with O => [] | S n => LTick i :: LTickCase i :: LEnd i :: tick_rounds i n end.

(** ** Lemmas *)

Lemma steps_app ls ls' p : steps (ls ++ ls') p = (steps ls p ≫= steps ls').
Proof. revert p. induction ls as [|l ls IH]; intros p; [done|]. simpl. destruct (step l p); [apply IH|done]. Qed.

Lemma step_closed l p p' : step l p = Some p' -> done_closed p = true -> done_closed p' = true.
Proof.
  unfold step. intros Hs Hc. destruct (label_of l) as [i|].
  - destruct (goroutines p !! i) as [g|]; [|done]. simpl in Hs. destruct (goroutine_step l p g); [|done].
    simpl in Hs. by simplify_eq.
  - injection Hs as <-. destruct l; try done. cbn. unfold Stop. by rewrite Hc.
Qed.

(** Another label leaves a goroutine where it is. *)
Lemma step_other l p p' i g :
  step l p = Some p' -> goroutines p !! i = Some g -> label_of l <> Some i -> goroutines p' !! i = Some g.
Proof.
  unfold step. intros Hs Hg Hl. destruct (label_of l) as [j|].
  - destruct (goroutines p !! j) as [h|]; [|done]. simpl in Hs. destruct (goroutine_step l p h); [|done].
    simpl in Hs. simplify_eq. simpl. rewrite list_lookup_insert_ne; [done|congruence].
  - injection Hs as <-. destruct l; try done; cbn; [by apply lookup_app_l_Some|]. unfold Stop. by destruct (done_closed p).
Qed.

Lemma step_own l p p' i g :
  step l p = Some p' -> goroutines p !! i = Some g -> label_of l = Some i ->
  exists g', goroutine_step l p g = Some g' /\ goroutines p' !! i = Some g'.
Proof.
  unfold step. intros Hs Hg Hl. rewrite Hl, Hg in Hs. simpl in Hs. destruct (goroutine_step l p g) as [g'|]; [|done].
  simpl in Hs. simplify_eq. exists g'. split; [done|]. simpl. apply list_lookup_insert_eq. by eapply lookup_lt_Some.
Qed.

Lemma step_eval l p i g g' :
  label_of l = Some i -> goroutines p !! i = Some g -> goroutine_step l p g = Some g' ->
  step l p = Some (with_goroutines (<[i := g']> (goroutines p)) p).
Proof. intros Hl Hg Hs. unfold step. rewrite Hl, Hg. cbn. by rewrite Hs. Qed.

(** A goroutine keeps its number. *)
Lemma step_keeps l p p' i g :
  step l p = Some p' -> goroutines p !! i = Some g -> exists g', goroutines p' !! i = Some g'.
Proof.
  intros Hs Hg. destruct (decide (label_of l = Some i)) as [Hl|Hl]; [|eauto using step_other].
  destruct (step_own l p p' i g Hs Hg Hl) as (g' & _ & ?). by exists g'.
Qed.

Ltac place_cases := repeat (case_match; try done); simplify_eq/=.

Lemma goroutine_step_rank l p g g' i :
  goroutine_step l p g = Some g' -> label_of l = Some i ->
  rank g' + b2z (own i l) <= rank g + 2 * b2z (ticks i l).
Proof.
  unfold own, ticks, rank. destruct g as [a t c]. intros Hs Hl. rewrite (bool_decide_true (label_of l = Some i)) by done.
  destruct l; simpl in Hl; simplify_eq; destruct a; cbn in Hs; try done; place_cases;
    repeat case_bool_decide; simplify_eq; try (is_var t; destruct t); cbn; lia.
Qed.

Lemma rank_nonneg g : 0 <= rank g.
Proof. unfold rank. destruct g as [[] []]; cbn; lia. Qed.

Lemma rank_zero g : rank g <= 0 -> at_ g = Returned.
Proof. unfold rank. destruct g as [[] []]; cbn; try done; lia. Qed.

Lemma other_counts i l : label_of l <> Some i -> own i l = false /\ ticks i l = false /\ begins i l = false /\ case_of i l = None.
Proof.
  intros Hl. unfold own, ticks, begins, case_of. rewrite (bool_decide_false (label_of l = Some i)) by done.
  split; [done|]. repeat split; repeat rewrite bool_decide_false; try done; intros ->; by apply Hl.
Qed.

(** Steps of one goroutine are paid by its rank and its ticks. *)
Lemma steps_rank ls p p' i g :
  steps ls p = Some p' -> goroutines p !! i = Some g ->
  exists g', goroutines p' !! i = Some g' /\ countb (own i) ls + rank g' <= rank g + 2 * countb (ticks i) ls.
Proof.
  revert p g. induction ls as [|l ls IH]; intros p g Hs Hg; cbn [steps countb] in *.
  { simplify_eq. exists g. split; [done|lia]. }
  destruct (step l p) as [p1|] eqn:Hl; [|done]. simpl in Hs.
  destruct (decide (label_of l = Some i)) as [Hi|Hi].
  - destruct (step_own l p p1 i g Hl Hg Hi) as (g1 & Hg1 & Hp1). destruct (IH p1 g1 Hs Hp1) as (g' & Hg' & Hle).
    exists g'. split; [done|]. pose proof (goroutine_step_rank l p g g1 i Hg1 Hi). lia.
  - destruct (IH p1 g Hs) as (g' & Hg' & Hle); [by eapply step_other|]. exists g'. split; [done|].
    destruct (other_counts i l Hi) as (-> & -> & _). cbn. lia.
Qed.

(** A goroutine that has returned does nothing any more. *)
Lemma returned_stays ls p p' i g :
  steps ls p = Some p' -> goroutines p !! i = Some g -> at_ g = Returned ->
  goroutines p' !! i = Some g /\ countb (begins i) ls = 0.
Proof.
  revert p. induction ls as [|l ls IH]; intros p Hs Hg Ha; cbn [steps countb] in *; [by simplify_eq|].
  destruct (step l p) as [p1|] eqn:Hl; [|done]. simpl in Hs.
  destruct (decide (label_of l = Some i)) as [Hi|Hi].
  - destruct (step_own l p p1 i g Hl Hg Hi) as (g1 & Hg1 & _). unfold goroutine_step in Hg1. rewrite Ha in Hg1. by destruct l.
  - destruct (IH p1 Hs) as [Hg' Hb]; [by eapply step_other|done|]. destruct (other_counts i l Hi) as (_ & _ & -> & _).
    split; [done|]. cbn. lia.
Qed.

(** Once the channel is closed a goroutine that is not over can go on. *)
Lemma closed_goes_on p i g :
  done_closed p = true -> goroutines p !! i = Some g -> at_ g <> Returned ->
  exists l p', own i l = true /\ step l p = Some p'.
Proof.
  intros Hc Hg Ha.
  assert (exists l g', label_of l = Some i /\ l <> LTick i /\ goroutine_step l p g = Some g') as (l & g' & Hl & Hn & Hs).
  { unfold goroutine_step. destruct (at_ g) eqn:E; [exists (LBegin i)|exists (LEnd i)|exists (LDoneCase i)|done];
      eexists; (split; [done|split; [done|rewrite ?Hc; reflexivity]]). }
  exists l. unfold step, own, ticks. rewrite Hl, Hg. cbn. rewrite Hs, !bool_decide_true by done.
  rewrite bool_decide_false by done. eexists. split; [done|reflexivity].
Qed.

Lemma tick_rounds_step i n p g :
  goroutines p !! i = Some g -> at_ g = AtSelect ->
  exists p', steps (tick_rounds i n) p = Some p' /\ countb (begins i) (tick_rounds i n) = Z.of_nat n.
Proof.
  revert p g. induction n as [|n IH]; intros p g Hg Ha; [by exists p|]. cbn [tick_rounds].
  set (q := with_goroutines (<[i := move g AtSelect false]> (goroutines p)) p).
  assert (steps [LTick i; LTickCase i; LEnd i] p = Some q) as Hq.
  { assert (i < length (goroutines p))%nat as Hlt by (by eapply lookup_lt_Some).
    cbn [steps]. rewrite (step_eval (LTick i) p i g (move g AtSelect true)) by (try done; cbn; by rewrite Ha).
    cbn [mbind option_bind].
    rewrite (step_eval (LTickCase i) _ i (move g AtSelect true) (move g InBatch false)); [|done| |done];
      [|by apply list_lookup_insert_eq].
    cbn [mbind option_bind].
    rewrite (step_eval (LEnd i) _ i (move g InBatch false) (move g AtSelect false)); [|done| |done].
    - cbn. unfold q, with_goroutines. cbn. by rewrite !list_insert_insert_eq.
    - cbn. rewrite list_insert_insert_eq. by apply list_lookup_insert_eq. }
  destruct (IH q (move g AtSelect false)) as (p' & Hp' & Hc).
  { unfold q. cbn. apply list_lookup_insert_eq. by eapply lookup_lt_Some. }
  { done. }
  exists p'. change (LTick i :: LTickCase i :: LEnd i :: tick_rounds i n) with ([LTick i; LTickCase i; LEnd i] ++ tick_rounds i n).
  rewrite steps_app, Hq. split; [exact Hp'|]. rewrite countb_app, Hc. unfold begins.
  cbn [countb]. rewrite !(bool_decide_true (LTickCase i = LTickCase i)) by done.
  repeat rewrite bool_decide_false by done. cbn. lia.
Qed.

(** What a goroutine has done so far: the cases it took and the batches it began. *)
Definition so_far (g : option goroutine) (cs : list case) (n : Z) : Prop :=
  match at_ <$> g with
  | None | Some Spawned => cs = [] /\ n = 0
  | Some (InBatch | AtSelect) => exists k, cs = replicate k CTick /\ n = Z.of_nat (S k)
  | Some Returned => exists k c, cs = replicate k CTick ++ [c] /\ c <> CTick /\ n = Z.of_nat (S k)
  end.

Lemma so_far_step l p g g' i cs n :
  goroutine_step l p g = Some g' -> label_of l = Some i -> so_far (Some g) cs n ->
  so_far (Some g') (cs ++ option_list (case_of i l)) (n + b2z (begins i l)).
Proof.
  intros Hs Hl Hf. unfold so_far, case_of, begins in *. cbn in Hf |- *.
  destruct l; simpl in Hl; simplify_eq; destruct g as [[] t c]; cbn in Hs, Hf; try done; place_cases;
    repeat case_bool_decide; simplify_eq; cbn; rewrite ?app_nil_r, ?Z.add_0_r; try done.
  - destruct Hf as [-> ->]. by exists 0%nat.
  - destruct Hf as (k & -> & ->). exists (S k). rewrite replicate_S_end. split; [done|lia].
  - destruct Hf as (k & -> & ->). by exists k, CCtx.
  - destruct Hf as (k & -> & ->). by exists k, CDone.
Qed.

Lemma run_so_far ls p i :
  steps ls fresh_processor = Some p -> so_far (goroutines p !! i) (cases_of i ls) (countb (begins i) ls).
Proof.
  revert p. induction ls as [|l ls IH] using rev_ind; intros p Hs; [by injection Hs as <-|].
  rewrite steps_app in Hs. destruct (steps ls fresh_processor) as [q|] eqn:Hq; [|done]. cbn in Hs.
  destruct (step l q) as [q'|] eqn:Hl; [|done]. cbn in Hs. simplify_eq. specialize (IH q eq_refl).
  unfold cases_of in *. rewrite omap_app, countb_app. cbn [omap list_omap countb]. rewrite Z.add_0_r.
  destruct (decide (label_of l = Some i)) as [Hi|Hi].
  - destruct (goroutines q !! i) as [g|] eqn:Hg; [|unfold step in Hl; by rewrite Hi, Hg in Hl].
    destruct (step_own l q p i g Hl Hg Hi) as (g' & Hg' & ->). by apply (so_far_step l q g g' i _ _ Hg' Hi) in IH.
  - destruct (other_counts i l Hi) as (_ & _ & -> & ->). rewrite app_nil_r, Z.add_0_r.
    destruct (goroutines q !! i) as [g|] eqn:Hg; [by rewrite (step_other l q p i g Hl Hg Hi)|].
    destruct (goroutines p !! i) as [g|] eqn:Hp; [|done].
    enough (at_ g = Spawned) as Ha by (unfold so_far in *; cbn in *; by rewrite Ha).
    unfold step in Hl. destruct (label_of l) as [j|].
    + destruct (goroutines q !! j) as [h|]; [|done]. cbn in Hl. destruct (goroutine_step l q h); [|done]. cbn in Hl. simplify_eq.
      cbn in Hp. rewrite list_lookup_insert_ne in Hp by congruence. congruence.
    + injection Hl as <-. destruct l; cbn in Hp; try congruence.
      * apply lookup_app_Some in Hp as [?|[_ Hp]]; [congruence|]. by apply list_lookup_singleton_Some in Hp as [_ <-].
      * unfold Stop in Hp. destruct (done_closed q); cbn in Hp; congruence.
Qed.

(** ** Properties *)

(** C8: Stopping a processor. A goroutine of [Start] runs one batch, then one more for each
    tick that its [select] takes, until it takes one of the two other cases, and none
    after it has returned. [Stop] only closes the channel: it waits for nothing, and a
    second call panics. From then on, as long as a goroutine is not over it can go on, and
    its own steps are at most five and two for each tick that fires: it ends when it is
    scheduled and the ticks are slower than its batches. They need not be: while a tick
    is ready the [select] may take it each time, and any number of batches begins
    after [Stop] has returned. *)
Theorem processor_stops ls p i g :
  steps ls fresh_processor = Some p -> goroutines p !! i = Some g ->
  (at_ g = Returned ->
     (exists k c, cases_of i ls = replicate k CTick ++ [c] /\ c <> CTick /\ countb (begins i) ls = Z.of_nat (S k)) /\
     forall ls' p', steps ls' p = Some p' -> countb (begins i) ls' = 0) /\
  goroutines (Stop p) = goroutines p /\ stop_panics (Stop p) = stop_panics p + b2z (done_closed p) /\
  (forall ls' p', steps ls' (Stop p) = Some p' -> exists g', goroutines p' !! i = Some g' /\
     countb (own i) ls' <= 5 + 2 * countb (ticks i) ls' /\
     (at_ g' <> Returned -> exists l p'', own i l = true /\ step l p' = Some p'')) /\
  (at_ g = AtSelect -> forall n, exists ls' p', steps ls' (Stop p) = Some p' /\ countb (begins i) ls' = Z.of_nat n).
Proof.
  intros Hs Hg. pose proof (run_so_far ls p i Hs) as Hf. rewrite Hg in Hf.
  assert (goroutines (Stop p) = goroutines p) as Hgs by (unfold Stop; by destruct (done_closed p)).
  split_and!.
  - intros Ha. unfold so_far in Hf. cbn in Hf. rewrite Ha in Hf. split; [done|]. intros ls' p' Hs'.
    by destruct (returned_stays ls' p p' i g Hs' Hg Ha).
  - done.
  - unfold Stop. destruct (done_closed p); cbn; lia.
  - intros ls' p' Hs'. destruct (steps_rank ls' (Stop p) p' i g Hs') as (g' & Hg' & Hle); [by rewrite Hgs|].
    exists g'. split; [done|]. split.
    + pose proof (rank_nonneg g'). assert (rank g <= 5) by (unfold rank; destruct g as [[] []]; cbn; lia). lia.
    + apply closed_goes_on; [|done]. assert (done_closed (Stop p) = true) as Hc by (unfold Stop; by destruct (done_closed p)).
      clear -Hs' Hc. revert Hs' Hc. generalize (Stop p). induction ls' as [|l ls' IH]; intros q Hs Hc; cbn in Hs; [by simplify_eq|].
      destruct (step l q) as [q'|] eqn:Hl; [|done]. eapply IH; [exact Hs|]. by eapply step_closed.
  - intros Ha n. destruct (tick_rounds_step i n (Stop p) g) as (p' & Hp' & Hn); [by rewrite Hgs|done|].
    by exists (tick_rounds i n), p'.
Qed.

(** ** Witnesses *)

Definition example_labels : list label := [LStart 0; LBegin 0; LTick 0; LEnd 0; LTickCase 0; LEnd 0].

Lemma processor_stops_witness :
  exists p g, steps example_labels fresh_processor = Some p /\ goroutines p !! 0%nat = Some g /\ at_ g = AtSelect /\
    exists ls' p', steps ls' (Stop p) = Some p' /\ countb (begins 0) ls' = 3.
Proof.
  eexists; eexists. split; [reflexivity|]. split; [reflexivity|]. split; [reflexivity|].
  eapply (processor_stops example_labels _ 0 _ eq_refl eq_refl) with (n := 3%nat). reflexivity.
Defined.
