(* ===== verification/Idempotency.v ===== *)
(** * Idempotency claims (src/eventsourcing/idempotency.go)

    The table of processed events with the statements the checker runs on it,
    each one atomic, and a step relation for any number of consumers that claim,
    complete, release, or die, whose statements may fail or lose their answers and
    whose clocks may differ. Times are nanoseconds, those of the table as its
    columns keep them. *)

From S2P Require Import Prelude Timestamps.

(** ** Data *)

Record ProcessedEvent := { ProcessedAt : Z; CompletedAt : option Z }.

#[export] Instance ProcessedEvent_eq_dec : EqDecision ProcessedEvent.
Proof. solve_decision. Defined.

(** The primary key: event and consumer. *)
Definition key : Type := string * string.

(** The table [events.processed]. *)
Abbreviation claims := (gmap (string * string) ProcessedEvent).

Inductive ClaimResult := ClaimAcquired | ClaimCompleted | ClaimInProgress.

#[export] Instance ClaimResult_eq_dec : EqDecision ClaimResult.
Proof. solve_decision. Defined.

Definition DefaultClaimLease : Z := 2 * Minute.
Definition ErrNoClaim : error := ErrVar "eventsourcing.ErrNoClaim".

Definition ClaimResult_String (r : ClaimResult) : string :=
  match r with
  | ClaimAcquired => "acquired" | ClaimCompleted => "completed" | ClaimInProgress => "in_progress"
  end.

(** ** Operations. A database error is an argument: the statement then has no effect. *)

Definition CheckAndMark `{Timestamps} (dberr : option error) (now : Z) (k : key) (t : claims)
    : claims * result bool :=
  match dberr with
  | Some e => (t, Err e)
  | None =>
      match t !! k with
      | Some _ => (t, Ok false)
      | None => (<[k := {| ProcessedAt := ts now; CompletedAt := Some (ts now) |}]> t, Ok true)
      end
  end.

Definition Release (dberr : option error) (k : key) (t : claims) : claims * option error :=
  match dberr with
  | Some e => (t, Some e)
  | None => (delete k t, None)
  end.

(** The insert-or-take-over statement: the table and the rows affected. *)
Definition claim_upsert `{Timestamps} (now stale : Z) (k : key) (t : claims) : claims * Z :=
  let fresh := {| ProcessedAt := ts now; CompletedAt := None |} in
  match t !! k with
  | None => (<[k := fresh]> t, 1)
  | Some row =>
      if bool_decide (CompletedAt row = None) && bool_decide (ProcessedAt row < ts stale)
      then (<[k := fresh]> t, 1) else (t, 0)
  end.

Definition effective_lease (lease : Z) : Z :=
  if bool_decide (lease <= 0) then DefaultClaimLease else lease.

(** What the second read makes of the row it finds. *)
Definition claim_read (now lease : Z) (k : key) (t : claims) : ClaimResult * Z :=
  match t !! k with
  | None => (ClaimInProgress, Second)
  | Some row =>
      match CompletedAt row with
      | Some _ => (ClaimCompleted, 0)
      | None =>
          let retry := time_Sub (time_Add (ProcessedAt row) lease) now in
          (ClaimInProgress, if bool_decide (retry < Second) then Second else retry)
      end
  end.

(** [between] is what other consumers do between the two statements. *)
Definition Claim `{Timestamps} (dberr1 dberr2 : option error) (between : claims -> claims) (now : Z) (k : key)
    (lease : Z) (t : claims) : claims * result (ClaimResult * Z) :=
  let lease := effective_lease lease in
  let stale := time_Add now (wrap64 (- lease)) in
  match dberr1 with
  | Some e => (t, Err e)
  | None =>
      let '(t, affected) := claim_upsert now stale k t in
      if bool_decide (affected = 1) then (t, Ok (ClaimAcquired, 0))
      else
        let t := between t in
        match dberr2 with
        | Some e => (t, Err e)
        | None => (t, Ok (claim_read now lease k t))
        end
  end.

Definition Complete `{Timestamps} (dberr : option error) (now : Z) (k : key) (t : claims) : claims * option error :=
  match dberr with
  | Some e => (t, Some e)
  | None =>
      match t !! k with
      | Some row =>
          if bool_decide (CompletedAt row = None)
          then (<[k := {| ProcessedAt := ProcessedAt row; CompletedAt := Some (ts now) |}]> t, None)
          else (t, Some ErrNoClaim)
      | None => (t, Some ErrNoClaim)
      end
  end.

(** ** Several consumers

    [Working k t0]: runs the handler for [k] on a claim acquired at [t0]. *)
Inductive consumer := Free | Working (k : key) (t0 : Z).

Record system := {
  tbl : claims;
  now : Z;
  consumers : list consumer;
  finished : list key     (* the events completed so far *)
}.

(** A claim by its first statement; the clocks of the processes are up to [skew] away from
    the time of the system, so a lease is safe for that much less at both ends. *)
Definition live (lease skew : Z) (s : system) (i : nat) (k : key) : Prop :=
  exists t0, consumers s !! i = Some (Working k t0) /\ now s <= t0 + lease - 2 * skew.

(** [prompt]: consumers complete or release only before their lease runs out. A claim that
    acquires nothing has no effect, whatever happens between its statements; one whose
    answer is lost leaves a row of which no consumer knows; a statement may fail. *)
Inductive istep `{Timestamps} (lease skew : Z) (prompt : bool) : system -> system -> Prop :=
| is_tick t n cs fin d : 0 <= d ->
    istep lease skew prompt {| tbl := t; now := n; consumers := cs; finished := fin |}
      {| tbl := t; now := n + d; consumers := cs; finished := fin |}
| is_join t n cs fin :
    istep lease skew prompt {| tbl := t; now := n; consumers := cs; finished := fin |}
      {| tbl := t; now := n; consumers := cs ++ [Free]; finished := fin |}
| is_claim t n cs fin i k c e1 e2 between t' d (lost : bool) :
    cs !! i = Some Free -> Z.abs (c - n) <= skew ->
    Claim e1 e2 between c k lease t = (t', Ok (ClaimAcquired, d)) ->
    istep lease skew prompt {| tbl := t; now := n; consumers := cs; finished := fin |}
      {| tbl := t'; now := n; consumers := if lost then cs else <[i := Working k n]> cs; finished := fin |}
| is_complete t n cs fin i k t0 c e t' r :
    cs !! i = Some (Working k t0) -> (prompt = true -> n <= t0 + lease - 2 * skew) ->
    Complete e c k t = (t', r) ->
    istep lease skew prompt {| tbl := t; now := n; consumers := cs; finished := fin |}
      {| tbl := t'; now := n; consumers := <[i := Free]> cs; finished := fin ++ [k] |}
| is_release t n cs fin i k t0 e t' r :
    cs !! i = Some (Working k t0) -> (prompt = true -> n <= t0 + lease - 2 * skew) ->
    Release e k t = (t', r) ->
    istep lease skew prompt {| tbl := t; now := n; consumers := cs; finished := fin |}
      {| tbl := t'; now := n; consumers := <[i := Free]> cs; finished := fin |}
| is_die t n cs fin i k t0 :
    cs !! i = Some (Working k t0) ->
    istep lease skew prompt {| tbl := t; now := n; consumers := cs; finished := fin |}
      {| tbl := t; now := n; consumers := <[i := Free]> cs; finished := fin |}.

Definition iinit (s : system) : Prop :=
  tbl s = ∅ /\ consumers s = [] /\ finished s = [].

Definition ireachable `{Timestamps} (lease skew : Z) (prompt : bool) : system -> Prop :=
  reachable iinit (istep lease skew prompt).

(** A live claim is the row of the table, taken by a clock near its time, and is held once. *)
Definition lease_inv `{Timestamps} (lease skew : Z) (s : system) : Prop :=
  (forall i k t0, consumers s !! i = Some (Working k t0) -> now s <= t0 + lease - 2 * skew ->
     exists c, Z.abs (c - t0) <= skew /\ tbl s !! k = Some {| ProcessedAt := ts c; CompletedAt := None |}) /\
  (forall i j k, live lease skew s i k -> live lease skew s j k -> i = j).

Definition finished_inv (s : system) : Prop :=
  forall k row, tbl s !! k = Some row -> CompletedAt row <> None -> k ∈ finished s.

(** Three consumers and one event: the first one's lease runs out, the second
    takes over, the first one releases late, the third acquires. *)
Definition sample_key : key := ("evt-1", "notification").

Definition stolen : system :=
  {| tbl := {[sample_key := {| ProcessedAt := 21 * Second; CompletedAt := None |}]}; now := 21 * Second;
     consumers := [Free; Working sample_key (20 * Second); Working sample_key (21 * Second)]; finished := [] |}.

(** Two consumers: the second completes the event it took over, and the first
    one, which failed, then releases. *)
Definition forgotten : system :=
  {| tbl := ∅; now := 20 * Second; consumers := [Free; Free]; finished := [sample_key] |}.

Definition one_claim : system :=
  {| tbl := {[sample_key := {| ProcessedAt := 0; CompletedAt := None |}]}; now := 0;
     consumers := [Working sample_key 0]; finished := [] |}.

Definition one_finished : system :=
  {| tbl := {[sample_key := {| ProcessedAt := 0; CompletedAt := Some 0 |}]}; now := 0;
     consumers := [Free]; finished := [sample_key] |}.

(** ** Lemmas *)

Section lemmas.
Context `{Timestamps}.

Lemma claim_spec n k lease t :
  0 < lease <= max_int64 ->
  Claim None None id n k lease t =
    match t !! k with
    | None => (<[k := {| ProcessedAt := ts n; CompletedAt := None |}]> t, Ok (ClaimAcquired, 0))
    | Some row =>
        match CompletedAt row with
        | Some _ => (t, Ok (ClaimCompleted, 0))
        | None =>
            if bool_decide (ProcessedAt row < ts (n - lease))
            then (<[k := {| ProcessedAt := ts n; CompletedAt := None |}]> t, Ok (ClaimAcquired, 0))
            else (t, Ok (ClaimInProgress, Z.max Second (Z.min max_int64 (ProcessedAt row + lease - n))))
        end
    end.
Proof.
  intros Hl. unfold Claim, effective_lease, claim_upsert, claim_read.
  rewrite bool_decide_false by lia. destruct (t !! k) as [row|] eqn:Hk; [|done].
  rewrite wrap64_id by int_lia. unfold time_Add.
  destruct (CompletedAt row) as [c|] eqn:Hc.
  { rewrite bool_decide_false by done. simpl. by rewrite Hk, Hc. }
  rewrite bool_decide_true by done. simpl. change (n + - lease) with (n - lease).
  case_bool_decide as H1; [done|]. simpl. rewrite Hk, Hc. do 3 f_equal.
  case_bool_decide; int_lia.
Qed.

(** What a claim that acquires found, whatever its second statement and the others do. *)
Lemma claim_acquired e1 e2 between c k lease t t' d :
  0 < lease <= max_int64 -> Claim e1 e2 between c k lease t = (t', Ok (ClaimAcquired, d)) ->
  t' = <[k := {| ProcessedAt := ts c; CompletedAt := None |}]> t /\
  match t !! k with
  | None => True
  | Some row => CompletedAt row = None /\ ProcessedAt row < ts (c - lease) end.
Proof.
  intros Hl. unfold Claim, effective_lease, claim_upsert. rewrite bool_decide_false, wrap64_id by int_lia.
  destruct e1; [done|]. assert (forall t', claim_read c lease k t' <> (ClaimAcquired, d)) as Hread.
  { intros t1. unfold claim_read. destruct (t1 !! k) as [row|]; [destruct (CompletedAt row)|]; done. }
  destruct (t !! k) as [row|] eqn:Hk; simpl; [|by intros [= <- _]].
  destruct (bool_decide (CompletedAt row = None) && _) eqn:Hb; simpl.
  - apply andb_true_iff in Hb as [Hc Hp]. apply bool_decide_eq_true in Hc, Hp. by intros [= <- _].
  - destruct e2; [done|]. intros [= _ Heq]. by apply Hread in Heq.
Qed.

Lemma finished_inv_step lease skew prompt s s' :
  0 < lease <= max_int64 -> finished_inv s -> istep lease skew prompt s s' -> finished_inv s'.
Proof.
  intros Hl Hinv Hs. destruct Hs as [t n cs fin d Hd|t n cs fin|t n cs fin i k c e1 e2 between t' d lost Hi Hs Hc
    |t n cs fin i k t0 c e t' r Hi Hp Hc|t n cs fin i k t0 e t' r Hi Hp Hc|t n cs fin i k t0 Hi];
    intros k' row; simpl; try by apply Hinv.
  - apply claim_acquired in Hc as [-> _]; [|done].
    intros [[<- <-]|[_ ?]]%lookup_insert_Some; [done|by apply (Hinv k' row)].
  - rewrite elem_of_app, list_elem_of_singleton. unfold Complete in Hc. destruct e; simplify_eq; [left; by apply (Hinv k' row)|].
    destruct (t !! k) as [row0|] eqn:Hk; [case_bool_decide|]; simplify_eq.
    + intros [[<- <-]|[_ ?]]%lookup_insert_Some; [by right|left; by apply (Hinv k' row)].
    + intros; left; by apply (Hinv k' row).
    + intros; left; by apply (Hinv k' row).
  - unfold Release in Hc. destruct e; simplify_eq; [by apply Hinv|].
    intros [_ ?]%lookup_delete_Some. by apply (Hinv k' row).
Qed.

(** A consumer that leaves its work keeps the invariant of the others, if the
    table changed at most at its own live key. *)
Lemma lease_inv_leave lease skew t t' n cs fin fin' i k t0 :
  cs !! i = Some (Working k t0) ->
  (forall k', k' <> k -> t' !! k' = t !! k') -> (t' !! k = t !! k \/ n <= t0 + lease - 2 * skew) ->
  lease_inv lease skew {| tbl := t; now := n; consumers := cs; finished := fin |} ->
  lease_inv lease skew {| tbl := t'; now := n; consumers := <[i := Free]> cs; finished := fin' |}.
Proof.
  intros Hi Hne Heq [Hrow Huniq]. simpl in *.
  assert (Hsub : forall j k' t1, <[i := Free]> cs !! j = Some (Working k' t1) ->
    j <> i /\ cs !! j = Some (Working k' t1)).
  { intros j k' t1 Hj. apply list_lookup_insert_Some in Hj as [(-> & ? & _)|[? ?]]; [done|auto]. }
  split; simpl.
  - intros j k' t1 Hj Hl. apply Hsub in Hj as [Hji Hj].
    destruct (decide (k' = k)) as [->|Hkk]; [|rewrite Hne by done; by apply (Hrow j)].
    destruct Heq as [->|Hlive]; [by apply (Hrow j)|]. destruct Hji.
    apply (Huniq j i k); [by exists t1|by exists t0].
  - intros j j' k' (t1 & Hj & Hl) (t2 & Hj' & Hl'). simpl in *.
    apply Hsub in Hj as [_ Hj]. apply Hsub in Hj' as [_ Hj'].
    apply (Huniq j j' k'); [by exists t1|by exists t2].
Qed.

(** What is acquired is held by nobody whose lease runs. *)
Lemma acquired_free lease skew t n cs fin k c :
  Z.abs (c - n) <= skew ->
  (match t !! k with
   | None => True
   | Some row => CompletedAt row = None /\ ProcessedAt row < ts (c - lease) end) ->
  lease_inv lease skew {| tbl := t; now := n; consumers := cs; finished := fin |} ->
  forall j t1, cs !! j = Some (Working k t1) -> n <= t1 + lease - 2 * skew -> False.
Proof.
  intros Hc Hk [Hrow _] j t1 Hj Hlive. destruct (Hrow j k t1 Hj Hlive) as (c1 & Hc1 & Ht). simpl in Ht.
  rewrite Ht in Hk. destruct Hk as [_ Hk%ts_lt]. lia.
Qed.

Lemma lease_inv_acquire lease skew t n cs fin i k c (lost : bool) :
  cs !! i = Some Free -> Z.abs (c - n) <= skew ->
  (match t !! k with
   | None => True
   | Some row => CompletedAt row = None /\ ProcessedAt row < ts (c - lease) end) ->
  lease_inv lease skew {| tbl := t; now := n; consumers := cs; finished := fin |} ->
  lease_inv lease skew {| tbl := <[k := {| ProcessedAt := ts c; CompletedAt := None |}]> t; now := n;
                          consumers := if lost then cs else <[i := Working k n]> cs; finished := fin |}.
Proof.
  intros Hi Hc Hk Hinv. pose proof (acquired_free _ _ _ _ _ _ _ _ Hc Hk Hinv) as Hno. destruct Hinv as [Hrow Huniq]. simpl in *.
  set (cs' := if lost then cs else <[i := Working k n]> cs).
  assert (Hold : forall j k' t1, cs' !! j = Some (Working k' t1) -> n <= t1 + lease - 2 * skew ->
    (j = i /\ k' = k /\ t1 = n) \/ (k' <> k /\ cs !! j = Some (Working k' t1))).
  { intros j k' t1 Hj Hlive. assert ((j = i /\ k' = k /\ t1 = n) \/ cs !! j = Some (Working k' t1)) as [?|Hj'].
    - unfold cs' in Hj. destruct lost; [by right|].
      apply list_lookup_insert_Some in Hj as [(-> & ? & _)|[? Hj]]; simplify_eq; auto.
    - by left.
    - right. split; [|done]. intros ->. by apply (Hno j t1). }
  split; simpl.
  - intros j k' t1 Hj Hlive. apply Hold in Hj as [(-> & -> & ->)|[Hne Hj]]; [| |done].
    + exists c. by rewrite lookup_insert_eq.
    + rewrite lookup_insert_ne by done. by apply (Hrow j).
  - intros j j' k' (t1 & Hj & Hlv) (t2 & Hj' & Hlv'). simpl in *.
    apply Hold in Hj as [(-> & -> & ->)|[Hne Hj]]; [| |done];
      apply Hold in Hj' as [(-> & Hk' & _)|[Hne' Hj']]; try done.
    apply (Huniq j j' k'); [by exists t1|by exists t2].
Qed.

Lemma lease_inv_step lease skew s s' :
  0 < lease <= max_int64 -> lease_inv lease skew s -> istep lease skew true s s' -> lease_inv lease skew s'.
Proof.
  intros Hl Hinv Hs. destruct Hs as [t n cs fin d Hd|t n cs fin|t n cs fin i k c e1 e2 between t' d lost Hi Hs Hc
    |t n cs fin i k t0 c e t' r Hi Hp Hc|t n cs fin i k t0 e t' r Hi Hp Hc|t n cs fin i k t0 Hi].
  - destruct Hinv as [Hrow Huniq]. split; simpl in *.
    + intros i k t0 Hi Hlv. apply (Hrow i); [done|lia].
    + intros i j k (t1 & Hi & H1) (t2 & Hj & H2). simpl in *.
      apply (Huniq i j k); [exists t1|exists t2]; (split; [done|simpl; lia]).
  - destruct Hinv as [Hrow Huniq].
    assert (Hsub : forall i k t0, (cs ++ [Free]) !! i = Some (Working k t0) -> cs !! i = Some (Working k t0)).
    { intros i k t0 [?|[_ Hx]]%lookup_app_Some; [done|].
      apply list_lookup_singleton_Some in Hx as [_ ?]. done. }
    split; simpl in *.
    + intros i k t0 Hi. apply (Hrow i). by apply Hsub.
    + intros i j k (t1 & Hi & H1) (t2 & Hj & H2). simpl in *.
      apply (Huniq i j k); [exists t1|exists t2]; (split; [by apply Hsub|done]).
  - apply claim_acquired in Hc as [-> Hk]; [|done]. by apply lease_inv_acquire.
  - eapply (lease_inv_leave lease skew t t' n cs fin _ i k t0 Hi); [|right; by apply Hp|exact Hinv].
    intros k' Hne. unfold Complete in Hc. destruct e; [|destruct (t !! k); [case_bool_decide|]]; simplify_eq; try done.
    by rewrite lookup_insert_ne.
  - eapply (lease_inv_leave lease skew t t' n cs fin _ i k t0 Hi); [|right; by apply Hp|exact Hinv].
    intros k' Hne. unfold Release in Hc. destruct e; simplify_eq; [done|]. by rewrite lookup_delete_ne.
  - eapply (lease_inv_leave lease skew t t n cs fin _ i k t0 Hi); [done|by left|exact Hinv].
Qed.

End lemmas.

Lemma istep_next `{Timestamps} lease skew prompt s s' :
  istep lease skew prompt s s' -> ireachable lease skew prompt s -> ireachable lease skew prompt s'.
Proof. intros Hs Hr. by eapply reach_step. Qed.

(** A claim without faults by a clock that is right. *)
Lemma claim_now `{Timestamps} lease prompt t n cs fin i k t' d :
  cs !! i = Some Free -> Claim None None id n k lease t = (t', Ok (ClaimAcquired, d)) ->
  istep lease 0 prompt {| tbl := t; now := n; consumers := cs; finished := fin |}
    {| tbl := t'; now := n; consumers := <[i := Working k n]> cs; finished := fin |}.
Proof. intros Hi Hc. eapply (is_claim _ _ _ t n cs fin i k n None None id t' d false); [done|lia|done]. Qed.

(** Both examples start alike: the first consumer claims at time 0 with a lease
    of ten seconds, and the second takes over after twenty. *)
Lemma taken_over :
  forall extra, Forall (fun c => c = Free) extra ->
  ireachable (10 * Second) 0 false
    {| tbl := {[sample_key := {| ProcessedAt := 20 * Second; CompletedAt := None |}]}; now := 20 * Second;
       consumers := Working sample_key 0 :: Working sample_key (20 * Second) :: extra; finished := [] |}.
Proof.
  intros extra He.
  assert (R : ireachable (10 * Second) 0 false {| tbl := ∅; now := 0; consumers := []; finished := [] |})
    by by apply reach_init.
  assert (R2 : ireachable (10 * Second) 0 false {| tbl := ∅; now := 0; consumers := Free :: Free :: extra; finished := [] |}).
  { assert (Hj : forall n, ireachable (10 * Second) 0 false
      {| tbl := ∅; now := 0; consumers := replicate n Free; finished := [] |}).
    { intros n. induction n as [|n IH]; [done|]. rewrite replicate_S_end.
      eapply istep_next; [|exact IH]. constructor. }
    replace (Free :: Free :: extra) with (replicate (S (S (length extra))) Free); [apply Hj|].
    simpl. do 2 f_equal. clear -He. induction He as [|c l -> _ IH]; simpl; congruence. }
  eapply istep_next in R2; [|by eapply (claim_now _ _ _ _ _ _ 0 sample_key)].
  eapply istep_next in R2; [|by apply (is_tick _ _ _ _ _ _ _ (20 * Second))].
  eapply istep_next in R2; [|by eapply (claim_now _ _ _ _ _ _ 1 sample_key)].
  exact R2.
Qed.

Lemma stolen_reachable : ireachable (10 * Second) 0 false stolen.
Proof.
  pose proof (taken_over [Free] ltac:(by repeat constructor)) as R.
  eapply istep_next in R; [|by eapply (is_release _ _ _ _ _ _ _ 0 sample_key 0 None)].
  eapply istep_next in R; [|by apply (is_tick _ _ _ _ _ _ _ Second)].
  eapply istep_next in R; [|by eapply (claim_now _ _ _ _ _ _ 2 sample_key)].
  exact R.
Qed.

Lemma forgotten_reachable : ireachable (10 * Second) 0 false forgotten.
Proof.
  pose proof (taken_over [] ltac:(constructor)) as R.
  eapply istep_next in R; [|by eapply (is_complete _ _ _ _ _ _ _ 1 sample_key (20 * Second) 0 None)].
  eapply istep_next in R; [|by eapply (is_release _ _ _ _ _ _ _ 0 sample_key 0 None)].
  exact R.
Qed.

(** ** Properties *)

(** C9: mutual exclusion. As long as consumers complete or release within their
    lease (dying at any moment is allowed), no event is ever in the hands of two
    consumers whose leases are both running, for any interleaving, whichever statements
    fail and whichever answers are lost; where the clocks of the consumers differ from
    the time by up to [skew], a lease runs for twice that less. *)
Theorem claim_exclusive `{Timestamps} lease skew s i j k :
  0 < lease <= max_int64 -> ireachable lease skew true s ->
  live lease skew s i k -> live lease skew s j k -> i = j.
Proof.
  intros Hl Hr. assert (lease_inv lease skew s) as [_ Hu]; [|apply Hu].
  revert s Hr. apply reachable_invariant.
  - intros s (Ht & Hc & _). split.
    + intros i' k' t0. by rewrite Hc.
    + intros ? ? ? (t0 & Ht0 & _). by rewrite Hc in Ht0.
  - intros s s' _ Hinv. by apply lease_inv_step.
Qed.

(** C10: no event is acknowledged unhandled. Whatever the consumers do, late
    completions and releases, deaths, failing statements and lost answers included,
    whatever the clocks show, and whatever happens between the two statements of a
    claim, it answers [ClaimCompleted], the only answer that acks without running the
    handler, only for an event whose handler succeeded. *)
Theorem ack_only_if_finished `{Timestamps} lease skew prompt s s' k c e1 e2 lease' t' d :
  0 < lease <= max_int64 -> ireachable lease skew prompt s' ->
  Claim e1 e2 (fun _ => tbl s') c k lease' (tbl s) = (t', Ok (ClaimCompleted, d)) ->
  k ∈ finished s'.
Proof.
  intros Hl Hr Hc. assert (finished_inv s') as Hinv.
  { clear Hc. revert s' Hr. apply reachable_invariant.
    - intros s0 (Ht & _ & _) k' row. by rewrite Ht.
    - intros s0 s1 _ Hi. by apply finished_inv_step. }
  unfold Claim in Hc. destruct e1; [done|]. destruct (claim_upsert _ _ _ _) as [t1 n]. case_bool_decide; [done|].
  destruct e2; [done|]. injection Hc as _ Hread. unfold claim_read in Hread.
  destruct (tbl s' !! k) as [row|] eqn:Hk; [|done]. destruct (CompletedAt row) eqn:Hcr; [|done].
  apply (Hinv k row); [done|congruence].
Qed.

(** C11: the retry delay is right. When [Claim] answers [ClaimInProgress] with a
    delay, a delivery that comes a microsecond or more after that delay, the table being
    unchanged, acquires the event; and the delay is never under a second nor
    over the lease (or a second). *)
Theorem retry_after_suffices `{Timestamps} lease k n t t' d n' :
  0 < lease <= max_int64 ->
  (forall row, t !! k = Some row -> ProcessedAt row <= n) ->
  Claim None None id n k lease t = (t', Ok (ClaimInProgress, d)) -> n + d + Microsecond <= n' ->
  t' = t /\ Second <= d <= Z.max Second lease /\
  snd (Claim None None id n' k lease t) = Ok (ClaimAcquired, 0).
Proof.
  intros Hl Hp Hc Hn. rewrite claim_spec in Hc |- * by done.
  destruct (t !! k) as [row|] eqn:Hk; [|done]. specialize (Hp row eq_refl).
  destruct (CompletedAt row); [done|]. case_bool_decide; [done|]. simplify_eq.
  split; [done|]. split; [lia|]. rewrite bool_decide_true; [done|]. pose proof (ts_near (n' - lease)). lia.
Qed.

(** the claim has no owner. A consumer that releases after its lease ran out
    deletes whatever row is there: the live claim of the one that took over, so
    that a third consumer runs at the same time, or a completed row, so that a
    finished event is acquired and handled again. *)
Theorem late_release_breaks_claims :
  (exists s, ireachable (10 * Second) 0 false s /\ live (10 * Second) 0 s 1 sample_key /\ live (10 * Second) 0 s 2 sample_key) /\
  (exists s, ireachable (10 * Second) 0 false s /\ sample_key ∈ finished s /\
     snd (Claim None None id (now s) sample_key (10 * Second) (tbl s)) = Ok (ClaimAcquired, 0)).
Proof.
  split.
  - exists stolen. split; [apply stolen_reachable|].
    split; eexists; (split; [reflexivity|vm_compute; discriminate]).
  - exists forgotten. split; [apply forgotten_reachable|]. split; [set_solver|reflexivity].
Qed.

(** ** Witnesses *)

Lemma one_claim_reachable : ireachable (10 * Second) 0 true one_claim.
Proof.
  assert (R : ireachable (10 * Second) 0 true {| tbl := ∅; now := 0; consumers := []; finished := [] |})
    by by apply reach_init.
  eapply istep_next in R; [|apply is_join].
  eapply istep_next in R; [|by eapply (claim_now _ _ _ _ _ _ 0 sample_key)].
  exact R.
Qed.

Lemma claim_exclusive_witness : 0%nat = 0%nat.
Proof.
  apply (claim_exclusive (10 * Second) 0 one_claim 0 0 sample_key);
    [vm_compute; split; [reflexivity|discriminate]|apply one_claim_reachable| |];
    exists 0; (split; [reflexivity|vm_compute; discriminate]).
Defined.

Lemma ack_only_if_finished_witness : sample_key ∈ finished one_finished.
Proof.
  eapply (ack_only_if_finished (10 * Second) 0 true one_claim one_finished sample_key 0 None None (10 * Second));
    [vm_compute; split; [reflexivity|discriminate]| |reflexivity].
  eapply istep_next; [|exact one_claim_reachable].
  refine (is_complete _ _ _ _ _ _ _ 0 sample_key 0 0 None _ None _ _ _); [reflexivity|vm_compute; discriminate|reflexivity].
Defined.

Lemma retry_after_suffices_witness :
  snd (Claim None None id (3 * Minute) sample_key DefaultClaimLease (tbl one_claim)) = Ok (ClaimAcquired, 0).
Proof.
  refine (proj2 (proj2 (retry_after_suffices DefaultClaimLease sample_key 0 (tbl one_claim) _ _
    (3 * Minute) _ _ _ _))); [vm_compute; split; [reflexivity|discriminate]| |reflexivity|vm_compute; discriminate].
  intros row Hrow. vm_compute in Hrow. injection Hrow as <-. vm_compute. discriminate.
Defined.
