(* ===== verification/EventStore.v ===== *)
(** * The event store (src/eventsourcing/event.go, store.go, postgres_store.go)

    The table of events in insertion order, [Append] with its version test and
    its insertions in one transaction, the loads and the snapshots. The
    flag [unique_version] tells the table of [CreateEventStoreTable], which has
    a unique index on aggregate and version, from the one of [AutoMigrate],
    whose index is not unique. *)

From S2P Require Import Prelude GoTime Json JsonText Jsonb Timestamps StructJson.

(** ** Data *)

Definition ErrEventNotFound : error := ErrVar "eventsourcing.ErrEventNotFound".
Definition ErrConcurrencyConflict : error := ErrVar "eventsourcing.ErrConcurrencyConflict".
Definition ErrInvalidAggregateID : error := ErrVar "eventsourcing.ErrInvalidAggregateID".

Record DomainEvent := {
  ID : string;
  SchemaVersion : Z;
  AggregateType : string;
  AggregateID : string;
  EventType : string;
  EventData : string;
  Metadata : string;
  Version : Z;
  OccurredAt : Z;
  CreatedAt : Z
}.

(** The row's columns, without the serial key. *)
Record EventModel := {
  m_EventID : string;
  m_SchemaVersion : Z;
  m_AggregateType : string;
  m_AggregateID : string;
  m_EventType : string;
  m_EventData : string;
  m_Metadata : string;
  m_Version : Z;
  m_OccurredAt : Z;
  m_CreatedAt : Z
}.

#[export] Instance DomainEvent_eq_dec : EqDecision DomainEvent.
Proof. solve_decision. Defined.
#[export] Instance EventModel_eq_dec : EqDecision EventModel.
Proof. solve_decision. Defined.

(** Two errors of the database: a unique index refused a row. *)
Definition ErrDuplicateEventID : error := ErrVar "unique violation: event_store_event_id_key".
Definition ErrDuplicateVersion : error := ErrVar "unique violation: idx_event_store_aggregate_version".

(** What the database promises of [ORDER BY version ASC]: the same rows, by
    version; rows of one version come in an order of its choice. *)
Definition version_le (a b : EventModel) : Prop := m_Version a <= m_Version b.

Class RowSort := {
  order_by_version : list EventModel -> list EventModel;
  order_by_perm l : order_by_version l ≡ₚ l;
  order_by_sorted l : StronglySorted version_le (order_by_version l)
}.

(** ** Operations *)

(** [local] is the location of the process. *)
Definition generateEventID {L : Type} `{TimeZone L} (local : L) (now : Z) : string := format_compact local now.

Definition NewDomainEvent {L : Type} `{TimeZone L} (local : L) (now now' : Z) {A : Type} `{JsonValue A}
    (aggregateType aggregateID eventType : string) (eventData : A) (version : Z) : result DomainEvent :=
  match Marshal eventData with
  | Err e => Err e
  | Ok data =>
      Ok {| ID := generateEventID local now'; SchemaVersion := 1; AggregateType := aggregateType;
            AggregateID := aggregateID; EventType := eventType; EventData := data; Metadata := "";
            Version := version; OccurredAt := now; CreatedAt := now |}
  end.

Definition schema_or_1 (v : Z) : Z := if bool_decide (v = 0) then 1 else v.

Definition to_model (now : Z) (e : DomainEvent) : EventModel :=
  {| m_EventID := ID e; m_SchemaVersion := schema_or_1 (SchemaVersion e);
     m_AggregateType := AggregateType e; m_AggregateID := AggregateID e;
     m_EventType := EventType e; m_EventData := EventData e; m_Metadata := Metadata e;
     m_Version := Version e; m_OccurredAt := OccurredAt e; m_CreatedAt := now |}.

Definition of_model (m : EventModel) : DomainEvent :=
  {| ID := m_EventID m; SchemaVersion := schema_or_1 (m_SchemaVersion m);
     AggregateType := m_AggregateType m; AggregateID := m_AggregateID m;
     EventType := m_EventType m; EventData := m_EventData m; Metadata := m_Metadata m;
     Version := m_Version m; OccurredAt := m_OccurredAt m; CreatedAt := m_CreatedAt m |}.

Definition of_aggregate (aggregateType aggregateID : string) (m : EventModel) : bool :=
  bool_decide (m_AggregateType m = aggregateType) && bool_decide (m_AggregateID m = aggregateID).

(** The row as its columns hold it: [EventData] is [jsonb NOT NULL] (a nil one is [""],
    no document, and refused either way), [Metadata] may be NULL. The times keep their
    instant as [Timestamps] says: always in the columns that [AutoMigrate] declares; in those
    of the SQL text, which have no zone, if the services run in UTC. *)
Definition in_columns `{Jsonb, Timestamps} (m : EventModel) : option EventModel :=
  data ← jsonb (m_EventData m);
  meta ← jsonb_or_null (m_Metadata m);
  Some {| m_EventID := m_EventID m; m_SchemaVersion := m_SchemaVersion m;
          m_AggregateType := m_AggregateType m; m_AggregateID := m_AggregateID m;
          m_EventType := m_EventType m; m_EventData := data; m_Metadata := meta;
          m_Version := m_Version m; m_OccurredAt := ts (m_OccurredAt m); m_CreatedAt := ts (m_CreatedAt m) |}.

(** [tx.Create(model)] *)
Definition create_row `{Jsonb, Timestamps} (unique_version : bool) (m : EventModel) (rows : list EventModel)
    : result (list EventModel) :=
  match in_columns m with
  | None => Err ErrInvalidJSON
  | Some m =>
      if existsb (fun r => bool_decide (m_EventID r = m_EventID m)) rows then Err ErrDuplicateEventID
      else if unique_version &&
        existsb (fun r => of_aggregate (m_AggregateType m) (m_AggregateID m) r
                          && bool_decide (m_Version r = m_Version m)) rows
      then Err ErrDuplicateVersion
      else Ok (rows ++ [m])
  end.

(** The insertions of one transaction, the clock read before each. *)
Fixpoint insert_all `{Jsonb, Timestamps} (unique_version : bool) (clock : nat -> Z) (events : list DomainEvent)
    (rows : list EventModel) : result (list EventModel) :=
  match events with
  | [] => Ok rows
  | e :: events =>
      match create_row unique_version (to_model (clock (length rows)) e) rows with
      | Err e => Err e
      | Ok rows => insert_all unique_version clock events rows
      end
  end.

(** [COALESCE(MAX(version), 0)] *)
Definition max_version (versions : list Z) : Z :=
  match versions with [] => 0 | v :: vs => foldr Z.max v vs end.

Definition GetLatestVersion (aggregateType aggregateID : string) (rows : list EventModel) : Z :=
  max_version (m_Version <$> filter (fun m => of_aggregate aggregateType aggregateID m) rows).

(** The transaction's first half, up to the version test. *)
Definition append_check (events : list DomainEvent) (expectedVersion : Z) (rows : list EventModel)
    : option error :=
  match events with
  | [] => None
  | first :: _ =>
      if bool_decide (GetLatestVersion (AggregateType first) (AggregateID first) rows <> expectedVersion)
      then Some ErrConcurrencyConflict else None
  end.

(** Its second half: everything is inserted, or nothing. *)
Definition append_commit `{Jsonb, Timestamps} (unique_version : bool) (clock : nat -> Z) (events : list DomainEvent)
    (rows : list EventModel) : list EventModel * option error :=
  match insert_all unique_version clock events rows with
  | Err e => (rows, Some e)
  | Ok rows' => (rows', None)
  end.

Definition Append `{Jsonb, Timestamps} (unique_version : bool) (clock : nat -> Z) (events : list DomainEvent)
    (expectedVersion : Z) (rows : list EventModel) : list EventModel * option error :=
  match append_check events expectedVersion rows with
  | Some e => (rows, Some e)
  | None => append_commit unique_version clock events rows
  end.

Definition LoadFrom `{RowSort} (aggregateType aggregateID : string) (fromVersion : Z)
    (rows : list EventModel) : list DomainEvent :=
  of_model <$> order_by_version
    (filter (fun m => of_aggregate aggregateType aggregateID m && bool_decide (fromVersion <= m_Version m))
       rows).

Definition Load `{RowSort} (aggregateType aggregateID : string) (rows : list EventModel)
    : list DomainEvent := LoadFrom aggregateType aggregateID 0 rows.

(** [newest_first] is [ORDER BY created_at DESC]. *)
Definition LoadByEventType (newest_first : list EventModel -> list EventModel) (eventType : string)
    (limit : Z) (rows : list EventModel) : list DomainEvent :=
  let found := newest_first (filter (fun m => m_EventType m = eventType) rows) in
  of_model <$> (if bool_decide (0 < limit) then take (Z.to_nat limit) found else found).

(** ** Snapshots *)

Record Snapshot := {
  s_AggregateType : string;
  s_AggregateID : string;
  s_Version : Z;
  s_Data : string;
  s_CreatedAt : Z
}.

(** The table of snapshots, by its unique aggregate. *)
Abbreviation snapshots := (gmap (string * string) Snapshot).

Definition Snapshot_Save (now : Z) (s : Snapshot) (t : snapshots) : snapshots :=
  <[(s_AggregateType s, s_AggregateID s) :=
      {| s_AggregateType := s_AggregateType s; s_AggregateID := s_AggregateID s;
         s_Version := s_Version s; s_Data := s_Data s; s_CreatedAt := now / Second |}]> t.

Definition Snapshot_Load (aggregateType aggregateID : string) (t : snapshots) : option Snapshot :=
  t !! (aggregateType, aggregateID).

Definition Snapshot_Delete (aggregateType aggregateID : string) (beforeVersion : Z) (t : snapshots)
    : snapshots :=
  match t !! (aggregateType, aggregateID) with
  | Some s => if bool_decide (s_Version s < beforeVersion)
              then delete (aggregateType, aggregateID) t else t
  | None => t
  end.

(** The versions a caller passes: consecutive from the expected one on, all of
    one aggregate. *)
Fixpoint consecutive (aggregateType aggregateID : string) (v : Z) (events : list DomainEvent) : Prop :=
  match events with
  | [] => True
  | e :: events =>
      AggregateType e = aggregateType /\ AggregateID e = aggregateID /\ Version e = v + 1 /\
      consecutive aggregateType aggregateID (v + 1) events
  end.

(** What a loaded event shares with the appended one. *)
Definition stored `{Jsonb, Timestamps} (e d : DomainEvent) : Prop :=
  ID d = ID e /\ AggregateType d = AggregateType e /\ AggregateID d = AggregateID e /\
  EventType d = EventType e /\ jsonb (EventData e) = Some (EventData d) /\
  jsonb_or_null (Metadata e) = Some (Metadata d) /\ Version d = Version e /\ OccurredAt d = ts (OccurredAt e) /\
  SchemaVersion d = schema_or_1 (SchemaVersion e).

Definition versions_of (t a : string) (rows : list EventModel) : list Z :=
  m_Version <$> filter (fun m => of_aggregate t a m) rows.

(** An event of version 1, for examples. *)
Definition sample_event (id : string) : DomainEvent :=
  {| ID := id; SchemaVersion := 0; AggregateType := "order"; AggregateID := "1";
     EventType := "events.order.created"; EventData := "{}"; Metadata := ""; Version := 1;
     OccurredAt := 0; CreatedAt := 0 |}.

(** A table that keeps its rows sorted, for examples. *)
#[export] Instance version_le_dec : RelDecision version_le.
Proof. intros a b. unfold version_le. apply _. Defined.

#[export] Instance version_le_total : Total version_le.
Proof. intros a b. unfold version_le. lia. Qed.

#[export] Instance version_le_trans : Transitive version_le.
Proof. intros a b c. unfold version_le. lia. Qed.

#[export] Instance merge_row_sort : RowSort := {|
  order_by_version := merge_sort version_le;
  order_by_perm := merge_sort_Permutation version_le;
  order_by_sorted := StronglySorted_merge_sort version_le
|}.

(** ** Lemmas *)

(** Where the offset of the process does not change, events of different clock
    readings have different ids, in years of four digits. *)
Lemma generateEventID_inj {L : Type} `{TimeZoneLaws L} (local : L) o now now' :
  (forall sec, offset local sec = o) ->
  four_digit_year (local_date local now) -> four_digit_year (local_date local now') ->
  generateEventID local now = generateEventID local now' -> now = now'.
Proof. apply format_compact_inj. Qed.

(** Where it changes, the hour that the clock shows twice gives every id twice. *)
Example generateEventID_repeats :
  let local := Change 7200 (1792890000) 3600 in
  generateEventID local (1792888200 * Second) = generateEventID local (1792891800 * Second).
Proof. vm_compute. reflexivity. Qed.

Lemma of_aggregate_true t a m :
  of_aggregate t a m = true <-> m_AggregateType m = t /\ m_AggregateID m = a.
Proof. unfold of_aggregate. rewrite andb_true_iff, !bool_decide_eq_true. done. Qed.

Lemma existsb_false {A} (f : A -> bool) l : existsb f l = false <-> Forall (fun x => f x = false) l.
Proof. induction l as [|x l IH]; simpl; [done|]. by rewrite orb_false_iff, Forall_cons, IH. Qed.

(** The row of an event, read at some time. *)
Definition row_of `{Jsonb, Timestamps} (e : DomainEvent) (m : EventModel) : Prop :=
  exists now, in_columns (to_model now e) = Some m.

(** The documents of an event are taken by their columns. *)
Definition accepted `{Jsonb} (e : DomainEvent) : Prop :=
  is_Some (jsonb (EventData e)) /\ is_Some (jsonb_or_null (Metadata e)).

Section columns.
Context `{Jsonb, Timestamps}.

Lemma in_columns_accepted now e : accepted e <-> is_Some (in_columns (to_model now e)).
Proof.
  unfold accepted, in_columns. cbn [to_model m_EventData m_Metadata].
  destruct (jsonb (EventData e)), (jsonb_or_null (Metadata e)); cbn; split; try intros [[? ?] [? ?]]; try intros [? ?];
    try discriminate; by repeat econstructor.
Qed.

Lemma row_of_fields e m :
  row_of e m ->
  m_EventID m = ID e /\ m_AggregateType m = AggregateType e /\ m_AggregateID m = AggregateID e /\
  m_Version m = Version e /\ stored e (of_model m).
Proof.
  intros [now Hm]. unfold in_columns in Hm. cbn [to_model m_EventData m_Metadata] in Hm.
  destruct (jsonb (EventData e)) as [data|] eqn:Hd; [|discriminate].
  destruct (jsonb_or_null (Metadata e)) as [meta|] eqn:He; [|discriminate].
  injection Hm as <-. split_and!; try done. repeat split; try done.
  cbn. unfold schema_or_1. repeat case_bool_decide; lia.
Qed.

Lemma create_row_Ok u now e rows rows' :
  create_row u (to_model now e) rows = Ok rows' ->
  exists m, rows' = rows ++ [m] /\ row_of e m /\
  (u = true -> forall r, r ∈ rows ->
     of_aggregate (AggregateType e) (AggregateID e) r = true -> m_Version r <> Version e).
Proof.
  unfold create_row. destruct (in_columns _) as [m|] eqn:Hm; [|done].
  assert (row_of e m) as Hrow by (by eexists). pose proof (row_of_fields e m Hrow) as (_ & Ht & Ha & Hv & _).
  destruct (existsb _ rows); [done|].
  destruct (u && _) eqn:Hu; [done|]. intros [= <-]. exists m. split_and!; [done..|]. intros -> r Hr Hag Hrv.
  simpl in Hu. apply existsb_false in Hu. rewrite Forall_forall in Hu. specialize (Hu r Hr).
  rewrite Ht, Ha, Hag, bool_decide_true in Hu by congruence. done.
Qed.

Lemma insert_all_Ok u clock events rows rows' :
  insert_all u clock events rows = Ok rows' ->
  exists ms, rows' = rows ++ ms /\ Forall2 row_of events ms /\
    (u = true -> match events with
     | [] => True
     | e :: _ => forall r, r ∈ rows -> of_aggregate (AggregateType e) (AggregateID e) r = true ->
                 m_Version r <> Version e end).
Proof.
  revert rows. induction events as [|e events IH]; intros rows; simpl.
  { intros [= <-]. exists []. by rewrite app_nil_r. }
  destruct (create_row _ _ rows) as [rows1|] eqn:Hc; [|done]. intros Hi.
  apply create_row_Ok in Hc as (m & -> & Hm & Hu). destruct (IH _ Hi) as (ms & -> & Hms & _).
  exists (m :: ms). rewrite <-app_assoc. split; [done|]. split; [by constructor|done].
Qed.

(** A document that its column refuses fails the whole append. *)
Lemma insert_all_refuses u clock events rows :
  ~ Forall accepted events -> exists err, insert_all u clock events rows = Err err.
Proof.
  intros Hn. destruct (insert_all u clock events rows) as [rows'|err] eqn:Hi; [|by eexists].
  destruct Hn. apply insert_all_Ok in Hi as (ms & _ & Hms & _).
  induction Hms as [|e m events ms [now Hm] _ IH]; constructor; [|done].
  apply (in_columns_accepted now). by eexists.
Qed.

Lemma create_row_fresh u now e rows v :
  accepted e -> (forall r, r ∈ rows -> m_EventID r <> ID e) ->
  Forall (fun x => x <= v) (versions_of (AggregateType e) (AggregateID e) rows) -> Version e = v + 1 ->
  exists m, create_row u (to_model now e) rows = Ok (rows ++ [m]) /\ row_of e m.
Proof.
  intros [m Hm]%(in_columns_accepted now) Hfr Hv Hve. exists m. split; [|by eexists].
  unfold create_row. rewrite Hm. destruct (row_of_fields e m) as (-> & -> & -> & -> & _); [by eexists|].
  rewrite (proj2 (existsb_false _ rows)).
  2:{ apply Forall_forall. intros r Hr. by apply bool_decide_eq_false, Hfr. }
  rewrite (proj2 (existsb_false _ rows)); [by rewrite andb_false_r|].
  apply Forall_forall. intros r Hr. apply andb_false_iff.
  destruct (of_aggregate _ _ r) eqn:Hag; [right|by left]. apply bool_decide_eq_false.
  rewrite Forall_forall in Hv. specialize (Hv (m_Version r)).
  enough (m_Version r <= v) by lia. apply Hv. unfold versions_of. apply list_elem_of_fmap_2.
  apply list_elem_of_filter. split; [|done]. by rewrite Hag.
Qed.

(** Accepted documents, fresh identifiers and unused versions are stored. *)
Lemma insert_all_fresh u clock events rows :
  Forall accepted events ->
  NoDup (ID <$> events) -> (forall e r, e ∈ events -> r ∈ rows -> m_EventID r <> ID e) ->
  (forall t a v, consecutive t a v events -> Forall (fun x => x <= v) (versions_of t a rows) ->
    exists ms, insert_all u clock events rows = Ok (rows ++ ms)).
Proof.
  intros Hacc. revert rows. induction Hacc as [|e events Hacc _ IH]; intros rows Hnd Hfr t a v Hc Hv; simpl.
  { exists []. by rewrite app_nil_r. }
  destruct Hc as (Ht & Ha & Hve & Hc). inversion_clear Hnd as [|? ? Hne Hnd'].
  destruct (create_row_fresh u (clock (length rows)) e rows v) as (m & -> & Hm); [done| |by subst|done|].
  { intros r Hr. apply Hfr; [left|done]. }
  destruct (row_of_fields e m Hm) as (Hid & Hmt & Hma & Hmv & _).
  destruct (IH (rows ++ [m]) Hnd') with (t := t) (a := a) (v := v + 1) as [ms Hms]; [|done| |].
  - intros e' r He' [Hr| ->%list_elem_of_singleton]%elem_of_app; [apply Hfr; [by right|done]|].
    rewrite Hid. intros Heq. apply Hne. rewrite Heq. by apply list_elem_of_fmap_2.
  - unfold versions_of. rewrite filter_app, fmap_app. apply Forall_app. split.
    + eapply Forall_impl; [exact Hv|]. simpl. lia.
    + rewrite filter_cons, filter_nil. case_decide; [|constructor]. constructor; [simpl; lia|constructor].
  - exists (m :: ms). by rewrite Hms, <-app_assoc.
Qed.

End columns.

Lemma max_version_spec l x : (forall y, y ∈ l -> y <= x) -> x ∈ l -> max_version l = x.
Proof.
  destruct l as [|v l]; [by intros _ ?%elem_of_nil|]. simpl. intros Hle Hin.
  assert (Hm : forall l v, (forall y, y ∈ v :: l -> y <= foldr Z.max v l) /\ (foldr Z.max v l ∈ v :: l)).
  { clear. intros l v. induction l as [|w l [IH1 IH2]]; simpl.
    - split; [|left]. intros y ->%list_elem_of_singleton. lia.
    - split.
      + intros y [->|[->|Hy]%elem_of_cons]%elem_of_cons; [|lia|].
        * specialize (IH1 v ltac:(left)). lia.
        * specialize (IH1 y ltac:(by right)). lia.
      + destruct (Z.max_spec w (foldr Z.max v l)) as [[_ ->]|[_ ->]]; [|right; left].
        apply elem_of_cons in IH2 as [->|IH2]; [left|right; by right]. }
  destruct (Hm l v) as [H1 H2]. specialize (Hle _ H2). specialize (H1 _ Hin). lia.
Qed.

Lemma max_version_bound l : Forall (fun x => x <= max_version l) l.
Proof.
  apply Forall_forall. destruct l as [|v l]; [by intros ? ?%elem_of_nil|]. simpl.
  induction l as [|w l IH]; intros y; simpl; [intros ->%list_elem_of_singleton; lia|].
  intros [->|[->|Hy]%elem_of_cons]%elem_of_cons; [|lia|].
  - specialize (IH v ltac:(left)). lia.
  - specialize (IH y ltac:(by right)). lia.
Qed.

Lemma consecutive_models `{Jsonb, Timestamps} t a v events ms :
  consecutive t a v events -> Forall2 row_of events ms ->
  Forall (fun m => of_aggregate t a m = true /\ v < m_Version m <= v + Z.of_nat (length events)) ms /\
  StronglySorted version_le ms /\ NoDup (m_Version <$> ms) /\
  Forall2 stored events (of_model <$> ms) /\
  (events <> [] -> v + Z.of_nat (length events) ∈ m_Version <$> ms).
Proof.
  intros Hc Hms. revert v Hc. induction Hms as [|e m events ms Hm Hms IH]; intros v Hc.
  { repeat constructor. done. }
  destruct Hc as (Ht & Ha & Hv & Hc). destruct (row_of_fields e m Hm) as (_ & Hmt & Hma & Hmv & Hst). destruct (IH _ Hc) as (H1 & H2 & H3 & H4 & H5).
  assert (H1' : Forall (fun m => v + 1 < m_Version m) ms).
  { eapply Forall_impl; [exact H1|]. simpl. lia. }
  split_and!.
  - constructor; [split; [apply of_aggregate_true; by subst|simpl; lia]|].
    eapply Forall_impl; [exact H1|]. simpl. intros r [? ?]. split; [done|lia].
  - constructor; [done|]. eapply Forall_impl; [exact H1'|]. unfold version_le. simpl. lia.
  - simpl. constructor; [|done]. intros (r & Hr & Hin)%list_elem_of_fmap.
    rewrite Forall_forall in H1'. specialize (H1' r Hin). lia.
  - by constructor.
  - intros _. simpl. destruct events as [|e' events].
    + apply elem_of_cons. left. simpl. lia.
    + right. replace (v + Z.of_nat (S (length (e' :: events)))) with (v + 1 + Z.of_nat (length (e' :: events))) by (simpl; lia).
      by apply H5.
Qed.

Lemma NoDup_version_inj rows x y :
  NoDup (m_Version <$> rows) -> x ∈ rows -> y ∈ rows -> m_Version x = m_Version y -> x = y.
Proof.
  intros Hnd Hx Hy Hv. apply list_elem_of_lookup in Hx as [i Hi]. apply list_elem_of_lookup in Hy as [j Hj].
  assert (i = j) as ->; [|congruence].
  eapply NoDup_lookup; [exact Hnd| |]; rewrite list_lookup_fmap; [by rewrite Hi|]. by rewrite Hj, Hv.
Qed.

(** Sorting after appending later versions appends the sorted parts. *)
Lemma order_by_app `{RowSort} rows ms v :
  Forall (fun m => m_Version m <= v) rows -> Forall (fun m => v < m_Version m) ms ->
  StronglySorted version_le ms -> NoDup (m_Version <$> rows) -> NoDup (m_Version <$> ms) ->
  order_by_version (rows ++ ms) = order_by_version rows ++ ms.
Proof.
  intros Hr Hm Hs Hnr Hnm. rewrite Forall_forall in Hr, Hm.
  assert (Hnd : NoDup (m_Version <$> rows ++ ms)).
  { rewrite fmap_app. apply NoDup_app. split_and!; [done| |done].
    intros x (r & -> & Hin)%list_elem_of_fmap (m & Heq & Hin')%list_elem_of_fmap.
    specialize (Hr r Hin). specialize (Hm m Hin'). lia. }
  eapply (StronglySorted_unique_strong version_le).
  - intros x y Hx Hy H1 H2. unfold version_le in *. eapply NoDup_version_inj; [exact Hnd| | |lia].
    + by rewrite order_by_perm in Hx.
    + rewrite order_by_perm in Hy. done.
  - apply order_by_sorted.
  - apply StronglySorted_app. split_and!; [|apply order_by_sorted|done].
    intros x y Hx Hy. rewrite order_by_perm in Hx. specialize (Hr x Hx). specialize (Hm y Hy).
    unfold version_le. lia.
  - by rewrite !order_by_perm.
Qed.

(** Where the appended rows are, and what is loaded with them. *)
Lemma Append_fresh `{Jsonb, Timestamps, RowSort} u clock events t a v rows :
  0 <= v -> events <> [] -> consecutive t a v events -> Forall accepted events ->
  GetLatestVersion t a rows = v -> NoDup (versions_of t a rows) ->
  NoDup (ID <$> events) -> (forall e r, e ∈ events -> r ∈ rows -> m_EventID r <> ID e) ->
  exists ms, Append u clock events v rows = (rows ++ ms, None) /\
    Forall (fun m => of_aggregate t a m = true /\ v < m_Version m <= v + Z.of_nat (length events)) ms /\
    NoDup (m_Version <$> ms) /\ Forall2 stored events (of_model <$> ms) /\
    v + Z.of_nat (length events) ∈ m_Version <$> ms /\
    Forall (fun x => x <= v) (versions_of t a rows) /\
    Load t a (rows ++ ms) = Load t a rows ++ (of_model <$> ms).
Proof.
  intros Hv Hne Hc Hacc Hlat Hndv Hnd Hfr.
  assert (Hbound : Forall (fun x => x <= v) (versions_of t a rows)).
  { rewrite <-Hlat. apply max_version_bound. }
  destruct (insert_all_fresh u clock events rows Hacc Hnd Hfr t a v Hc Hbound) as [ms Hins].
  pose proof (insert_all_Ok _ _ _ _ _ Hins) as (ms' & Heq & Hms & _).
  apply app_inv_head in Heq as <-.
  destruct (consecutive_models t a v events ms Hc Hms) as (Hag & Hso & Hnm & Hst & Hlast).
  exists ms. split_and!; [|done|done|done|by apply Hlast|done|].
  - unfold Append, append_commit. rewrite Hins. destruct events as [|e events]; [done|].
    simpl. destruct Hc as (-> & -> & _). by rewrite bool_decide_false by auto.
  - unfold Load, LoadFrom. rewrite filter_app.
    assert (filter (fun m => of_aggregate t a m && bool_decide (0 <= m_Version m)) ms = ms) as ->.
    { apply list_filter_all. eapply Forall_impl; [exact Hag|]. simpl. intros m [-> ?].
      rewrite bool_decide_true by lia. done. }
    rewrite (order_by_app _ _ v), fmap_app; [done| | |done| |done].
    + apply Forall_forall. intros m [Hm Hin]%list_elem_of_filter. rewrite Forall_forall in Hbound.
      apply Hbound, list_elem_of_fmap_2, list_elem_of_filter. split; [|done].
      apply Is_true_eq_true, andb_true_iff in Hm as [-> _]. done.
    + eapply Forall_impl; [exact Hag|]. simpl. lia.
    + eapply sublist_NoDup; [exact Hndv|]. unfold versions_of.
      apply fmap_sublist. clear. induction rows as [|r rows IH]; [done|]. rewrite !filter_cons.
      destruct (of_aggregate t a r); simpl; [|done]. case_decide; [by apply sublist_skip|by apply sublist_cons].
Qed.

(** ** Properties *)

(** append and load. Appending events with consecutive versions after the
    current one, under fresh identifiers and with documents that the columns take,
    succeeds; loading the aggregate then gives what it gave before followed by the new
    events, field by field (a zero schema version reads as 1, documents and times
    as the columns give them back), the latest version moves by their number, and
    the loads of other aggregates are unchanged. *)
Theorem append_then_load `{Jsonb, Timestamps, RowSort} u clock events t a v rows :
  0 <= v -> events <> [] -> consecutive t a v events -> Forall accepted events ->
  GetLatestVersion t a rows = v -> NoDup (versions_of t a rows) ->
  NoDup (ID <$> events) -> (forall e r, e ∈ events -> r ∈ rows -> m_EventID r <> ID e) ->
  exists rows' new, Append u clock events v rows = (rows', None) /\
    Load t a rows' = Load t a rows ++ new /\ Forall2 stored events new /\
    GetLatestVersion t a rows' = v + Z.of_nat (length events) /\
    NoDup (versions_of t a rows') /\
    forall t' a' from, (t', a') <> (t, a) -> LoadFrom t' a' from rows' = LoadFrom t' a' from rows.
Proof.
  intros Hv Hne Hc Hacc Hlat Hndv Hnd Hfr.
  destruct (Append_fresh u clock events t a v rows) as (ms & Happ & Hag & Hnm & Hst & Hlast & Hbound & Hload); [done..|].
  exists (rows ++ ms), (of_model <$> ms). split_and!; [done|done|done| | |].
  - apply max_version_spec.
    + intros y Hy. rewrite filter_app, fmap_app in Hy. apply elem_of_app in Hy as [Hy|Hy].
      * rewrite Forall_forall in Hbound. specialize (Hbound y Hy). lia.
      * apply list_elem_of_fmap in Hy as (m & -> & [_ Hm]%list_elem_of_filter).
        rewrite Forall_forall in Hag. specialize (Hag m Hm). lia.
    + rewrite filter_app, fmap_app. apply elem_of_app. right.
      rewrite list_filter_all; [done|]. eapply Forall_impl; [exact Hag|]. by intros m [-> ?].
  - unfold versions_of. rewrite filter_app, fmap_app. apply NoDup_app. split_and!; [done| |].
    + intros x Hx (m & -> & [_ Hm]%list_elem_of_filter)%list_elem_of_fmap.
      rewrite Forall_forall in Hbound. rewrite Forall_forall in Hag. specialize (Hbound _ Hx). specialize (Hag m Hm). lia.
    + rewrite list_filter_all; [done|]. eapply Forall_impl; [exact Hag|]. by intros m [-> ?].
  - intros t' a' from Hta. unfold LoadFrom. rewrite filter_app.
    assert (filter (fun m => of_aggregate t' a' m && bool_decide (from <= m_Version m)) ms = []) as ->;
      [|by rewrite app_nil_r].
    apply list_filter_none. eapply Forall_impl; [exact Hag|]. intros m [Hm _] [Hm' _]%Is_true_eq_true%andb_true_iff.
    apply of_aggregate_true in Hm as [<- <-]. by apply of_aggregate_true in Hm' as [<- <-].
Qed.

(** ** Witnesses *)

Lemma append_then_load_witness :
  exists rows', Append true (fun _ => 5) [sample_event "a"] 0 [] = (rows', None) /\
    exists d, Load "order" "1" rows' = [d] /\ SchemaVersion d = 1.
Proof.
  destruct (append_then_load true (fun _ => 5) [sample_event "a"] "order" "1" 0 [])
    as (rows' & new & Ha & Hl & Hs & _); [lia|done|by repeat split| |done|constructor| | |].
  - by repeat econstructor.
  - apply NoDup_singleton.
  - intros e r _ Hr. by apply elem_of_nil in Hr.
  - exists rows'. split; [exact Ha|]. inversion Hs as [|? d ? ? Hd Hnil]; subst. inversion Hnil; subst.
    exists d. split; [exact Hl|]. apply Hd.
Defined.
