(* ===== verification/EventLog.v ===== *)
(** * Concurrent appends (src/eventsourcing/postgres_store.go)

    [Append] reads the latest version and inserts in one transaction that does not
    lock what it read, so the two halves of concurrent calls interleave, and statements
    and commits may fail. With the unique index on aggregate and version the table grows by
    whole calls without two events of one version; and if every call passes events of one
    aggregate, numbered from the expected version on, which [Append] does not check, it is
    a log per aggregate. Without the index histories fork. *)

From S2P Require Import Prelude GoTime Json JsonText Jsonb Timestamps StructJson EventStore.

(** ** The store *)

Inductive appender :=
| Waiting (events : list DomainEvent) (expected : Z)
| Checked (events : list DomainEvent) (expected : Z)
| Finished (r : option error).

Record store := {
  table_rows : list EventModel;
  appenders : list appender;
  committed : list (list DomainEvent * Z)   (* events and expected version *)
}.

(** The calls that the interface means: events of one aggregate, numbered from the expected
    version on. [Append] looks at no event's version, and at the aggregate of the first
    event only. *)
Definition proper_call (events : list DomainEvent) (expected : Z) : Prop :=
  match events with
  | [] => True
  | e :: _ => consecutive (AggregateType e) (AggregateID e) expected events
  end.

Definition any_call (events : list DomainEvent) (expected : Z) : Prop := True.

(** A call, of those that the callers make; the first half of its transaction; the second; a statement or the
    connection that fails, which rolls back; a commit whose answer is lost. *)
Inductive store_step `{Jsonb, Timestamps} (unique_version : bool) (calls : list DomainEvent -> Z -> Prop)
    : store -> store -> Prop :=
| st_call rows aps cm events expected :
    calls events expected ->
    store_step unique_version calls {| table_rows := rows; appenders := aps; committed := cm |}
      {| table_rows := rows; appenders := aps ++ [Waiting events expected]; committed := cm |}
| st_check rows aps cm i events expected :
    aps !! i = Some (Waiting events expected) ->
    store_step unique_version calls {| table_rows := rows; appenders := aps; committed := cm |}
      {| table_rows := rows;
         appenders := <[i := match append_check events expected rows with
                             | Some e => Finished (Some e)
                             | None => Checked events expected end]> aps;
         committed := cm |}
| st_commit rows aps cm i events expected clock rows' r :
    aps !! i = Some (Checked events expected) ->
    append_commit unique_version clock events rows = (rows', r) ->
    store_step unique_version calls {| table_rows := rows; appenders := aps; committed := cm |}
      {| table_rows := rows'; appenders := <[i := Finished r]> aps;
         committed := match r with None => cm ++ [(events, expected)] | Some _ => cm end |}
| st_fail rows aps cm i events expected e :
    aps !! i = Some (Waiting events expected) \/ aps !! i = Some (Checked events expected) ->
    store_step unique_version calls {| table_rows := rows; appenders := aps; committed := cm |}
      {| table_rows := rows; appenders := <[i := Finished (Some e)]> aps; committed := cm |}
| st_lost rows aps cm i events expected clock rows' e :
    aps !! i = Some (Checked events expected) ->
    append_commit unique_version clock events rows = (rows', None) ->
    store_step unique_version calls {| table_rows := rows; appenders := aps; committed := cm |}
      {| table_rows := rows'; appenders := <[i := Finished (Some e)]> aps;
         committed := cm ++ [(events, expected)] |}.

Definition store_init (s : store) : Prop :=
  s = {| table_rows := []; appenders := []; committed := [] |}.

Definition store_reachable `{Jsonb, Timestamps} (unique_version : bool) (calls : list DomainEvent -> Z -> Prop)
    : store -> Prop :=
  reachable store_init (store_step unique_version calls).

(** ** The specification: a log per aggregate *)

Definition log := string * string -> list EventModel.

(** Nothing happens, or one aggregate gets the rows of events numbered from the length
    of its log on. *)
Inductive log_step `{Jsonb, Timestamps} : log -> log -> Prop :=
| log_stay l l' : (forall k, l' k = l k) -> log_step l l'
| log_append l l' k events ms :
    consecutive (fst k) (snd k) (Z.of_nat (length (l k))) events -> Forall2 row_of events ms ->
    l' k = l k ++ ms -> (forall k', k' <> k -> l' k' = l k') -> log_step l l'.

Definition log_reachable `{Jsonb, Timestamps} : log -> Prop := reachable (fun l => forall k, l k = []) log_step.

(** The log that a table holds: the rows of each aggregate as they were inserted. *)
Definition history (rows : list EventModel) : log :=
  fun k => filter (fun m => of_aggregate (fst k) (snd k) m) rows.

(** Numbered from one, without gaps. *)
Definition numbered (rows : list EventModel) : Prop :=
  forall k, m_Version <$> history rows k = seqZ 1 (Z.of_nat (length (history rows k))).

Definition aggregate (e : DomainEvent) : string * string := (AggregateType e, AggregateID e).

(** The aggregate and the expected version of a call with events. *)
Definition call_key (c : list DomainEvent * Z) : list (string * string * Z) :=
  match fst c with [] => [] | e :: _ => [(aggregate e, snd c)] end.

(** The events of a call stand in the log, in their order, right behind its expected
    version. *)
Definition in_log `{Jsonb, Timestamps} (l : log) (c : list DomainEvent * Z) : Prop :=
  match fst c with
  | [] => True
  | e :: _ =>
      0 <= snd c /\
      exists before ms after, l (aggregate e) = before ++ ms ++ after /\ Z.of_nat (length before) = snd c /\
        Forall2 row_of (fst c) ms
  end.

(** The log is numbered; calls are proper, and one that passed the version test read a
    version that the log has reached; what committed stands in the log, and no two
    calls at the same place. *)
Definition log_inv `{Jsonb, Timestamps} (s : store) : Prop :=
  numbered (table_rows s) /\
  (forall i events expected, appenders s !! i = Some (Waiting events expected) \/
     appenders s !! i = Some (Checked events expected) -> proper_call events expected) /\
  (forall i e events expected, appenders s !! i = Some (Checked (e :: events) expected) ->
     0 <= expected <= Z.of_nat (length (history (table_rows s) (aggregate e)))) /\
  Forall (in_log (history (table_rows s))) (committed s) /\
  NoDup (committed s ≫= call_key).

(** What a row is unique for. *)
Definition row_key (m : EventModel) : string * string * Z := (m_AggregateType m, m_AggregateID m, m_Version m).

(** The table is the rows of the calls that committed, one call after the other. *)
Definition in_blocks `{Jsonb, Timestamps} (s : store) : Prop :=
  exists blocks, Forall2 (fun c ms => Forall2 row_of (fst c) ms) (committed s) blocks /\
    table_rows s = concat blocks.

Definition table_inv `{Jsonb, Timestamps} (s : store) : Prop :=
  in_blocks s /\ NoDup (row_key <$> table_rows s) /\ NoDup (m_EventID <$> table_rows s).

(** Two writers of version 1, both past the version test. *)
Definition forked : store :=
  {| table_rows := [to_model 0 (sample_event "a"); to_model 0 (sample_event "b")];
     appenders := [Finished None; Finished None];
     committed := [([sample_event "a"], 0); ([sample_event "b"], 0)] |}.

(** ** Lemmas *)

Lemma history_app rows ms k : history (rows ++ ms) k = history rows k ++ history ms k.
Proof. apply filter_app. Qed.

Lemma numbered_sorted l v n :
  m_Version <$> l = seqZ v n -> StronglySorted version_le l /\ Forall (fun m => v <= m_Version m) l.
Proof.
  revert v n. induction l as [|m l IH]; intros v n Hv; [repeat constructor|].
  destruct (decide (0 < n)) as [Hn|]; [|by rewrite seqZ_nil in Hv by lia].
  rewrite seqZ_cons in Hv by done. injection Hv as Hm Hv. destruct (IH _ _ Hv) as [Hs Hf]. split.
  - constructor; [done|]. eapply Forall_impl; [exact Hf|]. unfold version_le. simpl. lia.
  - constructor; [lia|]. eapply Forall_impl; [exact Hf|]. simpl. lia.
Qed.

Lemma latest_numbered rows t a : numbered rows -> GetLatestVersion t a rows = Z.of_nat (length (history rows (t, a))).
Proof.
  intros Hn. unfold GetLatestVersion. change (filter _ rows) with (history rows (t, a)). rewrite Hn.
  set (n := length _). destruct n as [|n]; [done|]. apply max_version_spec.
  - intros y Hy%elem_of_seqZ. lia.
  - apply elem_of_seqZ. lia.
Qed.

(** The loads give the log as it stands. *)
Lemma load_numbered `{RowSort} rows t a : numbered rows -> Load t a rows = of_model <$> history rows (t, a).
Proof.
  intros Hn. unfold Load, LoadFrom. f_equal. destruct (numbered_sorted _ _ _ (Hn (t, a))) as [Hs Hf].
  assert (filter (fun m => of_aggregate t a m && bool_decide (0 <= m_Version m)) rows = history rows (t, a)) as ->.
  { transitivity (filter (fun m => 0 <= m_Version m) (history rows (t, a))).
    - unfold history. rewrite list_filter_filter. apply list_filter_iff. intros m. simpl.
      rewrite andb_True, bool_decide_spec. tauto.
    - apply list_filter_all. eapply Forall_impl; [exact Hf|]. simpl. lia. }
  assert (NoDup (m_Version <$> history rows (t, a))) as Hnd by (rewrite Hn; apply NoDup_seqZ).
  assert (Forall (fun m => 0 < m_Version m) (history rows (t, a))) as Hf' by (eapply Forall_impl; [exact Hf|]; simpl; lia).
  pose proof (order_by_app [] _ 0 (Forall_nil_2 _) Hf' Hs NoDup_nil_2 Hnd) as Ho.
  assert (order_by_version [] = []) as He by (apply Permutation_nil_r, order_by_perm). by rewrite He in Ho.
Qed.

Section log.
Context `{Jsonb, Timestamps}.

Lemma consecutive_versions t a v events ms :
  consecutive t a v events -> Forall2 row_of events ms -> m_Version <$> ms = seqZ (v + 1) (Z.of_nat (length ms)).
Proof.
  intros Hc Hms. revert v Hc. induction Hms as [|e m events ms Hm _ IH]; intros v Hc; [done|].
  destruct Hc as (_ & _ & Hv & Hc). destruct (row_of_fields e m Hm) as (_ & _ & _ & Hmv & _). cbn [fmap list_fmap length].
  rewrite seqZ_cons by lia. f_equal; [congruence|]. rewrite (IH _ Hc). f_equal; lia.
Qed.

(** What a commit does to the log: its version test still holds. *)
Lemma commit_appends clock e events expected rows rows' :
  numbered rows -> proper_call (e :: events) expected ->
  0 <= expected <= Z.of_nat (length (history rows (aggregate e))) ->
  append_commit true clock (e :: events) rows = (rows', None) ->
  expected = Z.of_nat (length (history rows (aggregate e))) /\ numbered rows' /\
  exists ms, Forall2 row_of (e :: events) ms /\
    history rows' (aggregate e) = history rows (aggregate e) ++ ms /\
    forall k, k <> aggregate e -> history rows' k = history rows k.
Proof.
  intros Hn Hc Hle Ha. unfold append_commit in Ha. destruct (insert_all _ _ _ _) as [rows1|] eqn:Hi; [|done].
  injection Ha as <-. apply insert_all_Ok in Hi as (ms & -> & Hms & Hu). specialize (Hu eq_refl).
  destruct (consecutive_models _ _ _ _ _ Hc Hms) as (Hag & _). pose proof (consecutive_versions _ _ _ _ _ Hc Hms) as Hver.
  assert (history ms (aggregate e) = ms) as Hown.
  { apply list_filter_all. eapply Forall_impl; [exact Hag|]. intros m [Hm _]. cbn. by rewrite Hm. }
  assert (forall k, k <> aggregate e -> history ms k = []) as Hother.
  { intros [t' a'] Hk. apply list_filter_none. eapply Forall_impl; [exact Hag|]. intros m [Hm _] Hm'.
    apply Hk. apply of_aggregate_true in Hm as [Ht Ha']. apply Is_true_eq_true, of_aggregate_true in Hm' as [Ht' Ha''].
    simpl in *. unfold aggregate. congruence. }
  assert (expected = Z.of_nat (length (history rows (aggregate e)))) as Heq.
  { destruct (decide (expected = Z.of_nat (length (history rows (aggregate e))))) as [|Hne]; [done|exfalso].
    assert (expected + 1 ∈ m_Version <$> history rows (aggregate e)) as Hin
      by (rewrite Hn; apply elem_of_seqZ; lia).
    apply list_elem_of_fmap in Hin as (r & Hr & [Hra Hin]%list_elem_of_filter).
    apply (Hu r Hin (Is_true_eq_true _ Hra)). destruct Hc as (_ & _ & -> & _). done. }
  split; [done|]. split.
  - intros k. rewrite history_app. destruct (decide (k = aggregate e)) as [->|Hk]; [|by rewrite Hother, app_nil_r].
    rewrite Hown, fmap_app, length_app, Hver, Hn, Nat2Z.inj_add, seqZ_app by lia. do 2 f_equal. lia.
  - exists ms. split; [done|]. split; [by rewrite history_app, Hown|].
    intros k Hk. by rewrite history_app, Hother, app_nil_r.
Qed.

Lemma in_log_grows l l' c : (forall k, exists ms, l' k = l k ++ ms) -> in_log l c -> in_log l' c.
Proof.
  unfold in_log. destruct (fst c) as [|e events]; [done|]. intros Hg (Hv & before & ms & after & Hl & Hb).
  split; [done|]. destruct (Hg (aggregate e)) as [new ->]. exists before, ms, (after ++ new).
  by rewrite Hl, <-!app_assoc.
Qed.

Lemma in_log_below l c k v : in_log l c -> (k, v) ∈ call_key c -> v < Z.of_nat (length (l k)).
Proof.
  unfold in_log, call_key. destruct (fst c) as [|e events]; [by intros _ ?%elem_of_nil|].
  intros (_ & before & ms & after & Hl & Hb & Hms) [= -> ->]%list_elem_of_singleton.
  destruct ms as [|m ms]; [by apply Forall2_length in Hms|]. rewrite Hl, !length_app. cbn [length]. lia.
Qed.

(** A call that ends without a commit. *)
Lemma log_inv_end rows aps cm i r :
  log_inv {| table_rows := rows; appenders := aps; committed := cm |} ->
  log_inv {| table_rows := rows; appenders := <[i := Finished r]> aps; committed := cm |}.
Proof.
  assert (forall j x, x <> Finished r -> <[i := Finished r]> aps !! j = Some x -> aps !! j = Some x) as Hsub.
  { intros j x Hx [(_ & ? & _)|[_ ?]]%list_lookup_insert_Some; [by subst|done]. }
  intros (Hn & Hp & Hc & Hl & Hnd). split_and!; try done; simpl in *.
  - intros j ev ex Hj. apply (Hp j). destruct Hj as [Hj|Hj]; [left|right]; by apply Hsub in Hj.
  - intros j e ev ex Hj. apply Hsub in Hj; [|done]. by apply (Hc j) in Hj.
Qed.

(** A commit, answered or not, adds its events to one log at the place it expected. *)
Lemma log_inv_commit rows aps cm i events expected clock rows' r :
  log_inv {| table_rows := rows; appenders := aps; committed := cm |} ->
  aps !! i = Some (Checked events expected) -> append_commit true clock events rows = (rows', None) ->
  log_inv {| table_rows := rows'; appenders := <[i := Finished r]> aps; committed := cm ++ [(events, expected)] |} /\
  log_step (history rows) (history rows').
Proof.
  intros Hinv Hi Ha. pose proof Hinv as (Hn & Hp & Hc & Hl & Hnd). simpl in *.
  apply (log_inv_end _ _ _ i r) in Hinv as (_ & Hp' & Hc' & _). simpl in *.
  destruct events as [|e events].
  { injection Ha as <-. split; [|by apply log_stay]. split_and!; simpl; try done.
    - apply Forall_app. split; [done|]. by constructor.
    - rewrite bind_app. simpl. by rewrite app_nil_r. }
  destruct (commit_appends clock e events expected rows rows') as (Heq & Hn' & ms & Hms & Hown & Hother);
    [done|apply (Hp i); by right|by apply (Hc i e events)|done|].
  assert (forall k, exists new, history rows' k = history rows k ++ new) as Hg.
  { intros k. destruct (decide (k = aggregate e)) as [->|Hk]; [by eexists|].
    exists []. by rewrite app_nil_r, Hother. }
  split; [split_and!; simpl; try done|].
  - intros j e' ev ex Hj. apply Hc' in Hj. destruct (Hg (aggregate e')) as [new ->]. rewrite length_app. lia.
  - apply Forall_app. split; [eapply Forall_impl; [exact Hl|]; intros c; by apply in_log_grows|].
    constructor; [|done]. split; [simpl; lia|]. exists (history rows (aggregate e)), ms, []. simpl. by rewrite app_nil_r.
  - rewrite bind_app. simpl. apply NoDup_app. split_and!; [done| |apply NoDup_singleton].
    intros x (c & Hx & Hin)%list_elem_of_bind ->%list_elem_of_singleton.
    rewrite Forall_forall in Hl. pose proof (in_log_below _ _ _ _ (Hl c Hin) Hx). lia.
  - eapply (log_append _ _ (aggregate e) (e :: events) ms); [|done..].
    rewrite <-Heq. apply (Hp i (e :: events)). by right.
Qed.

(** Rows with their keys and ids told apart stay so. *)
Lemma insert_all_keys clock events rows rows' :
  insert_all true clock events rows = Ok rows' ->
  NoDup (row_key <$> rows) /\ NoDup (m_EventID <$> rows) ->
  NoDup (row_key <$> rows') /\ NoDup (m_EventID <$> rows').
Proof.
  revert rows. induction events as [|e events IH]; intros rows; cbn [insert_all]; [by intros [= <-]|].
  destruct (create_row _ _ rows) as [rows1|] eqn:Hc; [|done]. intros Hi [Hk Hid]. apply (IH _ Hi).
  unfold create_row in Hc. destruct (in_columns _) as [m|]; [|done].
  destruct (existsb _ rows) eqn:Hids; [done|]. cbn [andb] in Hc.
  destruct (existsb (fun r => of_aggregate _ _ r && _) rows) eqn:Hkeys; [done|].
  injection Hc as <-. rewrite !fmap_app. split; apply NoDup_app; (split; [done|split; [|apply NoDup_singleton]]);
    intros x (r & -> & Hr)%list_elem_of_fmap Hx%list_elem_of_singleton.
  - apply (existsb_false_elem _ _ r Hkeys) in Hr. unfold row_key in Hx. injection Hx as Ht Ha Hv.
    unfold of_aggregate in Hr. by rewrite Ht, Ha, Hv, !bool_decide_true in Hr.
  - apply (existsb_false_elem _ _ r Hids) in Hr. by apply bool_decide_eq_false in Hr.
Qed.

Lemma commit_keeps_table rows aps aps' cm events expected clock rows' :
  append_commit true clock events rows = (rows', None) ->
  table_inv {| table_rows := rows; appenders := aps; committed := cm |} ->
  table_inv {| table_rows := rows'; appenders := aps'; committed := cm ++ [(events, expected)] |}.
Proof.
  unfold append_commit. destruct (insert_all _ _ _ _) as [rows1|] eqn:Hi; [|done]. intros [= <-] ((bs & Hbs & Hr) & Hu).
  split; [|by eapply insert_all_keys]. destruct (insert_all_Ok _ _ _ _ _ Hi) as (ms & -> & Hms & _). simpl in *.
  exists (bs ++ [ms]). split; [by apply Forall2_app; [|constructor]|]. by rewrite Hr, concat_app; cbn; rewrite app_nil_r.
Qed.

Lemma table_inv_step calls s s' : table_inv s -> store_step true calls s s' -> table_inv s'.
Proof.
  intros Hinv Hs. destruct Hs as [| |rows aps cm i events expected clock rows' [err|] Hi Hc| |]; [done|done| | |done|];
    [|by eapply commit_keeps_table..].
  unfold append_commit in Hc. by destruct (insert_all _ _ _ _); simplify_eq.
Qed.

Lemma log_inv_step s s' :
  log_inv s -> store_step true proper_call s s' -> log_inv s' /\ log_step (history (table_rows s)) (history (table_rows s')).
Proof.
  intros Hinv Hs. destruct Hs as [rows aps cm events expected Hpc|rows aps cm i events expected Hi
    |rows aps cm i events expected clock rows' r Hi Hc|rows aps cm i events expected e Hi
    |rows aps cm i events expected clock rows' e Hi Hc].
  - split; [|by apply log_stay]. destruct Hinv as (Hn & Hp & Hc & Hl & Hnd). split_and!; try done; simpl in *.
    + intros i ev ex Hi. destruct Hi as [Hi|Hi]; apply lookup_app_Some in Hi as [Hi|[_ Hi]];
        try (apply list_lookup_singleton_Some in Hi as [_ ?]; simplify_eq; done); apply (Hp i); auto.
    + intros i e ev ex [Hi|[_ Hi]]%lookup_app_Some; [by apply (Hc i) in Hi|].
      by apply list_lookup_singleton_Some in Hi as [_ ?].
  - split; [|by apply log_stay]. destruct (append_check events expected rows) as [e|] eqn:Hch; [by apply log_inv_end|].
    destruct Hinv as (Hn & Hp & Hc & Hl & Hnd). split_and!; try done; simpl in *.
    + intros j ev ex Hj. destruct (decide (j = i)) as [->|Hne].
      * destruct Hj as [Hj|Hj]; apply list_lookup_insert_Some in Hj as [(_ & Hj & _)|[? _]]; simplify_eq.
        apply (Hp i). by left.
      * rewrite list_lookup_insert_ne in Hj by done. by apply (Hp j).
    + intros j e ev ex [(_ & Hj & _)|[_ Hj]]%list_lookup_insert_Some; [|by apply (Hc j) in Hj].
      simplify_eq. cbn [append_check] in Hch. case_bool_decide as Hv; [done|].
      rewrite latest_numbered in Hv by done. unfold aggregate. lia.
  - destruct r as [err|]; [|by eapply log_inv_commit].
    unfold append_commit in Hc. destruct (insert_all _ _ _ _); simplify_eq.
    split; [by apply log_inv_end|by apply log_stay].
  - split; [by apply log_inv_end|by apply log_stay].
  - by eapply log_inv_commit.
Qed.

End log.

Lemma store_next `{Jsonb, Timestamps} u calls s s' :
  store_step u calls s s' -> store_reachable u calls s -> store_reachable u calls s'.
Proof. intros Hs Hr. by eapply reach_step. Qed.

Lemma forked_reachable : store_reachable false proper_call forked.
Proof.
  assert (R : store_reachable false proper_call {| table_rows := []; appenders := []; committed := [] |})
    by by apply reach_init.
  assert (Hp : forall id, proper_call [sample_event id] 0) by (intros; by repeat split).
  eapply store_next in R; [|apply (st_call _ _ _ _ _ [sample_event "a"] 0), Hp].
  eapply store_next in R; [|apply (st_call _ _ _ _ _ [sample_event "b"] 0), Hp].
  eapply store_next in R; [|by eapply (st_check _ _ _ _ _ 0)].
  eapply store_next in R; [|by eapply (st_check _ _ _ _ _ 1)].
  eapply store_next in R; [|by eapply (st_commit _ _ _ _ _ 0 _ _ (fun _ => 0))].
  eapply store_next in R; [|by eapply (st_commit _ _ _ _ _ 1 _ _ (fun _ => 0))].
  exact R.
Qed.

(** ** Properties *)

(** C12: concurrent appends. With the unique index, whatever the calls, the interleaving of
    version tests and insertions, the statements that fail and the answers that are lost:
    the table is at all times the events of the calls that committed, whole and in their
    order, call after call, and no two of its rows have one version of an aggregate or one
    event id. [Append] does not check that a call's events are of one aggregate and
    numbered from the expected version on. If all calls are like that, the table is a log
    per aggregate that grew by whole calls, each added at once behind the version it
    expected: the versions of an aggregate are [1, 2, ...] without gaps or forks, the latest
    version is their number, loading gives them in order; the events of every call that
    committed (that was answered with success, above all) stand in the log in their order
    and place; and no two calls committed with one expected version of an aggregate. *)
Theorem store_refines_log `{Jsonb, Timestamps, RowSort} s :
  (store_reachable true any_call s ->
     in_blocks s /\ NoDup (row_key <$> table_rows s) /\ NoDup (m_EventID <$> table_rows s)) /\
  (store_reachable true proper_call s ->
     let l := history (table_rows s) in
     log_reachable l /\
     (forall t a, m_Version <$> l (t, a) = seqZ 1 (Z.of_nat (length (l (t, a)))) /\
        GetLatestVersion t a (table_rows s) = Z.of_nat (length (l (t, a))) /\
        Load t a (table_rows s) = of_model <$> l (t, a)) /\
     Forall (in_log l) (committed s) /\ NoDup (committed s ≫= call_key)).
Proof.
  split.
  { apply (reachable_invariant _ _ table_inv); [|intros; by eapply table_inv_step].
    intros ? ->. split; [by exists []|]. split; constructor. }
  intros Hr. assert (log_inv s /\ log_reachable (history (table_rows s))) as [(Hn & _ & _ & Hl & Hnd) Hlog].
  { induction Hr as [s Hs|s s' Hr [Hinv Hlog] Hs].
    - rewrite Hs. split; [|by apply reach_init]. split_and!; simpl; [by intros k|..|constructor].
      + by intros i ev ex [Hi|Hi].
      + done.
      + constructor.
    - destruct (log_inv_step s s' Hinv Hs) as [Hinv' Hst]. split; [done|]. by eapply reach_step. }
  split; [done|]. split; [|done]. intros t a. split; [apply Hn|].
  split; [by apply latest_numbered|by apply load_numbered].
Qed.

(** Without the index, as on a table made by [AutoMigrate], the version test alone
    does not hold: two concurrent appends that expect the same version can both
    commit, and the aggregate's history holds two different events of one
    version. *)
Theorem auto_migrate_forks_history :
  exists s m1 m2, store_reachable false proper_call s /\ ~ NoDup (committed s ≫= call_key) /\
    m1 ∈ table_rows s /\ m2 ∈ table_rows s /\ m1 <> m2 /\
    of_aggregate "order" "1" m1 = true /\ of_aggregate "order" "1" m2 = true /\
    m_Version m1 = m_Version m2.
Proof.
  exists forked, (to_model 0 (sample_event "a")), (to_model 0 (sample_event "b")).
  split; [apply forked_reachable|]. split_and!; try done; try set_solver.
  simpl. intros Hnd. inversion_clear Hnd as [|? ? Hin _]. apply Hin. left.
Qed.

(** ** Witnesses *)

(** Two writers pass the version test; one commits but its answer is lost, the other is
    refused by the index. *)
Definition raced (rows : list EventModel) (r : option error) : store :=
  {| table_rows := rows; appenders := [Finished (Some (ErrExt 1)); Finished r];
     committed := [([sample_event "a"], 0)] |}.

Lemma raced_reachable :
  store_reachable true proper_call (raced [to_model 0 (sample_event "a")] (Some ErrDuplicateVersion)).
Proof.
  assert (R : store_reachable true proper_call {| table_rows := []; appenders := []; committed := [] |})
    by by apply reach_init.
  assert (Hp : forall id, proper_call [sample_event id] 0) by (intros; by repeat split).
  eapply store_next in R; [|apply (st_call _ _ _ _ _ [sample_event "a"] 0), Hp].
  eapply store_next in R; [|apply (st_call _ _ _ _ _ [sample_event "b"] 0), Hp].
  eapply store_next in R; [|by eapply (st_check _ _ _ _ _ 0)].
  eapply store_next in R; [|by eapply (st_check _ _ _ _ _ 1)].
  eapply store_next in R; [|by eapply (st_lost _ _ _ _ _ 0 _ _ (fun _ => 0) _ (ErrExt 1))].
  eapply store_next in R; [|by eapply (st_commit _ _ _ _ _ 1 _ _ (fun _ => 0))].
  exact R.
Qed.

(** A call that [Append] takes although it is not one that the interface means: the only
    event of an aggregate is its third. *)
Definition third_event : DomainEvent :=
  {| ID := "c"; SchemaVersion := 0; AggregateType := "order"; AggregateID := "1"; EventType := "created";
     EventData := "{}"; Metadata := ""; Version := 3; OccurredAt := 0; CreatedAt := 0 |}.

Definition gap : store :=
  {| table_rows := [to_model 0 third_event]; appenders := [Finished None]; committed := [([third_event], 0)] |}.

Lemma gap_reachable : store_reachable true any_call gap.
Proof.
  assert (R : store_reachable true any_call {| table_rows := []; appenders := []; committed := [] |})
    by by apply reach_init.
  eapply store_next in R; [|by apply (st_call _ _ _ _ _ [third_event] 0)].
  eapply store_next in R; [|by eapply (st_check _ _ _ _ _ 0)].
  eapply store_next in R; [|by eapply (st_commit _ _ _ _ _ 0 _ _ (fun _ => 0))].
  exact R.
Qed.

Lemma gap_not_numbered : ~ numbered (table_rows gap).
Proof. intros H. specialize (H ("order", "1")). vm_compute in H. discriminate. Qed.

Lemma store_refines_log_witness :
  NoDup (row_key <$> table_rows gap) /\
  Load "order" "1" (table_rows (raced [to_model 0 (sample_event "a")] (Some ErrDuplicateVersion))) =
    of_model <$> [to_model 0 (sample_event "a")] /\
  GetLatestVersion "order" "1" (table_rows (raced [to_model 0 (sample_event "a")] (Some ErrDuplicateVersion))) = 1.
Proof.
  destruct (proj2 (store_refines_log _) raced_reachable) as (_ & Hl & _).
  destruct (Hl "order" "1") as (_ & H1 & H2).
  split; [exact (proj1 (proj2 (proj1 (store_refines_log _) gap_reachable)))|]. split; [exact H2|exact H1].
Defined.
