(* ===== verification/Tables.v ===== *)
(** * The tables (src/eventsourcing/postgres_store.go, src/auth/apikey_store.go)

    The SQL texts that the library hands out, read and executed on a database that knows
    of its tables the columns and the unique keys, next to the tables that the mapper
    makes of the models; and what the ways to set up the event store are worth. *)

From S2P Require Import Prelude GoStrings Json JsonText Jsonb Timestamps StructJson EventStore.
From Stdlib Require Import Ascii.

(** ** Tables *)

Record tbl := { columns : list string; unique : list (list string) }.

#[export] Instance tbl_eq_dec : EqDecision tbl.
Proof. solve_decision. Defined.

Abbreviation database := (gmap string tbl).

(** ** Reading the statements *)

Definition newline : ascii := ascii_of_nat 10.
Definition space : ascii := " "%char.

Definition words (s : string) : list string :=
  filter (fun w => w <> "") (Split (ReplaceAll s newline " ") space).

(** Lines that are comments are no part of a statement. *)
Definition drop_comments (sql : string) : string :=
  Join (filter (fun l => HasPrefix (TrimSpace l) "--" = false) (Split sql newline)) (String newline "").

Definition statements (sql : string) : list string :=
  filter (fun s => s <> "") (TrimSpace <$> Split (drop_comments sql) ";"%char).

(** The parts between commas that are in no parentheses. *)
Fixpoint items (depth : nat) (current : string) (s : string) : list string :=
  match s with
  | EmptyString => [current]
  | String c s =>
      if bool_decide (c = "("%char) then items (S depth) (current +:+ String c "") s
      else if bool_decide (c = ")"%char) then items (pred depth) (current +:+ String c "") s
      else if bool_decide (c = ","%char) && bool_decide (depth = 0%nat) then current :: items depth "" s
      else items depth (current +:+ String c "") s
  end.

Fixpoint after (c : ascii) (s : string) : string :=
  match s with EmptyString => "" | String d s => if bool_decide (c = d) then s else after c s end.

(** What is inside the outermost parentheses. *)
Definition inside (s : string) : string := TrimSuffix (TrimSpace (after "("%char s)) ")".

Definition names (s : string) : list string := TrimSpace <$> items 0 "" (inside s).

(** A line of a table: a column, and what it makes unique. *)
Definition line_columns (line : string) : list string :=
  match words line with
  | [] => []
  | w :: _ => if bool_decide (w = "UNIQUE") then [] else [w]
  end.

Definition line_unique (line : string) : list (list string) :=
  match words line with
  | [] => []
  | w :: ws =>
      if bool_decide (w = "UNIQUE") then [names line]
      else if bool_decide ("UNIQUE" ∈ ws) || bool_decide ("PRIMARY" ∈ ws) then [[w]] else []
  end.

Definition table_of (stmt : string) : tbl :=
  let lines := items 0 "" (inside stmt) in
  {| columns := lines ≫= line_columns; unique := lines ≫= line_unique |}.

Definition add_unique (u : list string) (t : tbl) : tbl :=
  {| columns := columns t; unique := if bool_decide (u ∈ unique t) then unique t else unique t ++ [u] |}.

(** One statement: a table that exists stays as it is, and so does an index. *)
Definition exec_statement (db : database) (stmt : string) : database :=
  match words stmt with
  | "CREATE" :: "TABLE" :: "IF" :: "NOT" :: "EXISTS" :: name :: _ =>
      match db !! name with Some _ => db | None => <[name := table_of stmt]> db end
  | "CREATE" :: "UNIQUE" :: "INDEX" :: "IF" :: "NOT" :: "EXISTS" :: _ :: "ON" :: name :: _ =>
      alter (add_unique (names stmt)) name db
  | _ => db
  end.

Definition exec (sql : string) (db : database) : database := foldl exec_statement db (statements sql).

(** ** The texts *)

Definition CreateEventStoreTable : string := "
CREATE TABLE IF NOT EXISTS event_store (
    id BIGSERIAL PRIMARY KEY,
    event_id VARCHAR(100) UNIQUE NOT NULL,
    aggregate_type VARCHAR(100) NOT NULL,
    aggregate_id VARCHAR(100) NOT NULL,
    event_type VARCHAR(100) NOT NULL,
    event_data JSONB NOT NULL,
    metadata JSONB,
    version INT NOT NULL,
    occurred_at TIMESTAMP NOT NULL,
    created_at TIMESTAMP NOT NULL DEFAULT NOW()
);

CREATE INDEX IF NOT EXISTS idx_event_store_aggregate
    ON event_store (aggregate_type, aggregate_id, version);
CREATE INDEX IF NOT EXISTS idx_event_store_event_type
    ON event_store (event_type);
CREATE INDEX IF NOT EXISTS idx_event_store_created_at
    ON event_store (created_at);

-- Unique constraint for optimistic concurrency
CREATE UNIQUE INDEX IF NOT EXISTS idx_event_store_aggregate_version
    ON event_store (aggregate_type, aggregate_id, version);
".

Definition CreateSnapshotStoreTable : string := "
CREATE TABLE IF NOT EXISTS event_snapshots (
    id BIGSERIAL PRIMARY KEY,
    aggregate_type VARCHAR(100) NOT NULL,
    aggregate_id VARCHAR(100) NOT NULL,
    version INT NOT NULL,
    data BYTEA NOT NULL,
    created_at BIGINT NOT NULL,
    UNIQUE (aggregate_type, aggregate_id)
);
".

Definition CreateAPIKeyTable : string := "
CREATE TABLE IF NOT EXISTS api_keys (
    id BIGSERIAL PRIMARY KEY,
    key_id VARCHAR(50) UNIQUE NOT NULL,
    name VARCHAR(100) NOT NULL,
    key_hash VARCHAR(64) UNIQUE NOT NULL,
    key_prefix VARCHAR(20) NOT NULL,
    service_name VARCHAR(50) NOT NULL,
    scopes TEXT,
    rate_limit INT DEFAULT 1000,
    expires_at TIMESTAMP,
    created_at TIMESTAMP NOT NULL DEFAULT NOW(),
    last_used_at TIMESTAMP,
    is_active BOOLEAN DEFAULT TRUE
);

CREATE INDEX IF NOT EXISTS idx_api_keys_service ON api_keys (service_name);
CREATE INDEX IF NOT EXISTS idx_api_keys_active ON api_keys (is_active);
".

(** ** The tables of the models

    The columns of a struct by the mapper's names, and what its tags make unique. *)

Definition EventModel_TableName : string := "event_store".
Definition SnapshotModel_TableName : string := "event_snapshots".
Definition APIKeyModel_TableName : string := "api_keys".

Definition EventModel_table : tbl :=
  {| columns := ["id"; "event_id"; "schema_version"; "aggregate_type"; "aggregate_id"; "event_type"; "event_data";
                 "metadata"; "version"; "occurred_at"; "created_at"];
     unique := [["id"]; ["event_id"]] |}.

Definition SnapshotModel_table : tbl :=
  {| columns := ["id"; "aggregate_type"; "aggregate_id"; "version"; "data"; "created_at"];
     unique := [["id"]; ["aggregate_type"; "aggregate_id"]] |}.

Definition APIKeyModel_table : tbl :=
  {| columns := ["id"; "key_id"; "name"; "key_hash"; "key_prefix"; "service_name"; "scopes"; "rate_limit";
                 "expires_at"; "created_at"; "last_used_at"; "is_active"];
     unique := [["id"]; ["key_id"]; ["key_hash"]] |}.

(** [gorm.DB.AutoMigrate]: the database afterwards and the error. *)
Class Mapper := { auto_migrate : string -> tbl -> database -> database * option error }.

(** What its documentation says of a call that succeeds: a missing table is created from
    the model; on a table that is there missing columns are created and none is deleted.
    What becomes of the unique keys of such a table is not said, nor what a call that fails
    leaves of it; other tables are left alone. *)
Class MapperLaws `{Mapper} := {
  migrate_new name m db :
    db !! name = None -> snd (auto_migrate name m db) = None -> fst (auto_migrate name m db) !! name = Some m;
  migrate_old name m db t :
    db !! name = Some t -> snd (auto_migrate name m db) = None ->
    exists t', fst (auto_migrate name m db) !! name = Some t' /\ columns t ⊆ columns t' /\ columns m ⊆ columns t';
  migrate_other name m db name' : name' <> name -> fst (auto_migrate name m db) !! name' = db !! name'
}.

(** The three stores' own [AutoMigrate]. *)
Section migrations.
Context `{Mapper}.

Definition AutoMigrate_events : database -> database * option error :=
  auto_migrate EventModel_TableName EventModel_table.
Definition AutoMigrate_snapshots : database -> database * option error :=
  auto_migrate SnapshotModel_TableName SnapshotModel_table.
Definition AutoMigrate_api_keys : database -> database * option error :=
  auto_migrate APIKeyModel_TableName APIKeyModel_table.
End migrations.

(** ** Appending to a database *)

Definition ErrUndefinedTable : error := ErrVar "undefined_table".
Definition ErrUndefinedColumn : error := ErrVar "undefined_column".

(** The columns that the insert of a model names: all but the serial key. *)
Definition insert_columns (m : tbl) : list string := filter (fun c => c <> "id") (columns m).

Definition aggregate_version : list string := ["aggregate_type"; "aggregate_id"; "version"].

(** [Append] where the table is what it is: its query, and then its inserts. *)
Definition Append_on `{Jsonb, Timestamps} (db : database) (clock : nat -> Z) (events : list DomainEvent)
    (expectedVersion : Z) (rows : list EventModel) : list EventModel * option error :=
  match events with
  | [] => (rows, None)
  | _ =>
      match db !! EventModel_TableName with
      | None => (rows, Some ErrUndefinedTable)
      | Some t =>
          match append_check events expectedVersion rows with
          | Some e => (rows, Some e)
          | None =>
              if bool_decide (insert_columns EventModel_table ⊆ columns t)
              then append_commit (bool_decide (aggregate_version ∈ unique t)) clock events rows
              else (rows, Some ErrUndefinedColumn)
          end
      end
  end.

(** ** A mapper, for examples: it adds what is missing, and fails on a table that has a
    unique key of one column that the model does not have. *)

Definition add_missing {A} `{EqDecision A} (l l' : list A) : list A := l ++ filter (fun x => x ∉ l) l'.

#[export] Instance add_missing_mapper : Mapper := {
  auto_migrate name m db :=
    match db !! name with
    | None => (<[name := m]> db, None)
    | Some t =>
        if bool_decide (Exists (fun u => length u = 1%nat /\ (u ∉ unique m)) (unique t))
        then (db, Some (ErrVar "undefined_object"))
        else (<[name := {| columns := add_missing (columns t) (columns m);
                           unique := add_missing (unique t) (unique m) |}]> db, None)
    end
}.

(** ** Lemmas *)

Lemma elem_of_add_missing {A} `{EqDecision A} (l l' : list A) x : x ∈ add_missing l l' <-> x ∈ l \/ x ∈ l'.
Proof.
  unfold add_missing. rewrite elem_of_app, list_elem_of_filter. destruct (decide (x ∈ l)); tauto.
Qed.

#[export] Instance add_missing_laws : MapperLaws.
Proof.
  split; intros name m db; cbn [auto_migrate add_missing_mapper].
  - intros -> _. apply lookup_insert_eq.
  - intros t ->. case_bool_decide; [done|]. intros _. eexists. split; [apply lookup_insert_eq|].
    split; intros c Hc; apply elem_of_add_missing; tauto.
  - intros name' Hn. destruct (db !! name); [case_bool_decide; [done|]|]; simpl; by rewrite lookup_insert_ne.
Qed.

(** The text for the keys and the one for the snapshots make the tables of the models. *)
Lemma exec_api_keys : exec CreateAPIKeyTable ∅ = {[APIKeyModel_TableName := APIKeyModel_table]}.
Proof. vm_compute. reflexivity. Qed.

Lemma exec_snapshots : exec CreateSnapshotStoreTable ∅ = {[SnapshotModel_TableName := SnapshotModel_table]}.
Proof. vm_compute. reflexivity. Qed.

(** The one for the events makes a table without a column of the model, and with the key
    that the model does not have. *)
Definition event_store_table : tbl :=
  {| columns := filter (fun c => c <> "schema_version") (columns EventModel_table);
     unique := unique EventModel_table ++ [aggregate_version] |}.

Lemma exec_event_store db :
  exec CreateEventStoreTable db !! EventModel_TableName =
    Some (match db !! EventModel_TableName with
          | None => event_store_table
          | Some t => add_unique aggregate_version t
          end).
Proof.
  unfold exec. let l := eval vm_compute in (statements CreateEventStoreTable) in change (statements CreateEventStoreTable) with l.
  cbn [foldl].
  assert (forall db stmt ws, words stmt = ws -> exec_statement db stmt =
    match ws with
    | "CREATE" :: "TABLE" :: "IF" :: "NOT" :: "EXISTS" :: name :: _ =>
        match db !! name with Some _ => db | None => <[name := table_of stmt]> db end
    | "CREATE" :: "UNIQUE" :: "INDEX" :: "IF" :: "NOT" :: "EXISTS" :: _ :: "ON" :: name :: _ =>
        alter (add_unique (names stmt)) name db
    | _ => db
    end) as Hx by (by intros ? ? ? <-).
  repeat (erewrite Hx; [|vm_compute; reflexivity]). clear Hx.
  change "event_store" with EventModel_TableName. rewrite lookup_alter_eq.
  destruct (db !! EventModel_TableName) as [t|] eqn:Hdb; [by rewrite Hdb|]. rewrite lookup_insert_eq. vm_compute. reflexivity.
Qed.

(** On a table with all the columns, appending is the append of [EventStore]. *)
Lemma Append_on_full `{Jsonb, Timestamps} db t clock events v rows :
  db !! EventModel_TableName = Some t -> insert_columns EventModel_table ⊆ columns t ->
  Append_on db clock events v rows = Append (bool_decide (aggregate_version ∈ unique t)) clock events v rows.
Proof.
  intros Ht Hc. unfold Append_on, Append. destruct events as [|e events]; [done|]. rewrite Ht.
  destruct (append_check (e :: events) v rows); [done|]. by rewrite bool_decide_true.
Qed.

Lemma model_columns : insert_columns EventModel_table ⊆ columns EventModel_table.
Proof. intros c Hc. by apply list_elem_of_filter in Hc as [_ Hc]. Qed.

Lemma elem_of_add_unique u u' t : u' ∈ unique (add_unique u t) <-> u' = u \/ u' ∈ unique t.
Proof.
  unfold add_unique. cbn. case_bool_decide; [split; [tauto|intros [->|?]; done]|].
  rewrite elem_of_app, list_elem_of_singleton. tauto.
Qed.

(** ** Properties *)

(** C14: What the ways to set up the event store are worth, from a database without its table.
    After the SQL text alone every append fails, because the text has no column for the
    schema version. After an [AutoMigrate] that succeeded, alone, appends work and versions
    are not unique, so that histories may fork. If the text is executed once more, or for the
    first time, after an [AutoMigrate] that succeeded, appends work and the version of an
    aggregate is unique. An [AutoMigrate] on the table of the text gives appends all their
    columns if it succeeds; whether it does, and whether versions are unique then, is
    the mapper's. *)
Theorem event_store_set_ups `{Jsonb, Timestamps, MapperLaws} db :
  db !! EventModel_TableName = None ->
  let sql := exec CreateEventStoreTable in
  (forall clock events v rows, events <> [] -> exists e, Append_on (sql db) clock events v rows = (rows, Some e)) /\
  (forall db', AutoMigrate_events db = (db', None) ->
     forall clock events v rows, Append_on db' clock events v rows = Append false clock events v rows) /\
  (forall db0 db', db0 ∈ [db; sql db] -> AutoMigrate_events db0 = (db', None) ->
     forall clock events v rows, Append_on (sql db') clock events v rows = Append true clock events v rows) /\
  (forall db', AutoMigrate_events (sql db) = (db', None) -> exists unique_version,
     forall clock events v rows, Append_on db' clock events v rows = Append unique_version clock events v rows).
Proof.
  intros Hdb sql. unfold sql, AutoMigrate_events.
  assert (forall db0 db', db0 ∈ [db; exec CreateEventStoreTable db] ->
    auto_migrate EventModel_TableName EventModel_table db0 = (db', None) ->
    exists t, db' !! EventModel_TableName = Some t /\ columns EventModel_table ⊆ columns t) as Hmig.
  { intros db0 db' Hdb0 Hm. rewrite !elem_of_cons, elem_of_nil in Hdb0. destruct Hdb0 as [->|[->|[]]].
    - pose proof (migrate_new _ EventModel_table _ Hdb) as Hn. rewrite Hm in Hn. eauto.
    - edestruct (migrate_old EventModel_TableName EventModel_table) as (t & Ht & _ & Hc);
        [by rewrite exec_event_store|by rewrite Hm|]. rewrite Hm in Ht. eauto. }
  split_and!.
  - intros clock events v rows Hne. unfold Append_on. destruct events as [|e events]; [done|].
    rewrite exec_event_store, Hdb. destruct (append_check _ _ _) as [err|]; [by eexists|].
    rewrite bool_decide_false; [by eexists|]. intros Hsub.
    assert ("schema_version" ∈ columns event_store_table) as Hin by (apply Hsub; apply (bool_decide_unpack _); by vm_compute).
    apply list_elem_of_filter in Hin. by destruct Hin.
  - intros db' Hm clock events v rows. pose proof (migrate_new _ EventModel_table _ Hdb) as Hn. rewrite Hm in Hn.
    erewrite Append_on_full; [|by apply Hn|apply model_columns].
    assert (bool_decide (aggregate_version ∈ unique EventModel_table) = false) as -> by (vm_compute; reflexivity). done.
  - intros db0 db' Hdb0 Hm clock events v rows. destruct (Hmig db0 db' Hdb0 Hm) as (t & Ht & Hc).
    erewrite Append_on_full; [|by rewrite exec_event_store, Ht|etrans; [apply model_columns|exact Hc]].
    rewrite bool_decide_true; [done|]. apply elem_of_add_unique. by left.
  - intros db' Hm. destruct (Hmig (exec CreateEventStoreTable db) db') as (t & Ht & Hc);
      [apply list_elem_of_further, list_elem_of_here|done|].
    eexists. intros clock events v rows. by erewrite Append_on_full; [|exact Ht|etrans; [apply model_columns|exact Hc]].
Qed.

(** ** Witnesses *)

Lemma event_store_set_ups_witness :
  Append_on (exec CreateEventStoreTable (fst (AutoMigrate_events ∅))) (fun _ => 5) [sample_event "a"] 0 [] =
  Append true (fun _ => 5) [sample_event "a"] 0 [].
Proof.
  destruct (event_store_set_ups ∅ (lookup_empty _)) as (_ & _ & Hb & _).
  apply (Hb ∅); [apply list_elem_of_here|]. reflexivity.
Defined.
