(* ===== verification/ApiKey.v ===== *)
(** * API keys (src/auth/apikey.go, apikey_store.go, apikey_middleware.go)

    Keys, scopes, validation, the rows of the Postgres store, the cache, the
    middleware for one request, and for requests side by side as steps on the shared cache,
    with every reading of the clock a value of its own. The hash function and the random
    bytes are arguments; the store is the interface the middleware is given. *)

From S2P Require Import Prelude GoStrings Timestamps.
From Stdlib Require Import Ascii.

(** ** Data *)

Definition ErrInvalidAPIKey : error := ErrVar "auth.ErrInvalidAPIKey".
Definition ErrExpiredAPIKey : error := ErrVar "auth.ErrExpiredAPIKey".
Definition ErrAPIKeyNotFound : error := ErrVar "auth.ErrAPIKeyNotFound".
Definition ErrInsufficientScope : error := ErrVar "auth.ErrInsufficientScope".

Record APIKey := {
  ID : string;
  Name : string;
  KeyHash : string;
  KeyPrefix : string;
  ServiceName : string;
  Scopes : list string;
  RateLimit : Z;
  ExpiresAt : Z;
  CreatedAt : Z;
  LastUsedAt : Z;
  IsActive : bool
}.

Definition ScopeAll : string := "*".
Definition ScopeInventoryRead : string := "inventory:read".
Definition ScopeInventoryWrite : string := "inventory:write".
Definition ScopeOrderRead : string := "order:read".
Definition ScopeOrderWrite : string := "order:write".
Definition ScopeAgentRead : string := "agent:read".
Definition ScopeAgentWrite : string := "agent:write".
Definition ScopeAdminAll : string := "admin:*".

Definition PredefinedScopes : gmap string (list string) :=
  {["inventory-service" := [ScopeInventoryRead; ScopeInventoryWrite; ScopeOrderRead];
    "order-service" := [ScopeOrderRead; ScopeOrderWrite; ScopeInventoryRead];
    "agent-service" := [ScopeAgentRead; ScopeAgentWrite; ScopeOrderRead];
    "admin-service" := [ScopeAdminAll];
    "readonly" := [ScopeInventoryRead; ScopeOrderRead; ScopeAgentRead]]}.

(** ** Keys *)

(** [hash] is the hex SHA-256, [hex] the 64 random hex digits, [key_id] the
    result of [generateKeyID]. The slice panics on a short service name. *)
Definition GenerateAPIKey (hash : string -> string) (hex key_id : string) (now now' : Z)
    (name serviceName : string) (scopes : list string) (expiresIn : Z) : panics (string * APIKey) :=
  let lowered := ToLower serviceName in
  if bool_decide (String.length lowered < 3)%nat then
    Panics (ErrMsg "slice bounds out of range")
  else
    let svcPrefix := String.substring 0 3 lowered in
    let rawKey := "klng" +:+ "_" +:+ svcPrefix +:+ "_" +:+ hex in
    Returns (rawKey,
      {| ID := key_id; Name := name; KeyHash := hash rawKey;
         KeyPrefix := String.substring 0 12 rawKey; ServiceName := serviceName; Scopes := scopes;
         RateLimit := 1000;
         ExpiresAt := if bool_decide (0 < expiresIn) then time_Add now expiresIn else time_zero;
         CreatedAt := now'; LastUsedAt := time_zero; IsActive := true |}).

Definition ValidateAPIKey (hash : string -> string) (now : Z) (rawKey : string)
    (storedKey : option APIKey) : option error :=
  match storedKey with
  | None => Some ErrAPIKeyNotFound
  | Some k =>
      if negb (IsActive k) then Some ErrInvalidAPIKey
      else if negb (IsZero (ExpiresAt k)) && time_After now (ExpiresAt k) then Some ErrExpiredAPIKey
      else if bool_decide (hash rawKey <> KeyHash k) then Some ErrInvalidAPIKey
      else None
  end.

Definition scope_matches (requiredScope scope : string) : bool :=
  bool_decide (scope = requiredScope) || bool_decide (scope = "*") ||
  (HasSuffix scope ":*" && HasPrefix requiredScope (TrimSuffix scope "*")).

Definition HasScope (k : APIKey) (requiredScope : string) : bool :=
  existsb (scope_matches requiredScope) (Scopes k).

Definition HasAnyScope (k : APIKey) (requiredScopes : list string) : bool :=
  existsb (HasScope k) requiredScopes.

(** ** The rows of the Postgres store *)

Record APIKeyModel := {
  m_KeyID : string;
  m_Name : string;
  m_KeyHash : string;
  m_KeyPrefix : string;
  m_ServiceName : string;
  m_Scopes : string;
  m_RateLimit : Z;
  m_ExpiresAt : option Z;
  m_CreatedAt : Z;
  m_LastUsedAt : option Z;
  m_IsActive : bool
}.

Definition comma : ascii := ","%char.

Fixpoint join_loop (result : string) (scopes : list string) : string :=
  match scopes with
  | [] => result
  | s :: scopes => join_loop (result +:+ "," +:+ s) scopes
  end.

Definition joinScopes (scopes : list string) : string :=
  match scopes with [] => "" | s :: scopes => join_loop s scopes end.

(** [append(scopes, current)] unless it is empty. *)
Definition flush (current : string) (scopes : list string) : list string :=
  if bool_decide (current <> "") then scopes ++ [current] else scopes.

Fixpoint split_loop (s current : string) (scopes : list string) : list string :=
  match s with
  | EmptyString => flush current scopes
  | String c s =>
      if bool_decide (c = comma) then split_loop s "" (flush current scopes)
      else split_loop s (current +:+ String c "") scopes
  end.

Definition splitScopes (s : string) : list string :=
  if bool_decide (s = "") then [] else split_loop s "" [].

(** The row that [Create] hands to the database. *)
Definition create_model (k : APIKey) : APIKeyModel :=
  {| m_KeyID := ID k; m_Name := Name k; m_KeyHash := KeyHash k; m_KeyPrefix := KeyPrefix k;
     m_ServiceName := ServiceName k; m_Scopes := joinScopes (Scopes k); m_RateLimit := RateLimit k;
     m_ExpiresAt := if IsZero (ExpiresAt k) then None else Some (ExpiresAt k);
     m_CreatedAt := CreatedAt k; m_LastUsedAt := None; m_IsActive := IsActive k |}.

(** The row as the insert leaves it: the tags [default:1000] and [default:true] make the
    mapper leave out zero values, for which the columns take their defaults. A zero
    creation time, which the mapper replaces by the clock, is out of scope: the keys
    that are generated have one. The times keep their instant as [Timestamps] says: in the
    columns of the SQL text, which have no zone, if the services run in UTC. *)
Definition in_columns `{Timestamps} (m : APIKeyModel) : APIKeyModel :=
  {| m_KeyID := m_KeyID m; m_Name := m_Name m; m_KeyHash := m_KeyHash m; m_KeyPrefix := m_KeyPrefix m;
     m_ServiceName := m_ServiceName m; m_Scopes := m_Scopes m;
     m_RateLimit := if bool_decide (m_RateLimit m = 0) then 1000 else m_RateLimit m;
     m_ExpiresAt := ts <$> m_ExpiresAt m; m_CreatedAt := ts (m_CreatedAt m);
     m_LastUsedAt := ts <$> m_LastUsedAt m; m_IsActive := true |}.

Definition modelToAPIKey (m : APIKeyModel) : APIKey :=
  {| ID := m_KeyID m; Name := m_Name m; KeyHash := m_KeyHash m; KeyPrefix := m_KeyPrefix m;
     ServiceName := m_ServiceName m; Scopes := splitScopes (m_Scopes m); RateLimit := m_RateLimit m;
     ExpiresAt := default time_zero (m_ExpiresAt m); CreatedAt := m_CreatedAt m;
     LastUsedAt := default time_zero (m_LastUsedAt m); IsActive := m_IsActive m |}.

Definition GetByID (id : string) (rows : list APIKeyModel) : result APIKey :=
  match list_find (fun m => m_KeyID m = id) rows with
  | Some (_, m) => Ok (modelToAPIKey m)
  | None => Err ErrAPIKeyNotFound
  end.

Definition GetByHash (hash : string) (rows : list APIKeyModel) : result APIKey :=
  match list_find (fun m => m_KeyHash m = hash /\ m_IsActive m = true) rows with
  | Some (_, m) => Ok (modelToAPIKey m)
  | None => Err ErrAPIKeyNotFound
  end.

(** Updates of the rows with one key id. *)
Definition update_rows (id : string) (f : APIKeyModel -> APIKeyModel) (rows : list APIKeyModel)
    : list APIKeyModel :=
  (fun m => if bool_decide (m_KeyID m = id) then f m else m) <$> rows.

Definition Update (k : APIKey) : list APIKeyModel -> list APIKeyModel :=
  update_rows (ID k) (fun m =>
    {| m_KeyID := m_KeyID m; m_Name := Name k; m_KeyHash := m_KeyHash m; m_KeyPrefix := m_KeyPrefix m;
       m_ServiceName := m_ServiceName m; m_Scopes := joinScopes (Scopes k);
       m_RateLimit := RateLimit k; m_ExpiresAt := m_ExpiresAt m; m_CreatedAt := m_CreatedAt m;
       m_LastUsedAt := m_LastUsedAt m; m_IsActive := IsActive k |}).

Definition Delete (id : string) : list APIKeyModel -> list APIKeyModel :=
  update_rows id (fun m =>
    {| m_KeyID := m_KeyID m; m_Name := m_Name m; m_KeyHash := m_KeyHash m; m_KeyPrefix := m_KeyPrefix m;
       m_ServiceName := m_ServiceName m; m_Scopes := m_Scopes m; m_RateLimit := m_RateLimit m;
       m_ExpiresAt := m_ExpiresAt m; m_CreatedAt := m_CreatedAt m; m_LastUsedAt := m_LastUsedAt m;
       m_IsActive := false |}).

Definition ListByService (serviceName : string) (rows : list APIKeyModel) : list APIKey :=
  modelToAPIKey <$> filter (fun m => m_ServiceName m = serviceName /\ m_IsActive m = true) rows.

Definition UpdateLastUsed `{Timestamps} (now : Z) (id : string) : list APIKeyModel -> list APIKeyModel :=
  update_rows id (fun m =>
    {| m_KeyID := m_KeyID m; m_Name := m_Name m; m_KeyHash := m_KeyHash m; m_KeyPrefix := m_KeyPrefix m;
       m_ServiceName := m_ServiceName m; m_Scopes := m_Scopes m; m_RateLimit := m_RateLimit m;
       m_ExpiresAt := m_ExpiresAt m; m_CreatedAt := m_CreatedAt m; m_LastUsedAt := Some (ts now);
       m_IsActive := m_IsActive m |}).

(** ** The cache *)

Record cacheEntry := { entry_key : APIKey; entry_expiresAt : Z }.

Record APIKeyCache := { cache : gmap string cacheEntry; ttl : Z }.

Definition NewAPIKeyCache (ttl : Z) : APIKeyCache := {| cache := ∅; ttl := ttl |}.

Definition cache_Get (now : Z) (hash : string) (c : APIKeyCache) : option APIKey :=
  match cache c !! hash with
  | None => None
  | Some entry => if time_After now (entry_expiresAt entry) then None else Some (entry_key entry)
  end.

Definition cache_Set (now : Z) (hash : string) (k : APIKey) (c : APIKeyCache) : APIKeyCache :=
  {| cache := <[hash := {| entry_key := k; entry_expiresAt := time_Add now (ttl c) |}]> (cache c);
     ttl := ttl c |}.

Definition cache_Delete (hash : string) (c : APIKeyCache) : APIKeyCache :=
  {| cache := delete hash (cache c); ttl := ttl c |}.

Definition cache_cleanup (now : Z) (c : APIKeyCache) : APIKeyCache :=
  {| cache := filter (fun ke => negb (time_After now (entry_expiresAt (snd ke)))) (cache c);
     ttl := ttl c |}.

(** ** The middleware *)

Record APIKeyMiddlewareConfig := {
  RequiredScopes : list string;
  AllowQueryParam : bool;
  CacheTTL : Z
}.

Record request := { header_key : string; query_key : string }.

Inductive response :=
| Authenticated (k : APIKey)
| Abort (status : Z) (message : string).

Definition raw_key (cfg : APIKeyMiddlewareConfig) (req : request) : string :=
  if bool_decide (header_key req = "") && AllowQueryParam cfg then query_key req else header_key req.

(** The checks once a key is at hand. [err == ErrExpiredAPIKey] picks the text. *)
Definition authorize (hash : string -> string) (cfg : APIKeyMiddlewareConfig) (now : Z)
    (rawKey : string) (k : APIKey) : response :=
  match ValidateAPIKey hash now rawKey (Some k) with
  | Some e =>
      if bool_decide (e = ErrExpiredAPIKey) then Abort 401 "API key has expired"
      else Abort 401 "Invalid API key"
  | None =>
      if bool_decide (RequiredScopes cfg <> []) && negb (HasAnyScope k (RequiredScopes cfg))
      then Abort 403 "Insufficient API key scope"
      else Authenticated k
  end.

(** One request that no other one interferes with. [None] for the cache: no cache is
    configured. [lookup] is the store's [GetByHash]; the clock is read by the cache's [Get],
    by its [Set] and by the validation. *)
Definition APIKeyMiddleware (hash : string -> string) (cfg : APIKeyMiddlewareConfig) (get set check : Z)
    (lookup : string -> result APIKey) (req : request) (c : option APIKeyCache)
    : option APIKeyCache * response :=
  let rawKey := raw_key cfg req in
  if bool_decide (rawKey = "") then (c, Abort 401 "API key required")
  else
    let keyHash := hash rawKey in
    match c ≫= cache_Get get keyHash with
    | Some k => (c, authorize hash cfg check rawKey k)
    | None =>
        match lookup keyHash with
        | Err _ => (c, Abort 401 "Invalid API key")
        | Ok k => (cache_Set set keyHash k <$> c, authorize hash cfg check rawKey k)
        end
    end.

(** The cache of a middleware: one when [CacheTTL] is positive. *)
Definition new_cache (cfg : APIKeyMiddlewareConfig) : option APIKeyCache :=
  if bool_decide (0 < CacheTTL cfg) then Some (NewAPIKeyCache (CacheTTL cfg)) else None.

(** The value under [APIKeyContextKey], which is a key or something else. *)
Inductive context_value := KeyValue (k : APIKey) | OtherValue.

Definition GetAPIKeyFromContext (val : option context_value) : option APIKey :=
  match val with Some (KeyValue k) => Some k | _ => None end.

Definition RequireScope (requiredScopes : list string) (val : option context_value) : response :=
  match GetAPIKeyFromContext val with
  | None => Abort 401 "API key required"
  | Some k => if HasAnyScope k requiredScopes then Authenticated k else Abort 403 "Insufficient scope"
  end.

(** ** Requests side by side

    The handler runs for many requests at a time; between the cache's [Get], the look-up,
    the cache's [Set] and the validation of one request, the others go on. *)

(** What a request that has come is to do next. *)
Inductive stage :=
| ToLookUp
| ToCache (k : APIKey)
| ToValidate (k : APIKey).

(** What has happened, by the number of the request. *)
Inductive mark :=
| Hit (n : nat) (h : string) (k : APIKey) (t : Z)
| Looked (n : nat) (h : string) (r : result APIKey)
| Cached (n : nat) (h : string) (k : APIKey) (t : Z)
| Answered (n : nat) (t : Z) (resp : response).

Record server := {
  shared : option APIKeyCache;
  arrived : list request;
  pending : gmap nat stage;
  history : list mark
}.

Inductive step :=
| Arrive (now : Z) (req : request)
| LookUp (n : nat) (now : Z) (r : result APIKey)
| Cache (n : nat) (now : Z)
| Validate (n : nat) (now : Z)
| Cleanup (now : Z).

Definition go_on (n : nat) (next : option stage) (c : option APIKeyCache) (new : list mark) (s : server) : server :=
  {| shared := c; arrived := arrived s; pending := partial_alter (fun _ => next) n (pending s);
     history := history s ++ new |}.

Definition do_step (hash : string -> string) (cfg : APIKeyMiddlewareConfig) (e : step) (s : server) : option server :=
  match e with
  | Arrive now req =>
      let n := length (arrived s) in
      let s := {| shared := shared s; arrived := arrived s ++ [req]; pending := pending s; history := history s |} in
      let h := hash (raw_key cfg req) in
      Some (if bool_decide (raw_key cfg req = "")
            then go_on n None (shared s) [Answered n now (Abort 401 "API key required")] s
            else match shared s ≫= cache_Get now h with
                 | Some k => go_on n (Some (ToValidate k)) (shared s) [Hit n h k now] s
                 | None => go_on n (Some ToLookUp) (shared s) [] s
                 end)
  | LookUp n now r =>
      req ← arrived s !! n;
      let h := hash (raw_key cfg req) in
      match pending s !! n, r with
      | Some ToLookUp, Err _ =>
          Some (go_on n None (shared s) [Looked n h r; Answered n now (Abort 401 "Invalid API key")] s)
      | Some ToLookUp, Ok k =>
          Some (go_on n (Some (if shared s then ToCache k else ToValidate k)) (shared s) [Looked n h r] s)
      | _, _ => None
      end
  | Cache n now =>
      req ← arrived s !! n;
      let h := hash (raw_key cfg req) in
      match pending s !! n with
      | Some (ToCache k) =>
          Some (go_on n (Some (ToValidate k)) (cache_Set now h k <$> shared s) [Cached n h k now] s)
      | _ => None
      end
  | Validate n now =>
      req ← arrived s !! n;
      match pending s !! n with
      | Some (ToValidate k) =>
          Some (go_on n None (shared s) [Answered n now (authorize hash cfg now (raw_key cfg req) k)] s)
      | _ => None
      end
  | Cleanup now =>
      Some {| shared := cache_cleanup now <$> shared s; arrived := arrived s; pending := pending s;
              history := history s |}
  end.

Fixpoint do_steps (hash : string -> string) (cfg : APIKeyMiddlewareConfig) (es : list step) (s : server)
    : option server :=
  match es with [] => Some s | e :: es => s ← do_step hash cfg e s; do_steps hash cfg es s end.

Definition new_server (cfg : APIKeyMiddlewareConfig) : server :=
  {| shared := new_cache cfg; arrived := []; pending := ∅; history := [] |}.

(** That a request with number [n] has the key [k] from the cache, in the history [l]: the
    store gave it to a request with the same hash, which cached it, and the [Get] of
    request [n] came after that and read the clock at most [CacheTTL] after the [Set]. *)
Definition from_cache (cfg : APIKeyMiddlewareConfig) (l : list mark) (n : nat) (h : string) (k : APIKey)
    (rest : list mark) : Prop :=
  exists n' set get, [Looked n' h (Ok k); Cached n' h k set; Hit n h k get] ++ rest `sublist_of` l /\
    get <= set + CacheTTL cfg.

(** That it has it from the store, or from the cache. *)
Definition supplied (cfg : APIKeyMiddlewareConfig) (l : list mark) (n : nat) (h : string) (k : APIKey)
    (rest : list mark) : Prop :=
  Looked n h (Ok k) :: rest `sublist_of` l \/ from_cache cfg l n h k rest.

(** What a stored scope grants. *)
Definition grants (scope r : string) : Prop :=
  scope = r \/ scope = "*" \/ exists p rest, scope = p +:+ ":*" /\ r = p +:+ ":" +:+ rest.

(** Scopes that the comma-separated column can hold. *)
Definition storable (s : string) : Prop := s <> "" /\ string_elem comma s = false.

(** A key, a configuration and a request for the examples. *)
Definition example_key : APIKey :=
  {| ID := "k1"; Name := "n"; KeyHash := "h"; KeyPrefix := "klng_inv_abc"; ServiceName := "inventory";
     Scopes := ["inventory:read"]; RateLimit := 1000; ExpiresAt := time_zero; CreatedAt := 5;
     LastUsedAt := time_zero; IsActive := true |}.

Definition example_config : APIKeyMiddlewareConfig :=
  {| RequiredScopes := ["inventory:read"]; AllowQueryParam := false; CacheTTL := 10 |}.

Definition example_request : request := {| header_key := "h"; query_key := "" |}.

(** ** Scopes *)

Lemma scope_matches_spec r s : scope_matches r s = true <-> grants s r.
Proof.
  unfold scope_matches, grants. rewrite !orb_true_iff, !bool_decide_eq_true, andb_true_iff, !HasSuffix_spec.
  assert (forall p, TrimSuffix (p +:+ ":*") "*" = p +:+ ":") as Htrim.
  { intros p. change ":*" with (":" +:+ "*"). rewrite <- append_assoc. apply TrimSuffix_append. }
  split.
  - intros [[?|?]|[[p ->] Hr]]; [by left|by right; left|]. right. right.
    rewrite Htrim, HasPrefix_spec in Hr. destruct Hr as [t ->]. exists p, t.
    by rewrite append_assoc.
  - intros [?|[?|(p & rest & -> & ->)]]; [by left; left|by left; right|]. right. split; [by exists p|].
    rewrite Htrim, HasPrefix_spec. exists rest. by rewrite append_assoc.
Qed.

Lemma HasScope_spec k r : HasScope k r = true <-> exists s, s ∈ Scopes k /\ grants s r.
Proof.
  unfold HasScope. rewrite existsb_exists. 
  split; intros (s & Hs & Hm); exists s; rewrite list_elem_of_In, scope_matches_spec in *; done.
Qed.

Lemma HasAnyScope_spec k rs :
  HasAnyScope k rs = true <-> exists r s, r ∈ rs /\ s ∈ Scopes k /\ grants s r.
Proof.
  unfold HasAnyScope. rewrite existsb_exists. split.
  - intros (r & Hr & Hs). apply HasScope_spec in Hs as (s & ? & ?).
    exists r, s. by rewrite list_elem_of_In.
  - intros (r & s & Hr & Hs & Hg). exists r. rewrite <- list_elem_of_In, HasScope_spec. eauto.
Qed.

(** ** The scopes column *)

Lemma flush_filter current scopes :
  flush current scopes = scopes ++ filter (fun s => s <> "") [current].
Proof.
  unfold flush. rewrite filter_cons, filter_nil. case_bool_decide; 
    destruct (decide (current <> "")); try done. by rewrite app_nil_r.
Qed.

Lemma split_loop_eq s current scopes :
  string_elem comma current = false ->
  split_loop s current scopes = scopes ++ filter (fun s => s <> "") (Split (current +:+ s) comma).
Proof.
  revert current scopes. induction s as [|c s IH]; intros current scopes Hc; cbn [split_loop].
  - by rewrite append_nil_r, Split_last, flush_filter.
  - case_bool_decide as Hcc.
    + rewrite IH by done. subst c. rewrite (Split_part current), flush_filter, <- app_assoc by done.
      by rewrite <- filter_app.
    + rewrite IH; [by rewrite append_assoc|].
      rewrite string_elem_append, Hc. simpl. by rewrite bool_decide_false.
Qed.

Lemma splitScopes_eq s : splitScopes s = filter (fun s => s <> "") (Split s comma).
Proof.
  unfold splitScopes. case_bool_decide as Hs; [by subst|]. by rewrite split_loop_eq.
Qed.

Lemma join_loop_eq r l : join_loop r l = Join (r :: l) ",".
Proof.
  revert r. induction l as [|s l IH]; intros r; cbn [join_loop]; [done|]. rewrite IH.
  destruct l as [|t l]; [done|]. cbn [Join]. by rewrite !append_assoc.
Qed.

(** What a list of scopes becomes in the database. *)
Lemma split_join_scopes l :
  splitScopes (joinScopes l) = filter (fun s => s <> "") (l ≫= fun s => Split s comma).
Proof.
  rewrite splitScopes_eq. destruct l as [|s l]; [done|]. cbn [joinScopes].
  rewrite join_loop_eq. f_equal. apply (Split_Join_gen s l comma).
Qed.

Lemma split_join_storable l : Forall storable (splitScopes (joinScopes l)).
Proof.
  rewrite split_join_scopes. apply Forall_forall. intros s Hs.
  rewrite list_elem_of_filter, list_elem_of_bind in Hs. destruct Hs as (Hne & t & Hs & _).
  split; [done|]. by apply (proj1 (Forall_forall _ _) (Split_parts_free t comma)).
Qed.

Lemma split_join_id l : splitScopes (joinScopes l) = l <-> Forall storable l.
Proof.
  split; [intros <-; apply split_join_storable|]. rewrite split_join_scopes. intros Hl.
  induction Hl as [|s l [Hne Hs] Hl IH]; [done|].
  rewrite bind_cons, filter_app, IH, Split_last by done. by rewrite filter_cons_True.
Qed.

(** C29: A key that is created is read back unchanged exactly when it is active, was
    never used, has a rate limit other than zero, scopes that are non-empty and free of
    commas, and times to the microsecond; in general the key read back is active and
    grants what the comma-separated parts of its scopes grant, so a comma inside a
    scope can add grants, up to everything. *)
Theorem stored_key_round_trip `{Timestamps} k :
  CreatedAt k <> time_zero ->
  let k' := modelToAPIKey (in_columns (create_model k)) in
  (k' = k <-> LastUsedAt k = time_zero /\ Forall storable (Scopes k) /\ RateLimit k <> 0 /\ IsActive k = true /\
     (ExpiresAt k = time_zero \/ ts (ExpiresAt k) = ExpiresAt k) /\ ts (CreatedAt k) = CreatedAt k) /\
  IsActive k' = true /\
  (forall r, HasScope k' r = true <->
     exists s part, s ∈ Scopes k /\ part ∈ Split s comma /\ part <> "" /\ grants part r).
Proof.
  intros _ k'. split; [|split; [done|]].
  - unfold k', modelToAPIKey. destruct k as [? ? ? ? ? l rl ex cr lu ac]; simpl. unfold IsZero. split.
    + intros Hk. injection Hk as Hl Hr He Hc Hu Ha. rewrite split_join_id in Hl.
      split_and!; [done|done| |done| |done]; [intros ->; by rewrite bool_decide_true in Hr|].
      case_bool_decide; [by left|by right].
    + intros (-> & Hl & Hr & -> & He & Hc). rewrite (proj2 (split_join_id l) Hl), bool_decide_false, Hc by done.
      f_equal. case_bool_decide as Hz; [by rewrite Hz|]. simpl. by destruct He.
  - intros r. unfold k'. rewrite HasScope_spec. cbn [modelToAPIKey Scopes create_model in_columns m_Scopes].
    rewrite split_join_scopes. split.
    + intros (part & Hp & Hg). rewrite list_elem_of_filter, list_elem_of_bind in Hp.
      destruct Hp as (? & s & ? & ?). eauto 6.
    + intros (s & part & ? & ? & ? & ?). exists part.
      rewrite list_elem_of_filter, list_elem_of_bind. eauto 6.
Qed.

(** ** Validation and the middleware *)

Lemma ValidateAPIKey_ok hash now raw k :
  ValidateAPIKey hash now raw (Some k) = None <->
  IsActive k = true /\ (ExpiresAt k = time_zero \/ now <= ExpiresAt k) /\ hash raw = KeyHash k.
Proof.
  unfold ValidateAPIKey, IsZero, time_After.
  assert (~ hash raw <> KeyHash k <-> hash raw = KeyHash k) by (split; [apply dec_stable|tauto]).
  destruct (IsActive k); simpl; repeat case_bool_decide; simpl; intuition (try congruence; try lia).
Qed.

(** A service name of fewer than three bytes panics; otherwise the new key is
    accepted until it expires. *)
Lemma GenerateAPIKey_panics hash hex key_id now now' name svc scopes d :
  (String.length (ToLower svc) < 3)%nat <->
  GenerateAPIKey hash hex key_id now now' name svc scopes d = Panics (ErrMsg "slice bounds out of range").
Proof. unfold GenerateAPIKey. by case_bool_decide. Qed.

Lemma GenerateAPIKey_valid hash hex key_id now now' name svc scopes d t raw k :
  GenerateAPIKey hash hex key_id now now' name svc scopes d = Returns (raw, k) ->
  d <= 0 \/ t <= now + d ->
  ValidateAPIKey hash t raw (Some k) = None.
Proof.
  unfold GenerateAPIKey. case_bool_decide; [done|]. intros [= <- <-] Ht.
  apply ValidateAPIKey_ok. simpl. split; [done|]. split; [|done].
  unfold time_Add. case_bool_decide; [right; lia|by left].
Qed.

(** What the checks of a key answer, case by case. *)
Definition verdict (hash : string -> string) (cfg : APIKeyMiddlewareConfig) (now : Z) (rawKey : string) (k : APIKey)
    (resp : response) : Prop :=
  let valid := IsActive k = true /\ (ExpiresAt k = time_zero \/ now <= ExpiresAt k) /\ KeyHash k = hash rawKey in
  let granted := RequiredScopes cfg = [] \/ exists r s, r ∈ RequiredScopes cfg /\ s ∈ Scopes k /\ grants s r in
  (valid /\ granted /\ resp = Authenticated k) \/
  (valid /\ ~ granted /\ resp = Abort 403 "Insufficient API key scope") \/
  (IsActive k = true /\ ExpiresAt k <> time_zero /\ ExpiresAt k < now /\ resp = Abort 401 "API key has expired") \/
  (~ valid /\ (IsActive k = false \/ ExpiresAt k = time_zero \/ now <= ExpiresAt k) /\
   resp = Abort 401 "Invalid API key").

Lemma authorize_verdict hash cfg now rawKey k : verdict hash cfg now rawKey k (authorize hash cfg now rawKey k).
Proof.
  unfold verdict, authorize. rewrite <- HasAnyScope_spec.
  destruct (ValidateAPIKey hash now rawKey (Some k)) as [e|] eqn:Hv.
  - assert (~ (IsActive k = true /\ (ExpiresAt k = time_zero \/ now <= ExpiresAt k) /\ KeyHash k = hash rawKey)) as Hn.
    { intros (? & ? & ?). by rewrite (proj2 (ValidateAPIKey_ok hash now rawKey k)) in Hv. }
    unfold ValidateAPIKey, IsZero, time_After in Hv. right. right.
    destruct (IsActive k); cbn [negb] in Hv; [|injection Hv as <-; by right; split_and!; [|left|]].
    case_bool_decide as Hz; cbn [negb andb] in Hv.
    { case_bool_decide; [injection Hv as <-|done]. by right; split_and!; [|right; left|]. }
    case_bool_decide as He; [injection Hv as <-; by left|].
    case_bool_decide; [injection Hv as <-|done]. right. split_and!; [done|right; right; lia|done].
  - apply ValidateAPIKey_ok in Hv as (? & ? & ?).
    destruct (decide (RequiredScopes cfg = [])) as [Hr|Hr].
    { left. rewrite bool_decide_false by tauto. by split_and!; [..|left|]. }
    rewrite bool_decide_true by done. destruct (HasAnyScope k (RequiredScopes cfg)); [left|right; left];
      (split; [done|]); split; [by right|done|by intros [?|?]|done].
Qed.

(** ** The history of a server *)

(** What the answer to request [n] is, and where it comes from. *)
Definition answer_of (hash : string -> string) (cfg : APIKeyMiddlewareConfig) (l : list mark) (n : nat) (t : Z)
    (req : request) (resp : response) : Prop :=
  let h := hash (raw_key cfg req) in
  (raw_key cfg req = "" /\ resp = Abort 401 "API key required") \/
  (raw_key cfg req <> "" /\ exists e, [Looked n h (Err e); Answered n t resp] `sublist_of` l /\
     resp = Abort 401 "Invalid API key") \/
  (raw_key cfg req <> "" /\ exists k, supplied cfg l n h k [Answered n t resp] /\
     verdict hash cfg t (raw_key cfg req) k resp).

Section server.
Context (hash : string -> string) (cfg : APIKeyMiddlewareConfig).
#[local] Set Default Proof Using "All".

(** That the entries of a cache are in the history [l]. *)
Definition cache_inv (l : list mark) (c : option APIKeyCache) : Prop :=
  forall c', c = Some c' -> ttl c' = CacheTTL cfg /\
    forall h e, cache c' !! h = Some e -> exists n set,
      [Looked n h (Ok (entry_key e)); Cached n h (entry_key e) set] `sublist_of` l /\
      entry_expiresAt e = set + CacheTTL cfg.

Definition stage_inv (l : list mark) (reqs : list request) (n : nat) (st : stage) : Prop :=
  exists req, reqs !! n = Some req /\ raw_key cfg req <> "" /\
    match st with
    | ToLookUp => True
    | ToCache k => [Looked n (hash (raw_key cfg req)) (Ok k)] `sublist_of` l
    | ToValidate k => supplied cfg l n (hash (raw_key cfg req)) k []
    end.

(** What holds of a server: what it says of a key is in its history. *)
Record server_inv (s : server) : Prop := {
  inv_shared : cache_inv (history s) (shared s);
  inv_pending n st : pending s !! n = Some st -> stage_inv (history s) (arrived s) n st;
  inv_answered n t resp : Answered n t resp ∈ history s ->
    exists req, arrived s !! n = Some req /\ answer_of hash cfg (history s) n t req resp
}.

Lemma supplied_app l new n h k rest rest' :
  supplied cfg l n h k rest -> rest' `sublist_of` new -> supplied cfg (l ++ new) n h k (rest ++ rest').
Proof.
  intros [Hl|(n' & set & get & Hl & Hget)] Hr.
  - left. by apply (sublist_app (_ :: rest)).
  - right. exists n', set, get. split; [|done]. by apply (sublist_app (_ :: _ :: _ :: rest)).
Qed.

Lemma supplied_more l new n h k rest : supplied cfg l n h k rest -> supplied cfg (l ++ new) n h k rest.
Proof. intros Hs. rewrite <- (app_nil_r rest). by apply supplied_app, sublist_nil_l. Qed.

Lemma cache_inv_more l new c : cache_inv l c -> cache_inv (l ++ new) c.
Proof.
  intros Hc c' Hc'. destruct (Hc c' Hc') as [? He]. split; [done|]. intros h e Hh.
  destruct (He h e Hh) as (n & set & ? & ?). exists n, set. by split; [apply sublist_inserts_r|].
Qed.

Lemma stage_inv_more l new reqs n st : stage_inv l reqs n st -> stage_inv (l ++ new) reqs n st.
Proof.
  intros (req & ? & ? & Hst). exists req. split_and!; [done..|].
  destruct st; [done|by apply sublist_inserts_r|by apply supplied_more].
Qed.

Lemma answer_of_more l new n t req resp :
  answer_of hash cfg l n t req resp -> answer_of hash cfg (l ++ new) n t req resp.
Proof.
  intros [?|[(? & e & ? & ?)|(? & k & ? & ?)]]; [by left|right; left|right; right]; split; [done| |done|].
  - exists e. by split; [apply sublist_inserts_r|].
  - exists k. by split; [apply supplied_more|].
Qed.

(** What a step of one request has to show. *)
Lemma go_on_inv n next c new s :
  server_inv s -> cache_inv (history s ++ new) c ->
  (forall st, next = Some st -> stage_inv (history s ++ new) (arrived s) n st) ->
  (forall n' t resp, Answered n' t resp ∈ new ->
     exists req, arrived s !! n' = Some req /\ answer_of hash cfg (history s ++ new) n' t req resp) ->
  server_inv (go_on n next c new s).
Proof.
  intros [_ Hp Ha] Hc Hn Hnew. split; cbn [go_on shared pending history arrived]; [done| |].
  - intros n' st. destruct (decide (n' = n)) as [->|Hne].
    + rewrite lookup_partial_alter_eq. apply Hn.
    + rewrite lookup_partial_alter_ne by done. intros ?%Hp. by apply stage_inv_more.
  - intros n' t resp [(req & ? & ?)%Ha|?%Hnew]%elem_of_app; [|done].
    exists req. by split; [|apply answer_of_more].
Qed.

(** A request comes in. *)
Lemma arrive_inv req s :
  server_inv s ->
  server_inv {| shared := shared s; arrived := arrived s ++ [req]; pending := pending s; history := history s |}.
Proof.
  intros [Hc Hp Ha]. split; cbn [shared pending history arrived]; [done| |].
  - intros n st (r & ? & ?)%Hp. exists r. by split; [apply lookup_app_l_Some|].
  - intros n t resp (r & ? & ?)%Ha. exists r. by split; [apply lookup_app_l_Some|].
Qed.

Lemma answered_here n t resp n' t' resp' :
  Answered n t resp ∈ [Answered n' t' resp'] -> n = n' /\ t = t' /\ resp = resp'.
Proof. intros [=]%list_elem_of_singleton. done. Qed.

Lemma Arrive_inv now req s s' :
  server_inv s -> do_step hash cfg (Arrive now req) s = Some s' -> server_inv s'.
Proof.
  intros Hs [= <-]. pose proof (arrive_inv req s Hs) as Hs'. revert Hs'. set (s' := {| shared := _ |}).
  intros Hs'. assert (arrived s' !! length (arrived s) = Some req) as Hn by by apply list_lookup_middle.
  pose proof (inv_shared s Hs) as Hc. case_bool_decide as Hraw.
  + apply go_on_inv; [done|by apply cache_inv_more|done|]. intros n t resp [-> [-> ->]]%answered_here.
    exists req. by split; [|left].
  + destruct (shared s ≫= _) as [k|] eqn:Hk; (apply go_on_inv; [done|by apply cache_inv_more| |by intros n t resp Hin; apply elem_of_nil in Hin || apply list_elem_of_singleton in Hin]);
      intros st [= <-]; exists req; (split_and!; [done..|]); [|done].
    apply bind_Some in Hk as (c & Hcs & Hk). destruct (Hc c Hcs) as [_ He]. unfold cache_Get in Hk.
    destruct (cache c !! _) as [e|] eqn:Hh; [|done]. unfold time_After in Hk. case_bool_decide; [done|]. injection Hk as <-.
    destruct (He _ e Hh) as (n' & set & Hl & Hx). right. exists n', set, now. split; [by apply (sublist_app [_; _])|lia].
Qed.

Lemma LookUp_inv n now r s s' :
  server_inv s -> do_step hash cfg (LookUp n now r) s = Some s' -> server_inv s'.
Proof.
  intros Hs. cbn [do_step].
  destruct (arrived s !! n) as [req|] eqn:Hn; [|done]. cbn. pose proof (inv_shared s Hs) as Hc.
  destruct (pending s !! n) as [[]|] eqn:Hst; [|by destruct r..].
  destruct (inv_pending s Hs n _ Hst) as (req' & Hn' & Hraw & _). rewrite Hn in Hn'. injection Hn' as <-.
  destruct r as [k|e]; intros [= <-]; (apply go_on_inv; [done|by apply cache_inv_more| |]).
  + intros st [= <-]. exists req. split_and!; [done..|].
    destruct (shared s); [by apply sublist_inserts_l|left; by apply sublist_inserts_l].
  + intros n' t resp Hin. by apply list_elem_of_singleton in Hin.
  + done.
  + intros n' t resp [[=]|[-> [-> ->]]%answered_here]%elem_of_cons. exists req. split; [done|]. right. left.
    split; [done|]. exists e. by split; [apply sublist_inserts_l|].
Qed.

Lemma Cache_inv n now s s' :
  server_inv s -> do_step hash cfg (Cache n now) s = Some s' -> server_inv s'.
Proof.
  intros Hs. cbn [do_step].
  destruct (arrived s !! n) as [req|] eqn:Hn; [|done]. cbn.
  destruct (pending s !! n) as [[]|] eqn:Hst; try done. intros [= <-].
  destruct (inv_pending s Hs n _ Hst) as (req' & Hn' & Hraw & Hl). rewrite Hn in Hn'. injection Hn' as <-.
  apply go_on_inv; [done| | |].
  + pose proof (inv_shared s Hs) as Hc. destruct (shared s) as [c|]; [|done]. intros c' [= <-]. destruct (Hc c eq_refl) as [Ht He].
    split; [done|]. cbn [cache cache_Set]. intros h e [[<- <-]|[_ Hh]]%lookup_insert_Some.
    * exists n, now. unfold time_Add. rewrite <- Ht. split; [by apply (sublist_app [_])|done].
    * destruct (He h e Hh) as (n' & set & ? & ?). exists n', set. by split; [apply sublist_inserts_r|].
  + intros st [= <-]. exists req. split_and!; [done..|]. left. by apply sublist_inserts_r.
  + intros n' t resp Hin. by apply list_elem_of_singleton in Hin.
Qed.

Lemma Validate_inv n now s s' :
  server_inv s -> do_step hash cfg (Validate n now) s = Some s' -> server_inv s'.
Proof.
  intros Hs. cbn [do_step].
  destruct (arrived s !! n) as [req|] eqn:Hn; [|done]. cbn.
  destruct (pending s !! n) as [[]|] eqn:Hst; try done. intros [= <-].
  destruct (inv_pending s Hs n _ Hst) as (req' & Hn' & Hraw & Hl). rewrite Hn in Hn'. injection Hn' as <-.
  apply go_on_inv; [done|by apply cache_inv_more, (inv_shared s Hs)|done|].
  intros n' t resp [-> [-> ->]]%answered_here. exists req. split; [done|]. right. right. split; [done|].
  exists k. split; [by apply (supplied_app _ _ _ _ _ [])|apply authorize_verdict].
Qed.

Lemma Cleanup_inv now s s' :
  server_inv s -> do_step hash cfg (Cleanup now) s = Some s' -> server_inv s'.
Proof.
  intros Hs [= <-]. destruct Hs as [Hc Hp Ha]. split; cbn [shared pending history arrived]; [|done|done].
  destruct (shared s) as [c|]; [|done]. intros c' [= <-]. destruct (Hc c eq_refl) as [? He]. split; [done|].
  cbn [cache cache_cleanup]. intros h e [Hh _]%map_lookup_filter_Some. by apply He.
Qed.

Lemma do_steps_inv es s s' : server_inv s -> do_steps hash cfg es s = Some s' -> server_inv s'.
Proof.
  revert s. induction es as [|e es IH]; intros s Hs; cbn [do_steps]; [by intros [= <-]|].
  intros (s1 & He & Hes)%bind_Some. apply (IH s1); [|done]. revert He.
  destruct e; [eapply Arrive_inv|eapply LookUp_inv|eapply Cache_inv|eapply Validate_inv|eapply Cleanup_inv]; exact Hs.
Qed.

Lemma new_server_inv : server_inv (new_server cfg).
Proof.
  split; cbn.
  - intros c. unfold new_cache. case_bool_decide; [|done]. intros [= <-]. split; [done|].
    cbn. intros h e. by rewrite lookup_empty.
  - intros n st. by rewrite lookup_empty.
  - by intros n t resp ?%elem_of_nil.
Qed.

(** A request whose steps follow one another is one call of [APIKeyMiddleware]. *)
Lemma request_alone get set check lookup req s :
  exists es s' new t, do_steps hash cfg es s = Some s' /\
    shared s' = fst (APIKeyMiddleware hash cfg get set check lookup req (shared s)) /\
    history s' = history s ++ new ++
      [Answered (length (arrived s)) t (snd (APIKeyMiddleware hash cfg get set check lookup req (shared s)))].
Proof.
  assert ((arrived s ++ [req]) !! length (arrived s) = Some req) as Hn by by apply list_lookup_middle.
  set (n := length (arrived s)) in *. unfold APIKeyMiddleware. case_bool_decide as Hraw.
  { exists [Arrive get req], (go_on n None (shared s) [Answered n get (Abort 401 "API key required")]
      {| shared := shared s; arrived := arrived s ++ [req]; pending := pending s; history := history s |}), [], get.
    split; [|done]. cbn. by rewrite bool_decide_true. }
  destruct (shared s ≫= cache_Get get (hash (raw_key cfg req))) as [k|] eqn:Hk.
  { eexists [Arrive get req; Validate n check], _, [Hit n _ k get], check. split; [|split].
    - cbn. rewrite bool_decide_false, Hk by done. cbn. rewrite Hn. cbn. rewrite lookup_partial_alter_eq. reflexivity.
    - done.
    - cbn. by rewrite <- app_assoc. }
  destruct (lookup (hash (raw_key cfg req))) as [k|e] eqn:Hl.
  - destruct (shared s) as [c|] eqn:Hc.
    + eexists [Arrive get req; LookUp n get (Ok k); Cache n set; Validate n check], _,
        [Looked n _ (Ok k); Cached n _ k set], check. split; [|split].
      * cbn. rewrite Hc, bool_decide_false, Hk by done. cbn. rewrite Hn. cbn. rewrite lookup_partial_alter_eq. cbn.
        rewrite Hn. cbn. rewrite lookup_partial_alter_eq. cbn. rewrite Hn. cbn. rewrite lookup_partial_alter_eq. reflexivity.
      * done.
      * cbn. by rewrite <- !app_assoc.
    + eexists [Arrive get req; LookUp n get (Ok k); Validate n check], _, [Looked n _ (Ok k)], check. split; [|split].
      * cbn. rewrite Hc, bool_decide_false by done. cbn. rewrite Hn. cbn. rewrite lookup_partial_alter_eq. cbn.
        rewrite Hn. cbn. rewrite lookup_partial_alter_eq. reflexivity.
      * done.
      * cbn. by rewrite <- !app_assoc.
  - eexists [Arrive get req; LookUp n get (Err e)], _, [Looked n _ (Err e)], get. split; [|split].
    + cbn. rewrite bool_decide_false, Hk by done. cbn. rewrite Hn. cbn. rewrite lookup_partial_alter_eq. reflexivity.
    + done.
    + cbn. by rewrite <- !app_assoc.
Qed.

End server.

(** C28: Requests side by side, in any interleaving, with the clock read anew by the
    cache's [Get] and [Set] and by the validation, and whatever the store answers: every
    answer is one of three. A request without a key is refused; one for whose hash the
    cache had nothing and the store no key is refused as invalid; for any other one there is
    a key, which the store gave either to this request or, before it, to one with the same
    hash that cached it, and then the clock of this request's [Get] showed at most
    [CacheTTL] more than the clock of that [Set]: and it is authenticated with that key
    exactly when the key is active, unexpired at the validation and of the hash of what was
    presented, and grants a required scope, if any is required; otherwise it gets 403 for
    want of the scope, and 401 for the rest. *)
Theorem middleware_sound hash cfg es s n t resp :
  do_steps hash cfg es (new_server cfg) = Some s -> Answered n t resp ∈ history s ->
  exists req, arrived s !! n = Some req /\
    let h := hash (raw_key cfg req) in
    (raw_key cfg req = "" /\ resp = Abort 401 "API key required") \/
    (raw_key cfg req <> "" /\ exists e, [Looked n h (Err e); Answered n t resp] `sublist_of` history s /\
       resp = Abort 401 "Invalid API key") \/
    (raw_key cfg req <> "" /\ exists k, supplied cfg (history s) n h k [Answered n t resp] /\
       verdict hash cfg t (raw_key cfg req) k resp).
Proof.
  intros Hes Ha. apply (inv_answered hash cfg s); [|done]. eapply do_steps_inv; [apply new_server_inv|done].
Qed.

(** A request looks the key up, the key is revoked, and the answer goes into the cache at 5:
    it is accepted out of the cache at 15, and refused at 16. *)
Definition example_steps : list step :=
  [Arrive 1 example_request; LookUp 0 1 (Ok example_key); Cache 0 5; Arrive 15 example_request; Validate 0 6;
   Validate 1 20; Cleanup 15; Arrive 16 example_request; LookUp 2 16 (Err ErrAPIKeyNotFound)].

Definition example_server : server :=
  default (new_server example_config) (do_steps id example_config example_steps (new_server example_config)).

Lemma middleware_sound_witness :
  Answered 2 16 (Abort 401 "Invalid API key") ∈ history example_server /\
  exists k, supplied example_config (history example_server) 1 "h" k [Answered 1 20 (Authenticated example_key)] /\
    verdict id example_config 20 "h" k (Authenticated example_key).
Proof.
  split; [vm_compute; repeat (first [left; reflexivity|right])|].
  assert (do_steps id example_config example_steps (new_server example_config) = Some example_server) as Hs
    by (vm_compute; reflexivity).
  assert (Answered 1 20 (Authenticated example_key) ∈ history example_server) as Ha
    by (vm_compute; repeat (first [left; reflexivity|right])).
  assert (arrived example_server !! 1%nat = Some example_request) as Hr by (vm_compute; reflexivity).
  destruct (middleware_sound id example_config example_steps example_server 1 20 (Authenticated example_key) Hs Ha)
    as (req & Hreq & Hcase).
  rewrite Hr in Hreq. injection Hreq as <-. destruct Hcase as [[_ H]|[(_ & e & _ & H)|(_ & k & Hk)]];
    [discriminate H|discriminate H|]. exists k. exact Hk.
Defined.

Lemma stored_key_round_trip_witness :
  HasScope (modelToAPIKey (in_columns (create_model example_key))) "inventory:read" = true.
Proof.
  apply (stored_key_round_trip example_key); [discriminate|]. exists "inventory:read", "inventory:read".
  split_and!; [left|left|discriminate|by left].
Defined.
