(* ===== verification/ApiKeyStore.v ===== *)
(** * The store of API keys (src/auth/apikey.go: APIKeyStore, apikey_store.go, apikey_middleware.go: ServiceAuthClient)

    The interface [APIKeyStore] as a class with its laws, and the Postgres store as
    an instance of it over a table whose statements may fail, before or after
    they took effect. What the middleware does with revoked and created keys is
    proved from the interface. *)

From S2P Require Import Prelude GoStrings Timestamps ApiKey.
From Stdlib Require Import Ascii.

(** ** The interface *)

Class APIKeyStore (S : Type) := {
  Create : APIKey -> S -> S * option error;
  GetByID : string -> S -> S * result APIKey;
  GetByHash : string -> S -> S * result APIKey;
  Update : APIKey -> S -> S * option error;
  Delete : string -> S -> S * option error;
  ListByService : string -> S -> S * result (list APIKey);
  UpdateLastUsed : Z -> string -> S -> S * option error
}.

Definition deactivated (k : APIKey) : APIKey :=
  {| ID := ID k; Name := Name k; KeyHash := KeyHash k; KeyPrefix := KeyPrefix k; ServiceName := ServiceName k;
     Scopes := Scopes k; RateLimit := RateLimit k; ExpiresAt := ExpiresAt k; CreatedAt := CreatedAt k;
     LastUsedAt := LastUsedAt k; IsActive := false |}.

(** What an update may change. *)
Definition updated (by_ k : APIKey) : APIKey :=
  {| ID := ID k; Name := Name by_; KeyHash := KeyHash k; KeyPrefix := KeyPrefix k; ServiceName := ServiceName k;
     Scopes := splitScopes (joinScopes (Scopes by_)); RateLimit := RateLimit by_; ExpiresAt := ExpiresAt k;
     CreatedAt := CreatedAt k; LastUsedAt := LastUsedAt k; IsActive := IsActive by_ |}.

Definition touched `{Timestamps} (now : Z) (k : APIKey) : APIKey :=
  {| ID := ID k; Name := Name k; KeyHash := KeyHash k; KeyPrefix := KeyPrefix k; ServiceName := ServiceName k;
     Scopes := Scopes k; RateLimit := RateLimit k; ExpiresAt := ExpiresAt k; CreatedAt := CreatedAt k;
     LastUsedAt := ts now; IsActive := IsActive k |}.

(** A store holds keys by their id. An operation that reports success did what it is
    for, one that reports an error did that or nothing, and reading changes
    nothing: it answers with what is there, and not-found only when nothing is. *)
Class APIKeyStoreLaws (S : Type) `{Timestamps, APIKeyStore S} := {
  valid : S -> Prop;
  contents : S -> gmap string APIKey;
  stored : APIKey -> APIKey;
  stored_identity k : ID (stored k) = ID k /\ KeyHash (stored k) = KeyHash k /\
    ExpiresAt (stored k) = (if IsZero (ExpiresAt k) then time_zero else ts (ExpiresAt k));
  stored_active k : IsActive k = true -> IsActive (stored k) = true;
  stored_scopes k : Forall storable (Scopes k) -> Scopes (stored k) = Scopes k;
  hash_unique s id id' k k' : valid s -> contents s !! id = Some k -> contents s !! id' = Some k' ->
    KeyHash k = KeyHash k' -> id = id';
  create_law k s : valid s ->
    let '(s', e) := Create k s in
    valid s' /\
    ((contents s !! ID k = None /\ contents s' = <[ID k := stored k]> (contents s)) \/
     (e <> None /\ contents s' = contents s));
  update_law k s : valid s ->
    let '(s', e) := Update k s in
    valid s' /\ (contents s' = alter (updated k) (ID k) (contents s) \/ (e <> None /\ contents s' = contents s));
  delete_law id s : valid s ->
    let '(s', e) := Delete id s in
    valid s' /\ (contents s' = alter deactivated id (contents s) \/ (e <> None /\ contents s' = contents s));
  touch_law now id s : valid s ->
    let '(s', e) := UpdateLastUsed now id s in
    valid s' /\ (contents s' = alter (touched now) id (contents s) \/ (e <> None /\ contents s' = contents s));
  get_law hash s : valid s ->
    let '(s', r) := GetByHash hash s in
    valid s' /\ contents s' = contents s /\
    match r with
    | Ok k => contents s !! ID k = Some k /\ KeyHash k = hash /\ IsActive k = true
    | Err e => e = ErrAPIKeyNotFound ->
        forall id k, contents s !! id = Some k -> KeyHash k = hash -> IsActive k = false
    end
}.

(** ** The Postgres store

    A statement is refused, or its answer is lost after it took effect. *)
Inductive fault := Refused (e : error) | Lost (e : error).

Definition fault_error (f : fault) : error := match f with Refused e | Lost e => e end.

(** [faults] tells of each statement to come whether it fails. *)
Record PostgresAPIKeyStore := { rows : list APIKeyModel; faults : list (option fault) }.

Definition statement {R} (f : list APIKeyModel -> list APIKeyModel * result R) (s : PostgresAPIKeyStore)
    : PostgresAPIKeyStore * result R :=
  let rest := tail (faults s) in
  match head (faults s) with
  | Some (Some (Refused e)) => ({| rows := rows s; faults := rest |}, Err e)
  | Some (Some (Lost e)) => ({| rows := fst (f (rows s)); faults := rest |}, Err e)
  | _ => ({| rows := fst (f (rows s)); faults := rest |}, snd (f (rows s)))
  end.

Definition err_of {R} (r : result R) : option error := match r with Ok _ => None | Err e => Some e end.

Definition exec (f : list APIKeyModel -> list APIKeyModel) (s : PostgresAPIKeyStore) : PostgresAPIKeyStore * option error :=
  let '(s, r) := statement (fun rows => (f rows, Ok tt)) s in (s, err_of r).

Definition ErrDuplicatedKey : error := ErrVar "gorm.ErrDuplicatedKey".

(** The unique indexes on the id and on the hash. *)
Definition insert_row `{Timestamps} (m : APIKeyModel) (rows : list APIKeyModel) : list APIKeyModel * result unit :=
  if bool_decide (m_KeyID m ∈ m_KeyID <$> rows) || bool_decide (m_KeyHash m ∈ m_KeyHash <$> rows)
  then (rows, Err ErrDuplicatedKey)
  else (rows ++ [in_columns m], Ok tt).

#[export] Instance postgres_store `{Timestamps} : APIKeyStore PostgresAPIKeyStore := {
  Create k s := let '(s, r) := statement (insert_row (create_model k)) s in (s, err_of r);
  GetByID id := statement (fun rows => (rows, ApiKey.GetByID id rows));
  GetByHash hash := statement (fun rows => (rows, ApiKey.GetByHash hash rows));
  Update k := exec (ApiKey.Update k);
  Delete id := exec (ApiKey.Delete id);
  ListByService serviceName := statement (fun rows => (rows, Ok (ApiKey.ListByService serviceName rows)));
  UpdateLastUsed now id := exec (ApiKey.UpdateLastUsed now id)
}.

(** ** Use of a store *)

(** Operations between which a key is looked up. *)
Inductive operation := OCreate (k : APIKey) | OUpdate (k : APIKey) | ODelete (id : string) | OTouch (now : Z) (id : string).

Definition operate {S} `{APIKeyStore S} (o : operation) (s : S) : S :=
  match o with
  | OCreate k => fst (Create k s)
  | OUpdate k => fst (Update k s)
  | ODelete id => fst (Delete id s)
  | OTouch now id => fst (UpdateLastUsed now id s)
  end.

Definition operate_all {S} `{APIKeyStore S} (os : list operation) (s : S) : S := foldl (fun s o => operate o s) s os.

(** An update that makes a key active again. *)
Definition reactivates (id : string) (o : operation) : bool :=
  match o with OUpdate k => bool_decide (ID k = id) && IsActive k | _ => false end.

(** ** The client (ServiceAuthClient) *)

Record ServiceAuthClient := { apiKey : string; baseURL : string }.

Definition NewServiceAuthClient (key url : string) : ServiceAuthClient :=
  {| apiKey := key; baseURL := TrimSuffix url "/" |}.

Record http_request := { method : string; url : string; headers : gmap string string }.

Definition APIKeyHeader : string := "X-API-Key".

(** [NewRequest] may refuse the address; [client_do] is the standard client. *)
Definition client_Do {R} (client_do : http_request -> R) (c : ServiceAuthClient) (req : http_request) : R :=
  client_do {| method := method req; url := url req; headers := <[APIKeyHeader := apiKey c]> (headers req) |}.

Definition client_Get {R} (NewRequest : string -> string -> result http_request) (client_do : http_request -> result R)
    (c : ServiceAuthClient) (path : string) : result R :=
  match NewRequest "GET" (baseURL c +:+ path) with
  | Err e => Err e
  | Ok req => client_Do client_do c req
  end.

(** What the middleware reads of a request without a key in its query. *)
Definition key_request (req : http_request) : request :=
  {| header_key := default "" (headers req !! APIKeyHeader); query_key := "" |}.

(** ** The table as a map of keys *)

Definition row_map (rows : list APIKeyModel) : gmap string APIKey :=
  list_to_map ((fun m => (m_KeyID m, modelToAPIKey m)) <$> rows).

Definition distinct_rows (rows : list APIKeyModel) : Prop := NoDup (m_KeyID <$> rows) /\ NoDup (m_KeyHash <$> rows).

Lemma row_map_keys rows : ((fun m => (m_KeyID m, modelToAPIKey m)) <$> rows).*1 = m_KeyID <$> rows.
Proof. by rewrite <- list_fmap_compose. Qed.

Lemma row_map_update id f g rows :
  (forall m, m_KeyID (f m) = m_KeyID m) -> (forall m, modelToAPIKey (f m) = g (modelToAPIKey m)) ->
  row_map (update_rows id f rows) = alter g id (row_map rows).
Proof.
  intros Hid Hg. unfold row_map, update_rows. induction rows as [|m rows IH].
  { apply map_eq. intros i. cbn [fmap list_fmap]. rewrite list_to_map_nil, lookup_empty.
    destruct (decide (id = i)) as [<-|Hne]; [by rewrite lookup_alter_eq, lookup_empty|].
    by rewrite lookup_alter_ne, lookup_empty. }
  rewrite !fmap_cons, !list_to_map_cons, IH. apply map_eq. intros i. case_bool_decide as Hm.
  - rewrite Hid, Hg, Hm. destruct (decide (id = i)) as [<-|Hne].
    + by rewrite lookup_insert_eq, lookup_alter_eq, lookup_insert_eq.
    + by rewrite lookup_insert_ne, !lookup_alter_ne, lookup_insert_ne.
  - destruct (decide (id = i)) as [<-|Hne].
    + by rewrite lookup_insert_ne, !lookup_alter_eq, lookup_insert_ne.
    + rewrite lookup_alter_ne by done. destruct (decide (m_KeyID m = i)) as [<-|Hne'].
      * by rewrite !lookup_insert_eq.
      * by rewrite !lookup_insert_ne, lookup_alter_ne.
Qed.

Lemma update_fmap {B} (g : APIKeyModel -> B) id f rows :
  (forall m, g (f m) = g m) -> g <$> update_rows id f rows = g <$> rows.
Proof.
  intros Hg. unfold update_rows. rewrite <- list_fmap_compose. apply list_fmap_ext. intros i m _. simpl.
  case_bool_decide; [apply Hg|done].
Qed.

Lemma row_map_Some rows id k :
  distinct_rows rows -> row_map rows !! id = Some k <-> exists m, m ∈ rows /\ m_KeyID m = id /\ modelToAPIKey m = k.
Proof.
  intros Hd. unfold row_map. rewrite <- elem_of_list_to_map by (rewrite row_map_keys; apply Hd). rewrite list_elem_of_fmap.
  split; [intros (m & [= -> ->] & Hm)|intros (m & Hm & <- & <-)]; by exists m.
Qed.

(** ** The Postgres store keeps the promises of the interface *)

Definition postgres_valid (s : PostgresAPIKeyStore) : Prop :=
  distinct_rows (rows s) /\ Forall (fun f => fault_error <$> f <> Some ErrAPIKeyNotFound) (faults s).

Lemma tail_faults s : postgres_valid s -> Forall (fun f => fault_error <$> f <> Some ErrAPIKeyNotFound) (tail (faults s)).
Proof. intros [_ Hf]. destruct Hf; [constructor|done]. Qed.

(** A statement did what it does, or reports an error and did nothing. *)
Lemma statement_cases {R} (f : list APIKeyModel -> list APIKeyModel * result R) s :
  postgres_valid s -> distinct_rows (fst (f (rows s))) ->
  let '(s', r) := statement f s in
  postgres_valid s' /\
  ((rows s' = fst (f (rows s)) /\ (r = snd (f (rows s)) \/ exists e, r = Err e /\ e <> ErrAPIKeyNotFound)) \/
   (rows s' = rows s /\ exists e, r = Err e /\ e <> ErrAPIKeyNotFound)).
Proof.
  intros Hv Hd. pose proof (tail_faults s Hv) as Ht. destruct Hv as [Hids Hf]. unfold statement.
  destruct (faults s) as [|[[e|e]|] fs] eqn:Hfs; simpl in *.
  - split; [by split|]. left. auto.
  - apply Forall_inv in Hf. split; [by split|]. right. split; [done|]. exists e. split; [done|]. intros ->. by apply Hf.
  - apply Forall_inv in Hf. split; [by split|]. left. split; [done|]. right. exists e. split; [done|]. intros ->. by apply Hf.
  - split; [by split|]. left. auto.
Qed.

Lemma exec_update id f g s :
  postgres_valid s -> (forall m, m_KeyID (f m) = m_KeyID m) -> (forall m, m_KeyHash (f m) = m_KeyHash m) ->
  (forall m, modelToAPIKey (f m) = g (modelToAPIKey m)) ->
  let '(s', e) := exec (update_rows id f) s in
  postgres_valid s' /\
  (row_map (rows s') = alter g id (row_map (rows s)) \/ (e <> None /\ row_map (rows s') = row_map (rows s))).
Proof.
  intros Hv Hid Hh Hg. unfold exec.
  pose proof (statement_cases (fun rows => (update_rows id f rows, Ok tt)) s Hv) as Hs.
  destruct (statement _ s) as [s' r]. destruct Hs as [Hv' Hs].
  { unfold distinct_rows. simpl. rewrite !update_fmap by done. apply Hv. }
  split; [done|]. simpl in Hs. destruct Hs as [[-> _]|[-> (e & -> & _)]]; [left|by right].
  by apply row_map_update.
Qed.

#[export] Instance postgres_laws `{Timestamps} : APIKeyStoreLaws PostgresAPIKeyStore.
Proof.
  refine {| valid := postgres_valid; contents s := row_map (rows s);
            stored k := modelToAPIKey (in_columns (create_model k)) |}.
  - intros k. split_and!; [done..|]. simpl. unfold IsZero. by case_bool_decide.
  - done.
  - intros k Hk. by apply split_join_id.
  - intros s id id' k k' Hv (m & Hm & <- & <-)%row_map_Some (m' & Hm' & <- & <-)%row_map_Some Hh; [|apply Hv..].
    simpl in Hh. apply list_elem_of_lookup in Hm as [i Hi]. apply list_elem_of_lookup in Hm' as [i' Hi'].
    assert (i = i') as ->; [|congruence].
    apply (NoDup_lookup (m_KeyHash <$> rows s) i i' (m_KeyHash m)); [apply Hv|..]; rewrite list_lookup_fmap.
    + by rewrite Hi.
    + by rewrite Hi', Hh.
  - intros k s Hv. cbn [Create postgres_store].
    pose proof (statement_cases (insert_row (create_model k)) s Hv) as Hs.
    unfold insert_row in *. destruct (_ || _) eqn:Hdup.
    + destruct (statement _ s) as [s' r]. simpl in Hs. destruct Hs as [Hv' Hs]; [apply Hv|]. split; [done|]. right.
      destruct Hs as [[-> [->|(e & -> & _)]]|[-> (e & -> & _)]]; done.
    + apply orb_false_iff in Hdup as [Hid Hh]. rewrite bool_decide_eq_false in Hid, Hh.
      destruct (statement _ s) as [s' r]. simpl in Hs. destruct Hs as [Hv' Hs].
      { unfold distinct_rows. rewrite !fmap_app. split; (apply NoDup_app; split; [apply Hv|]; split; [|apply NoDup_singleton]);
        intros x Hx ->%list_elem_of_singleton; [by apply Hid|by apply Hh]. }
      split; [done|]. destruct Hs as [[-> _]|[-> (e & -> & _)]]; [left|by right]. split.
      * apply not_elem_of_list_to_map_1. by rewrite row_map_keys.
      * unfold row_map. rewrite fmap_app. cbn [fmap list_fmap].
        apply (list_to_map_snoc _ (ID k)). by rewrite row_map_keys.
  - intros k s Hv. by apply (exec_update (ID k) _ (updated k)).
  - intros id s Hv. by apply (exec_update id _ deactivated).
  - intros now id s Hv. by apply (exec_update id _ (touched now)).
  - intros hash s Hv. cbn [GetByHash postgres_store].
    pose proof (statement_cases (fun rows => (rows, ApiKey.GetByHash hash rows)) s Hv (proj1 Hv)) as Hs.
    destruct (statement _ s) as [s' r]. destruct Hs as [Hv' Hs]. split; [done|]. simpl in Hs.
    assert (rows s' = rows s) as Hrows by (by destruct Hs as [[-> _]|[-> _]]). split; [by rewrite Hrows|].
    assert (r = ApiKey.GetByHash hash (rows s) \/ exists e, r = Err e /\ e <> ErrAPIKeyNotFound) as [->|(e & -> & He)]
      by (destruct Hs as [[_ ?]|[_ ?]]; auto); [|done].
    unfold ApiKey.GetByHash. destruct (list_find _ (rows s)) as [[i m]|] eqn:Hf.
    + apply list_find_Some in Hf as (Hm%list_elem_of_lookup_2 & [Hh Ha] & _). split; [|done].
      apply row_map_Some; [apply Hv|]. eauto.
    + intros _ id k Hk Hh. apply row_map_Some in Hk as (m & Hm & <- & <-); [|apply Hv].
      apply list_find_None in Hf. rewrite Forall_forall in Hf. specialize (Hf m Hm).
      apply not_true_iff_false. intros Ha. by apply Hf.
Defined.

(** ** Keys in use *)

Section clients.
Context {S : Type} `{APIKeyStoreLaws S} (hash : string -> string).
#[local] Set Default Proof Using "All".

(** The middleware over a store at one moment. *)
Definition serve (cfg : APIKeyMiddlewareConfig) (now : Z) (req : request) (c : option APIKeyCache) (s : S) : response :=
  snd (APIKeyMiddleware hash cfg now now now (fun h => snd (GetByHash h s)) req c).

Lemma operate_valid o s : valid s -> valid (operate o s).
Proof.
  intros Hv. destruct o as [k|k|id|now id]; simpl;
  [pose proof (create_law k s Hv) as Hl; destruct (Create k s)|pose proof (update_law k s Hv) as Hl; destruct (Update k s)
  |pose proof (delete_law id s Hv) as Hl; destruct (Delete id s)|pose proof (touch_law now id s Hv) as Hl; destruct (UpdateLastUsed now id s)];
  apply Hl.
Qed.

(** A key that is not active stays so until an update makes it active. *)
Lemma operate_inactive o s id k :
  valid s -> contents s !! id = Some k -> IsActive k = false -> reactivates id o = false ->
  exists k', contents (operate o s) !! id = Some k' /\ IsActive k' = false.
Proof.
  intros Hv Hk Ha Hr.
  assert (forall f i s', (contents s' = alter f i (contents s) \/ contents s' = contents s) ->
    (i = id -> IsActive (f k) = false) -> exists k', contents s' !! id = Some k' /\ IsActive k' = false) as Halter.
  { intros f i s' [-> | ->] Hf; [|by exists k]. destruct (decide (i = id)) as [->|Hne].
    - exists (f k). rewrite lookup_alter_eq, Hk. auto.
    - exists k. by rewrite lookup_alter_ne. }
  destruct o as [k0|k0|id0|now id0]; simpl in *.
  - pose proof (create_law k0 s Hv) as Hl. destruct (Create k0 s) as [s' e]. destruct Hl as [_ [[Hn Hs]|[_ Hs]]]; simpl; rewrite Hs.
    + exists k. rewrite lookup_insert_ne by congruence. done.
    + by exists k.
  - pose proof (update_law k0 s Hv) as Hl. destruct (Update k0 s) as [s' e]. destruct Hl as [_ Hs].
    apply (Halter (updated k0) (ID k0)); [destruct Hs as [?|[_ ?]]; auto|]. intros <-. simpl.
    by rewrite bool_decide_true in Hr.
  - pose proof (delete_law id0 s Hv) as Hl. destruct (Delete id0 s) as [s' e]. destruct Hl as [_ Hs].
    apply (Halter deactivated id0); [destruct Hs as [?|[_ ?]]; auto|done].
  - pose proof (touch_law now id0 s Hv) as Hl. destruct (UpdateLastUsed now id0 s) as [s' e]. destruct Hl as [_ Hs].
    apply (Halter (touched now) id0); [destruct Hs as [?|[_ ?]]; auto|done].
Qed.

Lemma operate_all_inactive os s id k :
  valid s -> contents s !! id = Some k -> IsActive k = false -> Forall (fun o => reactivates id o = false) os ->
  valid (operate_all os s) /\ exists k', contents (operate_all os s) !! id = Some k' /\ IsActive k' = false.
Proof.
  intros Hv Hk Ha Hos. revert s k Hv Hk Ha. induction Hos as [|o os Ho Hos IH]; intros s k Hv Hk Ha; [by eauto|].
  destruct (operate_inactive o s id k Hv Hk Ha Ho) as (k' & Hk' & Ha'). simpl.
  apply (IH _ k'); [by apply operate_valid|done..].
Qed.

(** What the middleware lets through comes from the cache or is an active key of
    the store. *)
Lemma serve_authenticated cfg now req c s k :
  valid s -> serve cfg now req c s = Authenticated k ->
  (c ≫= cache_Get now (hash (raw_key cfg req)) = Some k) \/
  (contents s !! ID k = Some k /\ IsActive k = true).
Proof.
  intros Hv. unfold serve, APIKeyMiddleware. case_bool_decide; [done|].
  assert (forall k0, authorize hash cfg now (raw_key cfg req) k0 = Authenticated k -> k0 = k) as Hauth.
  { intros k0. unfold authorize. destruct (ValidateAPIKey _ _ _ _); [by case_bool_decide|].
    destruct (_ && _); [done|]. by intros [= ->]. }
  destruct (c ≫= _) as [k0|]; [left; f_equal; by apply Hauth|].
  pose proof (get_law (hash (raw_key cfg req)) s Hv) as Hg. destruct (GetByHash _ s) as [s' [k0|e]]; [|done]. simpl.
  intros <-%Hauth. right. destruct Hg as (_ & _ & ? & _ & ?). done.
Qed.

(** Once the deletion of a key reports success, whatever else is stored and whatever
    statements fail, the middleware lets no request through as that key until an
    update makes it active again, other than from an entry of its cache that has
    not expired. *)
Theorem revoked_key_refused id k s os cfg now req c k' :
  valid s -> contents s !! id = Some k -> snd (Delete id s) = None ->
  Forall (fun o => reactivates id o = false) os ->
  serve cfg now req c (operate_all os (fst (Delete id s))) = Authenticated k' ->
  ID k' <> id \/ (c ≫= cache_Get now (hash (raw_key cfg req)) = Some k').
Proof.
  intros Hv Hk Hd Hos Hs. pose proof (delete_law id s Hv) as Hl. destruct (Delete id s) as [s' e]. simpl in *. subst e.
  destruct Hl as [Hv' [Hc|[? _]]]; [|done].
  destruct (operate_all_inactive os s' id (deactivated k)) as (Hv2 & k2 & Hk2 & Ha2);
    [exact Hv'|by rewrite Hc, lookup_alter_eq, Hk|reflexivity|exact Hos|].
  apply serve_authenticated in Hs as [?|[Hk' Ha']]; [by right| |exact Hv2]. left. intros <-. congruence.
Qed.

(** A key that was issued and stored opens the routes its scopes grant to the client
    that carries it, until it expires, unless the look-up fails. *)
Lemma issued_key_works hex kid t0 t1 name serviceName scopes expiresIn raw k s cfg now do_req req :
  GenerateAPIKey hash hex kid t0 t1 name serviceName scopes expiresIn = Returns (raw, k) ->
  valid s -> snd (Create k s) = None -> Forall storable scopes ->
  (RequiredScopes cfg = [] \/ HasAnyScope k (RequiredScopes cfg) = true) ->
  (expiresIn <= 0 \/ now <= ts (t0 + expiresIn)) ->
  let s' := fst (Create k s) in
  client_Do (fun r => serve cfg now (key_request r) None s') {| apiKey := raw; baseURL := do_req |} req =
    match snd (GetByHash (hash raw) s') with Ok _ => Authenticated (stored k) | Err _ => Abort 401 "Invalid API key" end.
Proof.
  intros Hg Hv Hcr Hsc Hreq Hexp s'. pose proof (create_law k s Hv) as Hl. unfold s'.
  destruct (Create k s) as [s1 e]. simpl in Hcr. subst e. destruct Hl as [Hv' [[Hn Hc]|[? _]]]; [|done]. cbn [fst].
  unfold GenerateAPIKey in Hg. case_bool_decide; [done|]. injection Hg as Hraw Hkk.
  assert (raw <> "") as Hne by (rewrite <- Hraw; done).
  assert (KeyHash k = hash raw) as Hkh by (rewrite <- Hkk, <- Hraw; done).
  assert (Scopes k = scopes /\ IsActive k = true /\
    ExpiresAt k = if bool_decide (0 < expiresIn) then time_Add t0 expiresIn else time_zero) as (Hks & Hka & Hke)
    by (rewrite <- Hkk; done).
  clear Hkk Hraw. unfold client_Do, serve, APIKeyMiddleware, key_request, raw_key. cbn [headers header_key query_key apiKey].
  rewrite lookup_insert_eq. cbn [default from_option id]. rewrite (bool_decide_false (raw = "")) by done. cbn [andb].
  rewrite bool_decide_false by done. cbn [mbind option_bind].
  pose proof (get_law (hash raw) s1 Hv') as Hget. destruct (GetByHash (hash raw) s1) as [s2 [k2|e]]; [|done]. cbn [snd].
  destruct Hget as (_ & _ & Hk2 & Hh2 & _). destruct (stored_identity k) as (Hid & Hhash & Hsexp).
  assert (contents s1 !! ID k = Some (stored k)) as Hst by (by rewrite Hc, lookup_insert_eq).
  assert (ID k2 = ID k) as Hid2 by (eapply hash_unique; [exact Hv'|exact Hk2|exact Hst|congruence]).
  rewrite Hid2, Hst in Hk2. injection Hk2 as <-.
  unfold authorize, ValidateAPIKey. rewrite (stored_active k Hka), Hsexp, Hhash, Hkh. cbn [negb].
  rewrite (bool_decide_false (hash raw <> hash raw)) by (intros Hx; by apply Hx).
  set (ex := if IsZero (ExpiresAt k) then _ else _).
  assert (negb (IsZero ex) && time_After now ex = false) as ->.
  { unfold ex, IsZero, time_After. clear ex.
    destruct (bool_decide (ExpiresAt k = time_zero)) eqn:Hz; [by rewrite bool_decide_true|].
    rewrite (bool_decide_false (_ < now)); [by rewrite andb_false_r|]. rewrite Hke in Hz |- *.
    destruct (bool_decide (0 < expiresIn)) eqn:Hx; [|by rewrite bool_decide_true in Hz].
    apply bool_decide_eq_true in Hx. unfold time_Add. lia. }
  destruct Hreq as [-> | Hany]; [done|].
  assert (HasAnyScope (stored k) (RequiredScopes cfg) = true) as ->.
  { unfold HasAnyScope, HasScope in *. by rewrite stored_scopes by (by rewrite Hks). }
  by rewrite andb_false_r.
Qed.

End clients.

(** The key of the examples, revoked, and an update that the database refuses. *)
Definition example_store : PostgresAPIKeyStore :=
  {| rows := [create_model example_key];
     faults := [None; None; Some (Refused (ErrExt 1)); None] |}.

Lemma revoked_key_refused_witness :
  let s := example_store in
  let os := [OUpdate (deactivated example_key); ODelete "k9"] in
  serve (fun h => h) example_config 3 example_request None s = Authenticated example_key /\
  (forall k', serve (fun h => h) example_config 4 example_request None (operate_all os (fst (Delete "k1" s))) = Authenticated k' ->
     ID k' <> "k1").
Proof.
  intros s os. split; [vm_compute; reflexivity|]. intros k' Hk'.
  destruct (revoked_key_refused (fun h => h) "k1" example_key s os example_config 4 example_request None k')
    as [Hn|Hc]; [| | | |exact Hk'|exact Hn|discriminate Hc].
  - change (postgres_valid example_store). split; [split; apply (bool_decide_unpack _); vm_compute; exact I|].
    unfold example_store. cbn [faults]. repeat (apply Forall_cons_2; [discriminate|]). apply Forall_nil_2.
  - vm_compute. reflexivity.
  - vm_compute. reflexivity.
  - repeat (apply Forall_cons_2; [reflexivity|]). apply Forall_nil_2.
Defined.
