(* ===== verification/ApiKeySystem.v ===== *)
(** * Services behind one store of API keys (src/auth/apikey_middleware.go, apikey_store.go)

    Any number of instances of the middleware, each with its own configuration and cache,
    over one store that others operate on. A request that misses the cache asks the
    store, and only later puts the answer into the cache and answers; requests of all
    instances, clean-ups, operations and the updates of the last use, which run in
    goroutines of their own, interleave. *)

From S2P Require Import Prelude GoStrings Timestamps ApiKey ApiKeyStore.

(** ** One request in its two parts *)

(** Up to the look-up: an answer, or the hash to ask the store for. *)
Definition begin_request (hash : string -> string) (cfg : APIKeyMiddlewareConfig) (now : Z) (req : request)
    (c : option APIKeyCache) : response + string :=
  let rawKey := raw_key cfg req in
  if bool_decide (rawKey = "") then inl (Abort 401 "API key required")
  else
    match c ≫= cache_Get now (hash rawKey) with
    | Some k => inl (authorize hash cfg now rawKey k)
    | None => inr (hash rawKey)
    end.

(** From the answer of the store on. *)
Definition finish_request (hash : string -> string) (cfg : APIKeyMiddlewareConfig) (now : Z) (req : request)
    (r : result APIKey) (c : option APIKeyCache) : option APIKeyCache * response :=
  let rawKey := raw_key cfg req in
  match r with
  | Err _ => (c, Abort 401 "Invalid API key")
  | Ok k => (cache_Set now (hash rawKey) k <$> c, authorize hash cfg now rawKey k)
  end.

(** ** The system *)

Record instance := {
  config : APIKeyMiddlewareConfig;
  keys : option APIKeyCache;
  looked_up : list (Z * request * result APIKey)   (* when the store was asked, and its answer *)
}.

Record system (S : Type) := {
  store : S;
  instances : list instance;
  touching : list string;                          (* ids whose last use is still to be written *)
  answers : list (nat * Z * response)              (* by instance and time *)
}.
Arguments store {S}.
Arguments instances {S}.
Arguments touching {S}.
Arguments answers {S}.

Inductive event :=
| Operate (o : operation)
| Begin (i : nat) (now : Z) (req : request)
| Finish (i n : nat) (now : Z)
| Touch (n : nat) (now : Z)
| Clean (i : nat) (now : Z).

Definition event_time (e : event) : option Z :=
  match e with Operate _ => None | Begin _ t _ | Finish _ _ t | Touch _ t | Clean _ t => Some t end.

Definition with_keys (c : option APIKeyCache) (l : list (Z * request * result APIKey)) (x : instance) : instance :=
  {| config := config x; keys := c; looked_up := l |}.

Definition used (resp : response) : list string := match resp with Authenticated k => [ID k] | Abort _ _ => [] end.

Section system.
Context {S : Type} `{APIKeyStore S} (hash : string -> string).

(** An answer of instance [i], whose state becomes [x]; a request that passed leaves the
    goroutine that updates its key. *)
Definition respond (i : nat) (now : Z) (resp : response) (x : instance) (w : system S) : system S :=
  {| store := store w; instances := <[i := x]> (instances w); touching := touching w ++ used resp;
     answers := answers w ++ [(i, now, resp)] |}.

Definition with_store (s : S) (xs : list instance) (w : system S) : system S :=
  {| store := s; instances := xs; touching := touching w; answers := answers w |}.

(** [latency]: no request takes longer from its look-up to its answer. *)
Definition handle (latency : Z) (e : event) (w : system S) : option (system S) :=
  match e with
  | Operate o => Some (with_store (operate o (store w)) (instances w) w)
  | Begin i now req =>
      x ← instances w !! i;
      match begin_request hash (config x) now req (keys x) with
      | inl resp => Some (respond i now resp x w)
      | inr h =>
          let '(s, r) := GetByHash h (store w) in
          Some (with_store s (<[i := with_keys (keys x) (looked_up x ++ [(now, req, r)]) x]> (instances w)) w)
      end
  | Finish i n now =>
      x ← instances w !! i;
      '(t, req, r) ← looked_up x !! n;
      if bool_decide (t <= now <= t + latency) then
        let '(c, resp) := finish_request hash (config x) now req r (keys x) in
        Some (respond i now resp (with_keys c (delete n (looked_up x)) x) w)
      else None
  | Touch n now =>
      id ← touching w !! n;
      Some {| store := operate (OTouch now id) (store w); instances := instances w;
              touching := delete n (touching w); answers := answers w |}
  | Clean i now =>
      x ← instances w !! i;
      Some (with_store (store w) (<[i := with_keys (cache_cleanup now <$> keys x) (looked_up x) x]> (instances w)) w)
  end.

Fixpoint handle_all (latency : Z) (es : list event) (w : system S) : option (system S) :=
  match es with [] => Some w | e :: es => w ← handle latency e w; handle_all latency es w end.

Definition new_instance (cfg : APIKeyMiddlewareConfig) : instance :=
  {| config := cfg; keys := new_cache cfg; looked_up := [] |}.

Definition new_system (s : S) (cfgs : list APIKeyMiddlewareConfig) : system S :=
  {| store := s; instances := new_instance <$> cfgs; touching := []; answers := [] |}.

End system.

(** Of the keys [P] an instance has only old news: their look-ups began by the time [t], and
    they are cached for no longer than the time to live after such a request has ended. *)
Definition fading (P : APIKey -> Prop) (latency t : Z) (x : instance) : Prop :=
  (forall t' req k, (t', req, Ok k) ∈ looked_up x -> P k -> t' <= t) /\
  (forall c, keys x = Some c -> ttl c = CacheTTL (config x) /\
     forall h e, cache c !! h = Some e -> P (entry_key e) -> entry_expiresAt e <= t + latency + ttl c).

(** An answer with a key of [P] came by then. *)
Definition old_answer (P : APIKey -> Prop) (latency t : Z) (cfgs : list APIKeyMiddlewareConfig) (a : nat * Z * response) : Prop :=
  let '(i, t', resp) := a in
  forall k cfg, resp = Authenticated k -> P k -> cfgs !! i = Some cfg -> t' <= t + latency + Z.max 0 (CacheTTL cfg).

(** ** Lemmas *)

(** The two parts make the request of [ApiKey], if the clock stands still in between. *)
Lemma request_parts hash cfg now lookup req c :
  APIKeyMiddleware hash cfg now now now lookup req c =
    match begin_request hash cfg now req c with
    | inl resp => (c, resp)
    | inr h => finish_request hash cfg now req (lookup h) c
    end.
Proof.
  unfold APIKeyMiddleware, begin_request, finish_request. case_bool_decide; [done|].
  by destruct (c ≫= _).
Qed.

Lemma authorize_key hash cfg now rawKey k k' : authorize hash cfg now rawKey k = Authenticated k' -> k' = k.
Proof.
  unfold authorize. destruct (ValidateAPIKey _ _ _ _); [by case_bool_decide|].
  destruct (_ && _); [done|]. by intros [= ->].
Qed.

Lemma new_instance_fading P latency t cfg : fading P latency t (new_instance cfg).
Proof.
  split; [intros t' req k Hin; by apply elem_of_nil in Hin|].
  unfold new_instance, new_cache. cbn [keys config]. case_bool_decide; [|done]. intros c [= <-].
  split; [done|]. intros h e He. cbn in He. by rewrite lookup_empty in He.
Qed.

Lemma fading_cleaned P latency t now x :
  fading P latency t x -> fading P latency t (with_keys (cache_cleanup now <$> keys x) (looked_up x) x).
Proof.
  intros [Hl Hc]. split; [done|]. cbn [keys config with_keys]. destruct (keys x) as [c|]; [|done].
  intros c' [= <-]. destruct (Hc c eq_refl) as [Ht He]. split; [done|].
  intros h e [Hh _]%map_lookup_filter_Some. by apply (He h).
Qed.

Lemma fading_asked P latency t x now req r :
  fading P latency t x -> (forall k, r = Ok k -> P k -> now <= t) ->
  fading P latency t (with_keys (keys x) (looked_up x ++ [(now, req, r)]) x).
Proof.
  intros [Hl Hc] Hr. split; [|done]. cbn [looked_up with_keys]. intros t' req' k [Hin|Hin]%elem_of_app; [by eapply Hl|].
  apply list_elem_of_singleton in Hin as [= -> -> <-]. by apply Hr.
Qed.

(** An answer out of the cache is in time. *)
Lemma hit_in_time hash P latency t x now req k :
  fading P latency t x -> begin_request hash (config x) now req (keys x) = inl (Authenticated k) -> P k ->
  now <= t + latency + CacheTTL (config x).
Proof.
  intros [_ Hc] Hb Hp. unfold begin_request in Hb. case_bool_decide; [done|].
  destruct (keys x ≫= _) as [k0|] eqn:Hk; [|done]. injection Hb as Hb. apply authorize_key in Hb as ->.
  destruct (keys x) as [c|]; [|done]. cbn in Hk. unfold cache_Get in Hk.
  destruct (cache c !! _) as [e|] eqn:He; [|done]. destruct (time_After now _) eqn:Ha; [done|]. injection Hk as <-.
  destruct (Hc c eq_refl) as [<- Hexp]. specialize (Hexp _ _ He Hp). unfold time_After in Ha. apply bool_decide_eq_false in Ha. lia.
Qed.

(** So is one of a request that asked the store, and what it leaves in the cache. *)
Lemma finish_in_time hash P latency t x now req r t' n :
  fading P latency t x -> looked_up x !! n = Some (t', req, r) -> t' <= now <= t' + latency ->
  let '(c, resp) := finish_request hash (config x) now req r (keys x) in
  fading P latency t (with_keys c (delete n (looked_up x)) x) /\
  (forall k, resp = Authenticated k -> P k -> now <= t + latency).
Proof.
  intros [Hl Hc] Hn Hlat. assert (forall k, r = Ok k -> P k -> now <= t + latency) as Hnow.
  { intros k -> Hp. apply list_elem_of_lookup_2 in Hn. specialize (Hl _ _ _ Hn Hp). lia. }
  assert (forall t'' req' k, (t'', req', Ok k) ∈ delete n (looked_up x) -> P k -> t'' <= t) as Hl'.
  { intros t'' req' k Hin. apply Hl with req'. by eapply list_elem_of_delete_inv. }
  unfold finish_request. destruct r as [k|e]; [|by split].
  split; [split; [exact Hl'|]|intros k' ->%authorize_key; by apply Hnow].
  cbn [keys config with_keys]. destruct (keys x) as [c|]; [|done]. intros c' [= <-]. destruct (Hc c eq_refl) as [Ht He].
  split; [done|]. cbn [cache_Set ttl cache]. intros h e [[<- <-]|[_ Hh]]%lookup_insert_Some; [|by eapply He].
  cbn [entry_key entry_expiresAt]. intros Hp. unfold time_Add. specialize (Hnow k eq_refl Hp). lia.
Qed.

Section revocation.
Context {S : Type} `{APIKeyStoreLaws S} (hash : string -> string) (latency t : Z).
#[local] Set Default Proof Using "All".

Definition configs (w : system S) : list APIKeyMiddlewareConfig := config <$> instances w.

Lemma configs_insert (xs : list instance) i x y :
  xs !! i = Some x -> config y = config x -> config <$> <[i := y]> xs = config <$> xs.
Proof.
  intros Hx Hy. rewrite list_fmap_insert. apply list_insert_id. by rewrite list_lookup_fmap, Hx, Hy.
Qed.

(** The keys a look-up may find now: [P] of one means that it is early enough. *)
Definition finds (P : APIKey -> Prop) (now : Z) (s : S) : Prop :=
  forall h k, snd (GetByHash h s) = Ok k -> P k -> now <= t.

(** What one event does to a system whose instances have only old news of [P]. *)
Lemma handle_fading P e w w' :
  valid (store w) -> Forall (fading P latency t) (instances w) ->
  (forall i now req, e = Begin i now req -> finds P now (store w)) ->
  handle hash latency e w = Some w' ->
  valid (store w') /\ Forall (fading P latency t) (instances w') /\ configs w' = configs w /\
  exists new, answers w' = answers w ++ new /\ Forall (old_answer P latency t (configs w)) new.
Proof.
  intros Hv Hx Hb He. destruct e as [o|i now req|i n now|n now|i now]; cbn [handle] in He.
  - injection He as <-. split_and!; [by apply (operate_valid hash)|done|done|]. exists []. by rewrite app_nil_r.
  - destruct (instances w !! i) as [x|] eqn:Hi; [|done]. cbn in He. pose proof (Forall_lookup_1 _ _ _ _ Hx Hi) as Hxi.
    destruct (begin_request _ _ _ _ _) as [resp|h] eqn:Hbr.
    + injection He as <-. cbn. unfold configs. cbn [instances respond]. rewrite (configs_insert _ _ x) by done.
      split_and!; [done|by apply Forall_insert|done|]. eexists. split; [done|].
      constructor; [|constructor]. intros k cfg -> Hp Hcfg. rewrite list_lookup_fmap, Hi in Hcfg. injection Hcfg as <-.
      pose proof (hit_in_time hash P latency t x now req k Hxi Hbr Hp). lia.
    + pose proof (get_law h (store w) Hv) as Hg. pose proof (Hb i now req eq_refl h) as Hf.
      destruct (GetByHash h (store w)) as [s r]. cbn in Hf. injection He as <-. unfold configs. cbn [instances with_store store answers].
      rewrite (configs_insert _ _ x) by done. split_and!; [by destruct Hg|by apply Forall_insert, fading_asked|done|].
      exists []. by rewrite app_nil_r.
  - destruct (instances w !! i) as [x|] eqn:Hi; [|done]. cbn in He. pose proof (Forall_lookup_1 _ _ _ _ Hx Hi) as Hxi.
    destruct (looked_up x !! n) as [[[t0 req] r]|] eqn:Hn; [|done]. cbn in He. case_bool_decide as Hlat; [|done].
    pose proof (finish_in_time hash P latency t x now req r t0 n Hxi Hn Hlat) as Hfin.
    destruct (finish_request _ _ _ _ _ _) as [c resp]. destruct Hfin as [Hf Hr]. injection He as <-.
    unfold configs. cbn [instances respond store answers]. rewrite (configs_insert _ _ x) by done.
    split_and!; [done|by apply Forall_insert|done|]. eexists. split; [done|]. constructor; [|constructor].
    intros k cfg -> Hp Hcfg. specialize (Hr k eq_refl Hp). lia.
  - destruct (touching w !! n) as [id|]; [|done]. cbn in He. injection He as <-.
    split_and!; [by apply (operate_valid hash (OTouch now id))|done|done|]. exists []. by rewrite app_nil_r.
  - destruct (instances w !! i) as [x|] eqn:Hi; [|done]. cbn in He. injection He as <-.
    pose proof (Forall_lookup_1 _ _ _ _ Hx Hi) as Hxi. unfold configs. cbn [instances with_store store answers].
    rewrite (configs_insert _ _ x) by done. split_and!; [done|by apply Forall_insert, fading_cleaned|done|].
    exists []. by rewrite app_nil_r.
Qed.

(** What a run does, if every look-up on its way that finds a key of [P] is early enough. *)
Lemma handle_all_fading P (good : S -> Prop) es w w' :
  (forall e w w', e ∈ es -> valid (store w) -> good (store w) -> handle hash latency e w = Some w' -> good (store w')) ->
  (forall i now req s, Begin i now req ∈ es -> valid s -> good s -> finds P now s) ->
  valid (store w) -> good (store w) -> Forall (fading P latency t) (instances w) ->
  handle_all hash latency es w = Some w' ->
  valid (store w') /\ good (store w') /\ Forall (fading P latency t) (instances w') /\ configs w' = configs w /\
  exists new, answers w' = answers w ++ new /\ Forall (old_answer P latency t (configs w)) new.
Proof.
  revert w. induction es as [|e es IH]; intros w Hg Hf Hv Hgood Hx Hes; cbn [handle_all] in Hes.
  { injection Hes as <-. split_and!; try done. exists []. by rewrite app_nil_r. }
  destruct (handle hash latency e w) as [w1|] eqn:He; [|done]. cbn in Hes.
  destruct (handle_fading P e w w1 Hv Hx) as (Hv1 & Hx1 & Hc1 & new1 & Ha1 & Hn1); [|done|].
  { intros i now req ->. apply (Hf i now req); [left|done..]. }
  destruct (IH w1) as (Hv2 & Hg2 & Hx2 & Hc2 & new2 & Ha2 & Hn2); [|  |done| |done|done|].
  - intros e' w2 w3 Hin. apply Hg. by right.
  - intros i now req s Hin. apply (Hf i now req). by right.
  - apply (Hg e w w1); [left|done..].
  - rewrite Hc1 in Hc2, Hn2. split_and!; [done..|]. exists (new1 ++ new2).
    rewrite Ha2, Ha1, <-app_assoc. split; [done|]. by apply Forall_app.
Qed.

Lemma configs_new (s : S) cfgs : configs (new_system s cfgs) = cfgs.
Proof. unfold configs, new_system. cbn [instances]. rewrite <-list_fmap_compose. apply list_fmap_id. Qed.

(** A key that stands inactive in the store, and stays so. *)
Definition inactive (id : string) (s : S) : Prop := exists k, contents s !! id = Some k /\ IsActive k = false.

Lemma handle_inactive id e w w' :
  valid (store w) -> inactive id (store w) -> (forall o, e = Operate o -> reactivates id o = false) ->
  handle hash latency e w = Some w' -> inactive id (store w').
Proof.
  intros Hv Hin Hr He. pose proof Hin as (k & Hk & Ha). destruct e as [o|i now req|i n now|n now|i now]; cbn [handle] in He.
  - injection He as <-. by apply (operate_inactive hash o _ id k Hv Hk Ha), Hr.
  - destruct (instances w !! i) as [x|]; [|done]. cbn in He. destruct (begin_request _ _ _ _ _) as [resp|h]; [by injection He as <-|].
    pose proof (get_law h (store w) Hv) as Hg. destruct (GetByHash h (store w)) as [s r]. injection He as <-.
    destruct Hg as (_ & Hs & _). unfold inactive. cbn. by rewrite Hs.
  - destruct (instances w !! i) as [x|]; [|done]. cbn in He. destruct (looked_up x !! n) as [[[t0 req] r]|]; [|done]. cbn in He.
    case_bool_decide; [|done]. destruct (finish_request _ _ _ _ _ _). by injection He as <-.
  - destruct (touching w !! n) as [id'|]; [|done]. injection He as <-.
    by apply (operate_inactive hash (OTouch now id') _ id k Hv Hk Ha).
  - destruct (instances w !! i) as [x|]; [|done]. by injection He as <-.
Qed.

Lemma inactive_not_found id now s : valid s -> inactive id s -> finds (fun k => ID k = id) now s.
Proof.
  intros Hv (k & Hk & Ha) h k' Hf Hid. pose proof (get_law h s Hv) as Hg. destruct (GetByHash h s) as [s' r].
  cbn in Hf. subst r. destruct Hg as (_ & _ & Hk' & _ & Ha'). congruence.
Qed.

(** C27: Revocation takes effect. Any number of services, each with its cache, answer
    requests over one store, on which anybody operates and any statement of which may
    fail; the updates of the last use run at any time. Once the deletion of a key
    has reported success, at a time after everything so far, no request is let
    through as that key later than the longest time a request takes from its
    look-up to its answer plus the time to live of the service's cache, unless
    an update makes the key active again. *)
Theorem revocation_takes_effect s cfgs es1 w1 id k es2 w2 i t' k' cfg :
  valid s -> handle_all hash latency es1 (new_system s cfgs) = Some w1 ->
  (forall e t0, e ∈ es1 -> event_time e = Some t0 -> t0 <= t) ->
  contents (store w1) !! id = Some k -> snd (Delete id (store w1)) = None ->
  handle_all hash latency (Operate (ODelete id) :: es2) w1 = Some w2 ->
  (forall o, Operate o ∈ es2 -> reactivates id o = false) ->
  (i, t', Authenticated k') ∈ drop (length (answers w1)) (answers w2) -> cfgs !! i = Some cfg -> ID k' = id ->
  t' <= t + latency + Z.max 0 (CacheTTL cfg).
Proof.
  intros Hv Hes1 Ht Hk Hd Hes2 Hr Hin Hcfg Hid.
  destruct (handle_all_fading (fun _ => True) (fun _ => True) es1 (new_system s cfgs) w1)
    as (Hv1 & _ & Hx1 & Hc1 & _); [done| |done|done| |done|].
  { intros j now req s' He _ _ h k0 _ _. by apply (Ht _ now He). }
  { apply Forall_fmap, Forall_true. intros c. apply new_instance_fading. }
  rewrite configs_new in Hc1. cbn [handle_all handle] in Hes2. cbn in Hes2.
  pose proof (delete_law id (store w1) Hv1) as Hl. destruct (Delete id (store w1)) as [s1 e]. cbn in Hd, Hes2. subst e.
  destruct Hl as [Hvd [Hcd|[? _]]]; [|done].
  destruct (handle_all_fading (fun k => ID k = id) (inactive id) es2 (with_store s1 (instances w1) w1) w2)
    as (_ & _ & _ & _ & new & Ha & Hn); [| |done| | |done|].
  - intros e w w' He Hvw Hgw. apply handle_inactive; [done..|]. intros o ->. by apply Hr.
  - intros j now req s' _. apply inactive_not_found.
  - exists (deactivated k). cbn [store with_store]. by rewrite Hcd, lookup_alter_eq, Hk.
  - eapply Forall_impl; [exact Hx1|]. intros x [Hla Hca]. split; [by intros; eapply Hla|]. intros c Hc.
    destruct (Hca c Hc) as [Htl He]. split; [done|]. intros h e Hh _. by eapply He.
  - cbn [answers with_store] in Ha. rewrite Ha, drop_app_length in Hin. rewrite Forall_forall in Hn.
    apply (Hn _ Hin k' cfg); [done..|]. unfold configs in *. cbn [instances with_store]. by rewrite Hc1.
Qed.

End revocation.

(** ** Witnesses *)

(** A key is used, revoked, and used once more out of the cache; a look-up that began
    before the revocation fills the cache again after it; and later the key is refused. *)
Definition example_before : list event := [Begin 0 1 example_request; Begin 0 1 example_request; Finish 0 0 2].

Definition example_after : list event :=
  [Finish 0 0 6; Begin 0 15 example_request; Begin 0 18 example_request; Finish 0 0 19].

Definition example_services : system PostgresAPIKeyStore :=
  new_system {| rows := [create_model example_key]; faults := [] |} [example_config].

Lemma revocation_takes_effect_witness :
  exists w1 w2, handle_all (fun h => h) 5 example_before example_services = Some w1 /\
    handle_all (fun h => h) 5 (Operate (ODelete "k1") :: example_after) w1 = Some w2 /\
    (snd <$> answers w2) = [Authenticated example_key; Authenticated example_key; Authenticated example_key;
                            Abort 401 "Invalid API key"] /\
    forall t' k', (0%nat, t', Authenticated k') ∈ drop (length (answers w1)) (answers w2) -> ID k' = "k1" -> t' <= 17.
Proof.
  eexists _, _. split; [vm_compute; reflexivity|]. split; [vm_compute; reflexivity|]. split; [vm_compute; reflexivity|].
  intros t' k' Hin Hid. change 17 with (2 + 5 + Z.max 0 (CacheTTL example_config)).
  eapply (revocation_takes_effect (fun h => h) 5 2 (store example_services) [example_config] example_before
    _ "k1" example_key example_after _ 0 t' k').
  - split; [split; apply (bool_decide_unpack _); vm_compute; exact I|constructor].
  - vm_compute. reflexivity.
  - intros e t0 He. apply elem_of_cons in He as [-> | He]; [intros [= <-]; lia|].
    apply elem_of_cons in He as [-> | He]; [intros [= <-]; lia|]. apply list_elem_of_singleton in He as ->. intros [= <-]; lia.
  - vm_compute. reflexivity.
  - vm_compute. reflexivity.
  - vm_compute. reflexivity.
  - intros o Ho. repeat (apply elem_of_cons in Ho as [Ho|Ho]; [discriminate|]). by apply elem_of_nil in Ho.
  - exact Hin.
  - reflexivity.
  - exact Hid.
Defined.
