(* ===== verification/RedisLock.v ===== *)
(** * The distributed lock (src/lock/redis_lock.go)

    Redis is not part of the repository: the class [Redis] states what the lock
    relies on, through one observer, the answer of GET at a time. The Lua scripts,
    the lock's operations and the lock manager are definitions over it; the theorems
    are proved for every instance, and the key-value store with expiry at the
    end of the definitions is one. *)

From S2P Require Import Prelude.

(** ** Redis *)

(** go-redis sends a duration in milliseconds, rounded down. *)
Definition whole_ms (d : Z) : Z := Z.quot d Millisecond * Millisecond.

Class Redis (R : Type) := {
  redis_get : Z -> string -> R -> option string;
  redis_setnx : Z -> string -> string -> Z -> R -> R * bool;
  redis_del : Z -> string -> R -> R * Z;
  redis_pexpire : Z -> string -> Z -> R -> R * Z
}.

(** The documented behaviour: a value stays until its expiry; SET NX takes effect
    and answers true exactly when the key is free; DEL and PEXPIRE answer 1
    exactly when the key exists; PEXPIRE with a time that is not positive deletes. *)
Class RedisLaws (R : Type) `{Redis R} := {
  get_expires r k v t t' : t' <= t -> redis_get t k r = Some v -> redis_get t' k r = Some v;
  setnx_taken r now k v d w :
    redis_get now k r = Some w -> redis_setnx now k v d r = (r, false);
  setnx_free r now k v d :
    redis_get now k r = None ->
    snd (redis_setnx now k v d r) = true /\
    forall t, now <= t -> Millisecond <= d -> t < now + whole_ms d ->
      redis_get t k (fst (redis_setnx now k v d r)) = Some v;
  del_ok r now k :
    snd (redis_del now k r) = (match redis_get now k r with Some _ => 1 | None => 0 end) /\
    forall t, now <= t -> redis_get t k (fst (redis_del now k r)) = None;
  pexpire_ok r now k ms v :
    redis_get now k r = Some v ->
    snd (redis_pexpire now k ms r) = 1 /\
    forall t, now <= t -> redis_get t k (fst (redis_pexpire now k ms r)) =
      if bool_decide (t < now + ms * Millisecond) then Some v else None
}.

(** ** The lock *)

Definition ErrLockNotAcquired : error := ErrVar "lock.ErrLockNotAcquired".
Definition ErrLockNotHeld : error := ErrVar "lock.ErrLockNotHeld".

Record RedisLock := { key : string; value : string; ttl : Z }.

Definition NewRedisLock (uuid : string) (k : string) (d : Z) : RedisLock :=
  {| key := "lock:" +:+ k; value := uuid; ttl := d |}.

(** What the network does to one command: an answer, a failure before Redis
    executed it, or a lost answer. *)
Inductive net := Answered | NotSent (e : error) | AnswerLost (e : error).

Definition redis_error (e : error) : error := ErrWrap "redis error" e.

Definition command {R A : Type} (n : net) (f : R -> R * A) (r : R) : R * result A :=
  match n with
  | Answered => let '(r, a) := f r in (r, Ok a)
  | NotSent e => (r, Err (redis_error e))
  | AnswerLost e => (fst (f r), Err (redis_error e))
  end.

Section lock.
Context {R : Type} `{RR : Redis R}.

(** [TryAcquire], and the attempt inside [AcquireWithRetry]. *)
Definition TryAcquire (now : Z) (n : net) (l : RedisLock) : R -> R * result bool :=
  command n (redis_setnx now (key l) (value l) (ttl l)).

(** The Lua scripts, executed atomically. *)
Definition release_script (now : Z) (k v : string) (r : R) : R * Z :=
  if bool_decide (redis_get now k r = Some v) then redis_del now k r else (r, 0).

Definition extend_script (now : Z) (k v : string) (ms : Z) (r : R) : R * Z :=
  if bool_decide (redis_get now k r = Some v) then redis_pexpire now k ms r else (r, 0).

Definition script_error (a : result Z) : option error :=
  match a with
  | Err e => Some e
  | Ok n => if bool_decide (n = 0) then Some ErrLockNotHeld else None
  end.

Definition Release (now : Z) (n : net) (l : RedisLock) (r : R) : R * option error :=
  let '(r, a) := command n (release_script now (key l) (value l)) r in (r, script_error a).

Definition Extend (now : Z) (n : net) (extension : Z) (l : RedisLock) (r : R) : R * option error :=
  let '(r, a) := command n (extend_script now (key l) (value l) (Z.quot extension Millisecond)) r in
  (r, script_error a).

(** One attempt of the retry loop: its time, its network, the error of the context if
    that ends the wait, and what the rest of the world does to Redis meanwhile. *)
Record attempt := {
  at_time : Z;
  at_net : net;
  ctx_done : option error;
  meanwhile : R -> R
}.

(** [n] attempts are left; [env i] is the [i]th attempt. *)
Fixpoint acquire_loop (env : nat -> attempt) (l : RedisLock) (i n : nat) (r : R) : R * option error :=
  match n with
  | O => (r, Some ErrLockNotAcquired)
  | S n =>
      let a := env i in
      let '(r, ok) := TryAcquire (at_time a) (at_net a) l r in
      match ok with
      | Err e => (r, Some e)
      | Ok true => (r, None)
      | Ok false =>
          match ctx_done a with
          | Some e => (r, Some e)
          | None => acquire_loop env l (S i) n (meanwhile a r)
          end
      end
  end.

Definition AcquireWithRetry (env : nat -> attempt) (maxRetries : Z) (l : RedisLock) : R -> R * option error :=
  acquire_loop env l 0 (Z.to_nat maxRetries).

Definition Acquire (env : nat -> attempt) (l : RedisLock) : R -> R * option error :=
  AcquireWithRetry env 10 l.

(** [fn] runs while others use Redis too, and may panic; the deferred release runs either
    way, and its result is dropped. *)
Definition WithLockResult {T : Type} (env : nat -> attempt) (uuid k : string) (d : Z)
    (fn : R -> R * panics (result T)) (release_now : Z) (release_net : net) (r : R) : R * panics (result T) :=
  let l := NewRedisLock uuid k d in
  let '(r, e) := Acquire env l r in
  match e with
  | Some e => (r, Returns (Err e))
  | None => let '(r, a) := fn r in (fst (Release release_now release_net l r), a)
  end.

Definition WithLock (env : nat -> attempt) (uuid k : string) (d : Z)
    (fn : R -> R * panics (option error)) (release_now : Z) (release_net : net) (r : R)
    : R * panics (option error) :=
  let l := NewRedisLock uuid k d in
  let '(r, e) := Acquire env l r in
  match e with
  | Some e => (r, Returns (Some e))
  | None => let '(r, a) := fn r in (fst (Release release_now release_net l r), a)
  end.

(** ** The lock manager *)

Record LockManager := { defaultTTL : Z }.

Definition NewLockManager (d : Z) : LockManager := {| defaultTTL := d |}.

Definition LockWithTTL (env : nat -> attempt) (uuid k : string) (d : Z) (r : R) : R * result RedisLock :=
  let l := NewRedisLock uuid k d in
  let '(r, e) := Acquire env l r in
  (r, match e with Some e => Err e | None => Ok l end).

Definition Lock (m : LockManager) (env : nat -> attempt) (uuid k : string) : R -> R * result RedisLock :=
  LockWithTTL env uuid k (defaultTTL m).

(** [Ok None]: not acquired. *)
Definition TryLock (m : LockManager) (now : Z) (n : net) (uuid k : string) (r : R)
    : R * result (option RedisLock) :=
  let l := NewRedisLock uuid k (defaultTTL m) in
  let '(r, a) := TryAcquire now n l r in
  (r, match a with Err e => Err e | Ok acquired => Ok (if (acquired : bool) then Some l else None) end).

Definition Manager_WithLock (m : LockManager) (env : nat -> attempt) (uuid k : string)
    (fn : R -> R * panics (option error)) (release_now : Z) (release_net : net) : R -> R * panics (option error) :=
  WithLock env uuid k (defaultTTL m) fn release_now release_net.

(** ** Clients of one key

    Client [i] uses the lock [locks i]. [held i] is the time until which it may
    rely on the lock, from the answers it got: a successful acquisition or
    extension gives the whole milliseconds of the duration, a failed extension
    may have shortened the time, a release ends it whatever its answer. *)
Inductive op := OpAcquire | OpRelease | OpExtend (d : Z).

Record event := { e_time : Z; e_client : nat; e_op : op; e_net : net }.

Record world := { redis : R; clock : Z; held : gmap nat Z }.

Definition handle (locks : nat -> RedisLock) (e : event) (w : world) : world :=
  let i := e_client e in
  let t := e_time e in
  match e_op e with
  | OpAcquire =>
      let '(r, a) := TryAcquire t (e_net e) (locks i) (redis w) in
      {| redis := r; clock := t;
         held := match a with Ok true => <[i := t + whole_ms (ttl (locks i))]> (held w) | _ => held w end |}
  | OpRelease =>
      {| redis := fst (Release t (e_net e) (locks i) (redis w)); clock := t;
         held := delete i (held w) |}
  | OpExtend d =>
      let '(r, a) := Extend t (e_net e) d (locks i) (redis w) in
      {| redis := r; clock := t;
         held := match a with
                 | None => <[i := t + whole_ms d]> (held w)
                 | Some e => if bool_decide (e = ErrLockNotHeld) then delete i (held w)
                             else alter (Z.min (t + whole_ms d)) i (held w)
                 end |}
  end.

Fixpoint handle_all (locks : nat -> RedisLock) (es : list event) (w : world) : world :=
  match es with [] => w | e :: es => handle_all locks es (handle locks e w) end.

(** The times of the events do not go back. *)
Fixpoint timely (now : Z) (es : list event) : Prop :=
  match es with [] => True | e :: es => now <= e_time e /\ timely (e_time e) es end.

(** Every client's belief is true: Redis holds its value as long as it relies on it. *)
Definition true_beliefs (locks : nat -> RedisLock) (k : string) (w : world) : Prop :=
  forall i d t, held w !! i = Some d -> clock w <= t -> t < d ->
    redis_get t k (redis w) = Some (value (locks i)).

End lock.

Arguments attempt : clear implicits.
Arguments world : clear implicits.

(** ** A Redis: values with an expiry, [None] for no expiry *)

Abbreviation store := (gmap string (string * option Z)).

Definition live (now : Z) (e : string * option Z) : bool :=
  match snd e with None => true | Some d => bool_decide (now < d) end.

Definition store_get (now : Z) (k : string) (r : store) : option string :=
  match r !! k with Some e => if live now e then Some (fst e) else None | None => None end.

Definition expiry (now d : Z) : option Z :=
  if bool_decide (d = 0) then None else Some (now + Z.max 1 (Z.quot d Millisecond) * Millisecond).

#[export] Instance store_redis : Redis store := {
  redis_get := store_get;
  redis_setnx now k v d r :=
    match store_get now k r with
    | Some _ => (r, false)
    | None => (<[k := (v, expiry now d)]> r, true)
    end;
  redis_del now k r := (delete k r, match store_get now k r with Some _ => 1 | None => 0 end);
  redis_pexpire now k ms r :=
    match store_get now k r with
    | Some v => (<[k := (v, Some (now + ms * Millisecond))]> r, 1)
    | None => (r, 0)
    end
}.

(** Two clients of the key [job], with a time to live of ten seconds. *)
Definition example_locks (i : nat) : RedisLock :=
  NewRedisLock (if decide (i = 0%nat) then "first-uuid" else "uuid-" +:+ pretty i) "job" (10 * Second).

Definition example_start : world store := {| redis := ∅; clock := 0; held := ∅ |}.

Definition example_run : list event :=
  [ {| e_time := 1 * Second; e_client := 0; e_op := OpAcquire; e_net := Answered |};
    {| e_time := 2 * Second; e_client := 1; e_op := OpAcquire; e_net := Answered |};
    {| e_time := 3 * Second; e_client := 1; e_op := OpRelease; e_net := Answered |} ].

(** ** Lemmas *)

#[export] Instance store_laws : RedisLaws store.
Proof.
  split; cbn [redis_get redis_setnx redis_del redis_pexpire store_redis]; unfold store_get.
  - intros r k v t t' Ht. destruct (r !! k) as [[w [d|]]|]; unfold live; simpl; [|done..].
    case_bool_decide; [|done]. by rewrite bool_decide_true by lia.
  - intros r now k v d w ->. done.
  - intros r now k v d ->. split; [done|]. intros t Ht Hd Hlt. simpl.
    rewrite lookup_insert_eq. unfold expiry. 
    assert (0 < Z.quot d Millisecond) by (unfold Millisecond in *; apply Z.quot_str_pos; lia).
    rewrite (bool_decide_false (d = 0)) by (unfold Millisecond in *; lia).
    unfold live. simpl. unfold whole_ms in Hlt. rewrite Z.max_r by lia. by rewrite bool_decide_true by lia.
  - intros r now k. split; [done|]. intros t _. simpl. by rewrite lookup_delete_eq.
  - intros r now k ms v ->. split; [done|]. intros t _. simpl. rewrite lookup_insert_eq.
    unfold live. simpl. by case_bool_decide.
Qed.

Section lemmas.
Context {R : Type} `{RedisLaws R}.
#[local] Set Default Proof Using "All".

(** A command that leaves Redis alone, whatever the network does. *)
Lemma command_idle {A} n (f : R -> R * A) r a :
  f r = (r, a) -> fst (command n f r) = r.
Proof. intros Hf. destruct n; simpl; rewrite ?Hf; done. Qed.

Lemma TryAcquire_taken now n l (r : R) v :
  redis_get now (key l) r = Some v ->
  fst (TryAcquire now n l r) = r /\ snd (TryAcquire now n l r) <> Ok true.
Proof.
  intros Hg. pose proof (setnx_taken r now (key l) (value l) (ttl l) v Hg) as Hs.
  unfold TryAcquire. split; [by eapply command_idle|].
  destruct n; simpl; rewrite ?Hs; done.
Qed.

Lemma TryAcquire_ok now n l (r : R) :
  snd (TryAcquire now n l r) = Ok true -> Millisecond <= ttl l ->
  redis_get now (key l) r = None /\
  forall t, now <= t -> t < now + whole_ms (ttl l) ->
    redis_get t (key l) (fst (TryAcquire now n l r)) = Some (value l).
Proof.
  intros Ha Hd. destruct (redis_get now (key l) r) as [w|] eqn:Hg.
  { by destruct (TryAcquire_taken now n l r w Hg). }
  split; [done|]. destruct (setnx_free r now (key l) (value l) (ttl l) Hg) as [_ Ht].
  unfold TryAcquire in *. destruct n; simpl in *; [|done..].
  destruct (redis_setnx _ _ _ _ _) as [r' b] eqn:Hs. simpl in *. auto.
Qed.

(** Release and extension by a client whose value is not in Redis change nothing. *)
Lemma Release_foreign now n l (r : R) :
  redis_get now (key l) r <> Some (value l) ->
  fst (Release now n l r) = r /\ (n = Answered -> snd (Release now n l r) = Some ErrLockNotHeld).
Proof.
  intros Hg. assert (release_script now (key l) (value l) r = (r, 0)) as Hs.
  { unfold release_script. by rewrite bool_decide_false. }
  unfold Release. destruct n; simpl; rewrite ?Hs; done.
Qed.

Lemma Extend_foreign now n d l (r : R) :
  redis_get now (key l) r <> Some (value l) ->
  fst (Extend now n d l r) = r /\ (n = Answered -> snd (Extend now n d l r) = Some ErrLockNotHeld).
Proof.
  intros Hg. assert (extend_script now (key l) (value l) (Z.quot d Millisecond) r = (r, 0)) as Hs.
  { unfold extend_script. by rewrite bool_decide_false. }
  unfold Extend. destruct n; simpl; rewrite ?Hs; done.
Qed.

Lemma Release_own now l (r : R) :
  redis_get now (key l) r = Some (value l) ->
  snd (Release now Answered l r) = None /\
  forall t, now <= t -> redis_get t (key l) (fst (Release now Answered l r)) = None.
Proof.
  intros Hg. unfold Release, release_script. simpl. rewrite bool_decide_true by done.
  destruct (del_ok r now (key l)) as [Ha Hd]. rewrite Hg in Ha.
  destruct (redis_del _ _ _) as [r' a]. simpl in *. by rewrite Ha.
Qed.

(** What an extension leaves, however the network behaved: the old expiry or the new. *)
Lemma Extend_own now n d l (r : R) t :
  redis_get now (key l) r = Some (value l) -> now <= t -> t < now + whole_ms d ->
  (snd (Extend now n d l r) = None -> redis_get t (key l) (fst (Extend now n d l r)) = Some (value l)) /\
  (redis_get t (key l) r = Some (value l) ->
   redis_get t (key l) (fst (Extend now n d l r)) = Some (value l)).
Proof.
  intros Hg Ht Hd. unfold Extend, extend_script, whole_ms in *.
  destruct (pexpire_ok r now (key l) (Z.quot d Millisecond) (value l) Hg) as [Ha Hp].
  specialize (Hp t Ht). rewrite (bool_decide_true (t < _)) in Hp by done.
  destruct n; simpl; [| done |]; rewrite bool_decide_true by done;
    destruct (redis_pexpire _ _ _ _) as [r' a]; simpl in *; done.
Qed.

Lemma Extend_nil now n d l (r : R) :
  snd (Extend now n d l r) = None -> redis_get now (key l) r = Some (value l).
Proof.
  unfold Extend, extend_script.
  destruct n; simpl; [|done..]. case_bool_decide; [done|]. done.
Qed.

End lemmas.

Section mutual_exclusion.
Context {R : Type} `{RedisLaws R} (locks : nat -> RedisLock) (k : string).
Context (Hkey : forall i, key (locks i) = k) (Hinj : forall i j, value (locks i) = value (locks j) -> i = j)
  (Httl : forall i, Millisecond <= ttl (locks i)).
#[local] Set Default Proof Using "All".

(** The belief of client [j] survives a command that leaves its value in Redis
    for as long as it was there. *)
Lemma beliefs_frame (w w' : world R) :
  true_beliefs locks k w -> clock w <= clock w' ->
  (forall i d t, held w' !! i = Some d -> clock w' <= t -> t < d ->
     (held w !! i = Some d /\ redis_get t k (redis w') = redis_get t k (redis w)) \/
     redis_get t k (redis w') = Some (value (locks i))) ->
  true_beliefs locks k w'.
Proof.
  intros Hw Hc Hf i d t Hi Ht Hd. destruct (Hf i d t Hi Ht Hd) as [[Hi' ->]|?]; [|done].
  eapply Hw; [done|lia|done].
Qed.

(** At most one client's belief is not over, as Redis holds one value. *)
Lemma beliefs_exclusive (w : world R) i j di dj t :
  true_beliefs locks k w -> held w !! i = Some di -> held w !! j = Some dj ->
  clock w <= t -> t < di -> t < dj -> i = j.
Proof.
  intros Hw Hi Hj Ht Hti Htj. apply Hinj.
  pose proof (Hw i di t Hi Ht Hti). pose proof (Hw j dj t Hj Ht Htj). congruence.
Qed.

(** Client [i] changes Redis only where no other client's belief is current. *)
Lemma others_unaffected (w : world R) i j dj t now :
  true_beliefs locks k w -> clock w <= now -> now <= t -> held w !! j = Some dj -> t < dj -> i <> j ->
  redis_get now k (redis w) = Some (value (locks j)) /\
  redis_get now k (redis w) <> Some (value (locks i)).
Proof.
  intros Hw Hc Hn Hj Ht Hij.
  assert (redis_get now k (redis w) = Some (value (locks j))) as Hg by (eapply Hw; [done|lia|lia]).
  split; [done|]. rewrite Hg. intros [=He]. by apply Hij, Hinj.
Qed.

Lemma handle_acquire_beliefs e (w : world R) :
  e_op e = OpAcquire -> true_beliefs locks k w -> clock w <= e_time e ->
  true_beliefs locks k (handle locks e w).
Proof.
  intros Hop Hw Hc. unfold handle. rewrite Hop.
  destruct (TryAcquire _ _ _ _) as [r a] eqn:Ha.
  assert (fst (TryAcquire (e_time e) (e_net e) (locks (e_client e)) (redis w)) = r) as Hr by (by rewrite Ha).
  assert (snd (TryAcquire (e_time e) (e_net e) (locks (e_client e)) (redis w)) = a) as Hs by (by rewrite Ha).
  assert (forall j dj t, held w !! j = Some dj -> e_time e <= t -> t < dj ->
            redis_get t k r = redis_get t k (redis w)) as Hold.
  { intros j dj t Hj Ht Hd. 
    assert (redis_get (e_time e) (key (locks (e_client e))) (redis w) = Some (value (locks j))) as Hg.
    { rewrite Hkey. eapply Hw; [done|lia|lia]. }
    destruct (TryAcquire_taken _ (e_net e) _ _ _ Hg) as [Hx _]. congruence. }
  apply (beliefs_frame w); [done..|]. simpl. intros i d t Hi Ht Hd.
  destruct a as [[]|]; [|left; split; [done|eapply Hold; done]..].
  destruct (TryAcquire_ok _ _ _ _ Hs (Httl _)) as [Hfree Hown]. rewrite Hkey, Hr in *.
  destruct (decide (i = e_client e)) as [->|Hne].
  - rewrite lookup_insert_eq in Hi. injection Hi as <-. right. auto.
  - rewrite lookup_insert_ne in Hi by done. left. split; [done|]. eapply Hold; done.
Qed.

Lemma handle_release_beliefs e (w : world R) :
  e_op e = OpRelease -> true_beliefs locks k w -> clock w <= e_time e ->
  true_beliefs locks k (handle locks e w).
Proof.
  intros Hop Hw Hc. unfold handle. rewrite Hop.
  apply (beliefs_frame w); [done..|]. simpl. intros j dj t Hj Ht Hd. left.
  apply lookup_delete_Some in Hj as [Hne Hj]. split; [done|].
  destruct (others_unaffected w (e_client e) j dj t (e_time e)) as [_ Hg]; [done..|].
  rewrite <- (Hkey (e_client e)) in Hg. by destruct (Release_foreign _ (e_net e) _ _ Hg) as [-> _].
Qed.

Lemma handle_extend_beliefs e d (w : world R) :
  e_op e = OpExtend d -> true_beliefs locks k w -> clock w <= e_time e ->
  true_beliefs locks k (handle locks e w).
Proof.
  intros Hop Hw Hc. unfold handle. rewrite Hop.
  set (l := locks (e_client e)).
  destruct (Extend _ _ _ _ _) as [r a] eqn:Ha.
  pose proof (f_equal fst Ha) as Hr. pose proof (f_equal snd Ha) as Hs. cbn [fst snd] in Hr, Hs.
  apply (beliefs_frame w); [done..|]. simpl. intros j dj t Hj Ht Hd.
  destruct (decide (j = e_client e)) as [->|Hne].
  - right. rewrite <- Hr, <- (Hkey (e_client e)). fold l. destruct a as [err|].
    + case_bool_decide; [by rewrite lookup_delete_eq in Hj|].
      rewrite lookup_alter_eq in Hj. destruct (held w !! e_client e) as [d0|] eqn:Hold; [|done].
      injection Hj as <-. 
      assert (forall u, e_time e <= u -> u < d0 -> redis_get u (key l) (redis w) = Some (value l)) as Hown.
      { intros u Hu Hu'. unfold l. rewrite Hkey. eapply Hw; [done|lia|done]. }
      apply (proj2 (Extend_own (e_time e) (e_net e) d l (redis w) t ltac:(apply Hown; lia) Ht ltac:(lia))).
      apply Hown; lia.
    + rewrite lookup_insert_eq in Hj. injection Hj as <-.
      by apply (proj1 (Extend_own (e_time e) (e_net e) d l (redis w) t ltac:(by eapply Extend_nil) Ht Hd)).
  - left. assert (held w !! j = Some dj) as Hj'.
    { destruct a as [err|]; [case_bool_decide|].
      - by rewrite lookup_delete_ne in Hj.
      - by rewrite lookup_alter_ne in Hj.
      - by rewrite lookup_insert_ne in Hj. }
    split; [done|].
    destruct (others_unaffected w (e_client e) j dj t (e_time e)) as [_ Hg]; [done..|].
    rewrite <- (Hkey (e_client e)) in Hg. rewrite <- Hr. 
    destruct (Extend_foreign _ (e_net e) d _ _ Hg) as [Hx _]. fold l in Hx. by rewrite Hx.
Qed.

Lemma handle_beliefs e (w : world R) :
  true_beliefs locks k w -> clock w <= e_time e -> true_beliefs locks k (handle locks e w).
Proof.
  destruct (e_op e) as [| |d] eqn:Hop;
    [by apply handle_acquire_beliefs|by apply handle_release_beliefs|by apply (handle_extend_beliefs e d)].
Qed.

Lemma handle_clock e (w : world R) : clock (handle locks e w) = e_time e.
Proof. unfold handle. destruct (e_op e); [destruct (TryAcquire _ _ _ _)| |destruct (Extend _ _ _ _ _)]; done. Qed.

Lemma handle_all_beliefs es (w : world R) :
  true_beliefs locks k w -> timely (clock w) es -> true_beliefs locks k (handle_all locks es w).
Proof.
  revert w. induction es as [|e es IH]; intros w Hw; [done|]. intros [He Hes]. simpl.
  apply IH; [by apply handle_beliefs|]. by rewrite handle_clock.
Qed.

End mutual_exclusion.

(** The retry loop: it answers nil exactly after the first attempt that
    Redis granted, and never makes more than [n] attempts. *)
Lemma acquire_loop_ok {R : Type} `{RedisLaws R} env l i n (r : R) :
  Millisecond <= ttl l ->
  snd (acquire_loop env l i n r) = None ->
  exists j, (i <= j < i + n)%nat /\
    forall t, at_time (env j) <= t -> t < at_time (env j) + whole_ms (ttl l) ->
      redis_get t (key l) (fst (acquire_loop env l i n r)) = Some (value l).
Proof.
  intros Hd. revert i r. induction n as [|n IH]; intros i r; [done|]. cbn [acquire_loop].
  destruct (TryAcquire _ _ _ _) as [r' ok] eqn:Ht.
  pose proof (f_equal fst Ht) as Hr. pose proof (f_equal snd Ht) as Hs. cbn [fst snd] in Hr, Hs.
  destruct ok as [[]|e]; [| |done].
  - intros _. exists i. split; [lia|]. destruct (TryAcquire_ok _ _ _ _ Hs Hd) as [_ Hown].
    by rewrite Hr in Hown.
  - destruct (ctx_done (env i)); [done|]. intros Ha. 
    destruct (IH _ _ Ha) as (j & ? & ?). exists j. split; [lia|done].
Qed.

(** A function under the lock: it runs only if the lock was acquired, with the value of
    the lock in Redis for the time to live of an attempt; what it returns, or panics
    with, goes to the caller; and then the key is free, if it was still the lock's and
    the release came through, while a key that has another holder is left alone. *)
Lemma WithLock_spec {R : Type} `{RedisLaws R} env uuid k d fn release_now release_net (r : R) :
  Millisecond <= d ->
  let l := NewRedisLock uuid k d in
  let '(r1, e) := Acquire env l r in
  let '(r', a) := WithLock env uuid k d fn release_now release_net r in
  match e with
  | Some e => r' = r1 /\ a = Returns (Some e)
  | None =>
      let r2 := fst (fn r1) in
      a = snd (fn r1) /\
      (exists j, (j < 10)%nat /\ forall t, at_time (env j) <= t -> t < at_time (env j) + whole_ms d ->
         redis_get t (key l) r1 = Some uuid) /\
      (redis_get release_now (key l) r2 = Some uuid -> release_net = Answered ->
         forall t, release_now <= t -> redis_get t (key l) r' = None) /\
      (redis_get release_now (key l) r2 <> Some uuid -> r' = r2)
  end.
Proof.
  intros Hd l. pose proof (acquire_loop_ok env l 0 10 r Hd) as Hok. unfold WithLock. fold l.
  change (acquire_loop env l 0 10 r) with (Acquire env l r) in Hok. destruct (Acquire env l r) as [r1 [e|]]; [done|].
  destruct (Hok eq_refl) as (j & Hj & Hown). destruct (fn r1) as [r2 a]. cbn [fst snd]. split; [done|].
  split; [exists j; split; [lia|exact Hown]|]. split.
  - intros Hg ->. apply (Release_own release_now l r2 Hg).
  - intros Hg. apply (Release_foreign release_now release_net l r2 Hg).
Qed.

(** An extension by less than a millisecond answers nil and drops the lock, however
    long it still had to live. *)
Lemma Extend_submilli {R : Type} `{RedisLaws R} now d l (r : R) :
  0 <= d < Millisecond -> redis_get now (key l) r = Some (value l) ->
  snd (Extend now Answered d l r) = None /\
  forall t, now <= t -> redis_get t (key l) (fst (Extend now Answered d l r)) = None.
Proof.
  intros Hd Hg. unfold Extend, extend_script. rewrite Z.quot_small by lia. simpl.
  rewrite bool_decide_true by done.
  destruct (pexpire_ok r now (key l) 0 (value l) Hg) as [Ha Hp].
  destruct (redis_pexpire _ _ _ _) as [r' a]. simpl in *. subst a. split; [done|].
  intros t Ht. rewrite Hp by done. by rewrite bool_decide_false by lia.
Qed.

(** C26: Over any Redis that behaves as documented, whatever the clients of a key
    call, in whatever order and with whatever network failures: no two of them can
    rely on the lock at the same time. While client [i] can rely on it, an
    attempt of another client answers false, its release and its extension
    answer ErrLockNotHeld, all leave Redis as it is, and the release of [i]
    answers nil and frees the key. *)
Theorem lock_mutual_exclusion {R : Type} `{RedisLaws R} locks k es (r0 : R) t0 i d t :
  (forall i, key (locks i) = k /\ Millisecond <= ttl (locks i)) ->
  (forall i j, value (locks i) = value (locks j) -> i = j) ->
  timely t0 es ->
  let w := handle_all locks es {| redis := r0; clock := t0; held := ∅ |} in
  clock w <= t -> held w !! i = Some d -> t < d ->
  (forall j dj, held w !! j = Some dj -> t < dj -> j = i) /\
  (forall j, j <> i ->
     TryAcquire t Answered (locks j) (redis w) = (redis w, Ok false) /\
     Release t Answered (locks j) (redis w) = (redis w, Some ErrLockNotHeld) /\
     forall ext, Extend t Answered ext (locks j) (redis w) = (redis w, Some ErrLockNotHeld)) /\
  snd (Release t Answered (locks i) (redis w)) = None /\
  redis_get t k (fst (Release t Answered (locks i) (redis w))) = None.
Proof.
  intros Hl Hinj Hes w Ht Hi Hd.
  assert (true_beliefs locks k w) as Hw.
  { apply handle_all_beliefs; try done; intros j; apply Hl. }
  assert (redis_get t k (redis w) = Some (value (locks i))) as Hg by by eapply Hw.
  assert (forall j, key (locks j) = k) as Hk by (intros j; apply Hl).
  split; [|split].
  - intros j dj Hj Htj. eapply (beliefs_exclusive locks k); eauto; intros; apply Hl.
  - intros j Hne.
    assert (redis_get t (key (locks j)) (redis w) <> Some (value (locks j))) as Hf.
    { rewrite Hk, Hg. intros [= He]. by apply Hne, Hinj. }
    destruct (Release_foreign t Answered _ _ Hf) as [? Hr].
    split; [|split; [by apply injective_projections; [|apply Hr]|]].
    + unfold TryAcquire, command. by rewrite (setnx_taken _ _ _ _ _ (value (locks i))) by (by rewrite Hk).
    + intros ext. destruct (Extend_foreign t Answered ext _ _ Hf) as [? He].
      by apply injective_projections; [|apply He].
  - rewrite <- (Hk i) in Hg |- *. destruct (Release_own t _ _ Hg) as [? Hfree].
    split; [done|]. apply Hfree. lia.
Qed.

(** The second client is refused, and its release changes nothing. *)
Lemma lock_mutual_exclusion_witness :
  let w := handle_all example_locks example_run example_start in
  held w !! 0%nat = Some (11 * Second) /\
  Release (4 * Second) Answered (example_locks 1) (redis w) = (redis w, Some ErrLockNotHeld) /\
  snd (Release (4 * Second) Answered (example_locks 0) (redis w)) = None.
Proof.
  intros w. assert (held w !! 0%nat = Some (11 * Second)) as Hw by reflexivity.
  destruct (lock_mutual_exclusion example_locks "lock:job" example_run (∅ : store) 0 0%nat (11 * Second) (4 * Second))
    as (_ & Hj & Hr & _).
  - intros i. split; [reflexivity|vm_compute; discriminate].
  - intros i j. unfold example_locks. simpl. 
    destruct (decide (i = 0%nat)) as [->|], (decide (j = 0%nat)) as [->|]; try done.
    intros Heq. by simplify_eq.
  - vm_compute. repeat split; discriminate.
  - vm_compute. discriminate.
  - exact Hw.
  - vm_compute. reflexivity.
  - split; [exact Hw|]. split; [|exact Hr]. apply (Hj 1%nat). discriminate.
Defined.
