(* ===== verification/Response.v ===== *)
(** * API responses (src/response/response.go)

    What every handler answers with: the envelope and its helpers, pagination,
    the translation of domain errors, and the treatment of nil collections. The
    answer written to the gin context is the value of the function. *)

From S2P Require Import Prelude GoStrings.

(** ** The envelope *)

(** A value handed to [interface{}]: the untyped nil, slices, maps and pointers
    that may be nil, and anything else by its JSON text. *)
Inductive value :=
| VNil
| VSlice (o : option (list value))
| VMap (o : option (list (string * value)))
| VPtr (o : option value)
| VOther (text : string).

Record ErrorDetail := { Code : string; Message : string; Details : value }.

Record Meta := { m_Page : Z; m_Limit : Z; m_TotalPages : Z; m_TotalCount : Z; m_Total : Z }.

Record Response := {
  r_Success : bool;
  r_Message : string;
  r_Data : value;
  r_Error : option ErrorDetail;
  r_Meta : option Meta
}.

(** What [c.JSON] is given. *)
Record reply := { status : Z; body : Response }.

Definition emptyCollection (data : value) : value :=
  match data with
  | VNil => VNil
  | VSlice None => VSlice (Some [])
  | VMap None => VMap (Some [])
  | data => data
  end.

Definition SuccessWithMeta (statusCode : Z) (message : string) (data : value) (meta : option Meta) : reply :=
  {| status := statusCode;
     body := {| r_Success := true; r_Message := message; r_Data := emptyCollection data;
                r_Error := None; r_Meta := meta |} |}.

Definition Success (statusCode : Z) (message : string) (data : value) : reply :=
  {| status := statusCode;
     body := {| r_Success := true; r_Message := message; r_Data := emptyCollection data;
                r_Error := None; r_Meta := None |} |}.

Definition Error (statusCode : Z) (code message : string) (details : value) : reply :=
  {| status := statusCode;
     body := {| r_Success := false; r_Message := ""; r_Data := VNil;
                r_Error := Some {| Code := code; Message := message; Details := details |};
                r_Meta := None |} |}.

Definition BadRequest (message : string) (details : value) : reply := Error 400 "BAD_REQUEST" message details.
Definition Unauthorized (message : string) : reply := Error 401 "UNAUTHORIZED" message VNil.
Definition Forbidden (message : string) : reply := Error 403 "FORBIDDEN" message VNil.
Definition NotFound (message : string) : reply := Error 404 "NOT_FOUND" message VNil.
Definition Conflict (message : string) : reply := Error 409 "CONFLICT" message VNil.
Definition InternalServerError (message : string) : reply :=
  Error 500 "INTERNAL_SERVER_ERROR" message VNil.
Definition Created (message : string) (data : value) : reply := Success 201 message data.
Definition OK (message : string) (data : value) : reply := Success 200 message data.
Definition ValidationError (message : string) (details : value) : reply :=
  Error 422 "VALIDATION_ERROR" message details.
Definition ServiceUnavailable (message : string) : reply := Error 503 "SERVICE_UNAVAILABLE" message VNil.
Definition TooManyRequests (message : string) (details : value) : reply :=
  Error 429 "RATE_LIMIT_EXCEEDED" message details.
Definition List (message : string) (data : value) : reply := OK message data.
Definition Deleted (message : string) : reply := OK message VNil.
Definition Updated (message : string) (data : value) : reply := OK message data.

(** The JSON of a value, for keys that need no escape: a nil slice, map or pointer is [null]. *)
Fixpoint json (v : value) : string :=
  match v with
  | VNil | VSlice None | VMap None | VPtr None => "null"
  | VSlice (Some l) => "[" +:+ Join (json <$> l) "," +:+ "]"
  | VMap (Some l) =>
      "{" +:+ Join ((fun kv => byte 34 +:+ fst kv +:+ byte 34 +:+ ":" +:+ json (snd kv)) <$> l) "," +:+ "}"
  | VPtr (Some v) => json v
  | VOther text => text
  end.

(** The [data] member of a response, [None] when [omitempty] drops it. *)
Definition data_member (r : Response) : option string :=
  match r_Data r with VNil => None | v => Some (json v) end.

(** ** Pagination *)

Record Pagination := { Page : Z; Limit : Z; Total : Z; TotalPages : Z }.

(** [int] and [int64] are 64 bits wide; a zero limit is a division by zero. *)
Definition NewPagination (page limit total : Z) : panics Pagination :=
  if bool_decide (limit = 0) then Panics (ErrMsg "integer divide by zero")
  else
    let totalPages := go_div (wrap64 (wrap64 (total + limit) - 1)) limit in
    Returns {| Page := page; Limit := limit; Total := total;
               TotalPages := if bool_decide (totalPages < 1) then 1 else totalPages |}.

Definition SuccessWithPagination (message : string) (data : value) (p : Pagination) : reply :=
  {| status := 200;
     body := {| r_Success := true; r_Message := message; r_Data := emptyCollection data; r_Error := None;
                r_Meta := Some {| m_Page := Page p; m_Limit := Limit p; m_TotalPages := TotalPages p;
                                  m_TotalCount := Total p; m_Total := Total p |} |} |}.

Definition Paginated (data : value) (page limit total : Z) : panics reply :=
  match NewPagination page limit total with
  | Panics e => Panics e
  | Returns p => Returns (SuccessWithPagination "Data retrieved successfully" data p)
  end.

(** ** Error translation *)

Record ErrorMapping := { HTTPStatus : Z; em_Code : string; em_Message : string }.

Record ErrorTranslator := { mappings : gmap string ErrorMapping; fallback : ErrorMapping }.

Definition NewErrorTranslator : ErrorTranslator :=
  {| mappings := ∅;
     fallback := {| HTTPStatus := 500; em_Code := "INTERNAL_ERROR";
                    em_Message := "An unexpected error occurred. Please try again later." |} |}.

Definition Register (errorText : string) (mapping : ErrorMapping) (t : ErrorTranslator) : ErrorTranslator :=
  {| mappings := <[errorText := mapping]> (mappings t); fallback := fallback t |}.

(** [s[i:j]] *)
Definition slice (s : string) (i j : nat) : string := String.substring i (j - i) s.

Definition contains (s substr : string) : bool :=
  let n := String.length s in
  let m := String.length substr in
  if (m <=? n)%nat then
    existsb (fun i => bool_decide (slice s i (i + m) = substr)) (seq 0 (S (n - m)))
  else false.

Definition containsPattern (errMsg pattern : string) : bool :=
  let n := String.length errMsg in
  let m := String.length pattern in
  (0 <? m)%nat && (m <=? n)%nat &&
  (bool_decide (errMsg = pattern) ||
   (m <? n)%nat &&
   (bool_decide (slice errMsg 0 m = pattern) ||
    bool_decide (slice errMsg (n - m) n = pattern) ||
    contains errMsg pattern)).

(** The loop over the map in the order [order]. *)
Fixpoint first_match (errMsg : string) (order : list (string * ErrorMapping)) : option ErrorMapping :=
  match order with
  | [] => None
  | (pattern, mapping) :: order =>
      if containsPattern errMsg pattern then Some mapping else first_match errMsg order
  end.

Definition mapping_reply (m : ErrorMapping) : reply := Error (HTTPStatus m) (em_Code m) (em_Message m) VNil.

(** [err] is the text of the error, [None] for nil: no answer is written. *)
Definition Translate (order : list (string * ErrorMapping)) (err : option string) (t : ErrorTranslator)
    : option reply :=
  match err with
  | None => None
  | Some errMsg =>
      match first_match errMsg order with
      | Some mapping => Some (mapping_reply mapping)
      | None => Some (mapping_reply (fallback t))
      end
  end.

(** Go iterates over a map in any order. *)
Definition iterates (order : list (string * ErrorMapping)) (t : ErrorTranslator) : Prop :=
  order ≡ₚ map_to_list (mappings t).

Definition order_mappings : list (string * ErrorMapping) :=
  [ ("order not found", {| HTTPStatus := 404; em_Code := "ORDER_NOT_FOUND";
       em_Message := "The requested order was not found." |});
    ("unauthorized access", {| HTTPStatus := 403; em_Code := "ACCESS_DENIED";
       em_Message := "You don't have permission to access this order." |});
    ("insufficient stock", {| HTTPStatus := 409; em_Code := "INSUFFICIENT_STOCK";
       em_Message := "Some items in your order are no longer available." |});
    ("invalid status transition", {| HTTPStatus := 400; em_Code := "INVALID_STATUS_TRANSITION";
       em_Message := "This order cannot be updated to the requested status." |});
    ("order cannot be cancelled", {| HTTPStatus := 400; em_Code := "CANNOT_CANCEL";
       em_Message := "This order can no longer be cancelled." |});
    ("concurrent modification", {| HTTPStatus := 409; em_Code := "CONCURRENT_MODIFICATION";
       em_Message := "This order was modified by another process. Please refresh and try again." |});
    ("payment failed", {| HTTPStatus := 402; em_Code := "PAYMENT_FAILED";
       em_Message := "Payment processing failed. Please try again." |});
    ("invalid payment", {| HTTPStatus := 400; em_Code := "INVALID_PAYMENT";
       em_Message := "Payment validation failed." |});
    ("cart is empty", {| HTTPStatus := 400; em_Code := "EMPTY_CART";
       em_Message := "Your cart is empty. Add items before placing an order." |});
    ("cart not found", {| HTTPStatus := 404; em_Code := "CART_NOT_FOUND";
       em_Message := "Shopping cart not found." |}) ].

Definition DefaultOrderErrorTranslator : ErrorTranslator :=
  foldl (fun t pm => Register (fst pm) (snd pm) t) NewErrorTranslator order_mappings.

(** ** Lemmas *)

(** A list endpoint answers with a list: neither [null] nor no data at all. *)
Lemma collection_data statusCode message data :
  (exists o, data = VSlice o) \/ (exists o, data = VMap o) ->
  exists text, data_member (body (Success statusCode message data)) = Some text /\ text <> "null".
Proof.
  intros [[[l|] ->]|[[l|] ->]]; unfold data_member; simpl; eexists; (split; [done|]); done.
Qed.

Lemma substring_prefix s t : String.substring 0 (String.length s) (s +:+ t) = s.
Proof.
  induction s as [|c s IH]; [by destruct t|].
  change (String c (String.substring 0 (String.length s) (s +:+ t)) = String c s). by rewrite IH.
Qed.

Lemma substring_mid a s t : String.substring (String.length a) (String.length s) (a +:+ s +:+ t) = s.
Proof. induction a as [|c a IH]; [exact (substring_prefix s t)|exact IH]. Qed.

Lemma substring_decomp i m s :
  (i + m <= String.length s)%nat -> exists a b, s = a +:+ String.substring i m s +:+ b /\ String.length a = i.
Proof.
  revert i m. induction s as [|c s IH]; intros i m Him; simpl in Him.
  { destruct i, m; try lia. by exists "", "". }
  destruct i as [|i].
  - destruct m as [|m]; [by exists "", (String c s)|].
    destruct (IH 0%nat m ltac:(lia)) as (a & b & Hs & Ha). destruct a; [|done].
    exists "", b. split; [|done]. exact (f_equal (String c) Hs).
  - destruct (IH i m ltac:(lia)) as (a & b & Hs & Ha). exists (String c a), b.
    split; [exact (f_equal (String c) Hs)|]. simpl. lia.
Qed.

Lemma slice_substring s i m : slice s i (i + m) = String.substring i m s.
Proof. unfold slice. by replace (i + m - i)%nat with m by lia. Qed.

Lemma contains_spec s substr : contains s substr = true <-> exists a b, s = a +:+ substr +:+ b.
Proof.
  unfold contains. destruct (Nat.leb_spec (String.length substr) (String.length s)) as [Hle|Hlt].
  - rewrite existsb_exists. split.
    + intros (i & Hi & Hs). apply bool_decide_eq_true in Hs. rewrite slice_substring in Hs.
      apply in_seq in Hi.
      destruct (substring_decomp i (String.length substr) s ltac:(lia)) as (a & b & Hab & _).
      rewrite Hs in Hab. eauto.
    + intros (a & b & ->). exists (String.length a). split.
      * apply in_seq. rewrite !append_length. lia.
      * apply bool_decide_eq_true. rewrite slice_substring. apply substring_mid.
  - split; [done|]. intros (a & b & ->). rewrite !append_length in Hlt. lia.
Qed.

(** The cascade of cases is "is a non-empty substring". *)
Lemma containsPattern_spec errMsg pattern :
  containsPattern errMsg pattern = true <->
  pattern <> "" /\ exists a b, errMsg = a +:+ pattern +:+ b.
Proof.
  unfold containsPattern. rewrite !andb_true_iff, !orb_true_iff, !andb_true_iff, !orb_true_iff.
  rewrite !bool_decide_eq_true, contains_spec, Nat.ltb_lt, Nat.leb_le, Nat.ltb_lt. split.
  - intros [[Hne Hle] Hor]. split; [by destruct pattern; simpl in *; [lia|]|].
    destruct Hor as [->|[Hlt [[Hp|Hs]|?]]].
    + exists "", "". by rewrite append_nil_r.
    + unfold slice in Hp. rewrite Nat.sub_0_r in Hp.
      destruct (substring_decomp 0 (String.length pattern) errMsg ltac:(lia)) as (a & b & Hab & _).
      rewrite Hp in Hab. eauto.
    + unfold slice in Hs. 
      destruct (substring_decomp (String.length errMsg - String.length pattern)
        (String.length errMsg - (String.length errMsg - String.length pattern)) errMsg ltac:(lia))
        as (a & b & Hab & _).
      rewrite Hs in Hab. eauto.
    + done.
  - intros [Hne (a & b & ->)]. rewrite !append_length.
    assert (0 < String.length pattern)%nat by (destruct pattern; simpl; [done|lia]).
    split; [lia|]. 
    destruct (decide (a = "" /\ b = "")) as [[-> ->]|Hab]; [left; by rewrite append_nil_r|]. right.
    split; [|right; eauto].
    assert (0 < String.length a + String.length b)%nat; [|lia].
    destruct a, b; simpl; [by destruct Hab|lia..].
Qed.

Lemma first_match_Some errMsg order m :
  first_match errMsg order = Some m ->
  exists pattern, (pattern, m) ∈ order /\ containsPattern errMsg pattern = true.
Proof.
  induction order as [|[p m'] order IH]; simpl; [done|].
  destruct (containsPattern errMsg p) eqn:Hp.
  - intros [= ->]. exists p. split; [apply list_elem_of_here|done].
  - intros Hm. destruct (IH Hm) as (p' & ? & ?). exists p'. split; [by apply list_elem_of_further|done].
Qed.

Lemma first_match_None errMsg order :
  first_match errMsg order = None <->
  forall pattern m, (pattern, m) ∈ order -> containsPattern errMsg pattern = false.
Proof.
  induction order as [|[p m'] order IH]; simpl.
  - split; [intros _ ? ? Hin; by apply not_elem_of_nil in Hin|done].
  - destruct (containsPattern errMsg p) eqn:Hp.
    + split; [done|]. intros Hall. rewrite (Hall p m') in Hp; [done|apply list_elem_of_here].
    + rewrite IH. split.
      * intros Hall q m Hin. apply elem_of_cons in Hin as [[= -> ->]|Hin]; eauto.
      * intros Hall q m Hin. eapply Hall. by apply list_elem_of_further.
Qed.

Lemma div_bounds a b : 0 < b -> b * (a / b) <= a < b * (a / b) + b.
Proof. intros Hb. pose proof (Z.mul_div_le a b Hb). pose proof (Z.mul_succ_div_gt a b Hb). lia. Qed.

(** For a positive limit and a total that does not overflow, the number of
    pages is the least one that holds every item, and at least one: every item's
    offset falls on exactly one page from 1 to the last. A zero limit panics. *)
Theorem pagination_covers page limit total :
  0 <= total -> 0 < limit -> total + limit <= max_int64 ->
  exists p, NewPagination page limit total = Returns p /\
    Page p = page /\ Limit p = limit /\ Total p = total /\ 1 <= TotalPages p /\
    (forall offset, 0 <= offset < total ->
       exists! n, 1 <= n <= TotalPages p /\ limit * (n - 1) <= offset < limit * n) /\
    (TotalPages p = 1 \/ limit * (TotalPages p - 1) < total) /\
    NewPagination page 0 total = Panics (ErrMsg "integer divide by zero").
Proof.
  intros Ht Hl Hb. unfold NewPagination at 1. rewrite bool_decide_false by lia.
  assert (go_div (wrap64 (wrap64 (total + limit) - 1)) limit = (total + limit - 1) / limit) as ->.
  { unfold in_int64, min_int64, max_int64 in *. unfold go_div.
    rewrite (wrap64_id (total + limit)) by (unfold in_int64, min_int64, max_int64; lia).
    rewrite (wrap64_id (total + limit - 1)) by (unfold in_int64, min_int64, max_int64; lia).
    rewrite Z.quot_div_nonneg by lia. apply wrap64_id.
    pose proof (Z.div_pos (total + limit - 1) limit). 
    pose proof (div_bounds (total + limit - 1) limit Hl). unfold in_int64, min_int64, max_int64. nia. }
  set (q := (total + limit - 1) / limit).
  assert (limit * q <= total + limit - 1 < limit * q + limit) as Hq by (pose proof (div_bounds (total + limit - 1) limit Hl); unfold q; lia).
  eexists. split; [done|]. cbn [Page Limit Total TotalPages].
  assert ((if bool_decide (q < 1) then 1 else q) = Z.max 1 q) as -> by (case_bool_decide; lia).
  repeat split; [lia| |].
  - intros offset Ho. exists (offset / limit + 1). split.
    + pose proof (div_bounds offset limit Hl).
      assert (0 <= offset / limit) by (apply Z.div_pos; lia).
      assert (offset / limit < Z.max 1 q) by nia. lia.
    + intros n [Hn Hr]. assert (offset / limit = n - 1); [|lia].
      symmetry. apply (Z.div_unique _ _ _ (offset - limit * (n - 1))); lia.
  - destruct (decide (q <= 1)); [left; lia|right; rewrite Z.max_r by lia; nia].
Qed.

Lemma pagination_covers_witness :
  exists p, NewPagination 2 20 41 = Returns p /\ 1 <= TotalPages p /\
    exists! n, 1 <= n <= TotalPages p /\ 20 * (n - 1) <= 40 < 20 * n.
Proof.
  destruct (pagination_covers 2 20 41) as (p & Hp & _ & _ & _ & H1 & Ho & _); [lia|lia|vm_compute; discriminate|].
  exists p. split; [exact Hp|]. split; [exact H1|]. apply Ho. lia.
Defined.

(** The answer to an error is a registered mapping whose non-empty pattern
    occurs in the error's text, or the fallback exactly when there is none, so no
    text of the error itself reaches the client. Which mapping it is depends on
    the order of a map iteration: every mapping with a matching pattern is the
    answer of some run. *)
Theorem translate_mapping order errMsg t :
  iterates order t ->
  ((exists pattern m, mappings t !! pattern = Some m /\ containsPattern errMsg pattern = true /\
     Translate order (Some errMsg) t = Some (mapping_reply m)) \/
  ((forall pattern m, mappings t !! pattern = Some m -> containsPattern errMsg pattern = false) /\
   Translate order (Some errMsg) t = Some (mapping_reply (fallback t)))) /\
  (forall pattern m, mappings t !! pattern = Some m -> containsPattern errMsg pattern = true ->
   exists order', iterates order' t /\ Translate order' (Some errMsg) t = Some (mapping_reply m)).
Proof.
  intros Ho. split; [|intros p m Hp Hc; exists ((p, m) :: map_to_list (delete p (mappings t)));
    unfold iterates, Translate; simpl; rewrite Hc; split; [by apply map_to_list_delete|done]]. assert (forall p m, (p, m) ∈ order <-> mappings t !! p = Some m) as Hin.
  { intros p m. rewrite Ho. apply elem_of_map_to_list. }
  unfold Translate. destruct (first_match errMsg order) as [m|] eqn:Hm.
  - left. apply first_match_Some in Hm as (p & Hp & Hc). exists p, m. by rewrite <- Hin.
  - right. split; [|done]. intros p m Hp. apply Hin in Hp.
    by apply (proj1 (first_match_None errMsg order) Hm p m).
Qed.

Lemma translate_mapping_witness :
  let order := map_to_list (mappings DefaultOrderErrorTranslator) in
  (exists pattern m, mappings DefaultOrderErrorTranslator !! pattern = Some m /\
     containsPattern "cart is empty" pattern = true /\
     Translate order (Some "cart is empty") DefaultOrderErrorTranslator = Some (mapping_reply m)).
Proof.
  intros order. destruct (translate_mapping order "cart is empty" DefaultOrderErrorTranslator) as [[H|[H _]] _].
  - unfold iterates. reflexivity.
  - exact H.
  - exfalso. specialize (H "cart is empty" {| HTTPStatus := 400; em_Code := "EMPTY_CART";
       em_Message := "Your cart is empty. Add items before placing an order." |}).
    assert (true = false) by (apply H; vm_compute; reflexivity). discriminate.
Defined.

(** With the default order translator, one error text with two answers. *)
Example order_translator_ambiguous :
  let t := DefaultOrderErrorTranslator in
  let order := map_to_list (mappings t) in
  let errMsg := Some "invalid payment: payment failed" in
  iterates order t /\ iterates (reverse order) t /\
  Translate order errMsg t <> Translate (reverse order) errMsg t.
Proof.
  split; [unfold iterates; reflexivity|]. split; [apply reverse_Permutation|].
  vm_compute. discriminate.
Qed.
