(* ===== verification/ErrorAnswers.v ===== *)
(** * Domain errors as answers (src/domain/errors.go, src/response/response.go)

    Two ways from an error to the status of an answer: [GetHTTPStatus] follows the codes in
    the chain of the error, the order service's translator looks for patterns in its text.
    Both survive any wrapping; but they differ on the errors that the library itself makes. *)

From S2P Require Import Prelude GoStrings DomainErrors Response.
From Stdlib Require Import Ascii.

(** ** Definitions *)

(** [e'] wraps [e] any number of times, by [WrapError] or by [fmt.Errorf] with one [%w]. *)
Inductive wraps : err -> err -> Prop :=
| wraps_refl e : wraps e e
| wraps_domain e e' message w : wraps e e' -> WrapError message (Some e') = Some w -> wraps e (to_err w)
| wraps_text e e' pre post : wraps e e' -> wraps e (EForeign (pre +:+ render e' +:+ post) [e']).

(** The two statuses of an error, with the order's map iterated in the given order. *)
Definition statuses (order : list (string * ErrorMapping)) (d : DomainError) : Z * option Z :=
  (GetHTTPStatus (Some (to_err d)),
   status <$> Translate order (Some (DomainErrors.Error d)) DefaultOrderErrorTranslator).

Definition one_word (s : string) : Prop := string_elem " " s = false.

(** No character of [s] occurs in [p]. *)
Definition apart (s p : string) : Prop := forall c, string_elem c s = true -> string_elem c p = false.

(** ** Where a pattern can occur *)

Lemma HasPrefix_sep a c b p : string_elem c p = false -> HasPrefix (a +:+ String c b) p = HasPrefix a p.
Proof.
  revert a. induction p as [|x p IH]; intros a Hc; [by destruct a|]. simpl in Hc.
  apply orb_false_iff in Hc as [Hx Hc]. apply bool_decide_eq_false in Hx.
  destruct a as [|d a]; simpl; [by rewrite bool_decide_false|]. by rewrite IH.
Qed.

(** A pattern without the character [c] lies on one side of it. *)
Lemma Contains_sep a c b p :
  string_elem c p = false -> Contains (a +:+ String c b) p = Contains a p || Contains b p.
Proof.
  intros Hc. induction a as [|d a IH]; simpl.
  - change (String c b) with ("" +:+ String c b). rewrite HasPrefix_sep by done. by rewrite orb_false_r.
  - change (String d (a +:+ String c b)) with (String d a +:+ String c b).
    by rewrite HasPrefix_sep, IH, orb_assoc.
Qed.

Lemma Contains_apart a m b p :
  p <> "" -> m <> "" -> apart m p -> Contains (a +:+ m +:+ b) p = Contains a p || Contains b p.
Proof.
  intros Hp. revert a. induction m as [|c m IH]; [done|]. intros a _ Hm.
  change (String c m +:+ b) with (String c (m +:+ b)).
  rewrite Contains_sep by (apply Hm; simpl; by rewrite bool_decide_true). f_equal.
  destruct m as [|d m]; [done|]. change (String d m +:+ b) with ("" +:+ String d m +:+ b).
  rewrite IH; [by destruct p|done|]. intros x Hx. apply Hm. simpl in *. by rewrite Hx, orb_true_r.
Qed.

Lemma Contains_word s p : one_word s -> string_elem " " p = true -> Contains s p = false.
Proof.
  intros Hs Hp. apply not_true_iff_false. intros (a & b & ->)%Contains_spec. unfold one_word in Hs.
  by rewrite !string_elem_append, Hp, orb_true_r in Hs.
Qed.

Lemma containsPattern_Contains s p : containsPattern s p = negb (bool_decide (p = "")) && Contains s p.
Proof.
  apply eq_iff_eq_true. rewrite containsPattern_spec, andb_true_iff, negb_true_iff, bool_decide_eq_false.
  by rewrite Contains_spec.
Qed.

(** ** The digits of a number *)

Definition numeral : string := "-0123456789".

Definition written_in (s : string) : Prop :=
  s <> "" /\ forall c, string_elem c s = true -> string_elem c numeral = true.

Lemma digit_numeral x : string_elem (pretty_N_char x) numeral = true.
Proof. unfold pretty_N_char. repeat case_match; done. Qed.

Lemma pretty_N_written n s : (0 < n)%N -> (forall c, string_elem c s = true -> string_elem c numeral = true) ->
  written_in (pretty_N_go n s).
Proof.
  revert s. induction (N.lt_wf_0 n) as [n _ IH]. intros s Hn Hs. rewrite pretty_N_go_step by done.
  assert (forall c, string_elem c (String (pretty_N_char (n mod 10)) s) = true -> string_elem c numeral = true) as Hs'.
  { intros c [->%bool_decide_eq_true|?]%orb_true_iff; [apply digit_numeral|auto]. }
  destruct (decide (n / 10 = 0)%N) as [->|Hd]; [rewrite pretty_N_go_0; split; [done|exact Hs']|].
  apply IH; [apply N.div_lt; lia|by apply N.neq_0_lt_0|exact Hs'].
Qed.

Lemma zero_written : written_in "0".
Proof. split; [done|]. intros c Hc. simpl in Hc. rewrite orb_false_r in Hc. by apply bool_decide_eq_true in Hc as ->. Qed.

Lemma pretty_written (z : Z) : written_in (pretty z).
Proof.
  assert (forall n : N, written_in (pretty n)) as HN.
  { intros n. unfold pretty, pretty_N. case_decide; [apply zero_written|]. apply pretty_N_written; [lia|done]. }
  destruct z as [|p|p]; [apply zero_written|apply HN|].
  destruct (HN (Npos p)) as [_ Hp]. split; [done|]. intros c Hc.
  change (pretty (Zneg p)) with ("-" +:+ pretty (Npos p)) in Hc. rewrite string_elem_append in Hc.
  apply orb_true_iff in Hc as [Hc|Hc]; [|by apply Hp]. simpl in Hc. rewrite orb_false_r in Hc.
  by apply bool_decide_eq_true in Hc as ->.
Qed.

Lemma numeral_apart s p :
  written_in s -> forallb (fun c => negb (string_elem c p)) (String.list_ascii_of_string numeral) = true -> apart s p.
Proof.
  intros [_ Hs] Hp c Hc. specialize (Hs c Hc). rewrite forallb_forall in Hp. apply negb_true_iff, Hp.
  clear -Hs. induction numeral as [|d n IH]; [done|]. simpl in *.
  apply orb_true_iff in Hs as [->%bool_decide_eq_true|Hs]; auto.
Qed.

(** ** The order service's patterns *)

Lemma registered order p m :
  iterates order DefaultOrderErrorTranslator -> (p, m) ∈ order -> p ∈ order_mappings.*1.
Proof.
  intros Ho Hin. rewrite Ho in Hin. apply (list_elem_of_fmap_2 fst) in Hin. simpl in Hin. revert p Hin.
  apply (Forall_forall (fun p => p ∈ order_mappings.*1)), (bool_decide_unpack _). vm_compute. exact I.
Qed.

(** A text without any of the patterns is answered by the fallback. *)
Lemma unrecognised order text :
  iterates order DefaultOrderErrorTranslator ->
  Forall (fun p => Contains text p = false) order_mappings.*1 ->
  status <$> Translate order (Some text) DefaultOrderErrorTranslator = Some 500.
Proof.
  intros Ho Hp. unfold Translate. rewrite (proj2 (first_match_None text order)); [done|].
  intros p m Hin. rewrite containsPattern_Contains. rewrite Forall_forall in Hp.
  by rewrite (Hp p), andb_false_r by (by eapply registered).
Qed.

(** A text with exactly one of the patterns is answered by its mapping. *)
Lemma recognised order text q m :
  iterates order DefaultOrderErrorTranslator -> mappings DefaultOrderErrorTranslator !! q = Some m ->
  q <> "" -> Contains text q = true ->
  Forall (fun p => p <> q -> Contains text p = false) order_mappings.*1 ->
  status <$> Translate order (Some text) DefaultOrderErrorTranslator = Some (HTTPStatus m).
Proof.
  intros Ho Hq Hne Hc Hp. rewrite Forall_forall in Hp.
  assert (forall p m', (p, m') ∈ order -> mappings DefaultOrderErrorTranslator !! p = Some m') as Hin.
  { intros p m' Hin. rewrite Ho in Hin. by apply elem_of_map_to_list. }
  unfold Translate. destruct (first_match text order) as [m'|] eqn:Hm.
  - apply first_match_Some in Hm as (p & Hpin & Hcp). rewrite containsPattern_Contains in Hcp.
    destruct (decide (p = q)) as [->|Hpq]; [apply Hin in Hpin; by simplify_eq|].
    rewrite (Hp p) in Hcp by (done || by eapply registered). by rewrite andb_false_r in Hcp.
  - assert ((q, m) ∈ order) as Hqin by (rewrite Ho; by apply elem_of_map_to_list).
    pose proof (proj1 (first_match_None text order) Hm q m Hqin) as Hx.
    rewrite containsPattern_Contains, Hc, bool_decide_false in Hx by done. done.
Qed.

(** ** Wrapping *)

Lemma wraps_status e e' : wraps e e' -> GetHTTPStatus (Some e') = GetHTTPStatus (Some e).
Proof.
  induction 1 as [e|e e' message w _ IH Hw|e e' pre post _ IH]; [done| |]; rewrite <-IH; clear IH.
  - destruct (GetDomainError (Some e')) as [d|] eqn:Hd.
    + destruct (wrap_known message _ _ Hd) as (w' & Hw' & Hc & _ & _ & Hg). simplify_eq.
      apply status_code. unfold GetErrorCode. by rewrite Hg, Hd.
    + destruct (wrap_foreign message _ Hd) as (w' & Hw' & Hc & _ & Hg). simplify_eq.
      unfold GetHTTPStatus, GetErrorCode. rewrite Hg, Hd, Hc. done.
  - apply status_code. unfold GetErrorCode, GetDomainError. simpl. by destruct (errors_As e').
Qed.

Lemma wraps_text_inside e e' : wraps e e' -> exists a b, render e' = a +:+ render e +:+ b.
Proof.
  induction 1 as [e|e e' message w _ (a & b & IH) Hw|e e' pre post _ (a & b & IH)].
  - exists "", "". by rewrite append_nil_r.
  - assert (exists c, render (to_err w) = c +:+ render e') as [c ->].
    { exists (DomainErrors.Code w +:+ ": " +:+ message +:+ ": "). rewrite !append_assoc.
      unfold WrapError in Hw. by destruct (GetDomainError (Some e')); injection Hw as <-. }
    exists (c +:+ a), b. by rewrite IH, !append_assoc.
  - exists (pre +:+ a), (b +:+ post). cbn [render]. by rewrite IH, !append_assoc.
Qed.

Lemma wraps_recognised order e e' m :
  wraps e e' -> first_match (render e) order = Some m -> exists m', first_match (render e') order = Some m'.
Proof.
  intros Hw Hm. apply first_match_Some in Hm as (p & Hin & [Hp (a & b & Hs)]%containsPattern_spec).
  destruct (first_match (render e') order) as [m'|] eqn:Hm'; [by exists m'|].
  assert (containsPattern (render e') p = false) as Hn by (by eapply (proj1 (first_match_None _ _) Hm')).
  apply not_true_iff_false in Hn. destruct Hn. apply containsPattern_spec. split; [done|].
  destruct (wraps_text_inside _ _ Hw) as (c & d & ->). rewrite Hs.
  exists (c +:+ a), (b +:+ d). by rewrite !append_assoc.
Qed.

(** ** Texts with a word in quotes, or a number, inside *)

Lemma Contains_quoted a s b p :
  one_word s -> string_elem " " p = true -> string_elem "'" p = false ->
  Contains (a +:+ "'" +:+ s +:+ "'" +:+ b) p = Contains a p || Contains b p.
Proof.
  intros Hs Hp Hq. change (a +:+ "'" +:+ s +:+ "'" +:+ b) with (a +:+ String "'" (s +:+ String "'" b)).
  by rewrite !Contains_sep, (Contains_word s p Hs Hp).
Qed.

Lemma Contains_numbered a (z : Z) b p :
  p <> "" -> forallb (fun c => negb (string_elem c p)) (String.list_ascii_of_string numeral) = true ->
  Contains (a +:+ pretty z +:+ b) p = Contains a p || Contains b p.
Proof. intros Hp Hn. apply Contains_apart; [done|apply pretty_written|by apply numeral_apart; [apply pretty_written|]]. Qed.

(** Each pattern against a text of such pieces. *)
Ltac no_pattern :=
  cbn [order_mappings fmap list_fmap fst]; repeat apply List.Forall_cons; try apply List.Forall_nil;
  rewrite ?Contains_quoted, ?Contains_numbered by (done || reflexivity); try reflexivity.

Section Table.
Context (order : list (string * ErrorMapping)) (Ho : iterates order DefaultOrderErrorTranslator).

Lemma not_found_statuses id : one_word id -> statuses order (NewNotFoundError "order" id) = (404, Some 500).
Proof using Ho.
  intros Hid. unfold statuses. f_equal. apply unrecognised; [done|].
  change (DomainErrors.Error _) with ("NOT_FOUND: order with ID " +:+ "'" +:+ id +:+ "'" +:+ " not found").
  no_pattern.
Qed.

Lemma transition_statuses from to :
  one_word from -> one_word to -> statuses order (NewInvalidTransitionError from to) = (422, Some 500).
Proof using Ho.
  intros Hf Ht. unfold statuses. f_equal. apply unrecognised; [done|].
  change (DomainErrors.Error _) with ("INVALID_STATE_TRANSITION: invalid state transition from " +:+ "'" +:+ from +:+
    "'" +:+ " to " +:+ "'" +:+ to +:+ "'" +:+ "").
  no_pattern.
Qed.

Lemma modification_statuses id (expected actual : Z) :
  one_word id -> statuses order (NewConcurrentModificationError "order" id expected actual) = (409, Some 500).
Proof using Ho.
  intros Hid. unfold statuses. f_equal. apply unrecognised; [done|].
  change (DomainErrors.Error _) with ("CONCURRENT_MODIFICATION: order with ID " +:+ "'" +:+ id +:+ "'" +:+
    (" was modified by another process (expected version " +:+ pretty expected +:+ (", found " +:+ pretty actual +:+ ")"))).
  no_pattern.
Qed.

Lemma stock_statuses id (requested available : Z) :
  one_word id -> statuses order (NewInsufficientStockError id requested available) = (422, Some 409).
Proof using Ho.
  intros Hid. unfold statuses. f_equal.
  replace (DomainErrors.Error _) with ("INSUFFICIENT_STOCK: insufficient stock for product " +:+ "'" +:+ id +:+ "'" +:+
    (": requested " +:+ pretty requested +:+ (", available " +:+ pretty available +:+ "")));
    [|by rewrite append_nil_r].
  change 409 with (HTTPStatus {| HTTPStatus := 409; em_Code := "INSUFFICIENT_STOCK";
    em_Message := "Some items in your order are no longer available." |}).
  apply (recognised order _ "insufficient stock"); [done|vm_compute; reflexivity|done| |].
  - by rewrite Contains_quoted.
  - no_pattern; done.
Qed.
End Table.

(** The sentinels and the defaults, of which the texts are fixed. *)
Lemma fixed_unrecognised d :
  forallb (fun p => negb (Contains (DomainErrors.Error d) p)) order_mappings.*1 = true ->
  forall order, iterates order DefaultOrderErrorTranslator ->
  statuses order d = (GetHTTPStatus (Some (to_err d)), Some 500).
Proof.
  intros Hd order Ho. unfold statuses. f_equal. apply unrecognised; [done|]. apply Forall_forall. intros p Hp.
  rewrite forallb_forall in Hd. apply negb_true_iff, Hd. by apply list_elem_of_In.
Qed.

Lemma fixed_recognised d q st :
  HTTPStatus <$> mappings DefaultOrderErrorTranslator !! q = Some st ->
  q <> "" -> Contains (DomainErrors.Error d) q = true ->
  forallb (fun p => bool_decide (p = q) || negb (Contains (DomainErrors.Error d) p)) order_mappings.*1 = true ->
  forall order, iterates order DefaultOrderErrorTranslator ->
  statuses order d = (GetHTTPStatus (Some (to_err d)), Some st).
Proof.
  intros (m & Hq & ->)%fmap_Some Hne Hc Hd order Ho. unfold statuses. f_equal. apply (recognised order _ q); [done..|].
  apply Forall_forall. intros p Hp Hpq. rewrite forallb_forall in Hd.
  specialize (Hd p (proj1 (list_elem_of_In _ _) Hp)).
  rewrite bool_decide_false in Hd by done. by apply negb_true_iff.
Qed.

(** ** Property *)

(** C31: errors as answers. However an error is wrapped, its status by code stays, and a text
    that the order service's translator recognises stays recognised, so that the answer is a
    registered one and not the fallback. But for the library's own errors the two disagree:
    an order that is not found, a concurrent modification and an invalid transition are
    404, 409 and 422 by their codes and 500 by their texts, in which no pattern occurs,
    whatever the identifier, the versions and the states (single words, as identifiers and
    states are); missing stock is 422 and 409, unauthorized access 401 and 403. *)
Theorem domain_errors_answered order id from to (v v' n n' : Z) :
  iterates order DefaultOrderErrorTranslator -> one_word id -> one_word from -> one_word to ->
  (forall e e', wraps e e' ->
     GetHTTPStatus (Some e') = GetHTTPStatus (Some e) /\
     ((exists m, first_match (render e) order = Some m) -> exists p m,
        mappings DefaultOrderErrorTranslator !! p = Some m /\
        Translate order (Some (render e')) DefaultOrderErrorTranslator = Some (mapping_reply m))) /\
  statuses order (NewNotFoundError "order" id) = (404, Some 500) /\
  statuses order (NewConcurrentModificationError "order" id v v') = (409, Some 500) /\
  statuses order (NewInvalidTransitionError from to) = (422, Some 500) /\
  statuses order (NewInsufficientStockError id n n') = (422, Some 409) /\
  statuses order (NewUnauthorizedError "") = (401, Some 500) /\
  statuses order (NewForbiddenError "") = (403, Some 500) /\
  statuses order ErrUnauthorized = (401, Some 403) /\
  statuses order ErrConcurrentModification = (409, Some 409).
Proof.
  intros Ho Hid Hf Ht. split.
  { intros e e' Hw. split; [by apply wraps_status|]. intros [m Hm].
    destruct (wraps_recognised order e e' m Hw Hm) as [m' Hm']. unfold Translate. rewrite Hm'.
    apply first_match_Some in Hm' as (p & Hin & _). exists p, m'. split; [|done].
    rewrite Ho in Hin. by apply elem_of_map_to_list. }
  split_and!; [by apply not_found_statuses|by apply modification_statuses|by apply transition_statuses
    |by apply stock_statuses|by apply fixed_unrecognised|by apply fixed_unrecognised| |].
  - by apply (fixed_recognised ErrUnauthorized "unauthorized access" 403).
  - by apply (fixed_recognised ErrConcurrentModification "concurrent modification" 409).
Qed.

(** ** Witness *)

Definition some_order : list (string * ErrorMapping) := map_to_list (mappings DefaultOrderErrorTranslator).

Lemma domain_errors_answered_witness :
  statuses some_order (NewNotFoundError "order" "7") = (404, Some 500) /\
  GetHTTPStatus (Some (EForeign "load: NOT_FOUND: order with ID '7' not found"
    [to_err (NewNotFoundError "order" "7")])) = 404.
Proof.
  destruct (domain_errors_answered some_order "7" "paid" "new" 1 2 1 0) as (Hw & Hn & _); [|reflexivity..|].
  - unfold iterates. reflexivity.
  - split; [exact Hn|].
    apply (Hw (to_err (NewNotFoundError "order" "7"))).
    apply (wraps_text _ (to_err (NewNotFoundError "order" "7")) "load: " ""). apply wraps_refl.
Defined.
