(* ===== verification/TokenAuth.v ===== *)
(** * Tokens (src/auth/jwt.go, src/auth/internal_token.go, src/middleware/auth.go)

    The JWT manager over the JWT library, the shared token of the internal
    routes, and the middleware that authenticates users and checks roles. The JWT
    library is not part of the repository: the class [JWT] holds the calls the
    manager makes and [JWTLaws] their documented behaviour. *)

From S2P Require Import Prelude GoStrings GoFloat Utf8 Response.
From Stdlib Require Import Ascii.

(** ** JWT *)

Definition ErrInvalidToken : error := ErrVar "auth.ErrInvalidToken".
Definition ErrExpiredToken : error := ErrVar "auth.ErrExpiredToken".
Definition ErrWrongTokenType : error := ErrVar "auth.ErrWrongTokenType".

Definition TokenTypeAccess : string := "access".
Definition TokenTypeRefresh : string := "refresh".
Definition TokenTypeTemp : string := "temp".

(** The claims with the registered claims embedded in them; user ids as their text. *)
Record Claims := {
  UserID : string;
  Email : string;
  Role : string;
  TokenType : string;
  Purpose : string;
  ExpiresAt : Z;
  IssuedAt : Z;
  NotBefore : Z;
  JTI : string;
  Subject : string
}.

#[export] Instance Claims_eq_dec : EqDecision Claims.
Proof. solve_decision. Defined.

Record TokenPair := { AccessToken : string; RefreshToken : string; ExpiresIn : Z }.

(** The library: the precision of a NumericDate, signing with HS256, parsing with
    a key function (of "the method is HMAC") at a time, parsing without verification,
    and [errors.Is(_, jwt.ErrTokenExpired)]. *)
Class JWT := {
  NewNumericDate : Z -> Z;
  SignedString : string -> Claims -> result string;
  ParseWithClaims : Z -> (bool -> result string) -> string -> result (Claims * bool);
  ParseUnverified : string -> result Claims;
  Is_TokenExpired : error -> bool
}.

(** What claims are read back as: themselves, if all their texts are UTF-8; JSON changes the
    texts that are not, and only those. *)
Definition readable (c : Claims) : bool :=
  forallb valid_utf8 [UserID c; Email c; Role c; TokenType c; Purpose c; JTI c; Subject c].

Definition read_as (c c' : Claims) : Prop :=
  (readable c = true -> c' = c) /\ (valid_utf8 (TokenType c) = true -> TokenType c' = TokenType c).

(** Documented behaviour: a NumericDate is cut to whole seconds; a token signed
    with a key is parsed, when the key function gives that key, to what its claims are
    read back as while it is valid, and to an expiry error from its expiry on. *)
Class JWTLaws `{JWT} := {
  numeric_date t : NewNumericDate t <= t < NewNumericDate t + Second;
  parse_valid key c s kf now :
    SignedString key c = Ok s -> kf true = Ok key -> NotBefore c <= now < ExpiresAt c ->
    exists c', ParseWithClaims now kf s = Ok (c', true) /\ read_as c c';
  parse_expired key c s kf now :
    SignedString key c = Ok s -> kf true = Ok key -> ExpiresAt c <= now ->
    exists e, ParseWithClaims now kf s = Err e /\ Is_TokenExpired e = true
}.

Record JWTManager := { secretKey : string; accessTokenTTL : Z; refreshTokenTTL : Z }.

Definition NewJWTManager (secret : string) (access refresh : Z) : JWTManager :=
  {| secretKey := secret; accessTokenTTL := access; refreshTokenTTL := refresh |}.

Section jwt.
Context `{JWT} `{FloatConv}.

(** [int64(d.Seconds())] *)
Definition int_seconds (d : Z) : Z :=
  int64_of_f64 (f64_add (f64_of_int (Z.quot d Second))
                        (f64_div (f64_of_int (Z.rem d Second)) (f64_of_int Second))).

(** [jti] is the fresh id. *)
Definition token_claims (now : Z) (jti userID email role purpose : string) (ttl : Z) (tokenType : string)
    : Claims :=
  {| UserID := userID; Email := email; Role := role; TokenType := tokenType; Purpose := purpose;
     ExpiresAt := NewNumericDate (time_Add now ttl); IssuedAt := NewNumericDate now;
     NotBefore := NewNumericDate now; JTI := jti; Subject := userID |}.

Definition generateToken (m : JWTManager) (now : Z) (jti userID email role purpose : string) (ttl : Z)
    (tokenType : string) : result string :=
  SignedString (secretKey m) (token_claims now jti userID email role purpose ttl tokenType).

Definition GenerateTokenPair (m : JWTManager) (now now' : Z) (jti jti' userID email role : string)
    : result TokenPair :=
  (accessToken <- generateToken m now jti userID email role "" (accessTokenTTL m) TokenTypeAccess ;;
   refreshToken <- generateToken m now' jti' userID email role "" (refreshTokenTTL m) TokenTypeRefresh ;;
   Ok {| AccessToken := accessToken; RefreshToken := refreshToken;
         ExpiresIn := int_seconds (accessTokenTTL m) |})%go.

Definition tempTTL : Z := 5 * Minute.

Definition GenerateTempToken (m : JWTManager) (now : Z) (jti userID email purpose : string) : result string :=
  generateToken m now jti userID email purpose purpose tempTTL TokenTypeTemp.

Definition key_function (m : JWTManager) (hmac : bool) : result string :=
  if hmac then Ok (secretKey m) else Err ErrInvalidToken.

Definition parseToken (m : JWTManager) (now : Z) (tokenString : string) : result Claims :=
  match ParseWithClaims now (key_function m) tokenString with
  | Err e => if Is_TokenExpired e then Err ErrExpiredToken else Err ErrInvalidToken
  | Ok (claims, valid) => if (valid : bool) then Ok claims else Err ErrInvalidToken
  end.

Definition ValidateTokenOfType (m : JWTManager) (now : Z) (tokenString want : string) : result Claims :=
  (claims <- parseToken m now tokenString ;;
   if bool_decide (TokenType claims <> want) then Err ErrWrongTokenType else Ok claims)%go.

Definition ValidateToken (m : JWTManager) (now : Z) (tokenString : string) : result Claims :=
  ValidateTokenOfType m now tokenString TokenTypeAccess.

Definition ExtractClaims (tokenString : string) : result Claims := ParseUnverified tokenString.

(** ** The middleware of user routes *)

(** A value in the gin context. [CMap]: a map with this string under [role]. *)
Inductive ctx_value := CStr (s : string) | CClaims (c : Claims) | CMap (role : option string) | COther.

Abbreviation context := (gmap string ctx_value).

(** What a handler does: go on with a context, or answer and abort. *)
Inductive step := Next (c : context) | Abort (r : reply).

(** A cookie that is missing has no value. *)
Record request := { cookie : gmap string string; header : gmap string string }.

Definition get_header (name : string) (r : request) : string := default "" (header r !! name).

(** [strings.SplitN(s, sep, 2)] *)
Fixpoint SplitN2 (s : string) (sep : ascii) : string * option string :=
  match s with
  | EmptyString => ("", None)
  | String c s =>
      if bool_decide (c = sep) then ("", Some s)
      else let '(a, b) := SplitN2 s sep in (String c a, b)
  end.

Definition bearer (authHeader : string) : string :=
  match SplitN2 authHeader " "%char with
  | (scheme, Some token) => if bool_decide (scheme = "Bearer") then token else ""
  | (_, None) => ""
  end.

Definition request_token (r : request) : string :=
  match cookie r !! "access_token" with
  | Some token =>
      if bool_decide (token <> "") then token
      else let h := get_header "Authorization" r in if bool_decide (h <> "") then bearer h else ""
  | None => let h := get_header "Authorization" r in if bool_decide (h <> "") then bearer h else ""
  end.

Definition set_claims (claims : Claims) (c : context) : context :=
  <["claims" := CClaims claims]> (<["user_role" := CStr (Role claims)]>
    (<["user_email" := CStr (Email claims)]> (<["user_id" := CStr (UserID claims)]> c))).

Definition AuthMiddleware (m : JWTManager) (now : Z) (r : request) (c : context) : step :=
  let tokenString := request_token r in
  if bool_decide (tokenString = "") then Abort (Unauthorized "Authentication required")
  else
    match ValidateToken m now tokenString with
    | Err _ => Abort (Unauthorized "Invalid or expired token")
    | Ok claims => Next (set_claims claims c)
    end.

Definition RoleMiddleware (allowedRoles : list string) (c : context) : step :=
  match c !! "user_role" with
  | None => Abort (Forbidden "User role not found")
  | Some (CStr userRole) =>
      if existsb (fun allowed => bool_decide (userRole = allowed)) allowedRoles then Next c
      else Abort (Forbidden "Insufficient permissions")
  | Some _ => Abort (Forbidden "Invalid user role type")
  end.

Definition role_of_context (c : context) : string :=
  let userRole :=
    match c !! "claims" with
    | Some (CClaims claims) => Role claims
    | Some (CMap (Some role)) => role
    | _ => ""
    end in
  if bool_decide (userRole = "") then
    match c !! "user_role" with Some (CStr r) => r | _ => userRole end
  else userRole.

Definition is_admin (role : string) : bool :=
  bool_decide (role = "admin") || bool_decide (role = "super_admin").

Definition RequireAdmin (c : context) : step :=
  let userRole := role_of_context c in
  if bool_decide (userRole = "") then
    Abort (Unauthorized "Authentication required - use AuthMiddleware before RequireAdmin")
  else if negb (is_admin userRole) then Abort (Forbidden "Admin access required")
  else Next c.

Definition RequireAdminWithJWT (m : JWTManager) (now : Z) (r : request) (c : context) : step :=
  let tokenString := request_token r in
  if bool_decide (tokenString = "") then Abort (Unauthorized "Authentication required")
  else
    match ValidateToken m now tokenString with
    | Err _ => Abort (Unauthorized "Invalid or expired token")
    | Ok claims =>
        if negb (is_admin (Role claims)) then Abort (Forbidden "Admin access required")
        else Next (set_claims claims c)
    end.

(** One handler after another. *)
Definition andThen (s : step) (f : context -> step) : step :=
  match s with Next c => f c | Abort r => Abort r end.

End jwt.

(** ** The token of the internal routes *)

Definition InternalTokenEnvVar : string := "INTERNAL_API_TOKEN".
Definition DevInternalToken : string := "dev-internal-token".
Definition PlaceholderInternalToken : string := "CHANGE_ME_GENERATE_WITH_openssl_rand_base64_32".
Definition PlaceholderPrefix : string := "CHANGE_ME".
Definition MinInternalTokenLength : nat := 24.

(** [None]: the request goes on. *)
Definition InternalToken (expected presented : string) : option reply :=
  if bool_decide (expected = "") then
    Some (Unauthorized "Internal API is not configured on this service")
  else if bool_decide (presented = "") then Some (Unauthorized "Internal service token required")
  else if bool_decide (presented <> expected) then Some (Unauthorized "Invalid internal service token")
  else None.

Definition IsDevEnv (appEnv : string) : bool :=
  bool_decide (ToLower (TrimSpace appEnv) ∈ [""; "dev"; "development"; "local"; "test"]).

(** [env] is the value of the environment variable, empty when unset. *)
Definition ResolveInternalToken (env appEnv : string) : result string :=
  let token := TrimSpace env in
  if IsDevEnv appEnv then
    if bool_decide (token = "") then Ok DevInternalToken else Ok token
  else if bool_decide (token = "") then
    Err (ErrMsg (InternalTokenEnvVar +:+ " is required"))
  else if bool_decide (token = DevInternalToken) then
    Err (ErrMsg (InternalTokenEnvVar +:+ " is set to the development placeholder"))
  else if HasPrefix (ToUpper token) PlaceholderPrefix then
    Err (ErrMsg (InternalTokenEnvVar +:+ " still holds a placeholder"))
  else if bool_decide (String.length token < MinInternalTokenLength)%nat then
    Err (ErrMsg (InternalTokenEnvVar +:+ " is too short"))
  else Ok token.

Definition MustResolveInternalToken (env appEnv : string) : panics string :=
  must (ResolveInternalToken env appEnv).

(** ** A JWT library: tokens are an encoding of the key and the claims *)

Definition claims_fields (c : Claims) : list string * list Z :=
  ([UserID c; Email c; Role c; TokenType c; Purpose c; JTI c; Subject c],
   [ExpiresAt c; IssuedAt c; NotBefore c]).

Definition fields_claims (f : list string * list Z) : option Claims :=
  match f with
  | ([u; e; r; t; p; j; s], [x; i; n]) =>
      Some {| UserID := u; Email := e; Role := r; TokenType := t; Purpose := p; ExpiresAt := x;
              IssuedAt := i; NotBefore := n; JTI := j; Subject := s |}
  | _ => None
  end.

Definition decode_token (s : string) : option (string * Claims) :=
  kf ← decode (unbits s);
  c ← fields_claims (snd kf);
  Some (fst (kf : string * (list string * list Z)), c).

Definition example_parse (now : Z) (kf : bool -> result string) (s : string) : result (Claims * bool) :=
  match decode_token s with
  | None => Err (ErrMsg "token is malformed")
  | Some (key, c) =>
      match kf true with
      | Err e => Err (ErrWrap "token is unverifiable" e)
      | Ok key' =>
          if bool_decide (key <> key') then Err (ErrMsg "signature is invalid")
          else if bool_decide (ExpiresAt c <= now) then Err (ErrVar "jwt.ErrTokenExpired")
          else if bool_decide (now < NotBefore c) then Err (ErrMsg "token is not valid yet")
          else Ok (c, true)
      end
  end.

Definition example_jwt : JWT := {|
  NewNumericDate t := t / Second * Second;
  SignedString key c := Ok (bits (encode (key, claims_fields c)));
  ParseWithClaims := example_parse;
  ParseUnverified s :=
    match decode_token s with Some (_, c) => Ok c | None => Err (ErrMsg "token is malformed") end;
  Is_TokenExpired e := bool_decide (e = ErrVar "jwt.ErrTokenExpired")
|}.

Definition example_manager : JWTManager := NewJWTManager "secret" (15 * Minute) (60 * 24 * Minute).

(** ** Lemmas *)

Lemma decode_encode_token key c : decode_token (bits (encode (key, claims_fields c))) = Some (key, c).
Proof. unfold decode_token. rewrite unbits_bits, decode_encode. by destruct c. Qed.

Lemma example_jwt_laws : @JWTLaws example_jwt.
Proof.
  split; cbn [NewNumericDate SignedString ParseWithClaims Is_TokenExpired example_jwt].
  - intros t. unfold Second. Z.div_mod_to_equations. lia.
  - intros key c s kf now [= <-] Hk [Hn He]. unfold example_parse. rewrite decode_encode_token, Hk.
    rewrite (bool_decide_false (key <> key)) by (intros []; done).
    exists c. split; [|by split]. by rewrite !bool_decide_false by lia.
  - intros key c s kf now [= <-] Hk He. unfold example_parse. rewrite decode_encode_token, Hk.
    rewrite bool_decide_false by (intros []; done). rewrite bool_decide_true by done.
    eexists. split; [done|]. by apply bool_decide_true.
Qed.

Section lemmas.
Context `{JWTLaws} `{FloatConv}.
#[local] Set Default Proof Using "All".

(** A token of the manager, at any time from its making on. *)
Lemma validate_minted m now jti userID email role purpose ttl ty s t want :
  generateToken m now jti userID email role purpose ttl ty = Ok s -> now <= t -> valid_utf8 ty = true ->
  exists claims, read_as (token_claims now jti userID email role purpose ttl ty) claims /\
  ValidateTokenOfType m t s want =
    if bool_decide (t < NewNumericDate (now + ttl)) then
      if bool_decide (ty = want) then Ok claims else Err ErrWrongTokenType
    else Err ErrExpiredToken.
Proof.
  intros Hs Ht Hty. unfold generateToken in Hs. unfold ValidateTokenOfType, parseToken.
  pose proof (numeric_date now) as Hnow.
  set (c := token_claims now jti userID email role purpose ttl ty) in *.
  case_bool_decide as Hexp.
  - destruct (parse_valid (secretKey m) c s (key_function m) t Hs eq_refl) as (c' & -> & Hc');
      [unfold c, token_claims, time_Add; simpl; lia|]. exists c'. split; [done|].
    simpl. rewrite (proj2 Hc' Hty). change (TokenType c) with ty. by case_bool_decide; case_bool_decide.
  - exists c. split; [by split|]. destruct (parse_expired (secretKey m) c s (key_function m) t Hs eq_refl) as (e & -> & ->); [|done].
    unfold c, token_claims, time_Add. simpl. lia.
Qed.

(** The chain of the two middlewares admits what the standalone one admits. *)
Lemma admin_chain_agrees m now r c c' :
  andThen (AuthMiddleware m now r c) RequireAdmin = Next c' <-> RequireAdminWithJWT m now r c = Next c'.
Proof.
  unfold AuthMiddleware, RequireAdminWithJWT. case_bool_decide; [done|].
  destruct (ValidateToken m now (request_token r)) as [claims|]; [|done]. simpl.
  unfold RequireAdmin, role_of_context. 
  assert (set_claims claims c !! "claims" = Some (CClaims claims)) as -> by (unfold set_claims; by simplify_map_eq).
  assert (set_claims claims c !! "user_role" = Some (CStr (Role claims))) as -> by (unfold set_claims; by simplify_map_eq).
  destruct (bool_decide_reflect (Role claims = "")) as [->|Hne]; [done|].
  rewrite bool_decide_false by done. by destruct (is_admin (Role claims)).
Qed.

Lemma middleware_refuses m t r c e :
  ValidateToken m t (request_token r) = Err e ->
  exists msg, AuthMiddleware m t r c = Abort (Unauthorized msg) /\
              RequireAdminWithJWT m t r c = Abort (Unauthorized msg).
Proof.
  intros He. unfold AuthMiddleware, RequireAdminWithJWT. rewrite He. 
  case_bool_decide; eexists; done.
Qed.

End lemmas.

(** C30: Of the three kinds of tokens only the access token opens user routes: it
    authenticates with exactly the claims it was made with (of which JSON changes texts that
    are not UTF-8, if there are any) until a second before its
    lifetime ends and never after it, while the refresh token and the temporary
    token are refused at all times, whatever role they carry; the refresh token is
    accepted as a refresh token during its lifetime. *)
Theorem tokens_not_interchangeable `{JWTLaws} `{FloatConv} m now now' jti jti' jti'' user email role purpose pair temp t r c :
  GenerateTokenPair m now now' jti jti' user email role = Ok pair ->
  GenerateTempToken m now' jti'' user email purpose = Ok temp ->
  now <= t -> now' <= t ->
  (request_token r = AccessToken pair -> AccessToken pair <> "" ->
     (t + Second <= now + accessTokenTTL m ->
        exists claims, read_as (token_claims now jti user email role "" (accessTokenTTL m) TokenTypeAccess) claims /\
          AuthMiddleware m t r c = Next (set_claims claims c)) /\
     (now + accessTokenTTL m <= t ->
        AuthMiddleware m t r c = Abort (Unauthorized "Invalid or expired token"))) /\
  (request_token r = RefreshToken pair \/ request_token r = temp ->
     exists msg, AuthMiddleware m t r c = Abort (Unauthorized msg) /\
                 RequireAdminWithJWT m t r c = Abort (Unauthorized msg)) /\
  (t + Second <= now' + refreshTokenTTL m ->
     exists claims, read_as (token_claims now' jti' user email role "" (refreshTokenTTL m) TokenTypeRefresh) claims /\
       ValidateTokenOfType m t (RefreshToken pair) TokenTypeRefresh = Ok claims).
Proof.
  intros Hpair Htemp Ht Ht'. unfold GenerateTokenPair in Hpair.
  destruct (generateToken m now _ _ _ _ _ _ _) as [acc|] eqn:Ha; [|done]. simpl in Hpair.
  destruct (generateToken m now' _ _ _ _ _ _ _) as [ref|] eqn:Hr; [|done]. injection Hpair as <-.
  cbn [AccessToken RefreshToken].
  pose proof (numeric_date (now + accessTokenTTL m)) as Hda.
  pose proof (numeric_date (now' + refreshTokenTTL m)) as Hdr.
  split; [|split].
  - intros Hreq Hne. unfold AuthMiddleware. rewrite Hreq, bool_decide_false by done.
    unfold ValidateToken. destruct (validate_minted _ _ _ _ _ _ _ _ _ _ t TokenTypeAccess Ha Ht eq_refl) as (claims & Hc & ->).
    split; intros Hlife; [exists claims; split; [done|]; rewrite !bool_decide_true|rewrite bool_decide_false]; done || lia.
  - intros [Hreq|Hreq];
      [destruct (validate_minted _ _ _ _ _ _ _ _ _ _ t TokenTypeAccess Hr Ht' eq_refl) as (claims & _ & Hv)
      |destruct (validate_minted _ _ _ _ _ _ _ _ _ _ t TokenTypeAccess Htemp Ht' eq_refl) as (claims & _ & Hv)];
      rewrite <- Hreq in Hv; rewrite (bool_decide_false (_ = TokenTypeAccess)) in Hv by done;
      case_bool_decide; by eapply middleware_refuses.
  - intros Hlife. destruct (validate_minted _ _ _ _ _ _ _ _ _ _ t TokenTypeRefresh Hr Ht' eq_refl) as (claims & Hc & ->).
    exists claims. split; [done|]. by rewrite !bool_decide_true by (done || lia).
Qed.

(** A temporary token for the purpose [admin] opens nothing. *)
Lemma tokens_not_interchangeable_witness :
  exists pair temp,
    @GenerateTokenPair example_jwt amd64_conv example_manager 0 0 "a" "b" "u" "e" "customer" = Ok pair /\
    @GenerateTempToken example_jwt example_manager 0 "c" "u" "e" "admin" = Ok temp /\
    exists msg, @RequireAdminWithJWT example_jwt example_manager Second
      {| cookie := {["access_token" := temp]}; header := ∅ |} ∅ = Abort (Unauthorized msg).
Proof.
  eexists _, _. split; [reflexivity|]. split; [reflexivity|].
  set (r := {| cookie := _; header := _ |}).
  destruct (@tokens_not_interchangeable example_jwt example_jwt_laws amd64_conv example_manager
    0 0 "a" "b" "c" "u" "e" "customer" "admin" _ _ Second r ∅ eq_refl eq_refl
    ltac:(vm_compute; discriminate) ltac:(vm_compute; discriminate)) as (_ & Hr & _).
  destruct Hr as (msg & _ & Hm); [right; vm_compute; reflexivity|]. by exists msg.
Defined.

(** ** The token of the internal routes *)

Lemma InternalToken_None token presented :
  InternalToken token presented = None <-> token <> "" /\ presented = token.
Proof. unfold InternalToken. repeat case_bool_decide; split; naive_solver. Qed.

Lemma resolve_production env appEnv token :
  IsDevEnv appEnv = false -> ResolveInternalToken env appEnv = Ok token ->
  token = TrimSpace env /\ token <> "" /\ token <> DevInternalToken /\
  HasPrefix (ToUpper token) PlaceholderPrefix = false /\
  (MinInternalTokenLength <= String.length token)%nat.
Proof.
  unfold ResolveInternalToken. intros ->.
  case_bool_decide; [done|]. case_bool_decide; [done|].
  destruct (HasPrefix (ToUpper (TrimSpace env)) PlaceholderPrefix) eqn:Hp; [done|].
  case_bool_decide; [done|]. intros [= <-]. repeat split; [done..|lia].
Qed.

Lemma resolve_development env appEnv :
  IsDevEnv appEnv = true ->
  ResolveInternalToken env appEnv = Ok (if bool_decide (TrimSpace env = "") then DevInternalToken else TrimSpace env).
Proof. unfold ResolveInternalToken. intros ->. by case_bool_decide. Qed.

Lemma resolve_nonempty env appEnv token : ResolveInternalToken env appEnv = Ok token -> token <> "".
Proof.
  destruct (IsDevEnv appEnv) eqn:He.
  - rewrite resolve_development by done. case_bool_decide; by intros [= <-].
  - intros Hr. by apply (resolve_production env appEnv).
Qed.

(** Outside development the internal token is never empty, short, or one of the
    published placeholders, start-up panics when the variable holds nothing
    better, and only requests that present the token go on; an unconfigured
    service lets nobody in. *)
Theorem internal_token_guards env appEnv presented :
  (forall token, ResolveInternalToken env appEnv = Ok token -> IsDevEnv appEnv = false ->
     token = TrimSpace env /\ (MinInternalTokenLength <= String.length token)%nat /\
     token <> DevInternalToken /\ token <> PlaceholderInternalToken /\
     HasPrefix (ToUpper token) PlaceholderPrefix = false) /\
  (IsDevEnv appEnv = true -> exists token, ResolveInternalToken env appEnv = Ok token /\ token <> "") /\
  (forall token, MustResolveInternalToken env appEnv = Returns token ->
     (InternalToken token presented = None <-> presented = token)) /\
  InternalToken "" presented <> None /\
  (ResolveInternalToken env appEnv = Ok DevInternalToken -> IsDevEnv appEnv = true).
Proof.
  split; [|split; [|split; [|split]]].
  - intros token Hr He. destruct (resolve_production _ _ _ He Hr) as (? & ? & ? & Hp & ?).
    repeat split; [done..| |done]. by intros ->.
  - intros He. rewrite resolve_development by done. eexists. split; [done|]. by case_bool_decide.
  - intros token. unfold MustResolveInternalToken, must.
    destruct (ResolveInternalToken env appEnv) as [t|] eqn:Hr; [|done]. intros [= <-].
    rewrite InternalToken_None. pose proof (resolve_nonempty _ _ _ Hr). tauto.
  - rewrite InternalToken_None. by intros [? _].
  - intros Hr. destruct (IsDevEnv appEnv) eqn:He; [done|].
    by destruct (resolve_production _ _ _ He Hr) as (_ & _ & ? & _).
Qed.

Lemma internal_token_guards_witness :
  ResolveInternalToken " 0123456789abcdef01234567 " "production" = Ok "0123456789abcdef01234567" /\
  (InternalToken "0123456789abcdef01234567" "0123456789abcdef01234567" = None <->
   "0123456789abcdef01234567" = "0123456789abcdef01234567").
Proof.
  split; [reflexivity|].
  exact (proj1 (proj2 (proj2 (internal_token_guards " 0123456789abcdef01234567 " "production"
    "0123456789abcdef01234567"))) "0123456789abcdef01234567" eq_refl).
Defined.
