(* ===== verification/Streams.v ===== *)
(** * Subjects and streams (src/eventsourcing/catalog.go, src/nats/jetstream.go)

    The catalogue of subjects, the streams a service creates, and publication.
    The NATS server is not part of the repository: the class [JetStream] holds the
    calls of the client and [JetStreamLaws] their documented behaviour. *)

From S2P Require Import Prelude GoStrings Outbox.
From Stdlib Require Import Ascii.

(** ** The catalogue *)

Definition SubjectUserRegistered : string := "events.user.registered".
Definition SubjectUserPasswordResetRequested : string := "events.user.password_reset_requested".
Definition SubjectOrderCreated : string := "events.order.created".
Definition SubjectOrderConfirmed : string := "events.order.confirmed".
Definition SubjectOrderCancelled : string := "events.order.cancelled".
Definition SubjectOrderStatusChanged : string := "events.order.status_changed".
Definition SubjectPaymentReceived : string := "events.order.payment.received".
Definition SubjectPaymentVerified : string := "events.order.payment.verified".
Definition SubjectPaymentRejected : string := "events.order.payment.rejected".
Definition SubjectPaymentRefunded : string := "events.order.payment.refunded".
Definition SubjectInventoryStockUpdated : string := "events.inventory.stock.updated".
Definition SubjectInventoryProductRestocked : string := "events.inventory.product.restocked".
Definition SubjectCatalogProductCreated : string := "events.catalog.product.created".
Definition SubjectCatalogProductUpdated : string := "events.catalog.product.updated".
Definition SubjectCatalogProductDeleted : string := "events.catalog.product.deleted".
Definition SubjectCatalogFlashSaleActivated : string := "events.catalog.flash_sale.activated".
Definition SubjectCatalogFlashSaleDeactivated : string := "events.catalog.flash_sale.deactivated".
Definition SubjectSupportTicketCreated : string := "events.support.ticket.created".
Definition SubjectSupportTicketReplied : string := "events.support.ticket.replied".
Definition SubjectSupportTicketResolved : string := "events.support.ticket.resolved".
Definition SubjectMarketplaceSyncCompleted : string := "events.marketplace.sync.completed".
Definition SubjectMarketplaceSyncFailed : string := "events.marketplace.sync.failed".
Definition SubjectMarketplaceSupplierHandoff : string := "events.marketplace.order.supplier_handoff".
Definition SubjectCustomerBackInStock : string := "events.customer.back_in_stock".
Definition SubjectCustomerCreated : string := "events.customer.created".
Definition SubjectAgentCommissionPaid : string := "events.agent.commission.paid".

Definition subject_domain_list : list (string * string) :=
  [ (SubjectUserRegistered, "user"); (SubjectUserPasswordResetRequested, "user");
    (SubjectOrderCreated, "order"); (SubjectOrderConfirmed, "order"); (SubjectOrderCancelled, "order");
    (SubjectOrderStatusChanged, "order"); (SubjectPaymentReceived, "order");
    (SubjectPaymentVerified, "order"); (SubjectPaymentRejected, "order");
    (SubjectPaymentRefunded, "order"); (SubjectInventoryStockUpdated, "inventory");
    (SubjectInventoryProductRestocked, "inventory"); (SubjectCatalogProductCreated, "catalog");
    (SubjectCatalogProductUpdated, "catalog"); (SubjectCatalogProductDeleted, "catalog");
    (SubjectCatalogFlashSaleActivated, "catalog"); (SubjectCatalogFlashSaleDeactivated, "catalog");
    (SubjectSupportTicketCreated, "support"); (SubjectSupportTicketReplied, "support");
    (SubjectSupportTicketResolved, "support"); (SubjectMarketplaceSyncCompleted, "marketplace");
    (SubjectMarketplaceSyncFailed, "marketplace"); (SubjectMarketplaceSupplierHandoff, "marketplace");
    (SubjectCustomerBackInStock, "customer"); (SubjectCustomerCreated, "customer");
    (SubjectAgentCommissionPaid, "agent") ].

Definition SubjectDomains : gmap string string := list_to_map subject_domain_list.

(** ** Streams *)

Record StreamConfig := {
  Name : string;
  Description : string;
  Subjects : list string;
  MaxAge : Z;
  MaxMsgs : Z;
  MaxBytes : Z;
  Replicas : Z
}.

Definition Day : Z := 24 * (60 * Minute).
Definition MiB : Z := 1024 * 1024.

Definition DefaultStreams : list StreamConfig :=
  [ {| Name := "EVENTS_USER"; Description := "User account and authentication events";
       Subjects := ["events.user.>"]; MaxAge := 30 * Day; MaxMsgs := 50000; MaxBytes := 50 * MiB;
       Replicas := 1 |};
    {| Name := "EVENTS_ORDER"; Description := "Order and payment lifecycle events";
       Subjects := ["events.order.>"]; MaxAge := 30 * Day; MaxMsgs := 100000; MaxBytes := 200 * MiB;
       Replicas := 1 |};
    {| Name := "EVENTS_INVENTORY"; Description := "Inventory and stock events";
       Subjects := ["events.inventory.>"]; MaxAge := 14 * Day; MaxMsgs := 100000; MaxBytes := 150 * MiB;
       Replicas := 1 |};
    {| Name := "EVENTS_CATALOG"; Description := "Catalog product and promotion events";
       Subjects := ["events.catalog.>"]; MaxAge := 7 * Day; MaxMsgs := 50000; MaxBytes := 100 * MiB;
       Replicas := 1 |};
    {| Name := "EVENTS_SUPPORT"; Description := "Support ticket events";
       Subjects := ["events.support.>"]; MaxAge := 7 * Day; MaxMsgs := 50000; MaxBytes := 50 * MiB;
       Replicas := 1 |};
    {| Name := "EVENTS_MARKETPLACE"; Description := "Marketplace synchronization events";
       Subjects := ["events.marketplace.>"]; MaxAge := 3 * Day; MaxMsgs := 50000; MaxBytes := 50 * MiB;
       Replicas := 1 |};
    {| Name := "EVENTS_CUSTOMER";
       Description := "Customer lifecycle events — back-in-stock notifications, and whatever follows";
       Subjects := ["events.customer.>"]; MaxAge := 30 * Day; MaxMsgs := 50000; MaxBytes := 50 * MiB;
       Replicas := 1 |} ].

(** A message: subject, data, and the header only when it is not empty. *)
Record Msg := { msg_Subject : string; msg_Data : string; msg_Header : option (gmap string (list string)) }.

Record Ack := { ack_Stream : string; ack_Sequence : Z }.

(** The calls on a server in state [J]; [captures] is the matching of a subject
    by a stream's subject filter. Storage, retention and discard of a stream
    are the constants of [EnsureStream] and not kept here. *)
Class JetStream (J : Type) := {
  captures : string -> string -> bool;
  server_stream : string -> J -> option StreamConfig;
  CreateOrUpdateStream : StreamConfig -> J -> J * option error;
  PublishMsg : Msg -> J -> J * result Ack
}.

(** Without the tokens [*] and [>] of filters. *)
Definition literal (p : string) : Prop := string_elem "*"%char p = false /\ string_elem ">"%char p = false.

(** Documented behaviour. A filter that ends in a full wildcard captures what has at
    least one more character after the dot; a created or updated stream has its
    configuration, other streams are untouched, and a failed call changes no
    configuration; a publication is acknowledged by a stream that captures its
    subject, without changing configurations, and fails when there is none. *)
Class JetStreamLaws (J : Type) `{JetStream J} := {
  captures_wildcard p s : literal p ->
    captures (p +:+ ".>") s = true <-> exists c rest, s = p +:+ "." +:+ String c rest;
  create_ok cfg j :
    snd (CreateOrUpdateStream cfg j) = None ->
    forall name, server_stream name (fst (CreateOrUpdateStream cfg j)) =
      if bool_decide (name = Name cfg) then Some cfg else server_stream name j;
  create_failed cfg j e :
    snd (CreateOrUpdateStream cfg j) = Some e ->
    forall name, server_stream name (fst (CreateOrUpdateStream cfg j)) = server_stream name j;
  publish_ack m j a :
    snd (PublishMsg m j) = Ok a ->
    exists cfg filter, server_stream (ack_Stream a) j = Some cfg /\ filter ∈ Subjects cfg /\
      captures filter (msg_Subject m) = true;
  publish_streams m j name : server_stream name (fst (PublishMsg m j)) = server_stream name j
}.

Section client.
Context {J : Type} `{JetStream J}.

Definition EnsureStream (cfg : StreamConfig) (j : J) : J * option error :=
  let '(j, e) := CreateOrUpdateStream cfg j in
  (j, match e with
      | Some e => Some (ErrWrap ("failed to create/update stream " +:+ Name cfg) e)
      | None => None
      end).

Fixpoint ensure_loop (cfgs : list StreamConfig) (j : J) : J * option error :=
  match cfgs with
  | [] => (j, None)
  | cfg :: cfgs =>
      let '(j, e) := EnsureStream cfg j in
      match e with Some e => (j, Some e) | None => ensure_loop cfgs j end
  end.

Definition EnsureDefaultStreams : J -> J * option error := ensure_loop DefaultStreams.

Definition publish (subject data : string) (headers : gmap string string) (j : J) : J * option error :=
  let msg := {| msg_Subject := subject; msg_Data := data;
                msg_Header := if bool_decide (headers = ∅) then None
                              else Some ((fun value => [value]) <$> headers) |} in
  let '(j, ack) := PublishMsg msg j in
  (j, match ack with Err e => Some e | Ok _ => None end).

Definition Publish (subject data : string) : J -> J * option error := publish subject data ∅.

Definition PublishWithHeaders (subject data : string) (headers : gmap string string)
    : J -> J * option error :=
  publish subject data headers.

(** [OutboxPublisher]: the publisher of the outbox processor. *)
Definition OutboxPublisher : Outbox.Publisher J :=
  {| Outbox.Publish := Publish; Outbox.PublishWithHeaders := Some PublishWithHeaders |}.

End client.

(** ** A server: streams by name and the last sequence number *)

Record server := { streams : gmap string StreamConfig; last_seq : Z }.

Definition server_captures (filter subject : string) : bool :=
  if HasSuffix filter ".>" then
    let prefix := TrimSuffix filter ">" in
    HasPrefix subject prefix && bool_decide (subject <> prefix)
  else bool_decide (filter = subject).

Definition capturing (subject : string) (s : server) : list (string * StreamConfig) :=
  filter (fun nc => existsb (fun f => server_captures f subject) (Subjects (snd nc)) = true)
    (map_to_list (streams s)).

#[export] Instance server_jetstream : JetStream server := {
  captures := server_captures;
  server_stream name s := streams s !! name;
  CreateOrUpdateStream cfg s :=
    ({| streams := <[Name cfg := cfg]> (streams s); last_seq := last_seq s |}, None);
  PublishMsg m s :=
    match capturing (msg_Subject m) s with
    | [] => (s, Err (ErrMsg "nats: no response from stream"))
    | (name, _) :: _ =>
        ({| streams := streams s; last_seq := last_seq s + 1 |},
         Ok {| ack_Stream := name; ack_Sequence := last_seq s + 1 |})
    end
}.

Definition empty_server : server := {| streams := ∅; last_seq := 0 |}.

(** The default stream of a domain, and its filter. *)
Definition domain_stream (d : string) : option StreamConfig :=
  snd <$> list_find (fun cfg => Name cfg = "EVENTS_" +:+ ToUpper d) DefaultStreams.

Definition domain_filter (d : string) : string := "events." +:+ d +:+ ".>".

(** Some filter of the stream captures the subject. *)
Definition carries {J : Type} `{JetStream J} (cfg : StreamConfig) (subject : string) : Prop :=
  exists f, f ∈ Subjects cfg /\ captures f subject = true.

(** ** Lemmas *)

#[export] Instance server_laws : JetStreamLaws server.
Proof.
  split; cbn [captures server_stream CreateOrUpdateStream PublishMsg server_jetstream fst snd].
  - intros p s _. unfold server_captures.
    rewrite (proj2 (HasSuffix_spec (p +:+ ".>") ".>")) by eauto.
    change (p +:+ ".>") with (p +:+ "." +:+ ">"). rewrite <- append_assoc, TrimSuffix_append.
    rewrite andb_true_iff, HasPrefix_spec, bool_decide_eq_true. split.
    + intros [[[|c t] ->] Hne]; [by rewrite append_nil_r in Hne|]. exists c, t. by rewrite append_assoc.
    + intros (c & rest & ->). split; [exists (String c rest); by rewrite append_assoc|].
      intros Heq. apply (f_equal String.length) in Heq. rewrite !append_length in Heq. simpl in Heq. lia.
  - intros cfg j _ name. simpl. case_bool_decide; [subst; apply lookup_insert_eq|by apply lookup_insert_ne].
  - done.
  - intros m j a. destruct (capturing (msg_Subject m) j) as [|[name cfg] l] eqn:Hc; [done|].
    intros [= <-]. simpl.
    assert ((name, cfg) ∈ capturing (msg_Subject m) j) as Hin by (rewrite Hc; apply list_elem_of_here).
    unfold capturing in Hin. apply list_elem_of_filter in Hin as [Hf Hin].
    apply elem_of_map_to_list in Hin. apply existsb_exists in Hf as (f & Hf & Hm).
    exists cfg, f. by rewrite list_elem_of_In.
  - intros m j name. by destruct (capturing (msg_Subject m) j) as [|[? ?] ?].
Qed.

Section lemmas.
Context {J : Type} `{JetStreamLaws J}.
#[local] Set Default Proof Using "All".

(** The streams after a loop that did not fail: the last of each name, else the old. *)
Lemma ensure_loop_streams cfgs (j : J) :
  NoDup (Name <$> cfgs) -> snd (ensure_loop cfgs j) = None ->
  (forall cfg, cfg ∈ cfgs -> server_stream (Name cfg) (fst (ensure_loop cfgs j)) = Some cfg) /\
  (forall name, (name ∉ Name <$> cfgs) ->
     server_stream name (fst (ensure_loop cfgs j)) = server_stream name j).
Proof.
  revert j. induction cfgs as [|cfg cfgs IH]; intros j Hnd; simpl.
  { intros _. split; [|done]. intros cfg Hin. by apply not_elem_of_nil in Hin. }
  rewrite fmap_cons in Hnd. apply NoDup_cons in Hnd as [Hni Hnd].
  unfold EnsureStream. destruct (CreateOrUpdateStream cfg j) as [j' [e|]] eqn:Hc; [done|]. simpl. intros Ho.
  pose proof (create_ok cfg j) as Hk. rewrite Hc in Hk. specialize (Hk eq_refl). simpl in Hk.
  destruct (IH j' Hnd Ho) as [Hin Hout]. split.
  - intros c Hcin. apply elem_of_cons in Hcin as [->|Hcin]; [|by apply Hin].
    rewrite Hout, Hk by done. by rewrite bool_decide_true.
  - intros name Hn. rewrite not_elem_of_cons in Hn. destruct Hn.
    rewrite Hout, Hk by done. by rewrite bool_decide_false.
Qed.

End lemmas.

Lemma default_streams_shape :
  Forall (fun cfg => exists d, literal ("events." +:+ d) /\ string_elem "."%char d = false /\ Subjects cfg = [domain_filter d] /\
    domain_stream d = Some cfg) DefaultStreams.
Proof.
  repeat constructor; [exists "user"|exists "order"|exists "inventory"|exists "catalog"|exists "support"
    |exists "marketplace"|exists "customer"]; repeat split.
Qed.

Lemma catalogue_shape :
  Forall (fun sd => literal ("events." +:+ snd sd) /\ string_elem "."%char (snd sd) = false /\
    (exists c rest, fst sd = ("events." +:+ snd sd) +:+ "." +:+ String c rest) /\
    match domain_stream (snd sd) with
    | Some cfg => Subjects cfg = [domain_filter (snd sd)]
    | None => snd sd = "agent"
    end) subject_domain_list.
Proof.
  unfold subject_domain_list.
  repeat (apply Forall_cons; split;
    [split; [by split|]; split; [reflexivity|]; split; [eexists _, _; reflexivity|vm_compute; reflexivity]|]).
  constructor.
Qed.

Lemma domain_stream_in d cfg : domain_stream d = Some cfg -> cfg ∈ DefaultStreams.
Proof.
  unfold domain_stream. intros Hf.
  destruct (list_find _ _) as [[i c]|] eqn:Hl; [|done]. injection Hf as <-.
  apply list_find_Some in Hl as (Hl & _). by eapply list_elem_of_lookup_2.
Qed.

Section delivery.
Context {J : Type} `{JetStreamLaws J}.
#[local] Set Default Proof Using "All".

Lemma split_domain d x :
  string_elem "."%char d = false ->
  Split (("events." +:+ d) +:+ "." +:+ x) "."%char = "events" :: d :: Split x "."%char.
Proof.
  intros Hd.
  change (Split ("events" +:+ String "."%char (d +:+ String "."%char x)) "."%char
          = "events" :: d :: Split x "."%char).
  by rewrite (Split_part "events"), (Split_part d).
Qed.

(** A default stream carries a subject of the catalogue exactly when it is the
    stream of its domain. *)
Lemma carries_domain cfg subject d :
  cfg ∈ DefaultStreams -> SubjectDomains !! subject = Some d ->
  carries cfg subject <-> domain_stream d = Some cfg.
Proof.
  intros Hcfg Hs. apply elem_of_list_to_map_2 in Hs.
  destruct (proj1 (Forall_forall _ _) catalogue_shape _ Hs) as (Hlit & Hd & (c & rest & Heq) & Hst).
  destruct (proj1 (Forall_forall _ _) default_streams_shape _ Hcfg) as (d' & Hlit' & Hd' & Hf & Hst').
  simpl in *. unfold carries. rewrite Hf. split.
  - intros (f & Hin & Hc). apply list_elem_of_singleton in Hin as ->.
    unfold domain_filter in Hc. rewrite <- (append_assoc "events." d' ".>") in Hc. apply captures_wildcard in Hc as (c' & rest' & Heq'); [|done].
    rewrite Heq in Heq'. apply (f_equal (fun s => Split s "."%char)) in Heq'.
    rewrite !split_domain in Heq' by done. injection Heq' as <- _. done.
  - intros Hds. rewrite Hds in Hst. pose proof Hst as Hf'. assert (domain_filter d' = domain_filter d) as Hff by congruence.
    exists (domain_filter d'). split; [by apply list_elem_of_singleton|]. rewrite Hff.
    unfold domain_filter. rewrite <- (append_assoc "events." d ".>"). apply captures_wildcard; [done|]. rewrite Heq. eauto.
Qed.

End delivery.

(** C32: Once the default streams are installed, every subject of the catalogue but the
    reserved one of the agents is captured by a filter of exactly one of them, the
    stream of its domain; if no other stream of the server captures the subject,
    a publication that answers nil was acknowledged by that stream, and
    publishing to a subject without a stream fails. *)
Theorem catalogue_delivery {J : Type} `{JetStreamLaws J} (j0 j : J) subject d :
  EnsureDefaultStreams j0 = (j, None) ->
  SubjectDomains !! subject = Some d ->
  (forall name cfg, server_stream name j0 = Some cfg -> carries cfg subject -> name ∈ Name <$> DefaultStreams) ->
  match domain_stream d with
  | Some cfg =>
      d <> "agent" /\ server_stream (Name cfg) j = Some cfg /\ carries cfg subject /\
      (forall cfg', cfg' ∈ DefaultStreams -> carries cfg' subject -> cfg' = cfg) /\
      (forall m a, msg_Subject m = subject -> snd (PublishMsg m j) = Ok a -> ack_Stream a = Name cfg)
  | None =>
      subject = SubjectAgentCommissionPaid /\
      forall data headers, exists e, snd (PublishWithHeaders subject data headers j) = Some e
  end.
Proof.
  intros He Hs Hother.
  assert (NoDup (Name <$> DefaultStreams)) as Hnd by (by apply (bool_decide_unpack _)).
  destruct (ensure_loop_streams DefaultStreams j0 Hnd) as [Hin Hout].
  { unfold EnsureDefaultStreams in He. by rewrite He. }
  unfold EnsureDefaultStreams in He. rewrite He in Hin, Hout. simpl in Hin, Hout.
  assert (forall name cfg, server_stream name j = Some cfg -> carries cfg subject ->
    exists cfg', cfg' ∈ DefaultStreams /\ Name cfg' = name /\ domain_stream d = Some cfg') as Hcarry.
  { intros name cfg Hn Hc. destruct (decide (name ∈ Name <$> DefaultStreams)) as [Hd|Hd].
    - apply list_elem_of_fmap in Hd as (cfg' & -> & Hd). rewrite (Hin cfg' Hd) in Hn. injection Hn as <-.
      exists cfg'. split; [done|]. split; [done|]. by apply (carries_domain cfg' subject).
    - rewrite Hout in Hn by done. by destruct (Hd (Hother name cfg Hn Hc)). }
  assert (forall m a, msg_Subject m = subject -> snd (PublishMsg m j) = Ok a ->
    exists cfg', Name cfg' = ack_Stream a /\ domain_stream d = Some cfg') as Hack.
  { intros m a Hm Ha. apply publish_ack in Ha as (cfg & f & Hst & Hf & Hc). rewrite Hm in Hc.
    destruct (Hcarry _ cfg Hst (ex_intro _ f (conj Hf Hc))) as (cfg' & _ & ? & ?). exists cfg'. split; assumption. }
  pose proof (elem_of_list_to_map_2 _ _ _ Hs) as Hsd.
  destruct (proj1 (Forall_forall _ _) catalogue_shape _ Hsd) as (_ & _ & _ & Hst). simpl in Hst.
  destruct (domain_stream d) as [cfg|] eqn:Hds.
  - pose proof (domain_stream_in d cfg Hds) as Hd. split; [by intros ->|]. split; [by apply Hin|].
    split; [by apply (carries_domain cfg subject d)|]. split.
    + intros cfg' Hd' Hc. apply (carries_domain cfg' subject d) in Hc; [|done..]. congruence.
    + intros m a Hm Ha. destruct (Hack m a Hm Ha) as (cfg' & <- & [= ->]). done.
  - subst d. split.
    { assert (Forall (fun sd => snd sd = "agent" -> fst sd = SubjectAgentCommissionPaid) subject_domain_list)
        as Hall by (unfold subject_domain_list; repeat (apply Forall_cons; split; [done|]); constructor).
      by apply (proj1 (Forall_forall _ _) Hall _ Hsd). }
    intros data headers. unfold PublishWithHeaders, publish.
    destruct (PublishMsg _ j) as [j' [a|e]] eqn:Hp; [|by exists e].
    match type of Hp with PublishMsg ?m _ = _ => destruct (Hack m a) as (? & _ & [=]); [done|by rewrite Hp] end.
Qed.

Lemma catalogue_delivery_witness :
  let j := fst (EnsureDefaultStreams empty_server) in
  exists cfg, domain_stream "customer" = Some cfg /\ server_stream "EVENTS_CUSTOMER" j = Some cfg /\
    carries cfg SubjectCustomerBackInStock.
Proof.
  intros j. assert (EnsureDefaultStreams empty_server = (j, None)) as Hj by reflexivity.
  destruct (domain_stream "customer") as [cfg|] eqn:Hd; [|vm_compute in Hd; discriminate].
  pose proof (catalogue_delivery empty_server j SubjectCustomerBackInStock "customer" Hj
    ltac:(vm_compute; reflexivity)) as Hc.
  rewrite Hd in Hc. destruct Hc as (_ & Hs & Hcar & _).
  - intros name cfg' Hn. simpl in Hn. rewrite lookup_empty in Hn. discriminate.
  - exists cfg. split; [reflexivity|]. split; [|exact Hcar].
    assert (Name cfg = "EVENTS_CUSTOMER") as Hn by (vm_compute in Hd; injection Hd as <-; reflexivity).
    rewrite <- Hn. exact Hs.
Defined.
