(* ===== verification/NatsClient.v ===== *)
(** * The NATS client (src/nats/jetstream.go: connecting, consumers, health, closing)

    What the client does with a connection, over [Streams] for streams and
    publication. The NATS library is not part of the repository: what it answers
    is an argument, and the calls made to it are a list. *)

From S2P Require Import Prelude GoStrings Outbox Streams.

(** ** Connecting *)

(** The calls of [NewJetStreamClient] and [Close], in order. *)
Inductive nats_call :=
| CConnect
| CWarn (attempt : Z)
| CSleep (d : Z)
| CNewJetStream
| CDrain
| CClose
| CInfo (text : string).

Record Options := {
  opt_Name : string;
  opt_ReconnectWait : Z;
  opt_MaxReconnects : Z
}.

(** The three handlers of the options only write to the log. *)
Definition options : Options :=
  {| opt_Name := "niaga-service"; opt_ReconnectWait := 2 * Second; opt_MaxReconnects := -1 |}.

Section connecting.
Context {Conn JS : Type} (dial : nat -> result Conn) (jetstream_New : Conn -> result JS).

(** The loop from attempt [i] on, with [n] attempts left; [last] is the outcome of the
    attempt before. *)
Fixpoint attempts (n i : nat) (last : result Conn) : list nats_call * result Conn :=
  match n with
  | O => ([], last)
  | S n =>
      match dial i with
      | Ok nc => ([CConnect], Ok nc)
      | Err e =>
          let '(calls, r) := attempts n (S i) (Err e) in
          (CConnect :: CWarn (Z.of_nat i + 1) :: CSleep (2 * Second) :: calls, r)
      end
  end.

Record JetStreamClient := { client_nc : option Conn; client_js : JS }.

(** Before the first attempt the connection is nil, without an error; there are ten
    attempts, so this value is never looked at. *)
Definition NewJetStreamClient : list nats_call * result JetStreamClient :=
  let '(calls, r) := attempts 10 0 (Err (ErrMsg "")) in
  match r with
  | Err e => (calls, Err (ErrWrap "failed to connect to NATS after retries" e))
  | Ok nc =>
      match jetstream_New nc with
      | Err e => (calls ++ [CNewJetStream; CClose], Err (ErrWrap "failed to create JetStream context" e))
      | Ok js =>
          (calls ++ [CNewJetStream; CInfo "Connected to NATS with JetStream"], Ok {| client_nc := Some nc; client_js := js |})
      end
  end.

(** A client without a connection has nothing to close. *)
Definition Close (c : JetStreamClient) : list nats_call :=
  match client_nc c with
  | None => []
  | Some _ => [CDrain; CClose; CInfo "NATS connection closed"]
  end.

(** [connected] and [account] are what [IsConnected] and [AccountInfo] answer. *)
Definition HealthCheck (connected : bool) (account : option error) : option error :=
  if negb connected then Some (ErrMsg "NATS not connected")
  else match account with
       | Some e => Some (ErrWrap "JetStream not available" e)
       | None => None
       end.

End connecting.

(** ** Consumers *)

(** The policies of the server's consumers. *)
Inductive AckPolicy := AckExplicitPolicy | AckAllPolicy | AckNonePolicy.
Inductive DeliverPolicy :=
  DeliverAllPolicy | DeliverLastPolicy | DeliverNewPolicy | DeliverByStartSequencePolicy | DeliverByStartTimePolicy
  | DeliverLastPerSubjectPolicy.

(** The configuration of the library. *)
Record ConsumerConfig := {
  cc_Name : string;
  cc_Stream : string;
  cc_FilterSubject : string;
  cc_AckWait : Z;
  cc_MaxDeliver : Z;
  cc_MaxAckPending : Z
}.

(** The configuration of the server, as far as it is set. *)
Record server_consumer := {
  sc_Name : string;
  sc_Durable : string;
  sc_FilterSubject : string;
  sc_AckPolicy : AckPolicy;
  sc_AckWait : Z;
  sc_MaxDeliver : Z;
  sc_MaxAckPending : Z;
  sc_DeliverPolicy : DeliverPolicy
}.

(** The consumers of a server: by stream and name, the call that finds a stream, and the
    call that makes a consumer. *)
Class Consumers (J : Type) `{JetStream J} := {
  find_stream : string -> J -> option error;
  consumer : string -> string -> J -> option server_consumer;
  CreateOrUpdateConsumer : string -> server_consumer -> J -> J * option error;
  js_PublishAsync : Msg -> J -> J * option error
}.

(** A stream that is found is there. A call that succeeds leaves that consumer with that
    configuration, a call that fails changes none; neither touches another
    consumer or a stream. *)
Class ConsumersLaws (J : Type) `{Consumers J} := {
  find_ok name j : find_stream name j = None -> is_Some (server_stream name j);
  consumer_ok stream cfg j :
    snd (CreateOrUpdateConsumer stream cfg j) = None ->
    forall s n, consumer s n (fst (CreateOrUpdateConsumer stream cfg j)) =
      if bool_decide (s = stream /\ n = sc_Durable cfg) then Some cfg else consumer s n j;
  consumer_failed stream cfg j e :
    snd (CreateOrUpdateConsumer stream cfg j) = Some e ->
    forall s n, consumer s n (fst (CreateOrUpdateConsumer stream cfg j)) = consumer s n j;
  consumer_streams stream cfg j name :
    server_stream name (fst (CreateOrUpdateConsumer stream cfg j)) = server_stream name j
}.

Section consumers.
Context {J : Type} `{Consumers J}.

Definition durable (cfg : ConsumerConfig) : server_consumer :=
  {| sc_Name := cc_Name cfg; sc_Durable := cc_Name cfg; sc_FilterSubject := cc_FilterSubject cfg;
     sc_AckPolicy := AckExplicitPolicy; sc_AckWait := cc_AckWait cfg; sc_MaxDeliver := cc_MaxDeliver cfg;
     sc_MaxAckPending := cc_MaxAckPending cfg; sc_DeliverPolicy := DeliverNewPolicy |}.

Definition CreateDurableConsumer (cfg : ConsumerConfig) (j : J) : J * result server_consumer :=
  match find_stream (cc_Stream cfg) j with
  | Some e => (j, Err (ErrWrap ("stream " +:+ cc_Stream cfg +:+ " not found") e))
  | None =>
      let '(j, e) := CreateOrUpdateConsumer (cc_Stream cfg) (durable cfg) j in
      match e with
      | Some e => (j, Err (ErrWrap ("failed to create consumer " +:+ cc_Name cfg) e))
      | None => (j, Ok (durable cfg))
      end
  end.

(** The future of the acknowledgement is dropped: only the error of sending is seen. *)
Definition PublishAsync (subject data : string) (j : J) : J * option error :=
  js_PublishAsync {| msg_Subject := subject; msg_Data := data; msg_Header := None |} j.

End consumers.

(** ** A server with consumers *)

Record full_server := { base : server; consumers : gmap (string * string) server_consumer }.

Definition with_base {R} (f : server -> server * R) (s : full_server) : full_server * R :=
  let '(b, r) := f (base s) in ({| base := b; consumers := consumers s |}, r).

#[export] Instance full_jetstream : JetStream full_server := {
  captures := server_captures;
  server_stream name s := server_stream name (base s);
  CreateOrUpdateStream cfg := with_base (CreateOrUpdateStream cfg);
  PublishMsg m := with_base (PublishMsg m)
}.

#[export] Instance full_consumers : Consumers full_server := {
  find_stream name f :=
    match server_stream name (base f) with Some _ => None | None => Some (ErrMsg "nats: stream not found") end;
  consumer s n f := consumers f !! (s, n);
  CreateOrUpdateConsumer stream cfg f :=
    ({| base := base f; consumers := <[(stream, sc_Durable cfg) := cfg]> (consumers f) |}, None);
  js_PublishAsync m f := (fst (with_base (PublishMsg m) f), None)
}.

Definition empty_full : full_server := {| base := empty_server; consumers := ∅ |}.

(** ** Lemmas *)

#[export] Instance full_laws : JetStreamLaws full_server.
Proof.
  split; cbn [captures server_stream CreateOrUpdateStream PublishMsg full_jetstream]; unfold with_base.
  - intros p s Hp. exact (captures_wildcard (J := server) p s Hp).
  - intros cfg j. pose proof (create_ok (J := server) cfg (base j)) as Hk.
    destruct (CreateOrUpdateStream cfg (base j)) as [b e]. exact Hk.
  - intros cfg j e. pose proof (create_failed (J := server) cfg (base j) e) as Hk.
    destruct (CreateOrUpdateStream cfg (base j)) as [b e']. exact Hk.
  - intros m j a. pose proof (publish_ack (J := server) m (base j) a) as Hk.
    destruct (PublishMsg m (base j)) as [b r]. exact Hk.
  - intros m j name. pose proof (publish_streams (J := server) m (base j) name) as Hk.
    destruct (PublishMsg m (base j)) as [b r]. exact Hk.
Qed.

#[export] Instance full_consumers_laws : ConsumersLaws full_server.
Proof.
  split; cbn [find_stream consumer CreateOrUpdateConsumer full_consumers fst snd]; [| |done..].
  { intros name j. cbn [server_stream full_jetstream]. by destruct (server_stream name (base j)). }
  intros stream cfg j _ s n. cbn [consumers]. case_bool_decide as Hs.
  - destruct Hs as [-> ->]. apply lookup_insert_eq.
  - apply lookup_insert_ne. naive_solver.
Qed.

Section connecting_lemmas.
Context {Conn JS : Type} (dial : nat -> result Conn) (jetstream_New : Conn -> result JS).

(** The calls of [k] attempts that failed, from attempt [i] on. *)
Definition failed_calls (i k : nat) : list nats_call :=
  concat ((fun m => [CConnect; CWarn (Z.of_nat m + 1); CSleep (2 * Second)]) <$> seq i k).

(** The attempts stop at the first that succeeds. *)
Lemma attempts_first n i last k nc :
  (k < n)%nat -> dial (i + k)%nat = Ok nc -> (forall m, (m < k)%nat -> is_ok (dial (i + m)%nat) = false) ->
  attempts dial n i last = (failed_calls i k ++ [CConnect], Ok nc).
Proof.
  revert i last k. induction n as [|n IH]; intros i last k Hk Hd Hf; [lia|]. simpl.
  destruct k as [|k].
  - rewrite Nat.add_0_r in Hd. by rewrite Hd.
  - pose proof (Hf 0%nat ltac:(lia)) as H0. rewrite Nat.add_0_r in H0. destruct (dial i) as [nc'|e]; [done|].
    rewrite (IH (S i) (Err e) k); [done|lia|by rewrite <- Hd; f_equal; lia|].
    intros m Hm. replace (S i + m)%nat with (i + S m)%nat by lia. apply Hf. lia.
Qed.

(** When all fail the error is that of the last one. *)
Lemma attempts_none n i last :
  (forall m, (m < n)%nat -> is_ok (dial (i + m)%nat) = false) ->
  attempts dial n i last =
  (failed_calls i n, match n with O => last | S n => dial (i + n)%nat end).
Proof.
  revert i last. induction n as [|n IH]; intros i last Hf; [done|]. simpl.
  pose proof (Hf 0%nat ltac:(lia)) as H0. rewrite Nat.add_0_r in H0. destruct (dial i) as [nc'|e] eqn:Hd; [done|].
  rewrite (IH (S i) (Err e)).
  - destruct n as [|n]; [by rewrite Nat.add_0_r, Hd|]. by replace (S i + n)%nat with (i + S n)%nat by lia.
  - intros m Hm. replace (S i + m)%nat with (i + S m)%nat by lia. apply Hf. lia.
Qed.

(** One of the attempts is the first to succeed, or none does. *)
Lemma first_success n :
  (exists k nc, (k < n)%nat /\ dial k = Ok nc /\ forall m, (m < k)%nat -> is_ok (dial m) = false) \/
  (forall m, (m < n)%nat -> is_ok (dial m) = false).
Proof.
  induction n as [|n [(k & nc & Hk & Hd & Hf)|Hn]]; [right; lia|left; exists k, nc; split; [lia|done]|].
  destruct (dial n) as [nc|e] eqn:Hd; [left; exists n, nc; split; [lia|done]|].
  right. intros m Hm. destruct (decide (m = n)) as [->|]; [by rewrite Hd|apply Hn; lia].
Qed.

(** The client is built on the first of ten connections that is there, each failure
    being followed by a pause of two seconds, the last one too; the connection
    is closed when the streams are not available, and the error tells which of
    the two failed. *)
Lemma NewJetStreamClient_spec :
  let '(calls, r) := NewJetStreamClient dial jetstream_New in
  (exists k nc, (k < 10)%nat /\ dial k = Ok nc /\ (forall m, (m < k)%nat -> is_ok (dial m) = false) /\
     match jetstream_New nc with
     | Ok js => r = Ok {| client_nc := Some nc; client_js := js |} /\
         calls = failed_calls 0 k ++ [CConnect; CNewJetStream; CInfo "Connected to NATS with JetStream"]
     | Err e => r = Err (ErrWrap "failed to create JetStream context" e) /\
         calls = failed_calls 0 k ++ [CConnect; CNewJetStream; CClose]
     end) \/
  (exists e, (forall m, (m < 10)%nat -> is_ok (dial m) = false) /\ dial 9%nat = Err e /\
     r = Err (ErrWrap "failed to connect to NATS after retries" e) /\ calls = failed_calls 0 10).
Proof.
  unfold NewJetStreamClient. destruct (first_success 10) as [(k & nc & Hk & Hd & Hf)|Hn].
  - rewrite (attempts_first 10 0 _ k nc) by done.
    destruct (jetstream_New nc) as [js|e] eqn:Hj; left; exists k, nc; rewrite Hj; by rewrite <- app_assoc.
  - rewrite (attempts_none 10 0) by done. cbn [Nat.add]. pose proof (Hn 9%nat ltac:(lia)) as H9.
    destruct (dial 9%nat) as [|e]; [done|]. right. by exists e.
Qed.

End connecting_lemmas.

Section consumer_lemmas.
Context {J : Type} `{JetStreamLaws J, !Consumers J, !ConsumersLaws J}.
#[local] Set Default Proof Using "All".

(** A consumer that was created is there under its own name, acknowledges every
    message itself, and starts with the messages to come; other consumers and the
    streams are as before, and after a failure all are. *)
Lemma CreateDurableConsumer_spec cfg (j : J) :
  let '(j', r) := CreateDurableConsumer cfg j in
  (forall name, server_stream name j' = server_stream name j) /\
  (forall s n, (s, n) <> (cc_Stream cfg, cc_Name cfg) -> consumer s n j' = consumer s n j) /\
  match r with
  | Ok c => is_Some (server_stream (cc_Stream cfg) j) /\ consumer (cc_Stream cfg) (cc_Name cfg) j' = Some c /\ sc_FilterSubject c = cc_FilterSubject cfg /\
      sc_Durable c = sc_Name c /\ sc_AckPolicy c = AckExplicitPolicy /\ sc_DeliverPolicy c = DeliverNewPolicy
  | Err e => (forall s n, consumer s n j' = consumer s n j) /\
      match find_stream (cc_Stream cfg) j with
      | Some e' => e = ErrWrap ("stream " +:+ cc_Stream cfg +:+ " not found") e'
      | None => exists e', e = ErrWrap ("failed to create consumer " +:+ cc_Name cfg) e'
      end
  end.
Proof.
  unfold CreateDurableConsumer. pose proof (find_ok (cc_Stream cfg) j) as Hf.
  destruct (find_stream (cc_Stream cfg) j) as [e|]; [done|]. specialize (Hf eq_refl).
  pose proof (consumer_ok (cc_Stream cfg) (durable cfg) j) as Hok.
  pose proof (consumer_failed (cc_Stream cfg) (durable cfg) j) as Hfail.
  pose proof (consumer_streams (cc_Stream cfg) (durable cfg) j) as Hst.
  destruct (CreateOrUpdateConsumer (cc_Stream cfg) (durable cfg) j) as [j' [e|]]; simpl in *.
  - specialize (Hfail e eq_refl). split; [done|]. split; [by intros|]. split; [done|]. eauto.
  - specialize (Hok eq_refl). split; [done|]. split.
    + intros s n Hne. rewrite Hok, bool_decide_false; [done|]. intros [-> ->]. by apply Hne.
    + split; [done|]. by rewrite Hok, bool_decide_true.
Qed.

(** Once the default streams are installed, the stream of a consumer on one of them is
    there. *)
Lemma default_stream_found cfg (j0 j : J) :
  EnsureDefaultStreams j0 = (j, None) -> cc_Stream cfg ∈ Name <$> DefaultStreams ->
  server_stream (cc_Stream cfg) j <> None.
Proof.
  intros He (st & -> & Hin)%list_elem_of_fmap. unfold EnsureDefaultStreams in He.
  destruct (ensure_loop_streams DefaultStreams j0) as [Hs _].
  - by apply (bool_decide_unpack _).
  - by rewrite He.
  - rewrite He in Hs. simpl in Hs. by rewrite (Hs st Hin).
Qed.

End consumer_lemmas.

(** The third attempt connects: two pauses, and the connection is closed since the
    streams are not available. *)
Example third_attempt :
  NewJetStreamClient (fun i => if bool_decide (i = 2%nat) then Ok tt else Err (ErrExt 1)) (fun _ => Err (A := unit) (ErrExt 2)) =
  ([CConnect; CWarn 1; CSleep (2 * Second); CConnect; CWarn 2; CSleep (2 * Second); CConnect; CNewJetStream; CClose],
   Err (ErrWrap "failed to create JetStream context" (ErrExt 2))).
Proof. reflexivity. Qed.
