(* ===== verification/Payloads.v ===== *)
(** * Payload contracts (src/eventsourcing/order_payloads.go, supplier_handoff.go)

    The payloads that drive customer and supplier notifications and what their
    consumers ask of them. [OneLine] filters a slice into its own backing array;
    the model keeps the array and the length of the kept slice. *)

From S2P Require Import Prelude GoStrings GoFloat StructJson.

Record OrderShippingAddress := {
  a_Name : string;
  a_Phone : string;
  a_Email : string;
  a_Address : string;
  a_Address2 : string;
  a_City : string;
  a_Postcode : string;
  a_State : string;
  a_Country : string
}.

(** [kept] is [arr[:k]]: an append overwrites [arr[k]], as the capacity suffices. The
    loop reads [arr[i]] when it gets there. *)
Fixpoint keep_loop (n i : nat) (arr : list string) (k : nat) : list string * nat :=
  match n with
  | O => (arr, k)
  | S n =>
      let p := TrimSpace (arr !!! i) in
      if bool_decide (p <> "") then keep_loop n (S i) (<[k := p]> arr) (S k)
      else keep_loop n (S i) arr k
  end.

Definition OneLine (a : OrderShippingAddress) : string :=
  let parts := [a_Address a; a_Address2 a; a_City a; a_Postcode a; a_State a; a_Country a] in
  let '(arr, k) := keep_loop (length parts) 0 parts 0 in
  Join (take k arr) ", ".

Record OrderEventItem := {
  ProductID : string;
  VariantID : string;
  ProductName : string;
  VariantName : string;
  SKU : string;
  Quantity : Z;
  UnitPrice : f64
}.

Record OrderCreatedPayload := {
  oc_SchemaVersion : Z;
  oc_OrderID : string;
  oc_OrderNumber : string;
  oc_CustomerID : string;
  oc_CustomerName : string;
  oc_CustomerEmail : string;
  oc_CustomerPhone : string;
  oc_Items : slice OrderEventItem;
  oc_Total : f64;
  oc_ShippingAddress : OrderShippingAddress
}.

Record OrderStatusChangedPayload := {
  os_SchemaVersion : Z;
  os_OrderID : string;
  os_OrderNumber : string;
  os_CustomerName : string;
  os_CustomerEmail : string;
  os_CustomerPhone : string;
  os_OldStatus : string;
  os_NewStatus : string;
  os_TrackingNumber : string;
  os_TrackingURL : string;
  os_Notes : string
}.

Definition OrderStatusChanged_DeliverableTo (p : OrderStatusChangedPayload) : bool :=
  bool_decide (os_CustomerEmail p <> "").

Definition OrderCreated_DeliverableTo (p : OrderCreatedPayload) : bool :=
  bool_decide (oc_CustomerEmail p <> "").

Record SupplierHandoffLine := { l_SKU : string; l_Name : string; l_VariantName : string; l_Quantity : Z }.

Record SupplierHandoffPayload := {
  HandoffID : string;
  MarketplaceOrderID : string;
  Platform : string;
  PlatformOrderSN : string;
  ShipBy : option time;
  SupplierID : string;
  SupplierName : string;
  SupplierEmail : string;
  LabelObjectKey : string;
  LabelFilename : string;
  Lines : slice SupplierHandoffLine
}.

Definition Deliverable (p : SupplierHandoffPayload) : bool :=
  bool_decide (HandoffID p <> "") && bool_decide (SupplierEmail p <> "") &&
  bool_decide (LabelObjectKey p <> "") && (0 <? length (elems (Lines p)))%nat.

(** ** Lemmas *)

(** What the loop keeps from position [i] on, whatever it already overwrote. *)
Lemma keep_loop_spec n i k arr :
  (k <= i)%nat -> length arr = (i + n)%nat ->
  let '(arr', k') := keep_loop n i arr k in
  take k' arr' = take k arr ++ filter (fun p => p <> "") (TrimSpace <$> drop i arr).
Proof.
  revert i k arr. induction n as [|n IH]; intros i k arr Hk Hlen; cbn [keep_loop].
  { rewrite drop_ge by lia. by rewrite app_nil_r. }
  destruct (lookup_lt_is_Some_2 arr i ltac:(lia)) as [x Hx].
  rewrite (list_lookup_total_correct _ _ _ Hx), (drop_S arr x i Hx). cbn [fmap list_fmap].
  case_bool_decide as Hp.
  - specialize (IH (S i) (S k) (<[k:=TrimSpace x]> arr) ltac:(lia) ltac:(rewrite length_insert; lia)).
    destruct (keep_loop n (S i) _ (S k)) as [arr' k']. rewrite IH.
    rewrite filter_cons_True by done.
    rewrite (take_S_r _ _ (TrimSpace x)) by (rewrite list_lookup_insert_eq; [done|lia]).
    rewrite take_insert_ge by lia. rewrite drop_insert_lt by lia. by rewrite <- app_assoc.
  - specialize (IH (S i) k arr ltac:(lia) ltac:(lia)).
    destruct (keep_loop n (S i) arr k) as [arr' k']. rewrite IH. by rewrite filter_cons_False by tauto.
Qed.

(** Filtering in place loses no part and keeps their order: the line is the
    non-empty trimmed parts joined with commas. *)
Lemma OneLine_spec a :
  OneLine a = Join (filter (fun p => p <> "")
    (TrimSpace <$> [a_Address a; a_Address2 a; a_City a; a_Postcode a; a_State a; a_Country a])) ", ".
Proof.
  unfold OneLine. set (parts := [_; _; _; _; _; _]).
  pose proof (keep_loop_spec (length parts) 0 0 parts ltac:(lia) ltac:(done)) as Hk.
  destruct (keep_loop (length parts) 0 parts 0) as [arr k]. by rewrite Hk.
Qed.

Lemma Deliverable_spec p :
  Deliverable p = true <->
  HandoffID p <> "" /\ SupplierEmail p <> "" /\ LabelObjectKey p <> "" /\ elems (Lines p) <> [].
Proof.
  unfold Deliverable. rewrite !andb_true_iff, !bool_decide_eq_true, Nat.ltb_lt.
  assert ((0 < length (elems (Lines p)))%nat <-> elems (Lines p) <> []) by (destruct (elems (Lines p)); simpl; split; done || lia).
  tauto.
Qed.
