(* ===== verification/Contracts.v ===== *)
(** * The contracts between publishers and consumers (src/eventsourcing: catalog.go, order_payloads.go, supplier_handoff.go, event.go)

    The payloads as JSON: for each struct its tags, the values it writes and how it
    is read, in the order of its fields, over the rules of [StructJson]. *)

From S2P Require Import Prelude GoStrings GoFloat Json JsonText GoTime StructJson Streams Payloads.
#[local] Set Default Proof Using "Type".

(** ** Payloads of the catalogue (catalog.go) *)

Record UserRegisteredPayload := {
  ur_UserID : string;
  ur_Email : string;
  ur_Name : string
}.

Record OrderEventPayload := {
  oe_OrderID : string;
  oe_CustomerID : string;
  oe_Status : string
}.

Record PaymentEventPayload := {
  pe_PaymentID : string;
  pe_OrderID : string;
  pe_Provider : string;
  pe_Amount : string
}.

Record InventoryStockUpdatedPayload := {
  iu_ProductID : string;
  iu_SKU : string;
  iu_Quantity : Z
}.

Record CatalogProductPayload := {
  cp_ProductID : string;
  cp_ProductType : string;
  cp_Name : string
}.

Record SupportTicketPayload := {
  tk_TicketID : string;
  tk_CustomerID : string;
  tk_Status : string
}.

Record CustomerBackInStockPayload := {
  bs_SubscriptionID : string;
  bs_CustomerID : string;
  bs_CustomerEmail : string;
  bs_CustomerName : string;
  bs_ProductID : string;
  bs_ProductName : string;
  bs_ProductSlug : string;
  bs_ProductImage : string;
  bs_ProductURL : string;
  bs_VariantID : string;
  bs_VariantSKU : string;
  bs_VariantName : string;
  bs_StockQuantity : Z
}.

Record MarketplaceSyncPayload := {
  my_Marketplace : string;
  my_SyncID : string;
  my_Status : string;
  my_Error : string
}.

(** The metadata of an event (event.go). *)
Record EventMetadata := {
  em_CorrelationID : string;
  em_CausationID : string;
  em_UserID : string;
  em_ServiceName : string;
  em_TraceID : string;
  em_SpanID : string
}.

(** ** Tags, values and reading *)

Definition UserRegisteredPayload_tags : tags :=
  [("user_id", false); ("email", true); ("name", true)].

#[export] Instance UserRegisteredPayload_json : JsonStruct UserRegisteredPayload := {
  st_tags := UserRegisteredPayload_tags;
  st_zero := {|
    ur_UserID := ""; ur_Email := ""; ur_Name := "" |};
  st_out p := [
    enc (ur_UserID p); enc (ur_Email p); enc (ur_Name p)];
  st_read c ms := (
    v0 <- read_field UserRegisteredPayload_tags 0 (ur_UserID c) ms ;;
    v1 <- read_field UserRegisteredPayload_tags 1 (ur_Email c) ms ;;
    v2 <- read_field UserRegisteredPayload_tags 2 (ur_Name c) ms ;;
    Ok {|
      ur_UserID := v0; ur_Email := v1; ur_Name := v2 |})%go
}.

#[export] Instance UserRegisteredPayload_laws : StructLaws UserRegisteredPayload.
Proof. struct_laws_of 0%nat. Defined.

Definition OrderEventPayload_tags : tags :=
  [("order_id", false); ("customer_id", true); ("status", true)].

#[export] Instance OrderEventPayload_json : JsonStruct OrderEventPayload := {
  st_tags := OrderEventPayload_tags;
  st_zero := {|
    oe_OrderID := ""; oe_CustomerID := ""; oe_Status := "" |};
  st_out p := [
    enc (oe_OrderID p); enc (oe_CustomerID p); enc (oe_Status p)];
  st_read c ms := (
    v0 <- read_field OrderEventPayload_tags 0 (oe_OrderID c) ms ;;
    v1 <- read_field OrderEventPayload_tags 1 (oe_CustomerID c) ms ;;
    v2 <- read_field OrderEventPayload_tags 2 (oe_Status c) ms ;;
    Ok {|
      oe_OrderID := v0; oe_CustomerID := v1; oe_Status := v2 |})%go
}.

#[export] Instance OrderEventPayload_laws : StructLaws OrderEventPayload.
Proof. struct_laws_of 0%nat. Defined.

Definition PaymentEventPayload_tags : tags :=
  [("payment_id", true); ("order_id", false); ("provider", true); ("amount", true)].

#[export] Instance PaymentEventPayload_json : JsonStruct PaymentEventPayload := {
  st_tags := PaymentEventPayload_tags;
  st_zero := {|
    pe_PaymentID := ""; pe_OrderID := ""; pe_Provider := ""; pe_Amount := "" |};
  st_out p := [
    enc (pe_PaymentID p); enc (pe_OrderID p); enc (pe_Provider p); enc (pe_Amount p)];
  st_read c ms := (
    v0 <- read_field PaymentEventPayload_tags 0 (pe_PaymentID c) ms ;;
    v1 <- read_field PaymentEventPayload_tags 1 (pe_OrderID c) ms ;;
    v2 <- read_field PaymentEventPayload_tags 2 (pe_Provider c) ms ;;
    v3 <- read_field PaymentEventPayload_tags 3 (pe_Amount c) ms ;;
    Ok {|
      pe_PaymentID := v0; pe_OrderID := v1; pe_Provider := v2; pe_Amount := v3 |})%go
}.

#[export] Instance PaymentEventPayload_laws : StructLaws PaymentEventPayload.
Proof. struct_laws_of 0%nat. Defined.

Definition InventoryStockUpdatedPayload_tags : tags :=
  [("product_id", false); ("sku", true); ("quantity", false)].

#[export] Instance InventoryStockUpdatedPayload_json : JsonStruct InventoryStockUpdatedPayload := {
  st_tags := InventoryStockUpdatedPayload_tags;
  st_zero := {|
    iu_ProductID := ""; iu_SKU := ""; iu_Quantity := 0 |};
  st_out p := [
    enc (iu_ProductID p); enc (iu_SKU p); enc (iu_Quantity p)];
  st_read c ms := (
    v0 <- read_field InventoryStockUpdatedPayload_tags 0 (iu_ProductID c) ms ;;
    v1 <- read_field InventoryStockUpdatedPayload_tags 1 (iu_SKU c) ms ;;
    v2 <- read_field InventoryStockUpdatedPayload_tags 2 (iu_Quantity c) ms ;;
    Ok {|
      iu_ProductID := v0; iu_SKU := v1; iu_Quantity := v2 |})%go
}.

#[export] Instance InventoryStockUpdatedPayload_laws : StructLaws InventoryStockUpdatedPayload.
Proof. struct_laws_of 0%nat. Defined.

Definition CatalogProductPayload_tags : tags :=
  [("product_id", false); ("product_type", true); ("name", true)].

#[export] Instance CatalogProductPayload_json : JsonStruct CatalogProductPayload := {
  st_tags := CatalogProductPayload_tags;
  st_zero := {|
    cp_ProductID := ""; cp_ProductType := ""; cp_Name := "" |};
  st_out p := [
    enc (cp_ProductID p); enc (cp_ProductType p); enc (cp_Name p)];
  st_read c ms := (
    v0 <- read_field CatalogProductPayload_tags 0 (cp_ProductID c) ms ;;
    v1 <- read_field CatalogProductPayload_tags 1 (cp_ProductType c) ms ;;
    v2 <- read_field CatalogProductPayload_tags 2 (cp_Name c) ms ;;
    Ok {|
      cp_ProductID := v0; cp_ProductType := v1; cp_Name := v2 |})%go
}.

#[export] Instance CatalogProductPayload_laws : StructLaws CatalogProductPayload.
Proof. struct_laws_of 0%nat. Defined.

Definition SupportTicketPayload_tags : tags :=
  [("ticket_id", false); ("customer_id", true); ("status", true)].

#[export] Instance SupportTicketPayload_json : JsonStruct SupportTicketPayload := {
  st_tags := SupportTicketPayload_tags;
  st_zero := {|
    tk_TicketID := ""; tk_CustomerID := ""; tk_Status := "" |};
  st_out p := [
    enc (tk_TicketID p); enc (tk_CustomerID p); enc (tk_Status p)];
  st_read c ms := (
    v0 <- read_field SupportTicketPayload_tags 0 (tk_TicketID c) ms ;;
    v1 <- read_field SupportTicketPayload_tags 1 (tk_CustomerID c) ms ;;
    v2 <- read_field SupportTicketPayload_tags 2 (tk_Status c) ms ;;
    Ok {|
      tk_TicketID := v0; tk_CustomerID := v1; tk_Status := v2 |})%go
}.

#[export] Instance SupportTicketPayload_laws : StructLaws SupportTicketPayload.
Proof. struct_laws_of 0%nat. Defined.

Definition CustomerBackInStockPayload_tags : tags :=
  [("subscription_id", false); ("customer_id", false); ("customer_email", false); ("customer_name", true);
   ("product_id", false); ("product_name", false); ("product_slug", true); ("product_image", true);
   ("product_url", true); ("variant_id", true); ("variant_sku", true); ("variant_name", true);
   ("stock_quantity", false)].

#[export] Instance CustomerBackInStockPayload_json : JsonStruct CustomerBackInStockPayload := {
  st_tags := CustomerBackInStockPayload_tags;
  st_zero := {|
    bs_SubscriptionID := ""; bs_CustomerID := ""; bs_CustomerEmail := ""; bs_CustomerName := "";
    bs_ProductID := ""; bs_ProductName := ""; bs_ProductSlug := ""; bs_ProductImage := "";
    bs_ProductURL := ""; bs_VariantID := ""; bs_VariantSKU := ""; bs_VariantName := "";
    bs_StockQuantity := 0 |};
  st_out p := [
    enc (bs_SubscriptionID p); enc (bs_CustomerID p); enc (bs_CustomerEmail p); enc (bs_CustomerName p);
    enc (bs_ProductID p); enc (bs_ProductName p); enc (bs_ProductSlug p); enc (bs_ProductImage p);
    enc (bs_ProductURL p); enc (bs_VariantID p); enc (bs_VariantSKU p); enc (bs_VariantName p);
    enc (bs_StockQuantity p)];
  st_read c ms := (
    v0 <- read_field CustomerBackInStockPayload_tags 0 (bs_SubscriptionID c) ms ;;
    v1 <- read_field CustomerBackInStockPayload_tags 1 (bs_CustomerID c) ms ;;
    v2 <- read_field CustomerBackInStockPayload_tags 2 (bs_CustomerEmail c) ms ;;
    v3 <- read_field CustomerBackInStockPayload_tags 3 (bs_CustomerName c) ms ;;
    v4 <- read_field CustomerBackInStockPayload_tags 4 (bs_ProductID c) ms ;;
    v5 <- read_field CustomerBackInStockPayload_tags 5 (bs_ProductName c) ms ;;
    v6 <- read_field CustomerBackInStockPayload_tags 6 (bs_ProductSlug c) ms ;;
    v7 <- read_field CustomerBackInStockPayload_tags 7 (bs_ProductImage c) ms ;;
    v8 <- read_field CustomerBackInStockPayload_tags 8 (bs_ProductURL c) ms ;;
    v9 <- read_field CustomerBackInStockPayload_tags 9 (bs_VariantID c) ms ;;
    v10 <- read_field CustomerBackInStockPayload_tags 10 (bs_VariantSKU c) ms ;;
    v11 <- read_field CustomerBackInStockPayload_tags 11 (bs_VariantName c) ms ;;
    v12 <- read_field CustomerBackInStockPayload_tags 12 (bs_StockQuantity c) ms ;;
    Ok {|
      bs_SubscriptionID := v0; bs_CustomerID := v1; bs_CustomerEmail := v2; bs_CustomerName := v3;
      bs_ProductID := v4; bs_ProductName := v5; bs_ProductSlug := v6; bs_ProductImage := v7;
      bs_ProductURL := v8; bs_VariantID := v9; bs_VariantSKU := v10; bs_VariantName := v11;
      bs_StockQuantity := v12 |})%go
}.

#[export] Instance CustomerBackInStockPayload_laws : StructLaws CustomerBackInStockPayload.
Proof. struct_laws_of 0%nat. Defined.

Definition MarketplaceSyncPayload_tags : tags :=
  [("marketplace", false); ("sync_id", true); ("status", false); ("error", true)].

#[export] Instance MarketplaceSyncPayload_json : JsonStruct MarketplaceSyncPayload := {
  st_tags := MarketplaceSyncPayload_tags;
  st_zero := {|
    my_Marketplace := ""; my_SyncID := ""; my_Status := ""; my_Error := "" |};
  st_out p := [
    enc (my_Marketplace p); enc (my_SyncID p); enc (my_Status p); enc (my_Error p)];
  st_read c ms := (
    v0 <- read_field MarketplaceSyncPayload_tags 0 (my_Marketplace c) ms ;;
    v1 <- read_field MarketplaceSyncPayload_tags 1 (my_SyncID c) ms ;;
    v2 <- read_field MarketplaceSyncPayload_tags 2 (my_Status c) ms ;;
    v3 <- read_field MarketplaceSyncPayload_tags 3 (my_Error c) ms ;;
    Ok {|
      my_Marketplace := v0; my_SyncID := v1; my_Status := v2; my_Error := v3 |})%go
}.

#[export] Instance MarketplaceSyncPayload_laws : StructLaws MarketplaceSyncPayload.
Proof. struct_laws_of 0%nat. Defined.

Definition EventMetadata_tags : tags :=
  [("correlation_id", true); ("causation_id", true); ("user_id", true); ("service_name", true);
   ("trace_id", true); ("span_id", true)].

#[export] Instance EventMetadata_json : JsonStruct EventMetadata := {
  st_tags := EventMetadata_tags;
  st_zero := {|
    em_CorrelationID := ""; em_CausationID := ""; em_UserID := ""; em_ServiceName := ""; em_TraceID := "";
    em_SpanID := "" |};
  st_out p := [
    enc (em_CorrelationID p); enc (em_CausationID p); enc (em_UserID p); enc (em_ServiceName p);
    enc (em_TraceID p); enc (em_SpanID p)];
  st_read c ms := (
    v0 <- read_field EventMetadata_tags 0 (em_CorrelationID c) ms ;;
    v1 <- read_field EventMetadata_tags 1 (em_CausationID c) ms ;;
    v2 <- read_field EventMetadata_tags 2 (em_UserID c) ms ;;
    v3 <- read_field EventMetadata_tags 3 (em_ServiceName c) ms ;;
    v4 <- read_field EventMetadata_tags 4 (em_TraceID c) ms ;;
    v5 <- read_field EventMetadata_tags 5 (em_SpanID c) ms ;;
    Ok {|
      em_CorrelationID := v0; em_CausationID := v1; em_UserID := v2; em_ServiceName := v3; em_TraceID := v4;
      em_SpanID := v5 |})%go
}.

#[export] Instance EventMetadata_laws : StructLaws EventMetadata.
Proof. struct_laws_of 0%nat. Defined.

Definition OrderShippingAddress_tags : tags :=
  [("name", true); ("phone", true); ("email", true); ("address", true); ("address2", true); ("city", true);
   ("postcode", true); ("state", true); ("country", true)].

#[export] Instance OrderShippingAddress_json : JsonStruct OrderShippingAddress := {
  st_tags := OrderShippingAddress_tags;
  st_zero := {|
    a_Name := ""; a_Phone := ""; a_Email := ""; a_Address := ""; a_Address2 := ""; a_City := "";
    a_Postcode := ""; a_State := ""; a_Country := "" |};
  st_out p := [
    enc (a_Name p); enc (a_Phone p); enc (a_Email p); enc (a_Address p); enc (a_Address2 p); enc (a_City p);
    enc (a_Postcode p); enc (a_State p); enc (a_Country p)];
  st_read c ms := (
    v0 <- read_field OrderShippingAddress_tags 0 (a_Name c) ms ;;
    v1 <- read_field OrderShippingAddress_tags 1 (a_Phone c) ms ;;
    v2 <- read_field OrderShippingAddress_tags 2 (a_Email c) ms ;;
    v3 <- read_field OrderShippingAddress_tags 3 (a_Address c) ms ;;
    v4 <- read_field OrderShippingAddress_tags 4 (a_Address2 c) ms ;;
    v5 <- read_field OrderShippingAddress_tags 5 (a_City c) ms ;;
    v6 <- read_field OrderShippingAddress_tags 6 (a_Postcode c) ms ;;
    v7 <- read_field OrderShippingAddress_tags 7 (a_State c) ms ;;
    v8 <- read_field OrderShippingAddress_tags 8 (a_Country c) ms ;;
    Ok {|
      a_Name := v0; a_Phone := v1; a_Email := v2; a_Address := v3; a_Address2 := v4; a_City := v5;
      a_Postcode := v6; a_State := v7; a_Country := v8 |})%go
}.

#[export] Instance OrderShippingAddress_laws : StructLaws OrderShippingAddress.
Proof. struct_laws_of 0%nat. Defined.

Definition OrderEventItem_tags : tags :=
  [("product_id", false); ("variant_id", true); ("product_name", false); ("variant_name", true);
   ("sku", true); ("quantity", false); ("unit_price", false)].

#[export] Instance OrderEventItem_json : JsonStruct OrderEventItem := {
  st_tags := OrderEventItem_tags;
  st_zero := {|
    ProductID := ""; VariantID := ""; ProductName := ""; VariantName := ""; SKU := ""; Quantity := 0;
    UnitPrice := f64_zero |};
  st_out p := [
    enc (ProductID p); enc (VariantID p); enc (ProductName p); enc (VariantName p); enc (SKU p);
    enc (Quantity p); enc (UnitPrice p)];
  st_read c ms := (
    v0 <- read_field OrderEventItem_tags 0 (ProductID c) ms ;;
    v1 <- read_field OrderEventItem_tags 1 (VariantID c) ms ;;
    v2 <- read_field OrderEventItem_tags 2 (ProductName c) ms ;;
    v3 <- read_field OrderEventItem_tags 3 (VariantName c) ms ;;
    v4 <- read_field OrderEventItem_tags 4 (SKU c) ms ;;
    v5 <- read_field OrderEventItem_tags 5 (Quantity c) ms ;;
    v6 <- read_field OrderEventItem_tags 6 (UnitPrice c) ms ;;
    Ok {|
      ProductID := v0; VariantID := v1; ProductName := v2; VariantName := v3; SKU := v4; Quantity := v5;
      UnitPrice := v6 |})%go
}.

#[export] Instance OrderEventItem_laws : StructLaws OrderEventItem.
Proof. struct_laws_of 0%nat. Defined.

Definition OrderCreatedPayload_tags : tags :=
  [("schema_version", false); ("order_id", false); ("order_number", false); ("customer_id", false);
   ("customer_name", false); ("customer_email", false); ("customer_phone", true); ("items", false);
   ("total", false); ("shipping_address", false)].

#[export] Instance OrderCreatedPayload_json : JsonStruct OrderCreatedPayload := {
  st_tags := OrderCreatedPayload_tags;
  st_zero := {|
    oc_SchemaVersion := 0; oc_OrderID := ""; oc_OrderNumber := ""; oc_CustomerID := "";
    oc_CustomerName := ""; oc_CustomerEmail := ""; oc_CustomerPhone := ""; oc_Items := Nil;
    oc_Total := f64_zero; oc_ShippingAddress := st_zero |};
  st_out p := [
    enc (oc_SchemaVersion p); enc (oc_OrderID p); enc (oc_OrderNumber p); enc (oc_CustomerID p);
    enc (oc_CustomerName p); enc (oc_CustomerEmail p); enc (oc_CustomerPhone p); enc (oc_Items p);
    enc (oc_Total p); enc (oc_ShippingAddress p)];
  st_read c ms := (
    v0 <- read_field OrderCreatedPayload_tags 0 (oc_SchemaVersion c) ms ;;
    v1 <- read_field OrderCreatedPayload_tags 1 (oc_OrderID c) ms ;;
    v2 <- read_field OrderCreatedPayload_tags 2 (oc_OrderNumber c) ms ;;
    v3 <- read_field OrderCreatedPayload_tags 3 (oc_CustomerID c) ms ;;
    v4 <- read_field OrderCreatedPayload_tags 4 (oc_CustomerName c) ms ;;
    v5 <- read_field OrderCreatedPayload_tags 5 (oc_CustomerEmail c) ms ;;
    v6 <- read_field OrderCreatedPayload_tags 6 (oc_CustomerPhone c) ms ;;
    v7 <- read_field OrderCreatedPayload_tags 7 (oc_Items c) ms ;;
    v8 <- read_field OrderCreatedPayload_tags 8 (oc_Total c) ms ;;
    v9 <- read_field OrderCreatedPayload_tags 9 (oc_ShippingAddress c) ms ;;
    Ok {|
      oc_SchemaVersion := v0; oc_OrderID := v1; oc_OrderNumber := v2; oc_CustomerID := v3;
      oc_CustomerName := v4; oc_CustomerEmail := v5; oc_CustomerPhone := v6; oc_Items := v7; oc_Total := v8;
      oc_ShippingAddress := v9 |})%go
}.

#[export] Instance OrderCreatedPayload_laws : StructLaws OrderCreatedPayload.
Proof. struct_laws_of 2%nat. Defined.

Definition OrderStatusChangedPayload_tags : tags :=
  [("schema_version", false); ("order_id", false); ("order_number", false); ("customer_name", false);
   ("customer_email", false); ("customer_phone", true); ("old_status", false); ("new_status", false);
   ("tracking_number", true); ("tracking_url", true); ("notes", true)].

#[export] Instance OrderStatusChangedPayload_json : JsonStruct OrderStatusChangedPayload := {
  st_tags := OrderStatusChangedPayload_tags;
  st_zero := {|
    os_SchemaVersion := 0; os_OrderID := ""; os_OrderNumber := ""; os_CustomerName := "";
    os_CustomerEmail := ""; os_CustomerPhone := ""; os_OldStatus := ""; os_NewStatus := "";
    os_TrackingNumber := ""; os_TrackingURL := ""; os_Notes := "" |};
  st_out p := [
    enc (os_SchemaVersion p); enc (os_OrderID p); enc (os_OrderNumber p); enc (os_CustomerName p);
    enc (os_CustomerEmail p); enc (os_CustomerPhone p); enc (os_OldStatus p); enc (os_NewStatus p);
    enc (os_TrackingNumber p); enc (os_TrackingURL p); enc (os_Notes p)];
  st_read c ms := (
    v0 <- read_field OrderStatusChangedPayload_tags 0 (os_SchemaVersion c) ms ;;
    v1 <- read_field OrderStatusChangedPayload_tags 1 (os_OrderID c) ms ;;
    v2 <- read_field OrderStatusChangedPayload_tags 2 (os_OrderNumber c) ms ;;
    v3 <- read_field OrderStatusChangedPayload_tags 3 (os_CustomerName c) ms ;;
    v4 <- read_field OrderStatusChangedPayload_tags 4 (os_CustomerEmail c) ms ;;
    v5 <- read_field OrderStatusChangedPayload_tags 5 (os_CustomerPhone c) ms ;;
    v6 <- read_field OrderStatusChangedPayload_tags 6 (os_OldStatus c) ms ;;
    v7 <- read_field OrderStatusChangedPayload_tags 7 (os_NewStatus c) ms ;;
    v8 <- read_field OrderStatusChangedPayload_tags 8 (os_TrackingNumber c) ms ;;
    v9 <- read_field OrderStatusChangedPayload_tags 9 (os_TrackingURL c) ms ;;
    v10 <- read_field OrderStatusChangedPayload_tags 10 (os_Notes c) ms ;;
    Ok {|
      os_SchemaVersion := v0; os_OrderID := v1; os_OrderNumber := v2; os_CustomerName := v3;
      os_CustomerEmail := v4; os_CustomerPhone := v5; os_OldStatus := v6; os_NewStatus := v7;
      os_TrackingNumber := v8; os_TrackingURL := v9; os_Notes := v10 |})%go
}.

#[export] Instance OrderStatusChangedPayload_laws : StructLaws OrderStatusChangedPayload.
Proof. struct_laws_of 0%nat. Defined.

Definition SupplierHandoffLine_tags : tags :=
  [("sku", false); ("name", false); ("variant_name", true); ("quantity", false)].

#[export] Instance SupplierHandoffLine_json : JsonStruct SupplierHandoffLine := {
  st_tags := SupplierHandoffLine_tags;
  st_zero := {|
    l_SKU := ""; l_Name := ""; l_VariantName := ""; l_Quantity := 0 |};
  st_out p := [
    enc (l_SKU p); enc (l_Name p); enc (l_VariantName p); enc (l_Quantity p)];
  st_read c ms := (
    v0 <- read_field SupplierHandoffLine_tags 0 (l_SKU c) ms ;;
    v1 <- read_field SupplierHandoffLine_tags 1 (l_Name c) ms ;;
    v2 <- read_field SupplierHandoffLine_tags 2 (l_VariantName c) ms ;;
    v3 <- read_field SupplierHandoffLine_tags 3 (l_Quantity c) ms ;;
    Ok {|
      l_SKU := v0; l_Name := v1; l_VariantName := v2; l_Quantity := v3 |})%go
}.

#[export] Instance SupplierHandoffLine_laws : StructLaws SupplierHandoffLine.
Proof. struct_laws_of 0%nat. Defined.

Definition SupplierHandoffPayload_tags : tags :=
  [("handoff_id", false); ("marketplace_order_id", false); ("platform", false);
   ("platform_order_sn", false); ("ship_by", true); ("supplier_id", false); ("supplier_name", false);
   ("supplier_email", false); ("label_object_key", false); ("label_filename", false); ("lines", false)].

#[export] Instance SupplierHandoffPayload_json : JsonStruct SupplierHandoffPayload := {
  st_tags := SupplierHandoffPayload_tags;
  st_zero := {|
    HandoffID := ""; MarketplaceOrderID := ""; Platform := ""; PlatformOrderSN := ""; ShipBy := None;
    SupplierID := ""; SupplierName := ""; SupplierEmail := ""; LabelObjectKey := ""; LabelFilename := "";
    Lines := Nil |};
  st_out p := [
    enc (HandoffID p); enc (MarketplaceOrderID p); enc (Platform p); enc (PlatformOrderSN p);
    enc (ShipBy p); enc (SupplierID p); enc (SupplierName p); enc (SupplierEmail p); enc (LabelObjectKey p);
    enc (LabelFilename p); enc (Lines p)];
  st_read c ms := (
    v0 <- read_field SupplierHandoffPayload_tags 0 (HandoffID c) ms ;;
    v1 <- read_field SupplierHandoffPayload_tags 1 (MarketplaceOrderID c) ms ;;
    v2 <- read_field SupplierHandoffPayload_tags 2 (Platform c) ms ;;
    v3 <- read_field SupplierHandoffPayload_tags 3 (PlatformOrderSN c) ms ;;
    v4 <- read_field SupplierHandoffPayload_tags 4 (ShipBy c) ms ;;
    v5 <- read_field SupplierHandoffPayload_tags 5 (SupplierID c) ms ;;
    v6 <- read_field SupplierHandoffPayload_tags 6 (SupplierName c) ms ;;
    v7 <- read_field SupplierHandoffPayload_tags 7 (SupplierEmail c) ms ;;
    v8 <- read_field SupplierHandoffPayload_tags 8 (LabelObjectKey c) ms ;;
    v9 <- read_field SupplierHandoffPayload_tags 9 (LabelFilename c) ms ;;
    v10 <- read_field SupplierHandoffPayload_tags 10 (Lines c) ms ;;
    Ok {|
      HandoffID := v0; MarketplaceOrderID := v1; Platform := v2; PlatformOrderSN := v3; ShipBy := v4;
      SupplierID := v5; SupplierName := v6; SupplierEmail := v7; LabelObjectKey := v8; LabelFilename := v9;
      Lines := v10 |})%go
}.

#[export] Instance SupplierHandoffPayload_laws : StructLaws SupplierHandoffPayload.
Proof. struct_laws_of 2%nat. Defined.

(** ** Lemmas *)

(** A publisher that renames the status field, as one did: the consumer reads an
    empty status and no error. *)
Example status_renamed :
  unmarshal (zero (A := OrderStatusChangedPayload)) (JObj [("order_id", JStr "o1"); ("status", JStr "shipped")]) =
  Ok {| os_SchemaVersion := 0; os_OrderID := "o1"; os_OrderNumber := ""; os_CustomerName := ""; os_CustomerEmail := "";
        os_CustomerPhone := ""; os_OldStatus := ""; os_NewStatus := ""; os_TrackingNumber := ""; os_TrackingURL := "";
        os_Notes := "" |}.
Proof. vm_compute. reflexivity. Qed.

(** An address that is published as a text is an error, not a miss. *)
Example address_as_text :
  is_ok (unmarshal (zero (A := OrderCreatedPayload)) (JObj [("shipping_address", JStr "12 Jalan Satu")])) = false.
Proof. vm_compute. reflexivity. Qed.

(** Nothing about the buyer is a field of the hand-off. *)
Lemma handoff_no_buyer word :
  word ∈ ["buyer"; "customer"; "phone"; "address"] ->
  Forall (fun t => Contains (fst t) word = false) (SupplierHandoffPayload_tags ++ SupplierHandoffLine_tags).
Proof.
  intros Hw. assert (Forall (fun word => Forall (fun t => Contains (fst t) word = false)
    (SupplierHandoffPayload_tags ++ SupplierHandoffLine_tags)) ["buyer"; "customer"; "phone"; "address"]) as Hall
    by (apply (bool_decide_unpack _); vm_compute; exact I).
  rewrite Forall_forall in Hall. by apply Hall.
Qed.

(** ** Properties *)

(** What the consumers of the notifications ask to find, whatever the payload. *)
Definition order_created_keys : list string :=
  ["schema_version"; "order_id"; "order_number"; "customer_id"; "customer_name"; "customer_email"; "items"; "total";
   "shipping_address"].
Definition order_status_keys : list string :=
  ["schema_version"; "order_id"; "order_number"; "customer_name"; "customer_email"; "old_status"; "new_status"].
Definition back_in_stock_keys : list string :=
  ["subscription_id"; "customer_id"; "customer_email"; "product_id"; "product_name"; "stock_quantity"].
Definition handoff_keys : list string :=
  ["handoff_id"; "marketplace_order_id"; "platform"; "platform_order_sn"; "supplier_id"; "supplier_name";
   "supplier_email"; "label_object_key"; "label_filename"; "lines"].

(** C33: Every payload that can be written has the keys of its tags, all that are not
    optional among them, and a consumer reads the same payload back whatever
    members a publisher adds; and the keys that the consumers of the order, stock
    and hand-off notifications depend on are never optional. *)
Theorem payload_contracts :
  (contract OrderCreatedPayload /\ contract OrderStatusChangedPayload /\ contract CustomerBackInStockPayload /\
   contract SupplierHandoffPayload /\ contract OrderShippingAddress /\ contract OrderEventItem /\
   contract SupplierHandoffLine) /\
  (contract UserRegisteredPayload /\ contract OrderEventPayload /\ contract PaymentEventPayload /\
   contract InventoryStockUpdatedPayload /\ contract CatalogProductPayload /\ contract SupportTicketPayload /\
   contract MarketplaceSyncPayload /\ contract EventMetadata) /\
  order_created_keys ⊆ required OrderCreatedPayload_tags /\
  order_status_keys ⊆ required OrderStatusChangedPayload_tags /\
  back_in_stock_keys ⊆ required CustomerBackInStockPayload_tags /\
  handoff_keys ⊆ required SupplierHandoffPayload_tags.
Proof.
  split; [split_and!; solve_contract|].
  split; [split_and!; solve_contract|].
  repeat split; apply (bool_decide_unpack _); vm_compute; exact I.
Qed.
