(* ===== verification/Events.v ===== *)
(** * Events on their way (src/eventsourcing/event.go, dlq.go, src/outbox/outbox.go, processor.go)

    The domain event as a JSON document, its metadata and its data read back, and what
    the parts do together: a payload that is published through the outbox or kept in the
    event store comes out as it went in. *)

From S2P Require Import Prelude GoStrings GoTime Json JsonText Jsonb Timestamps StructJson Contracts.
From S2P Require EventStore Outbox Streams.

(** ** Raw documents

    [json.RawMessage], a nil one as the empty text. What is read into it is a text of the
    document that stood there. *)
Inductive RawMessage := Raw (text : string).

#[export] Instance raw_value : JsonValue RawMessage := {
  zero := Raw "";
  marshal r :=
    let 'Raw s := r in
    if bool_decide (s = "") then Ok JNull
    else match decode s with Some j => Ok j | None => Err err_syntax end;
  unmarshal _ j := Ok (Raw (encode j));
  is_empty r := let 'Raw s := r in bool_decide (s = "");
  kept _ := False
}.

(** ** The domain event (event.go) *)

Import EventStore.

Definition DomainEvent_tags : tags :=
  [("id", false); ("schema_version", false); ("aggregate_type", false); ("aggregate_id", false);
   ("event_type", false); ("event_data", false); ("metadata", true); ("version", false);
   ("occurred_at", false); ("created_at", false)].

#[export] Instance DomainEvent_json : JsonStruct DomainEvent := {
  st_tags := DomainEvent_tags;
  st_zero := {| ID := ""; SchemaVersion := 0; AggregateType := ""; AggregateID := ""; EventType := "";
                EventData := ""; Metadata := ""; Version := 0; OccurredAt := time_zero; CreatedAt := time_zero |};
  st_out e :=
    [enc (ID e); enc (SchemaVersion e); enc (AggregateType e); enc (AggregateID e); enc (EventType e);
     enc (Raw (EventData e)); enc (Raw (Metadata e)); enc (Version e); enc (Time (OccurredAt e));
     enc (Time (CreatedAt e))];
  st_read e ms := (
    v0 <- read_field DomainEvent_tags 0 (ID e) ms ;;
    v1 <- read_field DomainEvent_tags 1 (SchemaVersion e) ms ;;
    v2 <- read_field DomainEvent_tags 2 (AggregateType e) ms ;;
    v3 <- read_field DomainEvent_tags 3 (AggregateID e) ms ;;
    v4 <- read_field DomainEvent_tags 4 (EventType e) ms ;;
    v5 <- read_field DomainEvent_tags 5 (Raw (EventData e)) ms ;;
    v6 <- read_field DomainEvent_tags 6 (Raw (Metadata e)) ms ;;
    v7 <- read_field DomainEvent_tags 7 (Version e) ms ;;
    v8 <- read_field DomainEvent_tags 8 (Time (OccurredAt e)) ms ;;
    v9 <- read_field DomainEvent_tags 9 (Time (CreatedAt e)) ms ;;
    let 'Raw data := v5 in let 'Raw meta := v6 in
    Ok {| ID := v0; SchemaVersion := v1; AggregateType := v2; AggregateID := v3; EventType := v4;
          EventData := data; Metadata := meta; Version := v7; OccurredAt := nanoseconds v8;
          CreatedAt := nanoseconds v9 |})%go
}.

Definition with_Metadata (meta : string) (e : DomainEvent) : DomainEvent :=
  {| ID := ID e; SchemaVersion := SchemaVersion e; AggregateType := AggregateType e;
     AggregateID := AggregateID e; EventType := EventType e; EventData := EventData e; Metadata := meta;
     Version := Version e; OccurredAt := OccurredAt e; CreatedAt := CreatedAt e |}.

Definition WithMetadata (meta : EventMetadata) (e : DomainEvent) : DomainEvent * option error :=
  match Marshal meta with
  | Err err => (e, Some err)
  | Ok data => (with_Metadata data e, None)
  end.

(** [cur] is what the destination holds. *)
Definition UnmarshalData {A : Type} `{JsonValue A} (cur : A) (e : DomainEvent) : result A :=
  Unmarshal cur (EventData e).

Definition UnmarshalMetadata (e : DomainEvent) : result EventMetadata :=
  if bool_decide (String.length (Metadata e) = 0%nat) then Ok zero else Unmarshal zero (Metadata e).

(** ** Lemmas *)

Lemma WithMetadata_ok meta e : kept meta -> exists text, WithMetadata meta e = (with_Metadata text e, None) /\ Marshal meta = Ok text.
Proof.
  intros Hk. destruct (Unmarshal_Marshal meta Hk) as (text & Hm & _); [apply Nat.leb_le; vm_compute; reflexivity|].
  exists text. unfold WithMetadata. by rewrite Hm.
Qed.

Section stored_events.
Context `{JsonbLaws, Timestamps, RowSort} {L : Type} `{TimeZone L} {A : Type} `{JsonLaws A}.

(** An event of a durable payload, with durable metadata. *)
Lemma described_event local now now' t a ty (payload : A) meta v :
  durable payload -> (json_depth (A := A) <= jsonb_depth)%nat -> durable meta ->
  exists e e', NewDomainEvent local now now' t a ty payload v = Ok e /\ WithMetadata meta e = (e', None) /\
    accepted e' /\ ID e' = generateEventID local now' /\ SchemaVersion e' = 1 /\ AggregateType e' = t /\
    AggregateID e' = a /\ EventType e' = ty /\ Version e' = v /\
    forall d, stored e' d -> UnmarshalData zero d = Ok payload /\ UnmarshalMetadata d = Ok meta.
Proof using All.
  intros Hp Hd Hm. destruct (durable_column payload Hp Hd) as (text & s & Htext & Hs & Hu).
  destruct (durable_column meta Hm) as (mtext & ms & Hmtext & Hms & Hmu); [apply Nat.leb_le; vm_compute; reflexivity|].
  assert (mtext <> "") as Hne by (intros ->; by rewrite jsonb_empty in Hms).
  assert (ms <> "") as Hne' by (intros ->; by vm_compute in Hmu).
  eexists; eexists. unfold NewDomainEvent, WithMetadata. rewrite Htext, Hmtext. split; [done|]. split; [done|].
  unfold accepted, with_Metadata, jsonb_or_null. cbn. rewrite Hs, bool_decide_false, Hms by done.
  split_and!; try done; try by eexists.
  intros d Hst. unfold stored, jsonb_or_null in Hst. cbn in Hst. rewrite Hs, bool_decide_false, Hms in Hst by done.
  destruct Hst as (_ & _ & _ & _ & [= Hdata] & [= Hmd] & _).
  split; [unfold UnmarshalData; by rewrite <- Hdata|].
  unfold UnmarshalMetadata. rewrite <- Hmd. rewrite bool_decide_false; [exact Hmu|]. by destruct ms.
Qed.

End stored_events.

(** C13: An event of a durable payload, described by durable metadata, is appended as the next
    version of its aggregate and loaded back at the end of its history: the identifier,
    the type and the version are the same, and its data and metadata read as the very
    payload and metadata that were given. *)
Theorem event_store_journey `{JsonbLaws, Timestamps, RowSort} {L : Type} `{TimeZone L} {A : Type} `{JsonLaws A}
    local now now' u clock t a ty (payload : A) meta v rows :
  durable payload -> (json_depth (A := A) <= jsonb_depth)%nat -> durable meta ->
  0 <= v -> GetLatestVersion t a rows = v -> NoDup (versions_of t a rows) ->
  (forall r, r ∈ rows -> m_EventID r <> generateEventID local now') ->
  exists e e' rows' d,
    NewDomainEvent local now now' t a ty payload (v + 1) = Ok e /\ WithMetadata meta e = (e', None) /\
    Append u clock [e'] v rows = (rows', None) /\ Load t a rows' = Load t a rows ++ [d] /\
    ID d = generateEventID local now' /\ EventType d = ty /\ Version d = v + 1 /\
    UnmarshalData zero d = Ok payload /\ UnmarshalMetadata d = Ok meta.
Proof.
  intros Hp Hdep Hm Hv Hlat Hnd Hfr.
  destruct (described_event local now now' t a ty payload meta (v + 1) Hp Hdep Hm)
    as (e & e' & He & He' & Hacc & Hid & _ & Ht & Ha & Hty & Hve & Hread).
  destruct (Append_fresh u clock [e'] t a v rows) as (ms & Happ & _ & _ & Hst & _ & _ & Hload);
    [done|done|by repeat split|by constructor|done|done|apply NoDup_singleton| |].
  { intros x r ->%list_elem_of_singleton Hr. rewrite Hid. by apply Hfr. }
  apply Forall2_cons_inv_l in Hst as (d & ds & Hd & Hds & Heq). apply Forall2_nil_inv_l in Hds as ->.
  rewrite Heq in Hload. exists e, e', (rows ++ ms), d. split_and!; [done..| | | | |].
  - destruct Hd as (-> & _). exact Hid.
  - destruct Hd as (_ & _ & _ & -> & _). exact Hty.
  - destruct Hd as (_ & _ & _ & _ & _ & _ & -> & _). exact Hve.
  - by apply Hread.
  - by apply Hread.
Qed.

Definition example_meta : EventMetadata :=
  {| em_CorrelationID := "c1"; em_CausationID := ""; em_UserID := "u1"; em_ServiceName := "orders";
     em_TraceID := ""; em_SpanID := "" |}.

Definition example_payload : OrderEventPayload := {| oe_OrderID := "1"; oe_CustomerID := "c<1>"; oe_Status := "paid" |}.

(** ** Witnesses *)

Lemma event_store_journey_witness :
  exists rows' d, Load "order" "1" rows' = [d] /\ UnmarshalData zero d = Ok example_payload /\
    UnmarshalMetadata d = Ok example_meta.
Proof.
  destruct (event_store_journey (Fixed 28800) 0 0 true (fun _ => 5) "order" "1" "events.order.paid"
    example_payload example_meta 0 []) as (e & e' & rows' & d & _ & _ & _ & Hl & _ & _ & _ & Hp & Hm).
  - split; [repeat constructor|vm_compute; reflexivity].
  - apply Nat.leb_le. vm_compute. reflexivity.
  - split; [repeat constructor|vm_compute; reflexivity].
  - lia.
  - reflexivity.
  - constructor.
  - intros r Hr. by apply elem_of_nil in Hr.
  - exists rows', d. exact (conj Hl (conj Hp Hm)).
Defined.
