(* ===== verification/Dlq.v ===== *)
(** * The dead-letter table (src/eventsourcing/dlq.go)

    Routing of a message to the table of failed events. The table and the
    message broker are not part of the repository: the class [FailedTable] is the
    insert with what the table's declaration promises, [NatsHeader] the headers of a
    message, and a message carries the answers the broker gives. *)

From S2P Require Import Prelude GoStrings Json JsonText Jsonb Timestamps StructJson Events.
From S2P Require EventStore.

(** Headers as they come with a message. *)
Abbreviation header := (gmap string (list string)).

(** [nats.Header.Get]: the first value of a key, with case told apart. *)
Class NatsHeader := {
  header_Get : header -> string -> string;
  header_Get_first h k v vs : h !! k = Some (v :: vs) -> header_Get h k = v;
  header_Get_none h k : h !! k = None -> header_Get h k = ""
}.

Definition MsgIdHdr : string := "Nats-Msg-Id".

(** A row; the columns [payload], [jsonb NOT NULL], and [headers], [jsonb], hold texts of
    documents, and the empty text stands for a nil slice. The key is the database's. *)
Record FailedEvent := {
  EventID : string;
  ConsumerName : string;
  Subject : string;
  Payload : string;
  Headers : string;
  Error : string;
  Stream : string;
  Consumer : string;
  StreamSequence : Z;
  ConsumerSequence : Z;
  DeliveredCount : Z;
  FailedAt : Z
}.

Record MsgMetadata := {
  meta_Stream : string;
  meta_Consumer : string;
  meta_StreamSequence : Z;
  meta_ConsumerSequence : Z;
  meta_NumDelivered : Z
}.

(** A delivery; [term_reason] and [term] are what the broker answers to the two
    termination calls. *)
Record Msg := {
  subject : string;
  data : string;
  headers : header;
  metadata : result MsgMetadata;
  term_reason : option error;
  term : option error
}.

Definition in_columns `{Jsonb, Timestamps} (e : FailedEvent) : option FailedEvent :=
  payload ← jsonb (Payload e);
  hdrs ← jsonb_or_null (Headers e);
  Some {| EventID := EventID e; ConsumerName := ConsumerName e; Subject := Subject e; Payload := payload;
          Headers := hdrs; Error := Error e; Stream := Stream e; Consumer := Consumer e;
          StreamSequence := StreamSequence e; ConsumerSequence := ConsumerSequence e;
          DeliveredCount := DeliveredCount e; FailedAt := ts (FailedAt e) |}.

Class FailedTable (D : Type) := {
  rows : D -> list FailedEvent;
  Create : FailedEvent -> D -> D * option error
}.

(** An insert that succeeds adds the row as its columns hold it, one that fails changes
    nothing. *)
Class FailedTableLaws (D : Type) `{Jsonb, Timestamps, FailedTable D} := {
  create_ok e d :
    snd (Create e d) = None -> exists e', in_columns e = Some e' /\ rows (fst (Create e d)) = rows d ++ [e'];
  create_failed e d err : snd (Create e d) = Some err -> rows (fst (Create e d)) = rows d
}.

(** Whether the broker delivers a message again whose [n]-th delivery was neither
    acknowledged nor terminated, for a consumer's [MaxDeliver]: that setting is the number
    of deliveries of a message, and one that is not positive means no limit. *)
Class Redelivery := {
  redelivers : Z -> Z -> bool;
  redelivers_spec max n : redelivers max n = true <-> max <= 0 \/ n < max
}.

Record DLQRouter := { consumerName : string }.

Definition NewDLQRouter (name : string) : DLQRouter := {| consumerName := name |}.

(** [json.Marshal] of the headers: keys in order, their values as arrays. *)
Definition header_le (a b : string * list string) : Prop := strings.String.le (fst a) (fst b).

#[export] Instance header_le_dec : RelDecision header_le.
Proof. intros a b. unfold header_le. apply _. Defined.

Definition header_json (h : header) : json :=
  JObj ((fun kv => (fst kv, JArr (JStr <$> snd kv))) <$> merge_sort header_le (map_to_list h)).

Section router.
Context `{NatsHeader}.

Definition eventIDFromMessage (m : Msg) : string :=
  let id := header_Get (headers m) MsgIdHdr in
  if bool_decide (id <> "") then id
  else match Unmarshal (zero (A := EventStore.DomainEvent)) (data m) with
       | Ok event => if bool_decide (EventStore.ID event <> "") then EventStore.ID event else ""
       | Err _ => ""
       end.

(** [text] is [error.Error]. *)
Definition failed_event (text : error -> string) (r : DLQRouter) (now : Z) (m : Msg) (handlerErr : error)
    : FailedEvent :=
  let zero := {| meta_Stream := ""; meta_Consumer := ""; meta_StreamSequence := 0;
                 meta_ConsumerSequence := 0; meta_NumDelivered := 0 |} in
  let meta := match metadata m with Ok meta => meta | Err _ => zero end in
  {| EventID := eventIDFromMessage m; ConsumerName := consumerName r; Subject := subject m;
     Payload := data m;
     Headers := if bool_decide (headers m = ∅) then "" else encode (header_json (headers m));
     Error := text handlerErr; Stream := meta_Stream meta;
     Consumer := meta_Consumer meta; StreamSequence := meta_StreamSequence meta;
     ConsumerSequence := meta_ConsumerSequence meta; DeliveredCount := meta_NumDelivered meta;
     FailedAt := now |}.

(** Whether the broker was told to stop redelivering: one of the calls answered nil. *)
Inductive fate := Redelivered | Terminated.

Definition terminate (m : Msg) : fate * option error :=
  match term_reason m with
  | None => (Terminated, None)
  | Some _ => match term m with None => (Terminated, None) | Some e => (Redelivered, Some e) end
  end.

Definition RouteToDLQ {D : Type} `{FailedTable D} (text : error -> string) (r : DLQRouter) (now : Z)
    (m : Msg) (handlerErr : option error) (d : D) : D * fate * option error :=
  let handlerErr := default (ErrMsg "message routed to DLQ") handlerErr in
  let '(d, e) := Create (failed_event text r now m handlerErr) d in
  match e with
  | Some e => (d, Redelivered, Some e)
  | None => let '(f, e) := terminate m in (d, f, e)
  end.

(** What becomes of a message: it is terminated, it waits for another delivery, or it was
    delivered as often as its consumer allows and is not delivered again. *)
Inductive outcome := Stopped | Waiting | Exhausted.

(** Deliveries of one message to a consumer with [MaxDeliver] [max], the next one being
    its [n]-th: either the consumer does not route it ([None], as for an error of the
    handler that is to be tried again), or it does, at a time, with the answers of the
    broker and the handler's error. With what the calls of [RouteToDLQ] returned. *)
Fixpoint deliveries {D : Type} `{Redelivery, FailedTable D} (text : error -> string) (r : DLQRouter) (max n : Z)
    (ds : list (option (Z * Msg * option error))) (d : D) : D * outcome * list (option error) :=
  match ds with
  | [] => (d, Waiting, [])
  | x :: ds =>
      let '(d, f, out) :=
        match x with
        | None => (d, Redelivered, [])
        | Some (now, m, err) => let '(d, f, e) := RouteToDLQ text r now m err d in (d, f, [e])
        end in
      match f with
      | Terminated => (d, Stopped, out)
      | Redelivered =>
          if redelivers max n
          then let '(d, f, outs) := deliveries text r max (n + 1) ds d in (d, f, out ++ outs)
          else (d, Exhausted, out)
      end
  end.

End router.

(** ** A table and headers, for examples *)

#[export] Instance list_table `{Jsonb, Timestamps} : FailedTable (list FailedEvent) := {
  rows d := d;
  Create e d := match in_columns e with Some e' => (d ++ [e'], None) | None => (d, Some ErrInvalidJSON) end
}.

#[export] Program Instance first_value : NatsHeader := {
  header_Get h k := default "" (head (default [] (h !! k)))
}.
Next Obligation. intros h k v vs Hk. simpl. by rewrite Hk. Qed.
Next Obligation. intros h k Hk. simpl. by rewrite Hk. Qed.

#[export] Program Instance up_to_max : Redelivery := {
  redelivers max n := (max <=? 0) || (n <? max)
}.
Next Obligation. intros max n. rewrite orb_true_iff, Z.leb_le, Z.ltb_lt. done. Qed.

Definition example_msg (payload : string) (reason : option error) : Msg :=
  {| subject := "events.order.created"; data := payload; headers := {[MsgIdHdr := ["e1"]]};
     metadata := Err (ErrMsg "no metadata"); term_reason := reason; term := reason |}.

Definition example_text (e : error) : string := match e with ErrMsg t => t | _ => "error" end.

(** ** Lemmas *)

#[export] Instance list_table_laws `{Jsonb, Timestamps} : FailedTableLaws (list FailedEvent).
Proof.
  split; intros e d; cbn [rows Create list_table]; destruct (in_columns e) as [e'|]; try done.
  intros _. by exists e'.
Qed.

(** Without a header the id is that of the event in the body. *)
Example id_of_the_body :
  let body := encode (JObj [("id", JStr "e7"); ("event_data", JObj [("a", JArr [JNull; JBool true])]);
                            ("occurred_at", JStr "2026-03-01T00:00:00Z")]) in
  let m := {| subject := "s"; data := body; headers := ∅; metadata := Err (ErrMsg "none");
              term_reason := None; term := None |} in
  eventIDFromMessage m = "e7" /\
  eventIDFromMessage (example_msg body None) = "e1".
Proof. vm_compute. done. Qed.

Section lemmas.
Context {D : Type} `{NatsHeader, FailedTableLaws D} (text : error -> string) (r : DLQRouter).
#[local] Set Default Proof Using "All".

(** One call: terminated only with the row stored; refused payloads are redelivered. *)
Lemma RouteToDLQ_spec now m err (d : D) :
  let e := in_columns (failed_event text r now m (default (ErrMsg "message routed to DLQ") err)) in
  match RouteToDLQ text r now m err d with
  | (d', f, res) =>
      (f = Terminated -> exists e', e = Some e' /\ rows d' = rows d ++ [e'] /\ res = None) /\
      (f = Redelivered -> res <> None /\ (rows d' = rows d \/ exists e', e = Some e' /\ rows d' = rows d ++ [e'])) /\
      (jsonb (data m) = None -> f = Redelivered /\ rows d' = rows d)
  end.
Proof.
  intros e. unfold RouteToDLQ. set (row := failed_event _ _ _ _ _) in *.
  assert (jsonb (data m) = None -> e = None) as Hj by (unfold e, in_columns, row; cbn; by intros ->).
  pose proof (create_ok row d) as Hok. pose proof (create_failed row d) as Hf.
  destruct (Create row d) as [d' [ce|]]; simpl in *.
  - specialize (Hf ce eq_refl). repeat split; try done. by left.
  - destruct (Hok eq_refl) as (e' & He' & Hrows). fold e in He'. unfold terminate.
    assert (jsonb (data m) <> None) as Hj' by (intros ?%Hj; congruence).
    destruct (term_reason m); [destruct (term m)|]; simpl;
      (split; [first [done|intros _; by exists e']|split; [first [done|intros _; split; [done|right; by exists e']]|done]]).
Qed.

End lemmas.

(** What one delivery can add to the table. *)
Definition row `{NatsHeader, Jsonb, Timestamps} (text : error -> string) (r : DLQRouter)
    (x : option (Z * Msg * option error)) : option FailedEvent :=
  '(now, m, err) ← x; in_columns (failed_event text r now m (default (ErrMsg "message routed to DLQ") err)).

(** A delivery whose payload the column does not take. *)
Definition poison (x : option (Z * Msg * option error)) : Prop :=
  match x with Some (_, m, _) => refused (data m) | None => True end.

Section runs.
Context {D : Type} `{NatsHeader, JsonbLaws, Timestamps, FailedTable D, !FailedTableLaws D, Redelivery}.
Context (text : error -> string) (r : DLQRouter).
#[local] Set Default Proof Using "All".

(** One delivery. *)
Lemma delivery_spec x (d : D) :
  match (match x with
         | None => (d, Redelivered, [])
         | Some (now, m, err) => let '(d, f, e) := RouteToDLQ text r now m err d in (d, f, [e])
         end) with
  | (d1, f, out) =>
      exists pre, rows d1 = rows d ++ pre /\ Forall (fun e => row text r x = Some e) pre /\
        (f = Terminated -> exists e, pre = [e] /\ row text r x = Some e /\ out = [None]) /\
        (f = Redelivered -> None ∉ out) /\
        (poison x -> f = Redelivered /\ pre = [])
  end.
Proof.
  destruct x as [[[now m] err]|].
  2:{ exists []. rewrite app_nil_r. split_and!; try done. intros _. apply not_elem_of_nil. }
  pose proof (RouteToDLQ_spec text r now m err d) as Hs. cbv zeta in Hs.
  destruct (RouteToDLQ text r now m err d) as [[d1 f1] res]. destruct Hs as (Ht & Hr & Hj).
  destruct f1.
  - destruct (Hr eq_refl) as [Hres Hrows]. destruct Hrows as [Hrows|(e & He & Hrows)].
    + exists []. rewrite app_nil_r. split_and!; try done. intros _ Hin%list_elem_of_singleton. by symmetry in Hin.
    + exists [e]. split_and!; try done; [by repeat constructor|intros _ Hin%list_elem_of_singleton; by symmetry in Hin|].
      intros Hv. split; [done|]. destruct (Hj (refused_jsonb _ Hv)) as [_ Hsame]. rewrite Hsame in Hrows.
      apply (app_inv_head (rows d)). by rewrite <- Hrows, app_nil_r.
  - destruct (Ht eq_refl) as (e & He & Hrows & ->). exists [e].
    split; [done|]. split; [by repeat constructor|]. split; [by exists e|]. split; [done|].
    intros Hv. by destruct (Hj (refused_jsonb _ Hv)).
Qed.

(** From the [n]-th delivery on. *)
Lemma deliveries_spec max n ds (d d' : D) f outs :
  1 <= n -> (0 < max -> n <= max) -> deliveries text r max n ds d = (d', f, outs) ->
  (exists new, rows d' = rows d ++ new /\
     Forall (fun e => exists x, x ∈ ds /\ row text r x = Some e) new /\
     (f = Stopped -> exists x e, x ∈ ds /\ row text r x = Some e /\ last new = Some e) /\
     (Forall poison ds -> new = [] /\ f <> Stopped)) /\
  (f = Stopped <-> None ∈ outs) /\
  (f = Exhausted -> 0 < max <= n - 1 + Z.of_nat (length ds)) /\
  (f = Waiting -> 0 < max -> n - 1 + Z.of_nat (length ds) < max).
Proof.
  revert n d outs. induction ds as [|x ds IH]; intros n d outs Hn Hmax; cbn [deliveries].
  { intros [= <- <- <-]. split.
    - exists []. rewrite app_nil_r. split_and!; try done; by constructor.
    - split_and!; try done; [by split; [|intros ?%not_elem_of_nil]|simpl; lia]. }
  pose proof (delivery_spec x d) as Hs.
  destruct (match x with Some _ => _ | None => _ end) as [[d1 f1] out].
  destruct Hs as (pre & Hpre & Hrow & Ht & Hr & Hp).
  assert (Forall (fun e => exists y, y ∈ x :: ds /\ row text r y = Some e) pre) as Hfirst.
  { eapply Forall_impl; [exact Hrow|]. intros e He. exists x. by split; [apply list_elem_of_here|]. }
  destruct f1.
  - pose proof (redelivers_spec max n) as Hre. destruct (redelivers max n).
    + destruct (deliveries text r max (n + 1) ds d1) as [[d2 f2] outs2] eqn:Hds. intros [= <- <- <-].
      assert (max <= 0 \/ n < max) as Hlt by by apply Hre.
      destruct (IH (n + 1) d1 outs2) as ((new & Hnew & Hall & Hstop & Hbad) & Hnil & Hex & Hw); [lia..|done|].
      cbn [length]. split; [|split_and!; [|intros Hf; specialize (Hex Hf); lia|intros Hf Hm; specialize (Hw Hf Hm); lia]].
      * exists (pre ++ new). rewrite Hnew, Hpre, <- app_assoc. split_and!; [done| | |].
        -- apply Forall_app. split; [done|]. eapply Forall_impl; [exact Hall|].
           intros e (y & ? & ?). exists y. by split; [apply list_elem_of_further|].
        -- intros Hf. destruct (Hstop Hf) as (y & e & ? & ? & Hl). exists y, e.
           split_and!; [by apply list_elem_of_further|done|]. by rewrite last_app, Hl.
        -- intros [Hx Hall']%Forall_cons. destruct (Hp Hx) as [_ ->]. destruct (Hbad Hall') as [-> ?]. done.
      * rewrite Hnil, elem_of_app. specialize (Hr eq_refl). naive_solver.
    + intros [= <- <- <-]. cbn [length].
      assert (~ (max <= 0 \/ n < max)) as Hge by by rewrite <- Hre.
      split; [|split_and!; [by split; [|intros ?%Hr]|lia|done]].
      exists pre. split_and!; [done|done|done|]. by intros [Hx _]%Forall_cons; destruct (Hp Hx) as [_ ->].
  - intros [= <- <- <-]. destruct (Ht eq_refl) as (e & -> & He & ->).
    split; [|split_and!; [by split; [intros _; apply list_elem_of_here|]|done|done]].
    exists [e]. split_and!; [done|done| |by intros [Hx _]%Forall_cons; destruct (Hp Hx)].
    intros _. exists x, e. by split; [apply list_elem_of_here|].
Qed.

End runs.

(** C15: Over the deliveries of a message to a consumer with a limit [max] on them, whatever
    the consumer routes and the database and the broker answer: no row of the table is lost
    or changed, and every added row is of one of the deliveries; the message is terminated
    exactly when a call of [RouteToDLQ] returned nil, and then the last row of the table is
    of one of the deliveries, with its payload as the column holds it, its subject, error
    and event id; it stays undelivered for good, with none of the calls having returned
    nil, exactly when [max] deliveries did not terminate it, and waits for another one as
    long as there were fewer. A message whose data is not a JSON document, or one with the
    character zero in a string, is never terminated and never stored: after [max]
    deliveries it is lost without a row. *)
Theorem dlq_deliveries {D : Type} `{NatsHeader, JsonbLaws, Timestamps, FailedTable D, !FailedTableLaws D, Redelivery}
    text r max ds (d d' : D) f outs :
  deliveries text r max 1 ds d = (d', f, outs) ->
  (exists new, rows d' = rows d ++ new /\
     Forall (fun e => exists x, x ∈ ds /\ row text r x = Some e) new /\
     (f = Stopped -> exists x e, x ∈ ds /\ row text r x = Some e /\ last new = Some e)) /\
  (f = Stopped <-> None ∈ outs) /\
  (f = Exhausted -> 0 < max <= Z.of_nat (length ds)) /\
  (f = Waiting -> 0 < max -> Z.of_nat (length ds) < max) /\
  (Forall poison ds ->
     rows d' = rows d /\ f = (if bool_decide (0 < max <= Z.of_nat (length ds)) then Exhausted else Waiting)).
Proof.
  intros Hds. destruct (deliveries_spec text r max 1 ds d d' f outs) as ((new & Hnew & Hall & Hstop & Hbad) & Hnil & Hex & Hw); [lia..|done|].
  split; [by exists new|]. split; [done|]. split; [intros Hf; specialize (Hex Hf); lia|].
  split; [intros Hf Hm; specialize (Hw Hf Hm); lia|].
  intros Hp. destruct (Hbad Hp) as [-> Hs]. rewrite app_nil_r in Hnew. split; [done|].
  case_bool_decide; destruct f; try done; exfalso.
  - specialize (Hw eq_refl). lia.
  - specialize (Hex eq_refl). lia.
Qed.

(** Three deliveries: the first not routed, the second with a broker that does not answer;
    and a message that is no document, which its second and last delivery loses. *)
Lemma dlq_deliveries_witness :
  let go max ds := deliveries example_text (NewDLQRouter "c") max 1 ds ([] : list FailedEvent) in
  let boom now payload reason := Some (now, example_msg payload reason, Some (ErrMsg "boom")) in
  let good := [None; boom 1 "{}" (Some (ErrMsg "timeout")); boom 2 "{}" None] in
  let bad := [None; boom 1 "{" None] in
  (exists d outs x e, go 3 good = (d, Stopped, outs) /\ x ∈ good /\ last d = Some e /\
     row example_text (NewDLQRouter "c") x = Some e) /\
  snd (fst (go 2 bad)) = Exhausted /\ fst (fst (go 2 bad)) = [].
Proof.
  intros go boom good bad. split.
  - assert (go 3 good = (fst (fst (go 3 good)), Stopped, snd (go 3 good))) as Hd by (vm_compute; reflexivity).
    destruct (dlq_deliveries _ _ 3 good [] _ _ _ Hd) as ((new & Hnew & _ & Hs) & _).
    destruct (Hs eq_refl) as (x & e & Hin & Hrow & Hl). eexists _, _, x, e. split; [exact Hd|].
    split; [exact Hin|]. split; [|exact Hrow]. rewrite <- Hl. exact (f_equal last Hnew).
  - assert (go 2 bad = (fst (fst (go 2 bad)), snd (fst (go 2 bad)), snd (go 2 bad))) as Hd by (vm_compute; reflexivity).
    destruct (dlq_deliveries _ _ 2 bad [] _ _ _ Hd) as (_ & _ & _ & _ & Hp).
    destruct Hp as [Hrows Hf]; [|split; [exact Hf|exact Hrows]].
    apply Forall_cons. split; [exact I|]. apply Forall_cons. split; [|by constructor].
    left. intros depth. by destruct depth.
Defined.
