(* ===== verification/Journey.v ===== *)
(** * From the outbox to the consumer (src/outbox/outbox.go, processor.go, src/messaging/streams.go, src/eventsourcing/dlq.go)

    What the outbox, the streams, the consumers and the dead-letter table do together
    with one payload. *)

From S2P Require Import Prelude GoStrings Json JsonText Jsonb Timestamps StructJson Outbox Streams Contracts Events Dlq.

(** A delivery of a published message: its subject, its data and its headers. *)
Definition delivers (m : Streams.Msg) (d : Dlq.Msg) : Prop :=
  subject d = msg_Subject m /\ data d = msg_Data m /\ Dlq.headers d = default ∅ (msg_Header m).

(** The message that the processor publishes for a row. *)
Definition message_of (uuid_text : Z -> string) (row : Event) : Streams.Msg :=
  {| msg_Subject := EventType row; msg_Data := Outbox.Payload row;
     msg_Header := Some {[MsgIdHdr := [uuid_text (ID row)]]} |}.

(** A row after failed attempts with these errors. *)
Definition after_failures (errs : list string) (row : Event) : Event := foldr set_failed row errs.

Lemma after_failures_keeps errs row :
  ID (after_failures errs row) = ID row /\ EventType (after_failures errs row) = EventType row /\
  Outbox.Payload (after_failures errs row) = Outbox.Payload row /\
  RetryCount (after_failures errs row) = RetryCount row + Z.of_nat (length errs).
Proof.
  induction errs as [|err errs (H1 & H2 & H3 & H4)]; [cbn; split_and!; try done; lia|].
  change (after_failures (err :: errs) row) with (set_failed err (after_failures errs row)).
  cbn [set_failed ID EventType Outbox.Payload RetryCount length]. split_and!; [done..|lia].
Qed.

Section journey.
Context `{JsonbLaws, Timestamps, NatsHeader} {J : Type} `{JetStream J} (uuid_text : Z -> string).

(** The processor over the stream publisher makes one publication per attempt. *)
Lemma processEvent_publishes cfg row (j : J) :
  processEvent uuid_text (NewProcessor OutboxPublisher cfg) row j =
    (let '(j', ack) := PublishMsg (message_of uuid_text row) j in
     (j', match ack with Err e => Some e | Ok _ => None end)).
Proof using Type.
  unfold processEvent, message_of. cbn. unfold PublishWithHeaders, publish.
  rewrite bool_decide_false by (intros He; by apply (insert_non_empty (M := gmap string) ∅ "Nats-Msg-Id" (uuid_text (ID row)))).
  by rewrite map_fmap_singleton.
Qed.

Lemma Outbox_Publish_fresh {A : Type} `{JsonLaws A} fresh now now' aggregateType aggregateID ty (payload : A) t :
  durable payload -> (json_depth (A := A) <= jsonb_depth)%nat -> t !! fresh = None ->
  exists e row, CreateEvent now aggregateType aggregateID ty payload = Ok e /\
    Outbox_Publish fresh now' e t = (<[fresh := row]> t, None) /\
    ID row = fresh /\ EventType row = ty /\ ProcessedAt row = None /\ RetryCount row = 0 /\
    Unmarshal zero (Outbox.Payload row) = Ok payload.
Proof using Type*.
  intros Hp Hd Hfr. destruct (durable_column payload Hp Hd) as (text & s & Htext & Hs & Hu).
  unfold CreateEvent. rewrite Htext. eexists; eexists. split; [done|]. unfold Outbox_Publish, Outbox.in_columns, BeforeCreate. cbn.
  rewrite Hs, bool_decide_true by done. cbn. rewrite Hfr. by split_and!.
Qed.

End journey.

(** C16: A durable payload that is published through the outbox: the event is created, its row
    inserted, unprocessed and with no retries; every attempt to publish it, after however
    many failures, hands the stream one and the same message, with the event's type as its
    subject; every delivery of that message reads, in the consumer, as the very payload
    that was given, and carries the row's id, under which the stream drops repetitions
    and the dead-letter table files the message. *)
Theorem outbox_journey `{JsonbLaws, Timestamps, NatsHeader} {J : Type} `{JetStream J} {A : Type} `{JsonLaws A}
    uuid_text cfg fresh now now' aggregateType aggregateID ty (payload : A) (t : table) :
  durable payload -> (json_depth (A := A) <= jsonb_depth)%nat -> t !! fresh = None -> uuid_text fresh <> "" ->
  exists e row m, CreateEvent now aggregateType aggregateID ty payload = Ok e /\
    Outbox_Publish fresh now' e t = (<[fresh := row]> t, None) /\
    ProcessedAt row = None /\ RetryCount row = 0 /\ msg_Subject m = ty /\
    (forall errs (j : J), processEvent uuid_text (NewProcessor OutboxPublisher cfg) (after_failures errs row) j =
      (let '(j', ack) := PublishMsg m j in (j', match ack with Err e => Some e | Ok _ => None end))) /\
    forall d, delivers m d ->
      Unmarshal zero (data d) = Ok payload /\
      forall text router at_ err, EventID (failed_event text router at_ d err) = uuid_text fresh.
Proof.
  intros Hp Hd Hfr Hid.
  destruct (Outbox_Publish_fresh fresh now now' aggregateType aggregateID ty payload t Hp Hd Hfr)
    as (e & row & He & Hpub & Hrid & Hty & Hpr & Hrc & Hu).
  exists e, row, (message_of uuid_text row). split_and!; [done..| |].
  - intros errs j. rewrite processEvent_publishes. unfold message_of.
    by destruct (after_failures_keeps errs row) as (-> & -> & -> & _).
  - intros d (_ & Hdata & Hh). split; [by rewrite Hdata|]. intros text router at_ err. cbn. unfold eventIDFromMessage.
    rewrite Hh. cbn. rewrite (header_Get_first _ _ (uuid_text fresh) []); [by rewrite bool_decide_true|].
    rewrite Hrid. apply (lookup_insert_eq (M := gmap string)).
Qed.

(** ** Witnesses *)

Lemma outbox_journey_witness :
  exists e row m d, CreateEvent 3 "order" 7 "events.order.paid" example_payload = Ok e /\
    Outbox_Publish 1 4 e ∅ = (<[1 := row]> ∅, None) /\ delivers m d /\
    Unmarshal zero (data d) = Ok example_payload /\
    EventID (failed_event example_text (NewDLQRouter "c") 5 d (ErrMsg "boom")) = "u1".
Proof.
  destruct (outbox_journey (J := server) (fun _ => "u1") DefaultProcessorConfig 1 3 4 "order" 7 "events.order.paid"
    example_payload ∅) as (e & row & m & He & Hpub & _ & _ & _ & _ & Hread).
  - split; [repeat constructor|vm_compute; reflexivity].
  - apply Nat.leb_le. vm_compute. reflexivity.
  - reflexivity.
  - discriminate.
  - set (d := {| subject := msg_Subject m; data := msg_Data m; Dlq.headers := default ∅ (msg_Header m);
                 metadata := Err (ErrMsg "none"); term_reason := None; term := None |}).
    assert (delivers m d) as Hd by done. destruct (Hread d Hd) as [Hu Hid].
    exists e, row, m, d. split_and!; [exact He|exact Hpub|exact Hd|exact Hu|apply Hid].
Defined.
