(* ===== verification/Middleware.v ===== *)
(** * HTTP middleware (src/middleware/: csrf, cors, security, setup, audit, validation)

    Handlers as functions of the parts of the request they read; what they do is
    to go on, with the headers they set, or to answer and abort. *)

From S2P Require Import Prelude GoStrings Response TokenAuth.
From Stdlib Require Import Ascii.

(** ** CSRF (csrf.go) *)

(** A missing cookie is [None]; a missing header is empty. *)
Record csrf_request := {
  method : string;
  path : string;
  csrf_cookie : option string;
  csrf_header : string
}.

Definition safe_method (m : string) : bool :=
  bool_decide (m = "GET") || bool_decide (m = "HEAD") || bool_decide (m = "OPTIONS").

(** [None]: the request goes on. *)
Definition csrf_check (r : csrf_request) (cookieToken : string) : option reply :=
  if bool_decide (csrf_header r = "") then Some (Forbidden "CSRF token missing from header")
  else if bool_decide (cookieToken <> csrf_header r) then Some (Forbidden "CSRF token mismatch")
  else None.

Definition csrf_cookie_value (r : csrf_request) : option string :=
  match csrf_cookie r with
  | Some t => if bool_decide (t = "") then None else Some t
  | None => None
  end.

Definition CSRFProtection (r : csrf_request) : option reply :=
  if safe_method (method r) then None
  else match csrf_cookie_value r with
       | None => Some (Forbidden "CSRF token missing from cookie")
       | Some cookieToken => csrf_check r cookieToken
       end.

Definition CSRFProtectionWithSkip (skipPaths : list string) (r : csrf_request) : option reply :=
  if bool_decide (path r ∈ skipPaths) then None
  else if safe_method (method r) then None
  else match csrf_cookie_value r with
       | None => Some (Forbidden "CSRF token missing from cookie")
       | Some cookieToken => csrf_check r cookieToken
       end.

Definition OptionalCSRFProtection (r : csrf_request) : option reply :=
  if safe_method (method r) then None
  else match csrf_cookie_value r with
       | None => None
       | Some cookieToken => csrf_check r cookieToken
       end.

(** ** Response headers *)

Abbreviation headers := (gmap string string).

(** [gin.Context.Header] deletes a header that is set to nothing. *)
Definition set_header (name value : string) (h : headers) : headers :=
  if bool_decide (value = "") then delete name h else <[name := value]> h.

Inductive outcome := GoesOn (h : headers) | AbortWithStatus (code : Z) (h : headers).

Definition outcome_headers (o : outcome) : headers :=
  match o with GoesOn h | AbortWithStatus _ h => h end.

(** ** CORS (cors.go, security.go) *)

Definition CORSMiddleware : panics unit :=
  Panics (ErrMsg "CORSMiddleware with wildcard (*) is disabled for security. Use CORSWithOrigins() with explicit origins instead.").

Definition parseOrigins (originsStr : string) : list string :=
  if bool_decide (originsStr = "") then []
  else filter (fun o => o <> "") (TrimSpace <$> Split originsStr ","%char).

Definition isOriginAllowed (origin : string) (allowedOrigins : list string) : bool :=
  if bool_decide (origin = "") then false
  else existsb (fun allowed => bool_decide (allowed = origin)) allowedOrigins.

Definition CORSWithOrigins (allowedOrigins : string) (method origin : string) (h : headers) : outcome :=
  let origins := parseOrigins allowedOrigins in
  let h :=
    if isOriginAllowed origin origins then
      <["Access-Control-Allow-Credentials" := "true"]> (<["Access-Control-Allow-Origin" := origin]> h)
    else h in
  let h := <["Access-Control-Allow-Headers" := "Content-Type, Content-Length, Accept-Encoding, X-CSRF-Token, Authorization, accept, origin, Cache-Control, X-Requested-With"]> h in
  let h := <["Access-Control-Allow-Methods" := "POST, OPTIONS, GET, PUT, DELETE, PATCH"]> h in
  let h := <["Access-Control-Max-Age" := "86400"]> h in
  if bool_decide (method = "OPTIONS") then AbortWithStatus 204 h else GoesOn h.

Definition CORS (allowedOrigins : list string) (method origin : string) (h : headers) : outcome :=
  let allowed := existsb (fun allowedOrigin => bool_decide (origin = allowedOrigin)) allowedOrigins in
  let h := if allowed then set_header "Access-Control-Allow-Origin" origin h else h in
  let h := set_header "Access-Control-Allow-Methods" "GET, POST, PUT, PATCH, DELETE, OPTIONS" h in
  let h := set_header "Access-Control-Allow-Headers" "Content-Type, Authorization, X-Requested-With" h in
  let h := set_header "Access-Control-Allow-Credentials" "true" h in
  let h := set_header "Access-Control-Max-Age" "86400" h in
  if bool_decide (method = "OPTIONS") then AbortWithStatus 204 h else GoesOn h.

(** ** Security headers (security.go) *)

Record SecurityConfig := { EnableStrictCSP : bool; CSPReportURI : string }.

Definition DefaultSecurityConfig : SecurityConfig := {| EnableStrictCSP := true; CSPReportURI := "" |}.

Definition csp (config : SecurityConfig) : string :=
  (if EnableStrictCSP config then
     "default-src 'self'; " +:+ "script-src 'self'; " +:+ "style-src 'self'; " +:+
     "img-src 'self' data: https:; " +:+ "font-src 'self'; " +:+ "connect-src 'self'; " +:+
     "frame-ancestors 'none'; " +:+ "form-action 'self'; " +:+ "base-uri 'self'; " +:+
     "object-src 'none'"
   else
     "default-src 'self'; " +:+ "script-src 'self' 'unsafe-inline' 'unsafe-eval'; " +:+
     "style-src 'self' 'unsafe-inline'; " +:+ "img-src 'self' data: https:; " +:+
     "font-src 'self'; " +:+ "connect-src 'self'")
  +:+ (if bool_decide (CSPReportURI config <> "") then "; report-uri " +:+ CSPReportURI config else "").

Definition SecurityHeadersWithConfig (config : SecurityConfig) (h : headers) : headers :=
  foldl (fun h kv => set_header (fst kv) (snd kv) h) h
    [ ("X-Frame-Options", "DENY"); ("X-Content-Type-Options", "nosniff");
      ("X-XSS-Protection", "1; mode=block");
      ("Strict-Transport-Security", "max-age=31536000; includeSubDomains; preload");
      ("Content-Security-Policy", csp config);
      ("Referrer-Policy", "strict-origin-when-cross-origin");
      ("Permissions-Policy", "geolocation=(), microphone=(), camera=(), payment=(), usb=()");
      ("Cache-Control", "no-store, no-cache, must-revalidate, proxy-revalidate");
      ("Pragma", "no-cache"); ("Expires", "0") ].

Definition SecurityHeaders : headers -> headers := SecurityHeadersWithConfig DefaultSecurityConfig.

(** ** The chain (setup.go) *)

(** The handlers installed, [LExtern] those passed in. *)
Inductive layer :=
| LRecovery
| LExtern (id : Z)
| LRequestID
| LLogger
| LCORS (allowedOrigins : string)
| LSecurity (config : SecurityConfig)
| LInputValidation.

(** [None] in a list of handlers is a nil handler. *)
Record SetupConfig := {
  Logger : bool;
  PreRequestID : list (option Z);
  AllowedOrigins : string;
  cfg_SecurityHeaders : option SecurityConfig;
  EnableInputValidation : bool;
  PostValidation : list (option Z)
}.

Definition install (hs : list (option Z)) : list layer := LExtern <$> omap id hs.

Definition SetupCommonMiddleware (cfg : SetupConfig) : panics (list layer) :=
  if negb (Logger cfg) then Panics (ErrMsg "middleware.SetupCommonMiddleware: cfg.Logger is required")
  else Returns (
    [LRecovery] ++ install (PreRequestID cfg) ++ [LRequestID; LLogger] ++
    (if bool_decide (AllowedOrigins cfg <> "") then [LCORS (AllowedOrigins cfg)] else []) ++
    [LSecurity (default DefaultSecurityConfig (cfg_SecurityHeaders cfg))] ++
    (if EnableInputValidation cfg then [LInputValidation] else []) ++
    install (PostValidation cfg)).

(** ** Audit (audit.go) *)

Definition sensitivePatterns : list string :=
  [ "/auth/login"; "/auth/register"; "/auth/logout"; "/auth/refresh"; "/auth/forgot-password";
    "/auth/reset-password"; "/auth/change-password"; "/admin/"; "/permissions/"; "/roles/"; "/users/" ].

(** [containsSubstring] is the loop of package response, written again. *)
Definition audit_contains (s substr : string) : bool :=
  (String.length substr <=? String.length s)%nat && (bool_decide (s = substr) || Response.contains s substr).

Definition isSensitiveRoute (path : string) : bool := existsb (audit_contains path) sensitivePatterns.

Definition determineEventType (path method : string) : string :=
  if audit_contains path "/login" then "LOGIN_ATTEMPT"
  else if audit_contains path "/register" then "REGISTRATION"
  else if audit_contains path "/logout" then "LOGOUT"
  else if audit_contains path "/refresh" then "TOKEN_REFRESH"
  else if audit_contains path "/forgot-password" then "PASSWORD_RESET_REQUEST"
  else if audit_contains path "/reset-password" then "PASSWORD_RESET"
  else if audit_contains path "/change-password" then "PASSWORD_CHANGE"
  else if audit_contains path "/permissions/" && bool_decide (method = "POST") then "PERMISSION_GRANTED"
  else if audit_contains path "/permissions/" && bool_decide (method = "DELETE") then "PERMISSION_REVOKED"
  else if audit_contains path "/roles/" && bool_decide (method = "POST") then "ROLE_CREATED"
  else if audit_contains path "/roles/" && bool_decide (method = "PUT") then "ROLE_UPDATED"
  else if audit_contains path "/roles/" && bool_decide (method = "DELETE") then "ROLE_DELETED"
  else if audit_contains path "/admin/" then "ADMIN_ACTION"
  else "SENSITIVE_ACCESS".

(** The fields of the event that are set and logged. *)
Record AuditEvent := {
  EventType : string;
  ae_UserID : string;
  ae_Email : string;
  IPAddress : string;
  ae_Method : string;
  ae_Path : string;
  StatusCode : Z;
  ae_Success : bool
}.

Definition context_string (key : string) (c : gmap string TokenAuth.ctx_value) : string :=
  match c !! key with Some (CStr s) => s | _ => "" end.

(** [c] is the context after the request was handled with [status]. *)
Definition AuditLogger (path method clientIP : string) (status : Z) (c : gmap string TokenAuth.ctx_value) : option AuditEvent :=
  if negb (isSensitiveRoute path) then None
  else Some {| EventType := determineEventType path method; ae_UserID := context_string "user_id" c;
               ae_Email := context_string "email" c; IPAddress := clientIP; ae_Method := method;
               ae_Path := path; StatusCode := status; ae_Success := bool_decide (status < 400) |}.

(** ** Sanitising (validation.go) *)

Definition dquote : ascii := ascii_of_nat 34.

Definition SanitizeInput (input : string) : string :=
  let input := ReplaceAll input "<" "&lt;" in
  let input := ReplaceAll input ">" "&gt;" in
  let input := ReplaceAll input dquote "&quot;" in
  let input := ReplaceAll input "'" "&#x27;" in
  ReplaceAll input "/" "&#x2F;".

(** ** Lemmas *)

Lemma csrf_cookie_value_spec r t :
  csrf_cookie_value r = Some t <-> csrf_cookie r = Some t /\ t <> "".
Proof.
  unfold csrf_cookie_value. destruct (csrf_cookie r) as [u|]; [|naive_solver].
  case_bool_decide; naive_solver.
Qed.

Lemma csrf_check_spec r t : t <> "" -> csrf_check r t = None <-> csrf_header r = t.
Proof. intros Ht. unfold csrf_check. repeat case_bool_decide; split; try done; congruence. Qed.

(** What passes the double-submit check: safe methods, and requests whose header
    repeats the cookie. The variants differ on skipped paths and on a missing cookie. *)
Lemma csrf_spec r :
  CSRFProtection r = None <->
  safe_method (method r) = true \/ exists t, csrf_cookie r = Some t /\ t <> "" /\ csrf_header r = t.
Proof.
  unfold CSRFProtection. destruct (safe_method (method r)) eqn:Hs; [naive_solver|].
  destruct (csrf_cookie_value r) as [t|] eqn:Hc.
  - apply csrf_cookie_value_spec in Hc as [Hc Ht]. rewrite csrf_check_spec by done. naive_solver.
  - split; [done|]. intros [?|(t & H1 & H2 & _)]; [done|].
    by rewrite (proj2 (csrf_cookie_value_spec r t)) in Hc.
Qed.

Lemma csrf_variants skip r :
  CSRFProtectionWithSkip skip r = (if bool_decide (path r ∈ skip) then None else CSRFProtection r) /\
  (OptionalCSRFProtection r = None <-> CSRFProtection r = None \/ csrf_cookie_value r = None).
Proof.
  split; [done|]. unfold OptionalCSRFProtection, CSRFProtection.
  destruct (safe_method (method r)); [naive_solver|]. destruct (csrf_cookie_value r); naive_solver.
Qed.

Lemma isOriginAllowed_spec origin l : isOriginAllowed origin l = true <-> origin <> "" /\ origin ∈ l.
Proof.
  unfold isOriginAllowed. case_bool_decide; [naive_solver|]. rewrite existsb_exists.
  setoid_rewrite bool_decide_eq_true. setoid_rewrite <- list_elem_of_In. naive_solver.
Qed.

(** The origin is echoed, never a wildcard, and only when it is listed. *)
Lemma cors_echoes_listed allowed method origin h o :
  h !! "Access-Control-Allow-Origin" = None ->
  outcome_headers (CORSWithOrigins allowed method origin h) !! "Access-Control-Allow-Origin" = Some o <->
  o = origin /\ origin <> "" /\ exists part, part ∈ Split allowed ","%char /\ TrimSpace part = origin.
Proof.
  intros Hh. unfold CORSWithOrigins.
  assert (origin <> "" -> (origin ∈ parseOrigins allowed) <->
    exists part, part ∈ Split allowed ","%char /\ TrimSpace part = origin) as Hp.
  { intros Hne. unfold parseOrigins. case_bool_decide as Ha.
    - subst allowed. simpl. split; [by intros ?%not_elem_of_nil|].
      intros (part & Hin & Ht). apply list_elem_of_singleton in Hin as ->. by destruct Hne.
    - rewrite list_elem_of_filter, list_elem_of_fmap. naive_solver. }
  pose proof (isOriginAllowed_spec origin (parseOrigins allowed)) as Hallow.
  destruct (isOriginAllowed origin (parseOrigins allowed)); case_bool_decide; simpl;
    simplify_map_eq; naive_solver.
Qed.

Lemma strict_csp_safe : Contains (csp DefaultSecurityConfig) "unsafe" = false.
Proof. reflexivity. Qed.

(** The audit event of a request that passed [AuthMiddleware] has the user's id but
    no e-mail address, which is stored under another key. *)
Lemma audit_email_empty path method ip status claims c e :
  c !! "email" = None -> AuditLogger path method ip status (set_claims claims c) = Some e ->
  ae_UserID e = UserID claims /\ ae_Email e = "".
Proof.
  intros Hc. unfold AuditLogger. destruct (isSensitiveRoute path); [|done]. intros [= <-]. simpl.
  unfold context_string, set_claims. by simplify_map_eq.
Qed.

Lemma ReplaceAll_clean s old new c :
  string_elem c new = false ->
  string_elem c (ReplaceAll s old new) = bool_decide (c <> old) && string_elem c s.
Proof.
  intros Hn. induction s as [|d s IH]; cbn [ReplaceAll]; [by destruct (bool_decide _)|].
  rewrite string_elem_append, IH. destruct (decide (d = old)) as [->|Hd].
  - rewrite (bool_decide_true (old = old)), Hn by done. simpl.
    by repeat case_bool_decide; simpl; try congruence.
  - rewrite (bool_decide_false (d = old)) by done. simpl.
    by repeat case_bool_decide; simpl; try congruence.
Qed.

(** Sanitised text has none of the five characters. *)
Lemma SanitizeInput_clean input c :
  c ∈ ["<"; ">"; dquote; "'"; "/"]%char -> string_elem c (SanitizeInput input) = false.
Proof.
  intros Hc. unfold SanitizeInput.
  repeat (apply elem_of_cons in Hc as [->|Hc]; [by rewrite !ReplaceAll_clean by done|]).
  by apply not_elem_of_nil in Hc.
Qed.

