(* ===== verification/Health.v ===== *)
(** * Health endpoints (src/middleware/health.go)

    [runChecks] as its loop over the answers it receives, and one readiness
    request as the interleavings of that loop with the goroutines of the checks
    and the end of the budget. *)

From S2P Require Import Prelude GoStrings.

(** ** The collecting loop *)

(** What the [select] receives: an answer of a dependency, by name, with the text
    of its error, or the end of the budget. *)
Inductive health_event := Answer (name : string) (err : option string) | BudgetOver.

Definition answer_text (err : option string) : string :=
  match err with None => "ok" | Some e => "fail: " +:+ e end.

Definition no_answer : string := "fail: no answer within the readiness budget".

(** The inner loop over the dependencies once the budget is over. *)
Definition mark_unanswered (deps : list string) (results : gmap string string) : gmap string string :=
  foldl (fun results d => match results !! d with Some _ => results | None => <[d := no_answer]> results end)
    results deps.

(** The loop waits for [pending] more answers, or [runChecks] has returned. *)
Inductive collector :=
| Waiting (pending : nat) (results : gmap string string)
| Returned (results : gmap string string).

(** The head of the loop. *)
Definition loop_head (pending : nat) (results : gmap string string) : collector :=
  match pending with O => Returned results | S _ => Waiting pending results end.

(** One round of the loop; nothing is received after the return. *)
Definition collect_one (deps : list string) (c : collector) (e : health_event) : collector :=
  match c with
  | Returned results => Returned results
  | Waiting pending results =>
      match e with
      | Answer name err => loop_head (pred pending) (<[name := answer_text err]> results)
      | BudgetOver => Returned (mark_unanswered deps results)
      end
  end.

Definition runChecks (deps : list string) (events : list health_event) : collector :=
  foldl (collect_one deps) (loop_head (length deps) ∅) events.

Record HealthStatus := { hs_Status : string; hs_Checks : gmap string string }.

(** What the handler answers; [None] while [runChecks] still waits. *)
Definition ready_reply (c : collector) : option (Z * HealthStatus) :=
  match c with
  | Waiting _ _ => None
  | Returned results =>
      Some (if forallb (fun r => bool_decide (r = "ok")) ((map_to_list results).*2)
            then (200, {| hs_Status := "ok"; hs_Checks := results |})
            else (503, {| hs_Status := "degraded"; hs_Checks := results |}))
  end.

Definition ready (deps : list string) (events : list health_event) : option (Z * HealthStatus) :=
  ready_reply (runChecks deps events).

(** The status code of a reply. *)
Definition code_of (c : collector) : option Z := fst <$> ready_reply c.

(** ** One readiness request

    The goroutines are known by the position of their dependency. [sent] are those
    whose check answered and whose send went through; [ch] is the buffered
    channel; [budget] tells that the context is done. *)
Record request := {
  sent : gset nat;
  ch : list (string * option string);
  loop : collector;
  budget_over : bool
}.

Definition new_request (deps : list string) : request :=
  {| sent := ∅; ch := []; loop := loop_head (length deps) ∅; budget_over := false |}.

(** [Send i err]: the check of dependency [i] answers [err] and is put into the
    channel; [Receive] and [Timeout] are the two cases of the [select]; [Expire] is the
    end of the budget, or the client that goes away. *)
Inductive event := Send (i : nat) (err : option string) | Receive | Timeout | Expire.

(** The channel of [runChecks] has the capacity [len(deps)]: a send to a full
    channel blocks, as does a receive from an empty one. *)
Definition step (deps : list string) (s : request) (e : event) : option request :=
  match e with
  | Send i err =>
      match deps !! i with
      | Some d =>
          if bool_decide (i ∉ sent s) && (length (ch s) <? length deps)%nat
          then Some {| sent := {[i]} ∪ sent s; ch := ch s ++ [(d, err)]; loop := loop s; budget_over := budget_over s |}
          else None
      | None => None
      end
  | Receive =>
      match loop s, ch s with
      | Waiting _ _, (d, err) :: rest =>
          Some {| sent := sent s; ch := rest; loop := collect_one deps (loop s) (Answer d err); budget_over := budget_over s |}
      | _, _ => None
      end
  | Timeout =>
      match loop s with
      | Waiting _ _ =>
          if budget_over s
          then Some {| sent := sent s; ch := ch s; loop := collect_one deps (loop s) BudgetOver; budget_over := true |}
          else None
      | Returned _ => None
      end
  | Expire =>
      if budget_over s then None
      else Some {| sent := sent s; ch := ch s; loop := loop s; budget_over := true |}
  end.

Fixpoint run (deps : list string) (s : request) (events : list event) : option request :=
  match events with
  | [] => Some s
  | e :: events => match step deps s e with Some s' => run deps s' events | None => None end
  end.

(** ** Lemmas on the loop *)

Lemma foldl_insert_lookup {A} (f : A -> string) (answers : list (string * A)) (results : gmap string string) name :
  NoDup answers.*1 ->
  foldl (fun r a => <[fst a := f (snd a)]> r) results answers !! name =
  match (list_to_map answers : gmap string A) !! name with Some a => Some (f a) | None => results !! name end.
Proof.
  revert results. induction answers as [|[n a] answers IH]; intros results Hnd; simpl.
  { by rewrite lookup_empty. }
  apply NoDup_cons in Hnd as [Hn Hnd]. rewrite IH by done. destruct (decide (n = name)) as [->|Hne].
  - rewrite (not_elem_of_list_to_map_1 _ name), !lookup_insert_eq by done. done.
  - rewrite !lookup_insert_ne by done. done.
Qed.

Lemma all_ok_spec (results : gmap string string) :
  forallb (fun r => bool_decide (r = "ok")) ((map_to_list results).*2) = true <->
  forall name r, results !! name = Some r -> r = "ok".
Proof.
  rewrite forallb_forall. split.
  - intros H name r Hr. apply elem_of_map_to_list in Hr.
    specialize (H r). rewrite bool_decide_eq_true in H. apply H, list_elem_of_In, list_elem_of_fmap.
    by exists (name, r).
  - intros H r Hr. apply list_elem_of_In, list_elem_of_fmap in Hr as ([name r'] & -> & Hr).
    apply bool_decide_eq_true. apply elem_of_map_to_list in Hr. eauto.
Qed.

Lemma code_200 results :
  code_of (Returned results) = Some 200 <-> forall name r, results !! name = Some r -> r = "ok".
Proof. rewrite <- all_ok_spec. unfold code_of. simpl. destruct (forallb _ _); simpl; split; congruence. Qed.

Lemma answer_text_ok err : answer_text err = "ok" <-> err = None.
Proof. by destruct err. Qed.

Lemma mark_unanswered_lookup deps results name :
  mark_unanswered deps results !! name =
  match results !! name with
  | Some r => Some r
  | None => if bool_decide (name ∈ deps) then Some no_answer else None
  end.
Proof.
  revert results. induction deps as [|d deps IH]; intros results; simpl.
  { by destruct (results !! name). }
  unfold mark_unanswered in *. simpl. rewrite IH. destruct (results !! d) as [r|] eqn:Hd.
  - destruct (results !! name) as [r'|] eqn:Hn; [done|].
    assert (d <> name) by congruence.
    rewrite (bool_decide_ext (name ∈ d :: deps) (name ∈ deps)); [done|]. rewrite elem_of_cons. naive_solver.
  - destruct (decide (d = name)) as [->|Hne].
    + rewrite lookup_insert_eq, Hd. rewrite bool_decide_true by apply list_elem_of_here. done.
    + rewrite lookup_insert_ne by done. destruct (results !! name); [done|].
      rewrite (bool_decide_ext (name ∈ d :: deps) (name ∈ deps)); [done|]. rewrite elem_of_cons. naive_solver.
Qed.

(** As many answers as the loop waits for, or fewer. *)
Lemma collect_answers deps answers results n :
  (length answers <= n)%nat ->
  foldl (collect_one deps) (loop_head n results) ((fun a => Answer (fst a) (snd a)) <$> answers) =
  loop_head (n - length answers) (foldl (fun r a => <[fst a := answer_text (snd a)]> r) results answers).
Proof.
  revert n results. induction answers as [|[name err] answers IH]; intros n results Hn; simpl in *.
  { by rewrite Nat.sub_0_r. }
  destruct n as [|n]; [lia|]. simpl. apply IH. lia.
Qed.

(** When every dependency, under a name of its own, answers within the budget,
    readiness is 200 exactly when none fails. *)
Lemma ready_all_answered deps answers :
  NoDup deps -> answers.*1 ≡ₚ deps ->
  fst <$> ready deps ((fun a => Answer (fst a) (snd a)) <$> answers) = Some 200 <->
  Forall (fun a => snd a = None) answers.
Proof.
  intros Hnd Hperm. assert (NoDup answers.*1) as Hnd' by (by rewrite Hperm).
  assert (length deps = length answers) as Hlen by (rewrite <- Hperm; apply length_fmap).
  unfold ready, runChecks. rewrite collect_answers, Hlen, Nat.sub_diag by lia. 
  etrans; [apply code_200|]. rewrite Forall_forall. split.
  - intros H [name err] Hin. apply (elem_of_list_to_map_1 answers) in Hin; [|done].
    apply answer_text_ok. apply (H name). by rewrite foldl_insert_lookup, Hin.
  - intros H name r. rewrite foldl_insert_lookup by done.
    destruct (list_to_map answers !! name) as [err|] eqn:He; [|by rewrite lookup_empty].
    intros [= <-]. apply answer_text_ok. apply elem_of_list_to_map_2 in He. by apply (H (name, err)).
Qed.

(** Two dependencies of one name: the later answer hides the earlier failure. *)
Example ready_hides_failure :
  fst <$> ready ["db"; "db"] [Answer "db" (Some "down"); Answer "db" None] = Some 200.
Proof. reflexivity. Qed.

Lemma collect_returned deps results events :
  foldl (collect_one deps) (Returned results) events = Returned results.
Proof. by induction events. Qed.

(** A dependency that does not answer within the budget makes it 503. *)
Lemma ready_budget_over deps answers rest name :
  (length answers < length deps)%nat -> NoDup answers.*1 -> name ∈ deps -> (name ∉ answers.*1) ->
  fst <$> ready deps (((fun a => Answer (fst a) (snd a)) <$> answers) ++ BudgetOver :: rest) = Some 503.
Proof.
  intros Hlen Hnd Hin Hout. unfold ready, runChecks.
  rewrite foldl_app, collect_answers by lia. destruct (length deps - length answers)%nat eqn:Hn; [lia|].
  cbn [foldl loop_head collect_one]. rewrite collect_returned.
  set (results := mark_unanswered _ _).
  assert (results !! name = Some no_answer) as Hname.
  { unfold results. rewrite mark_unanswered_lookup, foldl_insert_lookup by done.
    by rewrite (not_elem_of_list_to_map_1 _ name), lookup_empty, bool_decide_true by done. }
  cbn [ready_reply fmap option_fmap option_map].
  destruct (forallb _ _) eqn:Hok; [|done]. rewrite all_ok_spec in Hok. by specialize (Hok _ _ Hname).
Qed.

(** ** Invariant of a request *)

Lemma run_snoc deps s events e :
  run deps s (events ++ [e]) = run deps s events ≫= fun s' => step deps s' e.
Proof.
  revert s. induction events as [|e' events IH]; intros s; simpl; [by destruct (step deps s e)|].
  destruct (step deps s e'); [apply IH|done].
Qed.

(** A result, or an element of the channel, comes from an answer of that name. *)
Definition answered (deps : list string) (events : list event) (d : string) (err : option string) : Prop :=
  exists i, deps !! i = Some d /\ Send i err ∈ events.

Definition results_from (deps : list string) (events : list event) (over : bool) (results : gmap string string) : Prop :=
  forall d r, results !! d = Some r ->
    (exists err, answered deps events d err /\ r = answer_text err) \/ (r = no_answer /\ over = true).

Definition has_entries (deps : list string) (results : gmap string string) : Prop :=
  forall d, d ∈ deps -> is_Some (results !! d).

(** The goroutines that sent are in the channel or in the results. *)
Definition accounted (deps : list string) (s : request) (results : gmap string string) : Prop :=
  forall i d, i ∈ sent s -> deps !! i = Some d -> d ∈ (ch s).*1 \/ is_Some (results !! d).

Record inv (deps : list string) (events : list event) (s : request) : Prop := {
  inv_sent : sent s ⊆ set_seq 0 (length deps);
  inv_ch : forall d err, (d, err) ∈ ch s -> answered deps events d err;
  inv_len : (length (ch s) <= size (sent s))%nat;
  inv_loop :
    match loop s with
    | Waiting n results =>
        (0 < n)%nat /\ (length (ch s) + length deps = size (sent s) + n)%nat /\
        accounted deps s results /\ results_from deps events false results
    | Returned results => has_entries deps results /\ results_from deps events (budget_over s) results
    end
}.

Lemma answered_snoc deps events e d err : answered deps events d err -> answered deps (events ++ [e]) d err.
Proof. intros (i & Hi & Hin). exists i. rewrite elem_of_app. auto. Qed.

Lemma results_from_mono deps events e over over' results :
  results_from deps events over results -> (over = true -> over' = true) ->
  results_from deps (events ++ [e]) over' results.
Proof.
  intros H Hover d r Hr. destruct (H d r Hr) as [(err & Ha & ->)|[-> Ho]]; [left|right; auto].
  exists err. split; [by apply answered_snoc|done].
Qed.

Lemma results_from_answer deps events results d err :
  results_from deps events false results -> answered deps events d err ->
  results_from deps events false (<[d := answer_text err]> results).
Proof.
  intros H Ha d' r Hr. destruct (decide (d = d')) as [<-|Hne].
  - rewrite lookup_insert_eq in Hr. simplify_eq. eauto.
  - rewrite lookup_insert_ne in Hr by done. auto.
Qed.

Lemma results_from_marked deps events results :
  results_from deps events false results -> results_from deps events true (mark_unanswered deps results).
Proof.
  intros H d r. rewrite mark_unanswered_lookup. destruct (results !! d) as [r'|] eqn:Hd.
  - intros [= <-]. destruct (H d r' Hd) as [?|[_ ?]]; [by left|done].
  - case_bool_decide; intros [= <-]. auto.
Qed.

Lemma has_entries_marked deps results : has_entries deps (mark_unanswered deps results).
Proof.
  intros d Hd. rewrite mark_unanswered_lookup. destruct (results !! d); [by eexists|].
  rewrite bool_decide_true by done. by eexists.
Qed.

Lemma sent_bound deps events s : inv deps events s -> (size (sent s) <= length deps)%nat.
Proof.
  intros [Hs _ _ _]. apply subseteq_size in Hs. rewrite size_set_seq in Hs. done.
Qed.

(** A goroutine that has not sent yet finds room in the channel. *)
Lemma sent_room deps events s i :
  inv deps events s -> (i < length deps)%nat -> i ∉ sent s ->
  (size (sent s) < length deps)%nat /\ (length (ch s) < length deps)%nat.
Proof.
  intros Hinv Hi Hn. assert (size (sent s) < length deps)%nat as Hlt; [|pose proof (inv_len _ _ _ Hinv); lia].
  destruct Hinv as [Hs _ _ _].
  assert (sent s ⊂ set_seq 0 (length deps)) as Hsub.
  { split; [done|]. intros Hsub. apply Hn, Hsub. rewrite elem_of_set_seq. lia. }
  apply subset_size in Hsub. by rewrite size_set_seq in Hsub.
Qed.

(** When every goroutine has sent, [sent] is all of them. *)
Lemma sent_all deps events s i :
  inv deps events s -> size (sent s) = length deps -> (i < length deps)%nat -> i ∈ sent s.
Proof.
  intros Hinv Hsz Hi. destruct (decide (i ∈ sent s)) as [?|Hn]; [done|].
  destruct (sent_room _ _ _ _ Hinv Hi Hn); lia.
Qed.

Lemma inv_new deps : inv deps [] (new_request deps).
Proof.
  unfold new_request. split; cbn [sent ch loop budget_over length]; [set_solver|set_solver|lia|].
  destruct (length deps) eqn:Hn; cbn [loop_head].
  - apply nil_length_inv in Hn as ->. split; [intros d Hd; set_solver|intros d r Hr; by rewrite lookup_empty in Hr].
  - rewrite size_empty. split_and!; [lia|lia|intros i d Hi; set_solver|intros d r Hr; by rewrite lookup_empty in Hr].
Qed.

Lemma inv_send deps events s i err s' :
  inv deps events s -> step deps s (Send i err) = Some s' -> inv deps (events ++ [Send i err]) s'.
Proof.
  intros Hinv Hstep. simpl in Hstep. destruct (deps !! i) as [d|] eqn:Hd; [|done].
  destruct (bool_decide _ && _) eqn:Hg; [|done]. simplify_eq.
  apply andb_true_iff in Hg as [Hi _]. apply bool_decide_eq_true in Hi.
  destruct Hinv as [Hs Hch Hlen Hloop].
  assert (size ({[i]} ∪ sent s) = S (size (sent s))) as Hsz.
  { rewrite size_union by set_solver. by rewrite size_singleton. }
  assert (forall x, x ∈ ch s ++ [(d, err)] -> answered deps (events ++ [Send i err]) (fst x) (snd x)) as Hch'.
  { intros [d' err'] [Hx| ->%list_elem_of_singleton]%elem_of_app.
    - apply answered_snoc. by apply Hch.
    - exists i. split; [done|]. apply elem_of_app. right. by apply list_elem_of_singleton. }
  split; simpl.
  - apply union_subseteq. split; [|done]. apply lookup_lt_Some in Hd.
    intros j ->%elem_of_singleton. apply elem_of_set_seq. lia.
  - intros d' err' Hx. apply (Hch' _ Hx).
  - rewrite length_app, Hsz. simpl. lia.
  - destruct (loop s) as [n results|results].
    + destruct Hloop as (Hn & Hcount & Hacc & Hres). rewrite length_app, Hsz. simpl.
      split_and!; [done|lia| |by eapply results_from_mono].
      intros j dj. cbn [ch sent]. rewrite fmap_app. intros [->%elem_of_singleton|Hj]%elem_of_union Hdj.
      * left. simplify_eq. set_solver.
      * destruct (Hacc j dj Hj Hdj) as [?|?]; [left; set_solver|by right].
    + destruct Hloop as [Hent Hres]. split; [done|]. by eapply results_from_mono.
Qed.

Lemma inv_receive deps events s s' :
  inv deps events s -> step deps s Receive = Some s' -> inv deps (events ++ [Receive]) s'.
Proof.
  intros Hinv Hstep. pose proof (sent_bound _ _ _ Hinv) as Hb.
  pose proof (sent_all deps events s) as Hall. destruct Hinv as [Hs Hch Hlen Hloop].
  simpl in Hstep. destruct (loop s) as [n results|] eqn:Hl; [|done].
  destruct (ch s) as [|[d err] rest] eqn:Hc; [done|]. simplify_eq.
  destruct Hloop as (Hn & Hcount & Hacc & Hres). simpl in *.
  assert (answered deps events d err) as Ha by (apply Hch; set_solver).
  pose proof (results_from_answer _ _ _ _ _ Hres Ha) as Hres'.
  assert (forall i di, i ∈ sent s -> deps !! i = Some di ->
            di ∈ rest.*1 \/ is_Some (<[d := answer_text err]> results !! di)) as Hacc'.
  { intros i di Hi Hdi. destruct (decide (d = di)) as [<-|Hne]; [right; rewrite lookup_insert_eq; by eexists|].
    destruct (Hacc i di Hi Hdi) as [Hin|?]; [|right; by rewrite lookup_insert_ne].
    rewrite Hc in Hin. left. set_solver. }
  split; simpl.
  - done.
  - intros d' err' Hx. apply answered_snoc, Hch. set_solver.
  - lia.
  - destruct n as [|[|n]]; [lia| |]; simpl.
    + split; [|by eapply results_from_mono]. intros d' [i Hi]%list_elem_of_lookup.
      assert (i ∈ sent s) as Hsi.
      { apply Hall; [by split; rewrite ?Hl, ?Hc|lia|by eapply lookup_lt_Some]. }
      destruct (Hacc' i d' Hsi Hi) as [Hin|?]; [|done].
      destruct rest; simpl in *; [by apply not_elem_of_nil in Hin|lia].
    + split_and!; [lia|lia|done|by eapply results_from_mono].
Qed.

Lemma inv_step deps events s e s' :
  inv deps events s -> step deps s e = Some s' -> inv deps (events ++ [e]) s'.
Proof.
  destruct e as [i err| | |]; [apply inv_send|apply inv_receive| |];
    intros [Hs Hch Hlen Hloop] Hstep; simpl in Hstep.
  - destruct (loop s) as [n results|]; [|done]. destruct (budget_over s); [|done]. simplify_eq.
    split; simpl; [done|intros; by apply answered_snoc, Hch|done|].
    destruct Hloop as (_ & _ & _ & Hres). split; [apply has_entries_marked|].
    eapply results_from_mono; [by apply results_from_marked|done].
  - destruct (budget_over s) eqn:Ho; [done|]. simplify_eq.
    split; simpl; [done|intros; by apply answered_snoc, Hch|done|]. destruct (loop s) as [n results|results].
    + destruct Hloop as (? & ? & ? & Hres). split_and!; [done..|]. by eapply results_from_mono.
    + destruct Hloop as [? Hres]. split; [done|]. by eapply results_from_mono.
Qed.

Lemma inv_run deps events s : run deps (new_request deps) events = Some s -> inv deps events s.
Proof.
  revert s. induction events as [|e events IH] using rev_ind; intros s.
  { intros [= <-]. apply inv_new. }
  rewrite run_snoc. destruct (run _ _ events) as [s'|]; [|done]. simpl. intros Hstep.
  eapply inv_step; eauto.
Qed.

(** ** Termination *)

(** What is left to do: sends, receives, the end of the budget and the return. *)
Definition left_to_do (deps : list string) (s : request) : nat :=
  (length deps - size (sent s)) +
  (match loop s with Waiting n _ => S n | Returned _ => 0 end) +
  (if budget_over s then 0 else 1).

Lemma step_decreases deps events s e s' :
  inv deps events s -> step deps s e = Some s' -> (left_to_do deps s' < left_to_do deps s)%nat.
Proof.
  intros Hinv Hstep. pose proof (inv_loop _ _ _ Hinv) as Hloop. unfold left_to_do.
  destruct e as [i err| | |]; simpl in Hstep.
  - destruct (deps !! i) as [d|] eqn:Hd; [|done]. destruct (bool_decide _ && _) eqn:Hg; [|done]. simplify_eq. simpl.
    apply andb_true_iff in Hg as [Hi _]. apply bool_decide_eq_true in Hi. apply lookup_lt_Some in Hd.
    destruct (sent_room _ _ _ _ Hinv Hd Hi) as [Hlt _].
    rewrite size_union, size_singleton by set_solver. lia.
  - destruct (loop s) as [n results|]; [|done]. destruct (ch s) as [|[d err] rest]; [done|]. simplify_eq. simpl.
    destruct n as [|[|n]]; simpl in *; lia.
  - destruct (loop s) as [n results|]; [|done]. destruct (budget_over s) eqn:?; [|done]. simplify_eq. simpl. lia.
  - destruct (budget_over s) eqn:?; [done|]. simplify_eq. simpl. lia.
Qed.

Lemma run_length deps events s :
  run deps (new_request deps) events = Some s -> (length events + left_to_do deps s <= 2 * length deps + 2)%nat.
Proof.
  revert s. induction events as [|e events IH] using rev_ind; intros s.
  { intros [= <-]. unfold left_to_do, new_request. cbn [sent loop budget_over]. rewrite size_empty.
    destruct (length deps); simpl; lia. }
  rewrite run_snoc. destruct (run _ _ events) as [s'|] eqn:Hr; [|done]. simpl. intros Hstep.
  pose proof (step_decreases _ _ _ _ _ (inv_run _ _ _ Hr) Hstep). specialize (IH _ eq_refl).
  rewrite length_app. simpl. lia.
Qed.

Lemma loop_can_move deps events s n results :
  inv deps events s -> loop s = Waiting n results ->
  budget_over s = true \/ (forall i, (i < length deps)%nat -> i ∈ sent s) ->
  is_Some (step deps s Receive) \/ is_Some (step deps s Timeout).
Proof.
  intros Hinv Hl [Ho|Hall]; simpl; rewrite Hl.
  - right. rewrite Ho. by eexists.
  - left. destruct (ch s) as [|[d err] rest] eqn:Hc; [|by eexists]. exfalso.
    destruct Hinv as [Hs _ _ Hloop]. rewrite Hl, Hc in Hloop. destruct Hloop as (Hn & Hcount & _). simpl in *.
    assert (length deps <= size (sent s))%nat; [|lia].
    rewrite <- (size_set_seq (C := gset nat) 0 (length deps)). apply subseteq_size.
    intros i Hi. apply elem_of_set_seq in Hi. apply Hall. lia.
Qed.

Lemma send_never_blocks deps events s i err :
  inv deps events s -> (i < length deps)%nat -> i ∉ sent s -> is_Some (step deps s (Send i err)).
Proof.
  intros Hinv Hi Hn. destruct (sent_room _ _ _ _ Hinv Hi Hn) as [_ Hroom].
  apply lookup_lt_is_Some in Hi as [d Hd]. simpl.
  rewrite Hd, bool_decide_true, (proj2 (Nat.ltb_lt _ _)) by done. by eexists.
Qed.

Lemma reply_200_sound deps events s d :
  inv deps events s -> code_of (loop s) = Some 200 -> d ∈ deps -> answered deps events d None.
Proof.
  intros Hinv Hcode Hd. pose proof (inv_loop _ _ _ Hinv) as Hloop. destruct (loop s) as [n results|results]; [done|].
  destruct Hloop as [Hent Hres]. destruct (Hent d Hd) as [r Hr].
  pose proof (proj1 (code_200 results) Hcode d r Hr) as ->.
  destruct (Hres d "ok" Hr) as [(err & Ha & Herr)|[Hno _]]; [|done].
  symmetry in Herr. apply answer_text_ok in Herr as ->. done.
Qed.

Lemma reply_200_complete deps events s results :
  inv deps events s -> loop s = Returned results -> budget_over s = false ->
  (forall i err, Send i err ∈ events -> err = None) -> code_of (loop s) = Some 200.
Proof.
  intros Hinv Hl Ho Hok. pose proof (inv_loop _ _ _ Hinv) as Hloop. rewrite Hl in Hloop |- *.
  apply code_200. intros d r Hr. destruct Hloop as [_ Hres].
  destruct (Hres d r Hr) as [(err & (i & _ & Hin) & ->)|[_ ?]]; [|congruence].
  by rewrite (Hok i err Hin).
Qed.

(** C38: a readiness request ends: whatever the checks do, one of [n] dependencies takes at
    most [2n + 2] steps; once the budget is over, or all checks answered, the
    handler can go on until it has returned, and no goroutine of a check is ever
    blocked on its send, not even after the return. What it has returned then has
    an entry for every dependency; the code is 200 only if each name was answered
    without an error, and it is 200 if no answer was an error and the budget
    lasted. *)
Theorem readiness_terminates deps events s :
  run deps (new_request deps) events = Some s ->
  (length events <= 2 * length deps + 2)%nat /\
  (forall i err, (i < length deps)%nat -> i ∉ sent s -> is_Some (step deps s (Send i err))) /\
  match loop s with
  | Waiting _ _ =>
      budget_over s = true \/ (forall i, (i < length deps)%nat -> i ∈ sent s) ->
      is_Some (step deps s Receive) \/ is_Some (step deps s Timeout)
  | Returned results =>
      has_entries deps results /\
      (code_of (loop s) = Some 200 -> forall d, d ∈ deps -> answered deps events d None) /\
      (budget_over s = false -> (forall i err, Send i err ∈ events -> err = None) ->
       code_of (loop s) = Some 200)
  end.
Proof.
  intros Hrun. pose proof (inv_run _ _ _ Hrun) as Hinv. pose proof (run_length _ _ _ Hrun).
  split_and!; [lia|intros; by eapply send_never_blocks|].
  destruct (loop s) as [n results|results] eqn:Hl; [by eapply loop_can_move|].
  pose proof (inv_loop _ _ _ Hinv) as Hloop. rewrite Hl in Hloop. rewrite <- Hl.
  split_and!; [apply Hloop|intros Hc d Hd; by eapply reply_200_sound|intros Ho Hok; eapply reply_200_complete; eauto].
Qed.

(** The second check hangs: after the budget the reply is 503, and the check that
    answers late still sends. *)
Definition hanging_check : list event :=
  [Send 0 None; Receive; Expire; Timeout; Send 1 None].

Lemma readiness_terminates_witness :
  exists s, run ["db"; "nats"] (new_request ["db"; "nats"]) hanging_check = Some s /\
    (length hanging_check <= 6)%nat /\ code_of (loop s) = Some 503 /\
    (code_of (loop s) = Some 200 -> answered ["db"; "nats"] hanging_check "nats" None).
Proof.
  eexists. split; [reflexivity|].
  destruct (readiness_terminates ["db"; "nats"] hanging_check _ eq_refl) as (Hlen & _ & Hend).
  split_and!; [exact Hlen|reflexivity|]. intros H200. apply Hend; [exact H200|].
  by apply (bool_decide_unpack ("nats" ∈ ["db"; "nats"])).
Defined.
