(* ===== verification/RateLimit.v ===== *)
(** * Rate limiting (src/middleware/ratelimit.go)

    Limiters by client and by endpoint, with the goroutines that clean them up. The
    token bucket itself is golang.org/x/time/rate: the class [Limiter] holds its
    two calls and [LimiterLaws] what is documented of them. *)

From S2P Require Import Prelude GoFloat.
From Stdlib Require Import Floats.SpecFloat QArith Qminmax Lqa.
#[local] Open Scope Z_scope.

(** ** The library's limiter *)

Class Limiter := {
  limiter : Type;
  NewLimiter : f64 -> Z -> limiter;
  (** [Allow] at a time *)
  Allow : Z -> limiter -> limiter * bool
}.

(** The events per second of a rate; none for a negative one. *)
Definition f64_value (f : f64) : Q :=
  match f with
  | S754_finite s m e => if s then - pos_val m e else pos_val m e
  | _ => 0
  end%Q.

Definition rate_value (f : f64) : Q := Qmax 0 (f64_value f).

Definition finite_rate (f : f64) : bool :=
  match f with S754_infinity _ | S754_nan => false | _ => true end.

(** The seconds from one time to another. *)
Definition seconds (t t' : Z) : Q := (inject_Z (t' - t) / inject_Z Second)%Q.

(** A limiter is a bucket of tokens that starts with [burst] of them at most and gains
    them at its rate; an event that is allowed takes one. *)
Class LimiterLaws `{Limiter} := {
  level : limiter -> Z -> Q;
  level_rate : limiter -> Q;
  level_nonneg l t : (0 <= level l t)%Q;
  new_rate r b : finite_rate r = true -> level_rate (NewLimiter r b) = rate_value r;
  new_level r b t : 0 <= b -> (level (NewLimiter r b) t <= inject_Z b)%Q;
  level_grows l t t' : t <= t' -> (level l t' <= level l t + level_rate l * seconds t t')%Q;
  allow_rate t l : level_rate (fst (Allow t l)) = level_rate l;
  allow_level t l : (level (fst (Allow t l)) t + inject_Z (b2z (snd (Allow t l))) <= level l t)%Q
}.

Section ratelimit.
Context `{Limiter}.

Record RateLimiter := { limiters : gmap string limiter; rate : f64; burst : Z }.

Definition NewRateLimiter (requestsPerSecond b : Z) : RateLimiter :=
  {| limiters := ∅; rate := f64_of_int requestsPerSecond; burst := b |}.

(** The limiter of a key, created and kept on first use. *)
Definition getLimiter (key : string) (rl : RateLimiter) : RateLimiter * limiter :=
  match limiters rl !! key with
  | Some l => (rl, l)
  | None =>
      let l := NewLimiter (rate rl) (burst rl) in
      ({| limiters := <[key := l]> (limiters rl); rate := rate rl; burst := burst rl |}, l)
  end.

(** One request: the limiter is shared, so its new state is seen in the map. *)
Definition RateLimit (now : Z) (ip : string) (rl : RateLimiter) : RateLimiter * bool :=
  let '(rl, l) := getLimiter ip rl in
  let '(l, ok) := Allow now l in
  ({| limiters := <[ip := l]> (limiters rl); rate := rate rl; burst := burst rl |}, ok).

(** One round of [CleanupLimiters]: every client starts afresh. *)
Definition cleanup (rl : RateLimiter) : RateLimiter :=
  {| limiters := ∅; rate := rate rl; burst := burst rl |}.

(** What happens to one limiter: requests of clients and rounds of the clean-up, each
    at its time. A request takes its bucket and asks it in one step. *)
Inductive occurrence := Request (now : Z) (ip : string) | CleanUp (now : Z).

Definition occurs_at (o : occurrence) : Z := match o with Request now _ => now | CleanUp now => now end.

(** How many requests of a client are allowed. *)
Fixpoint allowed (ip : string) (os : list occurrence) (rl : RateLimiter) : Z :=
  match os with
  | [] => 0
  | Request now ip' :: os =>
      let '(rl, ok) := RateLimit now ip' rl in
      b2z (ok && bool_decide (ip' = ip)) + allowed ip os rl
  | CleanUp _ :: os => allowed ip os (cleanup rl)
  end.

(** The times do not go back, from [t0] to [t1]. *)
Fixpoint in_order (t0 t1 : Z) (os : list occurrence) : Prop :=
  match os with [] => t0 <= t1 | o :: os => t0 <= occurs_at o /\ in_order (occurs_at o) t1 os end.

Definition clean_ups (os : list occurrence) : Z :=
  countb (fun o => match o with CleanUp _ => true | _ => false end) os.

(** ** Limiters by endpoint

    [RateLimiter]s are shared by their address: [objects] holds them with whether
    their channel [done] is closed, [endpoints] is the map of the endpoints, and
    [cleaners] has the object of each goroutine of [CleanupLimiters] that runs. *)

Definition rps (requestsPerMinute : Z) : f64 :=
  let rps := f64_div (f64_of_int requestsPerMinute) (f64_of_int 60) in
  let least := f64_div (f64_of_int 1) (f64_of_int 10) in
  if f64_lt rps least then least else rps.

Record EndpointRateLimiter := {
  objects : gmap nat (RateLimiter * bool);
  endpoints : gmap string nat;
  cleaners : list nat
}.

Definition NewEndpointRateLimiter : EndpointRateLimiter :=
  {| objects := ∅; endpoints := ∅; cleaners := [] |}.

Definition CleanupLimiters (o : nat) (w : EndpointRateLimiter) : EndpointRateLimiter :=
  {| objects := objects w; endpoints := endpoints w; cleaners := o :: cleaners w |}.

Definition set_object (o : nat) (rl : RateLimiter) (closed : bool) (w : EndpointRateLimiter) : EndpointRateLimiter :=
  {| objects := <[o := (rl, closed)]> (objects w); endpoints := endpoints w; cleaners := cleaners w |}.

(** One tick of the clean-up of an object, and its end once the channel is closed. *)
Definition tick (o : nat) (w : EndpointRateLimiter) : EndpointRateLimiter :=
  match objects w !! o with
  | Some (rl, closed) => if bool_decide (o ∈ cleaners w) then set_object o (cleanup rl) closed w else w
  | None => w
  end.

Definition leave (o : nat) (w : EndpointRateLimiter) : EndpointRateLimiter :=
  match objects w !! o with
  | Some (_, true) =>
      {| objects := objects w; endpoints := endpoints w; cleaners := filter (fun o' => o' <> o) (cleaners w) |}
  | _ => w
  end.

(** A new object, its clean-up, and the entry of the endpoint. *)
Definition Configure (endpoint : string) (requestsPerMinute b : Z) (w : EndpointRateLimiter) : EndpointRateLimiter :=
  let o := fresh (dom (objects w)) in
  let w := CleanupLimiters o (set_object o {| limiters := ∅; rate := rps requestsPerMinute; burst := b |} false w) in
  {| objects := objects w; endpoints := <[endpoint := o]> (endpoints w); cleaners := cleaners w |}.

(** The request on the object that was looked up, wherever the map points by then. *)
Definition serve_object (now : Z) (ip : string) (o : nat) (w : EndpointRateLimiter) : EndpointRateLimiter * bool :=
  match objects w !! o with
  | Some (rl, closed) => let '(rl, ok) := RateLimit now ip rl in (set_object o rl closed w, ok)
  | None => (w, true)
  end.

(** [Limit] in the steps that other requests can come between: the look-up, the
    configuration when nothing was found and the second look-up, the bucket. *)
Definition look_up (endpoint : string) (w : EndpointRateLimiter) : option nat := endpoints w !! endpoint.

Definition configure_default (endpoint : string) (defaultRPM : Z) (w : EndpointRateLimiter) : EndpointRateLimiter :=
  Configure endpoint defaultRPM (wrap64 (Z.quot defaultRPM 10 + 1)) w.

Definition Limit (now : Z) (endpoint : string) (defaultRPM : Z) (ip : string) (w : EndpointRateLimiter)
    : EndpointRateLimiter * bool :=
  let '(w, o) :=
    match look_up endpoint w with
    | Some o => (w, Some o)
    | None => let w := configure_default endpoint defaultRPM w in (w, look_up endpoint w)
    end in
  match o with Some o => serve_object now ip o w | None => (w, true) end.

(** [close(rl.done)] panics when the channel is closed already. *)
Definition Shutdown_object (o : nat) (w : EndpointRateLimiter) : panics EndpointRateLimiter :=
  match objects w !! o with
  | Some (rl, false) => Returns (set_object o rl true w)
  | _ => Panics (ErrMsg "close of closed channel")
  end.

(** The objects of the map, in the order in which it is ranged over. *)
Fixpoint shutdown_all (os : list nat) (w : EndpointRateLimiter) : panics EndpointRateLimiter :=
  match os with
  | [] => Returns w
  | o :: os => match Shutdown_object o w with Returns w => shutdown_all os w | Panics e => Panics e end
  end.

Definition Shutdown (w : EndpointRateLimiter) : panics EndpointRateLimiter :=
  shutdown_all ((map_to_list (endpoints w)).*2) w.

Definition PaymentRateLimiter : EndpointRateLimiter :=
  Configure "/api/v1/payment/webhook" 100 20
  (Configure "/api/v1/payment/curlec/verify" 10 3
  (Configure "/api/v1/payment/curlec/initiate" 3 1
  (Configure "/api/v1/payment/process" 5 2 NewEndpointRateLimiter))).

(** The answers to the requests of one client among those of many. *)
Fixpoint serve (reqs : list (Z * string)) (rl : RateLimiter) : RateLimiter * list (string * bool) :=
  match reqs with
  | [] => (rl, [])
  | (now, ip) :: reqs =>
      let '(rl, ok) := RateLimit now ip rl in
      let '(rl, oks) := serve reqs rl in (rl, (ip, ok) :: oks)
  end.

(** A bucket alone. *)
Fixpoint allow_all (times : list Z) (l : limiter) : list bool :=
  match times with
  | [] => []
  | t :: times => let '(l, ok) := Allow t l in ok :: allow_all times l
  end.

(** ** Lemmas *)

(** Clients do not influence each other: a client is answered as by a bucket of
    its own that sees only its requests. *)
Lemma serve_isolated reqs rl ip :
  (filter (fun a => fst a = ip) (snd (serve reqs rl))).*2 =
  allow_all ((filter (fun r => snd r = ip) reqs).*1)
    (default (NewLimiter (rate rl) (burst rl)) (limiters rl !! ip)).
Proof.
  revert rl. induction reqs as [|[now ip'] reqs IH]; intros rl; [done|]. cbn [serve].
  unfold RateLimit, getLimiter. 
  set (l := default (NewLimiter (rate rl) (burst rl)) (limiters rl !! ip')).
  assert ((match limiters rl !! ip' with
    | Some l => (rl, l)
    | None => ({| limiters := <[ip' := NewLimiter (rate rl) (burst rl)]> (limiters rl);
                  rate := rate rl; burst := burst rl |}, NewLimiter (rate rl) (burst rl))
    end) = ({| limiters := <[ip' := l]> (limiters rl); rate := rate rl; burst := burst rl |}, l)) as ->.
  { subst l. destruct (limiters rl !! ip') eqn:Hl; [|done]. simpl. 
    rewrite insert_id by done. by destruct rl. }
  destruct (Allow now l) as [l' ok] eqn:Ha. cbn [limiters rate burst].
  specialize (IH {| limiters := <[ip':=l']> (<[ip':=l]> (limiters rl)); rate := rate rl; burst := burst rl |}).
  destruct (serve reqs _) as [rl' oks]. cbn [snd fst rate burst limiters] in *.
  destruct (decide (ip' = ip)) as [->|Hne].
  - rewrite (filter_cons_True _ (ip, ok)), (filter_cons_True _ (now, ip)) by done.
    rewrite !fmap_cons. cbn [snd fst allow_all]. fold l. rewrite Ha.
    rewrite lookup_insert_eq in IH. cbn [default] in IH. by f_equal.
  - rewrite (filter_cons_False _ (ip', ok)), (filter_cons_False _ (now, ip')) by done.
    rewrite !lookup_insert_ne in IH by done. done.
Qed.

(** *** How many requests a client gets *)

(** The bucket of a client. *)
Definition bucket_of (ip : string) (rl : RateLimiter) : limiter :=
  default (NewLimiter (rate rl) (burst rl)) (limiters rl !! ip).

Lemma RateLimit_spec now ip rl :
  let '(l, ok) := Allow now (bucket_of ip rl) in
  RateLimit now ip rl =
  ({| limiters := <[ip := l]> (limiters rl); rate := rate rl; burst := burst rl |}, ok).
Proof.
  unfold RateLimit, getLimiter, bucket_of. destruct (limiters rl !! ip) as [l|] eqn:Hl; simpl.
  - by destruct (Allow now l).
  - destruct (Allow now _). by rewrite insert_insert_eq.
Qed.

Lemma in_order_le t0 t1 os : in_order t0 t1 os -> t0 <= t1.
Proof. revert t0. induction os as [|o os IH]; intros t0; simpl; [done|]. intros [? ?%IH]. lia. Qed.

Lemma seconds_add t0 t t1 : (seconds t0 t + seconds t t1 == seconds t0 t1)%Q.
Proof.
  unfold seconds. replace (t1 - t0) with ((t - t0) + (t1 - t)) by lia. rewrite inject_Z_plus. field. done.
Qed.

Lemma rate_value_nonneg f : (0 <= rate_value f)%Q.
Proof. apply Q.le_max_l. Qed.

Lemma allowed_level `{!LimiterLaws} ip os rl t0 t1 :
  finite_rate (rate rl) = true -> 0 <= burst rl -> in_order t0 t1 os ->
  level_rate (bucket_of ip rl) = rate_value (rate rl) ->
  (inject_Z (allowed ip os rl) <=
     level (bucket_of ip rl) t0 + inject_Z (burst rl * clean_ups os) + rate_value (rate rl) * seconds t0 t1)%Q.
Proof.
  intros Hfin Hb. revert rl t0 Hfin Hb. induction os as [|o os IH]; intros rl t0 Hfin Hb Ho Hr; cbn [allowed].
  { cbn [in_order] in Ho. pose proof (level_grows (bucket_of ip rl) t0 t1 Ho) as Hg. pose proof (level_nonneg (bucket_of ip rl) t1).
    rewrite Hr in Hg. unfold clean_ups. simpl countb. rewrite Z.mul_0_r. change (inject_Z 0) with 0%Q. lra. }
  destruct Ho as [Ht Ho]. destruct o as [now ip'|now]; cbn [occurs_at] in Ht, Ho.
  - pose proof (level_grows (bucket_of ip rl) t0 now Ht) as Hg. rewrite Hr in Hg.
    pose proof (seconds_add t0 now t1) as Hs. pose proof (RateLimit_spec now ip' rl) as Hq.
    pose proof (allow_level now (bucket_of ip' rl)) as Hl. pose proof (allow_rate now (bucket_of ip' rl)) as Hlr.
    destruct (Allow now (bucket_of ip' rl)) as [l ok]. rewrite Hq. cbn [fst snd] in Hl, Hlr.
    set (rl' := {| limiters := _; rate := _; burst := _ |}).
    change (clean_ups (Request now ip' :: os)) with (clean_ups os).
    rewrite inject_Z_plus. rewrite <- Hs, Qmult_plus_distr_r.
    destruct (decide (ip' = ip)) as [->|Hne].
    + assert (bucket_of ip rl' = l) as Hbk by (unfold bucket_of, rl'; cbn [limiters]; by rewrite lookup_insert_eq).
      specialize (IH rl' now Hfin Hb Ho). rewrite Hbk in IH. specialize (IH ltac:(by rewrite Hlr, Hr)).
      cbn [rate burst rl'] in IH. rewrite bool_decide_true, andb_true_r by done. lra.
    + assert (bucket_of ip rl' = bucket_of ip rl) as Hbk
        by (unfold bucket_of, rl'; cbn [limiters rate burst]; by rewrite lookup_insert_ne).
      specialize (IH rl' now Hfin Hb Ho). rewrite Hbk in IH. specialize (IH Hr).
      cbn [rate burst rl'] in IH. rewrite bool_decide_false, andb_false_r by done. change (inject_Z (b2z false)) with 0%Q. lra.
  - assert (bucket_of ip (cleanup rl) = NewLimiter (rate rl) (burst rl)) as Hbk by done.
    specialize (IH (cleanup rl) now Hfin Hb Ho). rewrite Hbk in IH. specialize (IH (new_rate _ _ Hfin)).
    cbn [rate burst cleanup] in IH. pose proof (new_level (rate rl) (burst rl) now Hb) as Hn.
    pose proof (level_nonneg (bucket_of ip rl) t0). pose proof (seconds_add t0 now t1) as Hs.
    rewrite <- Hs, Qmult_plus_distr_r.
    assert (0 <= rate_value (rate rl) * seconds t0 now)%Q as Hp.
    { apply Qmult_le_0_compat; [apply rate_value_nonneg|]. unfold seconds. apply Qle_shift_div_l; [done|].
      rewrite Qmult_0_l. change 0%Q with (inject_Z 0). rewrite <- Zle_Qle. lia. }
    replace (burst rl * clean_ups (CleanUp now :: os)) with (burst rl + burst rl * clean_ups os) by (unfold clean_ups; simpl; lia).
    rewrite inject_Z_plus. lra.
Qed.

(** C39: Whatever the other clients do, a client of a new limiter is allowed at most
    [burst] requests, [burst] more for each round of the clean-up, and the rate
    times the time that passed. *)
Theorem rate_bounded `{!LimiterLaws} r b ip os t0 t1 :
  finite_rate r = true -> 0 <= b -> in_order t0 t1 os ->
  (inject_Z (allowed ip os {| limiters := ∅; rate := r; burst := b |}) <=
     inject_Z (b * (1 + clean_ups os)) + rate_value r * seconds t0 t1)%Q.
Proof.
  intros Hfin Hb Ho. set (rl := {| limiters := ∅; rate := r; burst := b |}).
  pose proof (allowed_level ip os rl t0 t1 Hfin Hb Ho (new_rate r b Hfin)) as Ha.
  assert (level (bucket_of ip rl) t0 <= inject_Z b)%Q as Hn by (apply new_level, Hb). cbn [rate burst rl] in Ha.
  replace (b * (1 + clean_ups os)) with (b + b * clean_ups os) by lia. rewrite inject_Z_plus. lra.
Qed.

(** *** Limiters by endpoint *)

(** The endpoints have objects of their own, with open channels. *)
Definition endpoints_open (w : EndpointRateLimiter) : Prop :=
  (forall e o, endpoints w !! e = Some o -> exists rl, objects w !! o = Some (rl, false)) /\
  (forall e e' o, endpoints w !! e = Some o -> endpoints w !! e' = Some o -> e = e').

Lemma NewEndpointRateLimiter_open : endpoints_open NewEndpointRateLimiter.
Proof. split; intros e *; simpl; by rewrite lookup_empty. Qed.

Lemma Configure_open e rpm b w : endpoints_open w -> endpoints_open (Configure e rpm b w).
Proof.
  intros [Ho Hi]. unfold Configure. cbn [CleanupLimiters set_object objects endpoints cleaners].
  set (o := fresh (dom (objects w))).
  assert (objects w !! o = None) as Hn by (apply not_elem_of_dom, is_fresh).
  assert (forall e', endpoints w !! e' <> Some o) as Hno by (intros e' He'; destruct (Ho _ _ He') as [rl Hrl]; congruence).
  split; cbn [objects endpoints].
  - intros e' o'. destruct (decide (e = e')) as [<-|Hne].
    + rewrite lookup_insert_eq. intros [= <-]. rewrite lookup_insert_eq. eauto.
    + rewrite lookup_insert_ne by done. intros He'. destruct (Ho _ _ He') as [rl Hrl].
      rewrite lookup_insert_ne by congruence. eauto.
  - intros e1 e2 o'. destruct (decide (e = e1)) as [<-|H1], (decide (e = e2)) as [<-|H2];
      rewrite ?lookup_insert_eq, ?lookup_insert_ne by done; try done.
    + intros [= <-] He2. by destruct (Hno e2).
    + intros He1 [= <-]. by destruct (Hno e1).
    + apply Hi.
Qed.

Lemma serve_object_open now ip o w : endpoints_open w -> endpoints_open (fst (serve_object now ip o w)).
Proof.
  intros [Ho Hi]. unfold serve_object. destruct (objects w !! o) as [[rl closed]|] eqn:Hw; [|done].
  destruct (RateLimit now ip rl) as [rl' ok]. split; [|apply Hi]. cbn [fst set_object objects endpoints].
  intros e o' He. destruct (Ho e o' He) as [rl0 Hrl]. destruct (decide (o = o')) as [<-|Hne].
  - rewrite lookup_insert_eq. simplify_eq. eauto.
  - rewrite lookup_insert_ne by done. eauto.
Qed.

Lemma Limit_open now e rpm ip w : endpoints_open w -> endpoints_open (fst (Limit now e rpm ip w)).
Proof.
  intros Hw. unfold Limit. destruct (look_up e w) as [o|]; [by apply serve_object_open|].
  pose proof (Configure_open e rpm (wrap64 (Z.quot rpm 10 + 1)) w Hw) as Hc.
  change (Configure e rpm _ w) with (configure_default e rpm w) in Hc.
  destruct (look_up e (configure_default e rpm w)); [by apply serve_object_open|done].
Qed.

(** Objects that are open and different are closed one after another. *)
Lemma shutdown_all_spec os w :
  NoDup os -> (forall o, o ∈ os -> exists rl, objects w !! o = Some (rl, false)) ->
  exists w', shutdown_all os w = Returns w' /\ endpoints w' = endpoints w /\ cleaners w' = cleaners w /\
    (forall o, o ∈ os -> exists rl, objects w' !! o = Some (rl, true)) /\
    (forall o, (o ∉ os) -> objects w' !! o = objects w !! o).
Proof.
  intros Hnd. revert w. induction Hnd as [|o os Hn Hnd IH]; intros w Hopen.
  { exists w. split_and!; [done..|intros o Ho; by apply not_elem_of_nil in Ho|done]. }
  destruct (Hopen o ltac:(left)) as [rl Hrl]. simpl. unfold Shutdown_object. rewrite Hrl.
  destruct (IH (set_object o rl true w)) as (w' & Hs & He & Hc & Hin & Hout).
  { intros o' Ho'. cbn [set_object objects]. rewrite lookup_insert_ne by (intros ->; done). apply Hopen. by right. }
  exists w'. split_and!; [done..| |].
  - intros o' [->|Ho']%elem_of_cons; [|by apply Hin]. rewrite Hout by done. cbn [set_object objects].
    rewrite lookup_insert_eq. eauto.
  - intros o' Ho'. apply not_elem_of_cons in Ho' as [Hne Ho']. rewrite Hout by done. cbn [set_object objects].
    by rewrite lookup_insert_ne.
Qed.

Lemma endpoint_objects_distinct w : endpoints_open w -> NoDup (map_to_list (endpoints w)).*2.
Proof.
  intros [_ Hi]. assert (forall l, NoDup l -> (forall x, x ∈ l -> endpoints w !! fst x = Some (snd x)) -> NoDup l.*2) as Hl.
  { induction 1 as [|[e o] l Hn Hl IH]; intros Hx; [constructor|]. cbn [fmap list_fmap snd]. constructor.
    - intros ([e' o'] & Heq & Hin)%list_elem_of_fmap. simpl in Heq. subst o'.
      pose proof (Hx (e, o) ltac:(left)) as H1. pose proof (Hx (e', o) ltac:(by right)) as H2. simpl in H1, H2.
      rewrite (Hi _ _ _ H1 H2) in Hn. done.
    - apply IH. intros x Hin. apply Hx. by right. }
  apply Hl; [apply NoDup_map_to_list|]. intros [e o] Hin. by apply elem_of_map_to_list in Hin.
Qed.

(** A shutdown closes the objects of the endpoints and no others; a second one panics
    when there is an endpoint. *)
Lemma Shutdown_spec w :
  endpoints_open w ->
  exists w', Shutdown w = Returns w' /\ cleaners w' = cleaners w /\
    (forall e o, endpoints w !! e = Some o -> exists rl, objects w' !! o = Some (rl, true)) /\
    (forall o, (forall e, endpoints w !! e <> Some o) -> objects w' !! o = objects w !! o) /\
    (endpoints w <> ∅ -> Shutdown w' = Panics (ErrMsg "close of closed channel")).
Proof.
  intros Hw. pose proof (endpoint_objects_distinct w Hw) as Hnd. destruct Hw as [Ho Hi].
  assert (forall o, o ∈ (map_to_list (endpoints w)).*2 <-> exists e, endpoints w !! e = Some o) as Hel.
  { intros o. rewrite list_elem_of_fmap. split.
    - intros ([e o'] & -> & Hin%elem_of_map_to_list). eauto.
    - intros [e He]. exists (e, o). split; [done|]. by apply elem_of_map_to_list. }
  destruct (shutdown_all_spec _ w Hnd) as (w' & Hs & He & Hc & Hin & Hout).
  { intros o [e Hoe]%Hel. eauto. }
  exists w'. split_and!; [done..| | |].
  - intros e o Hoe. apply Hin, Hel. eauto.
  - intros o Hno. apply Hout. rewrite Hel. intros [e Hoe]. by apply (Hno e).
  - intros Hne. unfold Shutdown. rewrite He. apply map_choose in Hne as (e & o & Hoe).
    destruct (map_to_list (endpoints w)) as [|[e' o'] l] eqn:Hl.
    { assert ((e, o) ∈ map_to_list (endpoints w)) as Hx by (by apply elem_of_map_to_list). rewrite Hl in Hx.
      by apply not_elem_of_nil in Hx. }
    destruct (Hin o') as [rl Hrl]; [left|]. cbn [fmap list_fmap snd shutdown_all]. unfold Shutdown_object. by rewrite Hrl.
Qed.

End ratelimit.

(** The floor of the rate: 3 and 5 requests per minute are configured as 6. *)
Lemma rps_floor : rps 3 = rps 6 /\ rps 5 = rps 6 /\ f64_lt (rps 6) (rps 10) = true.
Proof. repeat split; vm_compute; reflexivity. Qed.

(** ** A token bucket *)

Record bucket := { bk_rate : f64; bk_burst : Z; bk_tokens : Q; bk_last : option Z }.

(** The tokens at a time: full before the first event. *)
Definition tokens_at (l : bucket) (now : Z) : Q :=
  match bk_last l with
  | None => Qmax 0 (inject_Z (bk_burst l))
  | Some t => Qmax 0 (Qmin (inject_Z (bk_burst l)) (bk_tokens l + rate_value (bk_rate l) * Qmax 0 (seconds t now)))
  end.

#[export] Instance bucket_limiter : Limiter := {
  limiter := bucket;
  NewLimiter r b := {| bk_rate := r; bk_burst := b; bk_tokens := 0; bk_last := None |};
  Allow now l :=
    if Qle_bool 1 (tokens_at l now)
    then ({| bk_rate := bk_rate l; bk_burst := bk_burst l; bk_tokens := tokens_at l now - 1; bk_last := Some now |}, true)
    else (l, false)
}.

Lemma seconds_nonneg t t' : t <= t' -> (0 <= seconds t t')%Q.
Proof.
  intros H. unfold seconds. apply Qle_shift_div_l; [done|]. rewrite Qmult_0_l. change 0%Q with (inject_Z 0).
  rewrite <- Zle_Qle. lia.
Qed.

(** Split the maxima and minima of rationals. *)
Ltac qcases :=
  repeat match goal with
  | |- context [Qmin ?a ?b] => destruct (Q.min_spec a b) as [[? ->]|[? ->]]
  | |- context [Qmax ?a ?b] => destruct (Q.max_spec a b) as [[? ->]|[? ->]]
  end.

#[export] Instance bucket_laws : LimiterLaws.
Proof.
  refine {| level := tokens_at; level_rate l := rate_value (bk_rate l) |}.
  - intros l t. unfold tokens_at. destruct (bk_last l); apply Q.le_max_l.
  - done.
  - intros r b t Hb. cbn. assert (0 <= inject_Z b)%Q by (change 0%Q with (inject_Z 0); rewrite <- Zle_Qle; lia). qcases; lra.
  - intros l t t' Ht. pose proof (rate_value_nonneg (bk_rate l)) as Hr. pose proof (seconds_nonneg t t' Ht) as Hs.
    pose proof (Qmult_le_0_compat _ _ Hr Hs) as Hp. unfold tokens_at. destruct (bk_last l) as [t0|]; [|lra].
    set (r := rate_value (bk_rate l)) in *.
    assert (r * Qmax 0 (seconds t0 t') <= r * Qmax 0 (seconds t0 t) + r * seconds t t')%Q as Hm.
    { rewrite <- Qmult_plus_distr_r. rewrite !(Qmult_comm r). apply Qmult_le_compat_r; [|done].
      pose proof (seconds_add t0 t t'). qcases; lra. }
    set (x := (r * Qmax 0 (seconds t0 t'))%Q) in *. set (y := (r * Qmax 0 (seconds t0 t))%Q) in *. 
    clearbody x y. qcases; lra.
  - intros t l. cbn. by destruct (Qle_bool 1 (tokens_at l t)).
  - intros t l. cbn [Allow bucket_limiter]. destruct (Qle_bool 1 (tokens_at l t)) eqn:Ht.
    + apply Qle_bool_iff in Ht. cbn [fst snd]. unfold tokens_at at 1. cbn [bk_last bk_burst bk_rate bk_tokens].
      change (inject_Z (b2z true)) with 1%Q. set (x := tokens_at l t) in *. clearbody x.
      assert (rate_value (bk_rate l) * Qmax 0 (seconds t t) == 0)%Q as ->; [|qcases; lra].
      unfold seconds. rewrite Z.sub_diag. change (inject_Z 0 / inject_Z Second)%Q with (0 / inject_Z Second)%Q.
      assert (0 / inject_Z Second == 0)%Q as -> by reflexivity. rewrite Q.max_id. ring.
    + cbn [fst snd]. change (inject_Z (b2z false)) with 0%Q. lra.
Qed.

(** Two requests at once and one ten seconds later, at six a minute with a burst of one. *)
Definition three_requests : list occurrence :=
  [Request 0 "1.2.3.4"; Request 0 "1.2.3.4"; Request 0 "5.6.7.8"; Request (10 * Second) "1.2.3.4"].

Lemma rate_bounded_witness :
  let rl := {| limiters := ∅; rate := rps 6; burst := 1 |} in
  allowed "1.2.3.4" three_requests rl = 2 /\
  (inject_Z (allowed "1.2.3.4" three_requests rl) <=
     inject_Z (1 * (1 + clean_ups three_requests)) + rate_value (rps 6) * seconds 0 (10 * Second))%Q.
Proof.
  split; [vm_compute; reflexivity|].
  apply (rate_bounded (rps 6) 1 "1.2.3.4" three_requests 0 (10 * Second)); [vm_compute; reflexivity|discriminate|].
  repeat split; discriminate.
Defined.

(** ** What goes wrong *)

Definition login : string := "/auth/login".

(** Two first requests of one client, at five a minute with a burst of one: one after
    the other, only the first is allowed. *)
Example first_requests_in_turn :
  let '(w, ok) := Limit 0 login 5 "1.2.3.4" NewEndpointRateLimiter in
  ok = true /\ snd (Limit 0 login 5 "1.2.3.4" w) = false.
Proof. vm_compute. done. Qed.

(** When both look up before either configures, both are allowed: the second
    configuration replaces the object, and with it the bucket of the first. The
    clean-up of the replaced object is not reached by a shutdown. *)
Example first_requests_race :
  look_up login NewEndpointRateLimiter = None /\
  let w1 := configure_default login 5 NewEndpointRateLimiter in
  let '(w2, ok1) := serve_object 0 "1.2.3.4" (default 0%nat (look_up login w1)) w1 in
  let w3 := configure_default login 5 w2 in
  let '(w4, ok2) := serve_object 0 "1.2.3.4" (default 0%nat (look_up login w3)) w3 in
  ok1 = true /\ ok2 = true /\
  match Shutdown w4 with
  | Returns w5 => (length (cleaners w5), length (cleaners (leave 0 (leave 1 w5)))) = (2, 1)%nat
  | Panics _ => False
  end.
Proof. vm_compute. done. Qed.
