(* ===== verification/Bizday.v ===== *)
(** * Business days (src/bizday/bizday.go)

    Which zone names are accepted, the fallback, and the SQL text built from a
    zone. The zone database is an argument; a location is abstract. *)

From S2P Require Import Prelude GoStrings Regex GoTime.
From Stdlib Require Import Ascii.

Definition DefaultZone : string := "Asia/Kuala_Lumpur".

(** ** The pattern of a zone name *)

Definition zoneName : prog := MustCompile "^[A-Za-z][A-Za-z0-9_+-]*(/[A-Za-z0-9_+-]+)*$".

(** The characters of a part of a name, and the names as a grammar: a letter and
    a run of characters, then groups of a slash and a run that is not empty. *)
Definition part_chars : list (ascii * ascii) :=
  [("A", "Z"); ("a", "z"); ("0", "9")]%char ++ map single ["_"; "+"; "-"]%char.

Definition run (s : string) : Prop := all_in part_chars s = true.

Inductive groups : string -> Prop :=
| groups_nil : groups ""
| groups_cons s rest : s <> "" -> run s -> groups rest -> groups (String "/" (s +:+ rest)).

Inductive zone_name : string -> Prop :=
| zone_name_intro c s rest : is_letter c = true -> run s -> groups rest -> zone_name (String c (s +:+ rest)).

(** The characters that end or escape a literal of SQL, or end a statement. *)
Definition sql_special : list ascii := ["'"; "\"; "034"; ";"; " "; "("; ")"]%char.

(** ** Zones *)

Section zones.
Context {Location : Type} (LoadLocation : string -> result Location).

Record Zone := { name : string; loc : option Location }.

Definition Load (n : string) : result Zone :=
  let n := if bool_decide (n = "") then DefaultZone else n in
  if negb (MatchString zoneName n) then Err (ErrMsg ("bizday: " +:+ n +:+ " is not a time zone name"))
  else match LoadLocation n with
       | Err e => Err (ErrWrap ("bizday: unknown time zone " +:+ n) e)
       | Ok l => Ok {| name := n; loc := Some l |}
       end.

(** [fallback, _ := Load(DefaultZone)]: the zero zone when that fails too. *)
Definition resolve (configured : string) : Zone * option error :=
  match Load configured with
  | Ok z => (z, None)
  | Err e =>
      (match Load DefaultZone with Ok z => z | Err _ => {| name := ""; loc := None |} end, Some e)
  end.

(** [Current] and [ConfigError] read the variable once per process: [once] is
    the value kept from the first call. *)
Definition Current (once : option (Zone * option error)) (env : string) : option (Zone * option error) * Zone :=
  let r := match once with Some r => r | None => resolve env end in (Some r, fst r).

Definition ConfigError (once : option (Zone * option error)) (env : string)
    : option (Zone * option error) * option error :=
  let r := match once with Some r => r | None => resolve env end in (Some r, snd r).

Definition local (z : Zone) (col : string) : string := "(" +:+ col +:+ " AT TIME ZONE '" +:+ name z +:+ "')".

Definition SQLDate (z : Zone) (col : string) : string := local z col +:+ "::date".

Definition SQLTrunc (z : Zone) (unit col : string) : panics string :=
  if bool_decide (unit ∈ ["day"; "week"; "month"; "year"])
  then Returns ("date_trunc('" +:+ unit +:+ "', " +:+ local z col +:+ ")")
  else Panics (ErrMsg ("bizday: unsupported date_trunc unit " +:+ unit)).

Definition SQLStartOf (z : Zone) (unit : string) : panics string :=
  match SQLTrunc z unit "now()" with
  | Panics e => Panics e
  | Returns t => Returns ("(" +:+ t +:+ " AT TIME ZONE '" +:+ name z +:+ "')")
  end.

End zones.
Arguments Zone : clear implicits.

(** ** Days

    A zone without a location, which is left when even the default one cannot be
    loaded, makes the functions of the language panic. *)

(** Midnight of a date, on the wall clock. *)
Definition midnight (d : date) : Z := day_number d * 86400.

Section days.
Context {Location : Type} `{TimeZone Location}.

Definition missing_location : error := ErrMsg "time: missing Location in call to Time.In".

Definition ParseDate (z : Zone Location) (s : string) : panics (result Z) :=
  match parse_date s with
  | None => Returns (Err (ErrVar "time.ParseError"))
  | Some d =>
      match loc z with
      | None => Panics (ErrMsg "time: missing Location in call to Date")
      | Some l => Returns (Ok (time_Date d 0 0 0 0 l))
      end
  end.

Definition StartOfDay (z : Zone Location) (t : Z) : panics Z :=
  match loc z with
  | None => Panics missing_location
  | Some l => Returns (time_Date (local_date l t) 0 0 0 0 l)
  end.

End days.

(** ** Lemmas *)

Lemma zoneName_body :
  body zoneName =
  seqs [Cls false [("A", "Z"); ("a", "z")]%char; Star (Cls false part_chars);
        Star (Cat (Cls false [single "/"%char]) (Cat (Cls false part_chars) (Star (Cls false part_chars))))].
Proof. by vm_compute. Qed.

Lemma is_letter_class c : in_class false [("A", "Z"); ("a", "z")]%char c = is_letter c.
Proof. unfold is_letter, letters, in_class. simpl. by rewrite !orb_false_r, orb_comm. Qed.

Lemma matches_run s : matches (Star (Cls false part_chars)) s <-> run s.
Proof. symmetry. apply all_in_spec. Qed.

Lemma matches_group s :
  matches (Cat (Cls false [single "/"%char]) (Cat (Cls false part_chars) (Star (Cls false part_chars)))) s <->
  exists t, s = String "/" t /\ t <> "" /\ run t.
Proof.
  rewrite matches_Cat. setoid_rewrite matches_plus_class. setoid_rewrite matches_run. split.
  - intros (a & t & -> & Ha & Ht). exists t. split; [|done].
    change (matches (literal "/") a) in Ha. by apply matches_literal_iff in Ha as ->.
  - intros (t & -> & Ht). exists "/", t. split; [done|]. split; [|done]. apply (matches_literal "/").
Qed.

Lemma matches_groups s :
  matches (Star (Cat (Cls false [single "/"%char]) (Cat (Cls false part_chars) (Star (Cls false part_chars))))) s <->
  groups s.
Proof.
  split.
  - remember (Star _) as r eqn:Hr. induction 1 as [| | | | |r'|r' a b Ha _ Hb IH]; try discriminate; [constructor|].
    injection Hr as ->. apply matches_group in Ha as (t & -> & Hne & Ht).
    rewrite append_String. constructor; auto.
  - induction 1 as [|t rest Hne Ht Hr IH]; [constructor|].
    apply (matches_star _ (String "/" t) rest); [|done]. apply matches_group. eauto.
Qed.

(** The pattern accepts exactly the names of the grammar. *)
Lemma zoneName_grammar s : MatchString zoneName s = true <-> zone_name s.
Proof.
  rewrite MatchString_whole by done. rewrite zoneName_body. cbn [seqs foldr]. split.
  - intros (a & ? & -> & (c & -> & Hc)%matches_Cls & (t & ? & -> & Ht%matches_run &
      (g & ? & -> & Hg%matches_groups & ->%matches_Eps)%matches_cat_iff)%matches_cat_iff)%matches_cat_iff.
    rewrite append_nil_r. apply (zone_name_intro c t g); [by rewrite <-is_letter_class|done..].
  - intros [c t g Hc Ht Hg]. rewrite <-(append_nil_r g). rewrite <-is_letter_class in Hc.
    apply (matches_cat_app _ _ (String c "")); [by constructor|].
    apply matches_cat_app; [by apply matches_run|].
    apply matches_cat_app; [by apply matches_groups|constructor].
Qed.

(** No special character is in the alphabet of the pattern. *)
Lemma zoneName_safe s c :
  MatchString zoneName s = true -> c ∈ sql_special -> string_elem c s = false.
Proof.
  rewrite MatchString_whole by done. intros Hm Hc. apply not_true_is_false. intros Hs.
  pose proof (matches_alphabet _ _ Hm c Hs) as Ha.
  assert (Forall (fun c => alphabet (body zoneName) c = false) sql_special) as Hf
    by (apply (bool_decide_unpack _); by vm_compute).
  rewrite Forall_forall in Hf. rewrite (Hf c Hc) in Ha. done.
Qed.

Lemma DefaultZone_ok : MatchString zoneName DefaultZone = true.
Proof. by vm_compute. Qed.

Section lemmas.
Context {Location : Type} (LoadLocation : string -> result Location).

Lemma Load_name n z : Load LoadLocation n = Ok z -> MatchString zoneName (name z) = true /\ loc z <> None.
Proof.
  unfold Load. set (n' := if bool_decide (n = "") then DefaultZone else n). destruct (MatchString zoneName n') eqn:Hm; [|done]. simpl.
  destruct (LoadLocation n'); [|done]. by intros [= <-].
Qed.

(** Whatever the variable holds, the zone in use has a name without quotes, so the
    quotes around it in the SQL text are the only ones around the column. *)
Lemma resolve_safe env c :
  c ∈ sql_special ->
  string_elem c (name (fst (resolve LoadLocation env))) = false.
Proof.
  intros Hc. unfold resolve. destruct (Load LoadLocation env) as [z|e] eqn:Hl.
  - apply Load_name in Hl as [Hm _]. by apply zoneName_safe.
  - destruct (Load LoadLocation DefaultZone) as [z|] eqn:Hd; [|done].
    apply Load_name in Hd as [Hm _]. by apply zoneName_safe.
Qed.

(** The configured zone is used when it is valid, and the default one, with the
    reason, when it is not. *)
Lemma resolve_fallback env :
  is_ok (LoadLocation DefaultZone) = true ->
  (snd (resolve LoadLocation env) = None /\ MatchString zoneName (name (fst (resolve LoadLocation env))) = true) \/
  (snd (resolve LoadLocation env) <> None /\ name (fst (resolve LoadLocation env)) = DefaultZone).
Proof.
  intros Hd. unfold resolve. destruct (Load LoadLocation env) as [z|e] eqn:Hl.
  - left. by apply Load_name in Hl as [Hm _].
  - right. split; [done|]. unfold Load. rewrite (bool_decide_false (DefaultZone = "")) by done.
    rewrite DefaultZone_ok. by destruct (LoadLocation DefaultZone).
Qed.

(** Later calls answer what the first one read, whatever the variable holds then. *)
Lemma Current_once env env' :
  let '(o, z) := Current LoadLocation None env in
  snd (Current LoadLocation o env') = z /\
  snd (ConfigError LoadLocation o env') = snd (resolve LoadLocation env).
Proof. done. Qed.

(** Whatever the variable holds, the quotes in the text of a date are the two
    that the code writes: cut at the quotes it is the column, the name of the
    zone and the cast; and the name has none of the characters that end or escape
    a literal. *)
Lemma SQLDate_literal env col :
  string_elem "'" col = false ->
  let z := fst (resolve LoadLocation env) in
  Split (SQLDate z col) "'" = ["(" +:+ col +:+ " AT TIME ZONE "; name z; ")::date"] /\
  forall c, c ∈ sql_special -> string_elem c (name z) = false.
Proof.
  intros Hcol z. split; [|intros c; apply resolve_safe].
  unfold SQLDate, local. rewrite !append_assoc.
  replace ("(" +:+ col +:+ " AT TIME ZONE '" +:+ name z +:+ "')" +:+ "::date")
    with (("(" +:+ col +:+ " AT TIME ZONE ") +:+ String "'" (name z +:+ String "'" ")::date"))
    by (by rewrite !append_assoc).
  rewrite !Split_part; [done| |].
  - apply resolve_safe. left.
  - by rewrite !string_elem_append, Hcol.
Qed.

Lemma SQLStartOf_panics (z : Zone Location) unit :
  (exists t, SQLStartOf z unit = Returns t) <-> unit ∈ ["day"; "week"; "month"; "year"].
Proof.
  unfold SQLStartOf, SQLTrunc. case_bool_decide; split; try done; eauto. by intros [? ?].
Qed.

End lemmas.

(** ** Lemmas on days *)

Section day_lemmas.
Context {Location : Type} `{TimeZoneLaws Location}.
#[local] Set Default Proof Using "All".
Implicit Types l : Location.

Lemma time_Date_midnight d l : time_Date d 0 0 0 0 l = to_utc l (midnight d) * Second.
Proof. unfold time_Date, midnight. rewrite !Z.add_0_r. done. Qed.

Lemma unix_seconds s : unix (s * Second) = s.
Proof. unfold unix. by rewrite Z.div_mul. Qed.

(** The wall clock at the start of a day is its midnight, when the zone shows that
    midnight at all and has two offsets at most in the two days around it. *)
Lemma start_of_date d l a b sec :
  valid_date d -> in_int64 (midnight d) -> midnight d < max_int64 ->
  (forall s, midnight d - 86400 <= s <= midnight d + 86400 -> offset l s = a \/ offset l s = b) ->
  sec + offset l sec = midnight d ->
  local_date l (time_Date d 0 0 0 0 l) = d /\ clock l (time_Date d 0 0 0 0 l) = 0.
Proof.
  intros Hv Hi Hm Hab Hsec. rewrite time_Date_midnight. apply local_of_wall; [|done|lia].
  unfold local_seconds. rewrite unix_seconds, (to_utc_two l (midnight d) a b sec) by done. unfold midnight. lia.
Qed.

(** Under one offset a day is 24 hours from its start. *)
Lemma day_interval l o t u :
  (forall s, offset l s = o) ->
  local_date l u = local_date l t <->
  time_Date (local_date l t) 0 0 0 0 l <= u < time_Date (local_date l t) 0 0 0 0 l + 24 * (60 * Minute).
Proof.
  intros Ho. rewrite time_Date_midnight, (to_utc_one l _ o) by auto.
  pose proof (local_seconds_split l u) as Hu. pose proof (clock_range l u).
  pose proof (clock_range l t). unfold midnight, local_seconds, unix in *. rewrite Ho in Hu.
  pose proof (Z.div_mod u Second ltac:(done)). pose proof (Z.mod_pos_bound u Second ltac:(done)).
  replace (24 * (60 * Minute)) with (86400 * Second) by done.
  split.
  - intros He. rewrite He in Hu. unfold Second in *. nia.
  - intros Hr. apply day_number_inj; [apply local_date_valid..|]. unfold Second in *. nia.
Qed.

(** C40: The start of the day of [t] is what reading the date shown for [t] gives; it
    is a whole second at which the clock of the zone shows midnight of that
    date, if the zone shows it at all and changes its offset at most once in the
    days around; and where the offset does not change the instants with the date
    of [t] are exactly the 24 hours from there. *)
Theorem StartOfDay_spec z l t :
  loc z = Some l ->
  exists r, StartOfDay z t = Returns r /\ r mod Second = 0 /\
    (four_digit_year (local_date l t) -> ParseDate z (format_date (local_date l t)) = Returns (Ok r)) /\
    (forall a b sec, Z.abs (midnight (local_date l t)) < max_int64 ->
       (forall s, Z.abs (s - midnight (local_date l t)) <= 86400 -> offset l s = a \/ offset l s = b) ->
       sec + offset l sec = midnight (local_date l t) ->
       local_date l r = local_date l t /\ clock l r = 0) /\
    (forall o, (forall s, offset l s = o) ->
       forall u, local_date l u = local_date l t <-> r <= u < r + 24 * (60 * Minute)).
Proof.
  intros Hl. unfold StartOfDay, ParseDate. rewrite Hl. eexists. split; [done|]. split_and!.
  - rewrite time_Date_midnight. by apply Z_mod_mult.
  - intros Hy. rewrite (proj2 (parse_date_spec _ (local_date l t))); [done|].
    split; [done|]. split; [apply local_date_valid|done].
  - intros a b sec Hi Hab Hsec. apply (start_of_date _ l a b sec); [apply local_date_valid|int_lia|lia| |done].
    intros s Hs. apply Hab. lia.
  - intros o Ho u. by apply (day_interval l o).
Qed.

End day_lemmas.

(** The order of the source's test: 2026-09-15 16:30 UTC is half past midnight of the
    16th in Kuala Lumpur. *)
Definition placed : Z := 1789489800 * Second.

Lemma StartOfDay_spec_witness :
  let z := {| name := DefaultZone; loc := Some Kuala_Lumpur |} in
  local_date Kuala_Lumpur placed = {| Year := 2026; Month := 9; Day := 16 |} /\
  StartOfDay z placed = Returns (1789488000 * Second) /\
  ParseDate z "2026-09-16" = Returns (Ok (1789488000 * Second)) /\
  (local_date Kuala_Lumpur (1789488000 * Second) = local_date Kuala_Lumpur placed <->
   1789488000 * Second <= 1789488000 * Second < 1789488000 * Second + 24 * (60 * Minute)).
Proof.
  intros z. destruct (StartOfDay_spec z Kuala_Lumpur placed eq_refl) as (r & Hr & _ & Hp & _ & Hd).
  assert (StartOfDay z placed = Returns (1789488000 * Second)) as Hv by (vm_compute; reflexivity).
  rewrite Hv in Hr. injection Hr as <-.
  assert (local_date Kuala_Lumpur placed = {| Year := 2026; Month := 9; Day := 16 |}) as Hld by (vm_compute; reflexivity).
  split; [exact Hld|]. split; [exact Hv|]. split.
  - rewrite Hld in Hp. apply Hp. split; reflexivity || discriminate.
  - apply (Hd 28800). intros s. reflexivity.
Defined.

(** A zone that goes from UTC-4 to UTC-3 at midnight does not show that midnight: the
    start of the day is an hour before it, on the day before. *)
Example StartOfDay_skipped_midnight :
  let l := Change (-14400) (1788652800 + 14400) (-10800) in
  let t := (1788652800 + 14400) * Second in
  (local_date l t, clock l t) = ({| Year := 2026; Month := 9; Day := 6 |}, 3600) /\
  exists r, StartOfDay {| name := "America/Santiago"; loc := Some l |} t = Returns r /\
    (local_date l r, clock l r) = ({| Year := 2026; Month := 9; Day := 5 |}, 23 * 3600).
Proof. split; [vm_compute; reflexivity|]. eexists. split; [reflexivity|]. vm_compute. reflexivity. Qed.

Lemma SQLDate_literal_witness :
  let z := fst (resolve (fun n => Ok n) "UTC'; DROP TABLE orders; --") in
  name z = DefaultZone /\
  Split (SQLDate z "created_at") "'" = ["(created_at AT TIME ZONE "; DefaultZone; ")::date"].
Proof.
  split; [by vm_compute|].
  exact (proj1 (SQLDate_literal (fun n => Ok n) "UTC'; DROP TABLE orders; --" "created_at" eq_refl)).
Defined.
