(* ===== verification/Storage.v ===== *)
(** * Upload validation (src/storage/validator.go)

    Size, extension and leading bytes of an upload, and the cleaning of file
    names, with the parts of path/filepath and strings.Replacer they use. *)

From S2P Require Import Prelude GoStrings.
From Stdlib Require Import Ascii.

(** ** File names *)

Definition slash : ascii := "/"%char.

Fixpoint strip_slashes (s : string) : string :=
  match s with
  | EmptyString => ""
  | String c s =>
      let s := strip_slashes s in
      if bool_decide (c = slash) && bool_decide (s = "") then "" else String c s
  end.

Definition last_element (s : string) : string := default "" (last (Split s slash)).

(** [filepath.Base] with the separator of Unix. *)
Definition filepath_Base (path : string) : string :=
  if bool_decide (path = "") then "."
  else
    let stripped := strip_slashes path in
    if bool_decide (stripped = "") then "/" else last_element stripped.

Fixpoint from_last_dot (s : string) : string :=
  match s with
  | EmptyString => ""
  | String c t =>
      let e := from_last_dot t in
      if bool_decide (e <> "") then e else if bool_decide (c = "."%char) then String c t else ""
  end.

(** [filepath.Ext] *)
Definition filepath_Ext (path : string) : string := from_last_dot (last_element path).

Definition dangerous (c : ascii) : bool :=
  bool_decide (c ∈ ["/"; "\"; ":"; "*"; "?"; "034"; "<"; ">"; "|"; "000"]%char).

(** The replacer: from left to right, [..] before the single bytes. *)
Fixpoint replacer (s : string) : string :=
  match s with
  | EmptyString => ""
  | String c t =>
      let keep (rest : string) := if dangerous c then rest else String c rest in
      match t with
      | EmptyString => keep ""
      | String d u =>
          if bool_decide (c = "."%char) && bool_decide (d = "."%char) then replacer u else keep (replacer t)
      end
  end.

Definition SanitizeFilename (filename : string) : string := replacer (filepath_Base filename).

(** ** Validation *)

Record FileValidator := { MaxSize : Z; AllowedTypes : gset string; FileType : string }.

Definition FileTypeImage : string := "image".
Definition FileTypeDocument : string := "document".

Definition magicNumbers : gmap string (list Z) :=
  {[ ".jpg" := [255; 216; 255]; ".jpeg" := [255; 216; 255];
     ".png" := [137; 80; 78; 71; 13; 10; 26; 10]; ".gif" := [71; 73; 70; 56];
     ".webp" := [82; 73; 70; 70]; ".bmp" := [66; 77]; ".pdf" := [37; 80; 68; 70];
     ".docx" := [80; 75; 3; 4]; ".xlsx" := [80; 75; 3; 4]; ".zip" := [80; 75; 3; 4];
     ".mp4" := [0; 0; 0; 24; 102; 116; 121; 112]; ".avi" := [82; 73; 70; 70];
     ".mov" := [0; 0; 0; 20; 102; 116; 121; 112] ]}.

Definition megabytes (maxSizeMB : Z) : Z := wrap64 (wrap64 (maxSizeMB * 1024) * 1024).

Definition NewImageValidator (maxSizeMB : Z) : FileValidator :=
  {| MaxSize := megabytes maxSizeMB;
     AllowedTypes := {[".jpg"; ".jpeg"; ".png"; ".gif"; ".webp"; ".bmp"]}; FileType := FileTypeImage |}.

Definition NewDocumentValidator (maxSizeMB : Z) : FileValidator :=
  {| MaxSize := megabytes maxSizeMB;
     AllowedTypes := {[".pdf"; ".doc"; ".docx"; ".xls"; ".xlsx"; ".txt"]}; FileType := FileTypeDocument |}.

(** An upload: its bytes, the read position, and the error its reads answer, if any. *)
Record file := { content : list Z; pos : nat; read_error : option error }.

Record FileHeader := { Filename : string; Size : Z }.

Definition Seek_start (f : file) : file := {| content := content f; pos := 0; read_error := read_error f |}.

(** A read into a fresh buffer of [n] bytes, as many as there are. *)
Definition Read (n : nat) (f : file) : file * list Z * result nat :=
  match read_error f with
  | Some e => (f, replicate n 0, Err e)
  | None =>
      let got := take n (drop (pos f) (content f)) in
      ({| content := content f; pos := pos f + length got; read_error := None |},
       got ++ replicate (n - length got) 0, Ok (length got))
  end.

Definition riff : list Z := [82; 73; 70; 70].
Definition webp : list Z := [87; 69; 66; 80].

Definition verifyFileContent (ext : string) (f : file) : file * option error :=
  match magicNumbers !! ext with
  | None => (f, None)
  | Some magic =>
      match Read (length magic) f with
      | (f, _, Err e) => (f, Some (ErrWrap "failed to read file content" e))
      | (f, buffer, Ok n) =>
          let f := Seek_start f in
          if bool_decide (n < length magic)%nat then
            (f, Some (ErrMsg "file too small to determine type"))
          else if bool_decide (ext = ".webp") then
            let '(f, buffer2, _) := Read 12 f in
            let f := Seek_start f in
            if bool_decide (take 4 buffer2 <> riff) || bool_decide (take 4 (drop 8 buffer2) <> webp)
            then (f, Some (ErrMsg "file content does not match WebP format"))
            else (f, None)
          else if bool_decide (take (length magic) buffer <> magic) then
            (f, Some (ErrMsg ("file content does not match expected type " +:+ ext)))
          else (f, None)
      end
  end.

Definition ValidateFile (v : FileValidator) (header : FileHeader) (f : file) : file * option error :=
  if bool_decide (MaxSize v < Size header) then (f, Some (ErrMsg "file too large"))
  else
    let ext := ToLower (filepath_Ext (Filename header)) in
    if bool_decide (ext ∉ AllowedTypes v) then (f, Some (ErrMsg ("file type not allowed: " +:+ ext)))
    else
      match verifyFileContent ext f with
      | (f, Some e) => (f, Some e)
      | (f, None) => (Seek_start f, None)
      end.

Definition ValidateImageFile : FileHeader -> file -> file * option error := ValidateFile (NewImageValidator 5).
Definition ValidateDocumentFile : FileHeader -> file -> file * option error :=
  ValidateFile (NewDocumentValidator 10).

(** What the leading bytes of a file of a type have to be. *)
Definition content_ok (ext : string) (bytes : list Z) : Prop :=
  match magicNumbers !! ext with
  | None => True
  | Some magic =>
      if bool_decide (ext = ".webp") then
        (12 <= length bytes)%nat /\ take 4 bytes = riff /\ take 4 (drop 8 bytes) = webp
      else take (length magic) bytes = magic
  end.

(** ** Lemmas *)

(** No dangerous byte is left in a sanitised name. *)
Lemma replacer_clean s c : dangerous c = true -> string_elem c (replacer s) = false.
Proof.
  intros Hc.
  assert (forall n s, (String.length s <= n)%nat -> string_elem c (replacer s) = false) as H; [|by eapply H].
  intros n. induction n as [|n IH]; intros [|d t] Hn; try done; simpl in Hn; [lia|].
  assert (forall rest, string_elem c rest = false ->
    string_elem c (if dangerous d then rest else String d rest) = false) as Hkeep.
  { intros rest Hr. destruct (dangerous d) eqn:Hd; [done|]. simpl.
    rewrite Hr, bool_decide_false; [done|congruence]. }
  destruct t as [|e u]; [by apply Hkeep|]. simpl in Hn. 
  change (string_elem c (if bool_decide (d = "."%char) && bool_decide (e = "."%char) then replacer u
    else if dangerous d then replacer (String e u) else String d (replacer (String e u))) = false).
  destruct (bool_decide (d = "."%char) && bool_decide (e = "."%char)); [apply IH; lia|].
  apply Hkeep, IH. simpl. lia.
Qed.

Lemma SanitizeFilename_clean filename c :
  dangerous c = true -> string_elem c (SanitizeFilename filename) = false.
Proof. apply replacer_clean. Qed.

(** But the bytes removed may leave the name of the parent directory. *)
Example SanitizeFilename_parent : SanitizeFilename ".:." = "..".
Proof. reflexivity. Qed.

Lemma Read_start n f : read_error f = None -> pos f = 0%nat ->
  Read n f = ({| content := content f; pos := length (take n (content f)); read_error := None |},
              take n (content f) ++ replicate (n - length (take n (content f))) 0,
              Ok (length (take n (content f)))).
Proof. intros He Hp. unfold Read. by rewrite He, Hp. Qed.

Lemma take_pad (n m : nat) (l : list Z) x k :
  (n <= length l)%nat -> (n <= m)%nat -> take n (take m l ++ replicate k x) = take n l.
Proof. intros Hl Hm. rewrite take_app_le by (rewrite length_take; lia). rewrite take_take. f_equal. lia. Qed.

(** The padding of a short read cannot be taken for the bytes of the format. *)
Lemma webp_pad bytes :
  (4 <= length bytes)%nat ->
  let buffer := take 12 bytes ++ replicate (12 - length (take 12 bytes)) 0 in
  take 4 buffer = riff /\ take 4 (drop 8 buffer) = webp <->
  (12 <= length bytes)%nat /\ take 4 bytes = riff /\ take 4 (drop 8 bytes) = webp.
Proof.
  intros Hl buffer. unfold buffer. rewrite take_pad by lia.
  destruct (decide (12 <= length bytes)%nat) as [Hge|Hlt].
  - rewrite length_take, Nat.min_l, Nat.sub_diag by lia. simpl. rewrite app_nil_r.
    assert (take 4 (drop 8 (take 12 bytes)) = take 4 (drop 8 bytes)) as ->; [|tauto].
    by rewrite skipn_firstn_comm, take_take.
  - split; [|lia]. intros [_ Hw]. exfalso.
    rewrite length_take, Nat.min_r, (take_ge bytes) in Hw by lia.
    assert (take 4 (drop 8 (bytes ++ replicate (12 - length bytes) 0)) !! 3%nat = Some 80) as Hx by (by rewrite Hw).
    rewrite lookup_take_lt, lookup_drop, lookup_app_r, lookup_replicate in Hx by lia. lia.
Qed.

(** A file is accepted exactly when it is small enough, its extension is allowed
    and its content starts as its extension promises; it is handed back
    rewound. *)
Lemma ValidateFile_ok v header f :
  read_error f = None -> pos f = 0%nat ->
  let ext := ToLower (filepath_Ext (Filename header)) in
  (snd (ValidateFile v header f) = None <->
     Size header <= MaxSize v /\ ext ∈ AllowedTypes v /\ content_ok ext (content f)) /\
  (snd (ValidateFile v header f) = None -> fst (ValidateFile v header f) = f).
Proof.
  intros He Hp ext. unfold ValidateFile. fold ext.
  case_bool_decide as Hs; [split; [split; [done|lia]|done]|].
  case_bool_decide as Ha; [split; [split; [done|tauto]|done]|].
  assert (snd (verifyFileContent ext f) = None <-> content_ok ext (content f)) as Hc.
  { unfold verifyFileContent, content_ok. destruct (magicNumbers !! ext) as [magic|] eqn:Hm; [|done].
    rewrite Read_start by done. cbn [fst snd]. 
    case_bool_decide as Hshort.
    - rewrite length_take in Hshort. split; [done|]. case_bool_decide as Hx.
      + rewrite Hx in Hm. vm_compute in Hm. injection Hm as <-. simpl length in Hshort.
        intros [? _]. exfalso. lia.
      + intros Ht. exfalso. apply (f_equal length) in Ht. rewrite length_take in Ht. lia.
    - rewrite length_take in Hshort. rewrite length_take, Nat.min_l, Nat.sub_diag by lia. cbn [replicate].
      rewrite app_nil_r, take_take, Nat.min_id. case_bool_decide as Hx.
      + rewrite Hx in Hm. vm_compute in Hm. injection Hm as <-. simpl length in Hshort.
        rewrite Read_start by done. cbn [content Seek_start fst snd].
        rewrite <- webp_pad by lia. repeat case_bool_decide; simpl; try done; intuition congruence.
      + case_bool_decide; simpl; split; try done; congruence. }
  destruct (verifyFileContent ext f) as [f' [e|]] eqn:Hv; simpl in Hc.
  - split; [split; [done|tauto]|done].
  - assert (Seek_start f' = f) as ->.
    { assert (content f' = content f /\ read_error f' = None) as [Hcf Hre].
      { unfold verifyFileContent in Hv. destruct (magicNumbers !! ext); [|by simplify_eq].
        rewrite Read_start in Hv by done. unfold Read in Hv. simpl in Hv.
        repeat (case_match; simplify_eq; try done). }
      unfold Seek_start. rewrite Hcf, Hre. destruct f; simpl in *. by subst. }
    split; [|done]. split; [|done]. intros _. split; [lia|]. split; [|by apply Hc].
    exact Ha.
Qed.
