(* ===== verification/InputValidation.v ===== *)
(** * Input validation (src/middleware/validation.go, src/validator/validator.go)

    The patterns of malicious input are kept as their texts and compiled by
    [Regex]; the handler reads the query and the form as the language's
    [net/url] and [net/http] decode them. The second part is the validation of
    e-mail addresses and telephone numbers, and the messages of failed checks. *)

From S2P Require Import Prelude GoStrings Regex.
From Stdlib Require Import Ascii.

(** ** What the standard library decodes *)

(** [strings.ToLower] as far as the patterns can see it: the ASCII letters, and
    the two runes outside ASCII (U+0130, U+212A) whose lower case is ASCII. The
    lower case of the other runes is not ASCII, nor is U+017F. *)
Fixpoint to_lower (s : string) : string :=
  match s with
  | EmptyString => ""
  | String c s1 =>
      match s1 with
      | String d s2 =>
          if bool_decide (nat_of_ascii c = 196%nat /\ nat_of_ascii d = 176%nat) then String "i" (to_lower s2)
          else match s2 with
               | String e s3 =>
                   if bool_decide (String c (String d (String e "")) = kelvin) then String "k" (to_lower s3)
                   else String (lower_ascii c) (to_lower s1)
               | EmptyString => String (lower_ascii c) (to_lower s1)
               end
      | EmptyString => String (lower_ascii c) ""
      end
  end.

(** [url.QueryUnescape]: [None] for a percent sign without two hexadecimal digits. *)
Definition unhex (c : ascii) : option nat :=
  let n := nat_of_ascii c in
  if is_digit c then Some (n - 48)%nat
  else if in_class false [("a", "f")]%char c then Some (n - 87)%nat
  else if in_class false [("A", "F")]%char c then Some (n - 55)%nat
  else None.

Fixpoint QueryUnescape (s : string) : option string :=
  match s with
  | EmptyString => Some ""
  | String "%" s =>
      match s with
      | String a (String b s) =>
          x ← unhex a; y ← unhex b; t ← QueryUnescape s; Some (String (ascii_of_nat (16 * x + y)) t)
      | _ => None
      end
  | String "+" s => t ← QueryUnescape s; Some (String " " t)
  | String c s => t ← QueryUnescape s; Some (String c t)
  end.

Abbreviation Values := (gmap string (list string)).

(** [strings.Cut] at one byte. *)
Fixpoint Cut (s : string) (sep : ascii) : string * string :=
  match s with
  | EmptyString => ("", "")
  | String c s => if bool_decide (c = sep) then ("", s) else let '(a, b) := Cut s sep in (String c a, b)
  end.

(** One part of a query: parts that do not decode are dropped. *)
Definition parse_part (part : string) (m : Values) : Values :=
  if string_elem ";" part || bool_decide (part = "") then m
  else let '(key, value) := Cut part "=" in
       match QueryUnescape key, QueryUnescape value with
       | Some key, Some value => <[key := default [] (m !! key) ++ [value]]> m
       | _, _ => m
       end.

Definition ParseQuery (query : string) : Values := foldl (fun m part => parse_part part m) ∅ (Split query "&").

Record http_request := {
  Method : string;
  RawQuery : string;
  Content_Type : string;
  Body : string
}.

(** The media type before the parameters, which are taken to be well formed. *)
Definition media_type (contentType : string) : string := to_lower (TrimSpace (fst (Cut contentType ";"))).

Definition maxFormSize : Z := 10 * 2 ^ 20.

Definition writes_body (m : string) : bool :=
  bool_decide (m = "POST") || bool_decide (m = "PUT") || bool_decide (m = "PATCH").

(** [http.Request.ParseForm] as it fills [PostForm]: only from a body of the
    urlencoded type, and from nothing when the body is too large. *)
Definition PostForm (r : http_request) : Values :=
  if writes_body (Method r) && bool_decide (media_type (Content_Type r) = "application/x-www-form-urlencoded")
     && bool_decide (Z.of_nat (String.length (Body r)) <= maxFormSize)
  then ParseQuery (Body r) else ∅.

(** ** The patterns *)

Definition sqlInjectionPatterns : list prog := map MustCompile [
  "(?i)((\%27)|('))\s*((\%6F)|o|(\%4F))((\%72)|r|(\%52))";
  "(?i)\w*((\%27)|(\'))((\%6F)|o|(\%4F))((\%72)|r|(\%52))";
  "(?i)((\%27)|(\'))union";
  "(?i)exec(\s|\+)+(s|x)p\w+";
  "(?i)UNION.*SELECT";
  "(?i)SELECT.*FROM";
  "(?i)INSERT.*INTO";
  "(?i)DELETE.*FROM";
  "(?i)DROP.*TABLE";
  "(?i)UPDATE.*SET";
  "(?i)(;|\-\-|\/\*|\*\/|xp_)"
].

Definition xssPatterns : list prog := map MustCompile [
  "(?i)<script[^>]*>.*?</script>";
  "(?i)<iframe[^>]*>.*?</iframe>";
  "(?i)javascript:";
  "(?i)on\w+\s*=";
  "(?i)<embed[^>]*>";
  "(?i)<object[^>]*>"
].

Definition isMalicious (input : string) : bool :=
  let input := to_lower input in
  existsb (fun pattern => MatchString pattern input) sqlInjectionPatterns ||
  existsb (fun pattern => MatchString pattern input) xssPatterns.

(** ** The handler *)

(** The first field, in the order of the iteration, with a malicious value. *)
Fixpoint malicious_field (fields : list (string * list string)) : option string :=
  match fields with
  | [] => None
  | (key, values) :: fields => if existsb isMalicious values then Some key else malicious_field fields
  end.

Definition invalid_input (field : string) : Z * list (string * string) :=
  (400, [("error", "Invalid input detected"); ("message", "Request contains potentially malicious content");
         ("field", field)]).

Definition checks_form (r : http_request) : bool :=
  writes_body (Method r) &&
  (Contains (Content_Type r) "application/x-www-form-urlencoded" || Contains (Content_Type r) "multipart/form-data").

(** [range]: an iteration over a map, in an order of its own each time. [None]:
    the request goes on. *)
Definition InputValidation (range : Values -> list (string * list string)) (r : http_request)
    : option (Z * list (string * string)) :=
  match malicious_field (range (ParseQuery (RawQuery r))) with
  | Some key => Some (invalid_input key)
  | None =>
      if checks_form r then invalid_input <$> malicious_field (range (PostForm r)) else None
  end.

(** ** Fields (validator.go) *)

Definition emailRegex : prog := MustCompile "^[a-zA-Z0-9._%+-]+@[a-zA-Z0-9.-]+\.[a-zA-Z]{2,}$".
Definition phoneRegex : prog := MustCompile "^\+?[1-9]\d{1,14}$".

Definition validateEmail (field : string) : bool := MatchString emailRegex field.
Definition validatePhone (field : string) : bool := MatchString phoneRegex field.

(** The tags registered on a new validator, over those of the package. *)
Definition NewValidator (builtin : gmap string (string -> bool)) : gmap string (string -> bool) :=
  <["phone" := validatePhone]> (<["email" := validateEmail]> builtin).

Record FieldError := { fe_Field : string; fe_Tag : string; fe_Param : string }.

Definition formatErrorMessage (e : FieldError) : string :=
  if bool_decide (fe_Tag e = "required") then "This field is required"
  else if bool_decide (fe_Tag e = "email") then "Invalid email address"
  else if bool_decide (fe_Tag e = "phone") then "Invalid phone number"
  else if bool_decide (fe_Tag e = "min") then "Value is too short"
  else if bool_decide (fe_Tag e = "max") then "Value is too long"
  else if bool_decide (fe_Tag e = "gte") then "Value must be greater than or equal to " +:+ fe_Param e
  else if bool_decide (fe_Tag e = "lte") then "Value must be less than or equal to " +:+ fe_Param e
  else "Invalid value".

(** [None]: an error of another type. *)
Definition FormatValidationErrors (err : option (list FieldError)) : gmap string string :=
  foldl (fun m e => <[fe_Field e := formatErrorMessage e]> m) ∅ (default [] err).

(** ** The vocabulary of the theorems *)

Definition patterns : list prog := sqlInjectionPatterns ++ xssPatterns.

(** The pairs of words that may not follow each other on a line. *)
Definition word_pairs : list (string * string) :=
  [("union", "select"); ("select", "from"); ("insert", "into"); ("delete", "from");
   ("drop", "table"); ("update", "set")].

Definition fragments : list string := [";"; "--"; "/*"; "*/"; "xp_"; "'union"; "javascript:"].

Definition local_chars : list (ascii * ascii) := letters ++ digits ++ map single ["."; "_"; "%"; "+"; "-"]%char.
Definition domain_chars : list (ascii * ascii) := letters ++ digits ++ map single ["."; "-"]%char.

(** The pattern of two words on a line, and that of an element. *)
Definition word (k : string) : list re := map (char true) (String.list_ascii_of_string k).
Definition on_line : re := Star (Cls true [single "010"%char]).
Definition in_tag : re := Star (Cls true [single ">"%char]).

(** ** Compiled patterns *)

(** Every text compiles: the initialisation of the package does not panic. *)
Lemma patterns_compile : Forall (fun p => body p <> Void) (emailRegex :: phoneRegex :: patterns).
Proof. apply (bool_decide_unpack _). by vm_compute. Qed.

Lemma isMalicious_pattern s :
  isMalicious s = true <-> exists p, p ∈ patterns /\ MatchString p (to_lower s) = true.
Proof.
  unfold isMalicious, patterns. rewrite <-existsb_app, existsb_exists.
  by setoid_rewrite <-list_elem_of_In.
Qed.

Lemma isMalicious_part p s a m b :
  p ∈ patterns -> at_begin p = false -> at_end p = false ->
  to_lower s = a +:+ m +:+ b -> matches (body p) m -> isMalicious s = true.
Proof.
  intros Hp Hb He Hs Hm. apply isMalicious_pattern. exists p. split; [done|]. rewrite Hs. by apply MatchString_part.
Qed.

(** What is written for a word in a pattern matches the word. *)
Definition words_ok (k : string) : bool := full_match (seqs (word k)) k.

Lemma word_pairs_patterns :
  Forall (fun kk =>
    words_ok (fst kk) = true /\ words_ok (snd kk) = true /\
    {| at_begin := false; at_end := false; body := seqs (word (fst kk) ++ [on_line] ++ word (snd kk)) |} ∈ patterns)
    word_pairs.
Proof. apply (bool_decide_unpack _). by vm_compute. Qed.

Lemma fragments_patterns :
  Forall (fun w => Exists (fun p => at_begin p = false /\ at_end p = false /\ matches (body p) w) patterns) fragments.
Proof. apply (bool_decide_unpack _). by vm_compute. Qed.

Lemma script_pattern :
  {| at_begin := false; at_end := false;
     body := seqs (word "<script" ++ [in_tag] ++ word ">" ++ [on_line] ++ word "</script>") |} ∈ patterns.
Proof. apply (bool_decide_unpack _). by vm_compute. Qed.

Lemma matches_word k : words_ok k = true -> matches (seqs (word k)) k.
Proof. apply full_match_spec. Qed.

Lemma matches_not c x : string_elem c x = false -> matches (seqs [Star (Cls true [single c])]) x.
Proof.
  intros Hx. simpl. rewrite cat_spec, matches_Cat. exists x, "". rewrite append_nil_r.
  split; [done|]. split; [|constructor]. apply matches_star_class. intros d Hd. unfold in_class, single, in_range.
  simpl. rewrite orb_false_r. destruct (_ && _) eqn:E; [|done].
  rewrite andb_true_iff, !Nat.leb_le in E. assert (d = c) as ->; [|congruence].
  rewrite <-(ascii_nat_embedding d), <-(ascii_nat_embedding c). f_equal. lia.
Qed.

(** Two words of the list on one line, in any mix of cases and with anything
    between them, one of the fragments, or a script element on one line, make a
    text malicious wherever they stand in it. *)
Lemma isMalicious_blocks s a b x y :
  string_elem "010" x = false -> string_elem "010" y = false ->
  (forall k1 k2, (k1, k2) ∈ word_pairs -> to_lower s = a +:+ (k1 +:+ x +:+ k2) +:+ b -> isMalicious s = true) /\
  (forall w, w ∈ fragments -> to_lower s = a +:+ w +:+ b -> isMalicious s = true) /\
  (string_elem ">" x = false ->
   to_lower s = a +:+ ("<script" +:+ x +:+ ">" +:+ y +:+ "</script>") +:+ b -> isMalicious s = true).
Proof.
  intros Hx Hy. split; [|split].
  - intros k1 k2 Hk Hs. pose proof word_pairs_patterns as Hw. rewrite Forall_forall in Hw.
    apply Hw in Hk as (H1 & H2 & Hp). eapply isMalicious_part; [exact Hp|done..|exact Hs|].
    apply matches_seqs_app; [by apply matches_word|].
    apply matches_seqs_app; [by apply matches_not|by apply matches_word].
  - intros w Hw Hs. pose proof fragments_patterns as Hf. rewrite Forall_forall in Hf.
    apply Hf, Exists_exists in Hw as (p & Hp & Hb & He & Hm). by eapply isMalicious_part.
  - intros Hg Hs. eapply isMalicious_part; [exact script_pattern|done..|exact Hs|].
    apply matches_seqs_app; [by apply matches_word|]. apply matches_seqs_app; [by apply matches_not|].
    apply matches_seqs_app; [by apply matches_word|]. apply matches_seqs_app; [by apply matches_not|].
    by apply matches_word.
Qed.

Definition newline : string := byte 10.

(** The dot stops at the end of a line: the same words on two lines pass, and so
    does a script element written over several lines. *)
Lemma newline_evades :
  Forall (fun kk => isMalicious (fst kk +:+ newline +:+ snd kk) = false) word_pairs /\
  isMalicious ("<script>" +:+ newline +:+ "alert(1)" +:+ newline +:+ "</script>") = false.
Proof. split; [apply (bool_decide_unpack _)|]; by vm_compute. Qed.

(** ** The handler *)

Lemma malicious_field_None fields :
  malicious_field fields = None <->
  forall k vs v, (k, vs) ∈ fields -> v ∈ vs -> isMalicious v = false.
Proof.
  induction fields as [|[k vs] fields IH]; simpl; [split; [by intros _ k vs v ?%not_elem_of_nil|done]|].
  destruct (existsb isMalicious vs) eqn:E.
  - apply existsb_exists in E as (v & Hv & Hm). rewrite <-list_elem_of_In in Hv. split; [done|].
    intros H. rewrite (H k vs v) in Hm; [done|by apply elem_of_cons; left|done].
  - rewrite IH. setoid_rewrite elem_of_cons. split; [|naive_solver].
    intros H k' vs' v [?|Hin] Hv; [|by eapply H]. simplify_eq.
    destruct (isMalicious v) eqn:Hm; [|done]. rewrite <-E. symmetry. apply existsb_exists.
    exists v. by rewrite <-list_elem_of_In.
Qed.

Lemma malicious_field_Some fields k :
  malicious_field fields = Some k -> exists vs v, (k, vs) ∈ fields /\ v ∈ vs /\ isMalicious v = true.
Proof.
  induction fields as [|[k' vs] fields IH]; simpl; [done|].
  destruct (existsb isMalicious vs) eqn:E.
  - apply existsb_exists in E as (v & Hv & Hm). rewrite <-list_elem_of_In in Hv. intros [= <-].
    exists vs, v. split; [by apply elem_of_cons; left|done].
  - intros (vs' & v & Hin & Hv)%IH. exists vs', v. split; [by apply elem_of_cons; right|done].
Qed.

Section handler.
Context (range : Values -> list (string * list string)).
Context (range_perm : forall m, range m ≡ₚ map_to_list m).

Lemma elem_of_range m k vs : (k, vs) ∈ range m <-> m !! k = Some vs.
Proof using range_perm. by rewrite range_perm, elem_of_map_to_list. Qed.

(** C35: Whatever the order in which the maps are iterated, a request goes on
    exactly when no decoded value of its query, and of its form where the form is
    looked at, is malicious; and a refusal is 400 and names a field that holds a
    malicious value. *)
Lemma InputValidation_spec r :
  let seen k vs := ParseQuery (RawQuery r) !! k = Some vs \/ (checks_form r = true /\ PostForm r !! k = Some vs) in
  (InputValidation range r = None <-> forall k vs v, seen k vs -> v ∈ vs -> isMalicious v = false) /\
  (forall answer, InputValidation range r = Some answer ->
   exists k vs v, seen k vs /\ v ∈ vs /\ isMalicious v = true /\ answer = invalid_input k).
Proof using range_perm.
  intros seen. unfold InputValidation, seen.
  destruct (malicious_field (range (ParseQuery (RawQuery r)))) as [k|] eqn:Hq.
  { apply malicious_field_Some in Hq as (vs & v & Hin%elem_of_range & Hv & Hm).
    split; [split; [done|]|].
    - intros H. rewrite (H k vs v) in Hm by auto. done.
    - intros answer [= <-]. exists k, vs, v. auto. }
  rewrite malicious_field_None in Hq. setoid_rewrite elem_of_range in Hq.
  destruct (checks_form r); [|split; [naive_solver|done]].
  destruct (malicious_field (range (PostForm r))) as [k|] eqn:Hf; simpl.
  - apply malicious_field_Some in Hf as (vs & v & Hin%elem_of_range & Hv & Hm).
    split; [split; [done|]|].
    + intros H. rewrite (H k vs v) in Hm by auto. done.
    + intros answer [= <-]. exists k, vs, v. auto.
  - rewrite malicious_field_None in Hf. setoid_rewrite elem_of_range in Hf.
    split; [|done]. split; [|done]. intros _ k vs v [?|[_ ?]] Hv; eauto.
Qed.

(** A multipart form is parsed by nobody: the handler looks at the query only. *)
Lemma multipart_unchecked r :
  media_type (Content_Type r) <> "application/x-www-form-urlencoded" ->
  InputValidation range r = invalid_input <$> malicious_field (range (ParseQuery (RawQuery r))).
Proof using range_perm.
  intros Hct. unfold InputValidation. destruct (malicious_field _); [done|].
  destruct (checks_form r); [|done]. unfold PostForm. rewrite (bool_decide_false (media_type _ = _)) by done.
  rewrite andb_false_r. simpl. destruct (malicious_field (range ∅)) eqn:E; [|done].
  by apply malicious_field_Some in E as (vs & v & ?%elem_of_range & _).
Qed.

Lemma InputValidation_code r code fields : InputValidation range r = Some (code, fields) -> code = 400.
Proof.
  unfold InputValidation. destruct (malicious_field _); [by intros [= <- _]|].
  destruct (checks_form r); [|done]. destruct (malicious_field _); [by intros [= <- _]|done].
Qed.

End handler.

Lemma InputValidation_spec_witness :
  let r := {| Method := "POST"; RawQuery := "q=1"; Content_Type := "application/x-www-form-urlencoded; charset=utf-8";
              Body := "a=b+c&n=x%27+OR+1" |} in
  InputValidation map_to_list r = Some (invalid_input "n") /\
  exists k vs v, v ∈ vs /\ isMalicious v = true /\ invalid_input "n" = invalid_input k /\
    (ParseQuery (RawQuery r) !! k = Some vs \/ (checks_form r = true /\ PostForm r !! k = Some vs)).
Proof.
  intros r. assert (InputValidation map_to_list r = Some (invalid_input "n")) as Hr by (by vm_compute).
  split; [exact Hr|].
  destruct (proj2 (InputValidation_spec map_to_list (fun m => Permutation_refl _) r) _ Hr)
    as (k & vs & v & Hs & Hv & Hm & Ha).
  exists k, vs, v. repeat (split; [assumption|]). exact Hs.
Defined.

Lemma isMalicious_blocks_witness :
  let s := "1' UNION all SELECT 2" in
  to_lower s = "1' " +:+ ("union" +:+ " all " +:+ "select") +:+ " 2" /\ isMalicious s = true.
Proof.
  split; [reflexivity|].
  apply (proj1 (isMalicious_blocks "1' UNION all SELECT 2" "1' " " 2" " all " "" eq_refl eq_refl) "union" "select").
  - left.
  - reflexivity.
Defined.

(** ** Fields *)

Abbreviation chars l := (Star (Cls false l)).

Lemma email_body :
  body emailRegex =
  seqs [Cat (Cls false local_chars) (chars local_chars); literal "@";
        Cat (Cls false domain_chars) (chars domain_chars); literal ".";
        Cat (Cat (Cls false letters) (Cls false letters)) (chars letters)].
Proof. by vm_compute. Qed.

Lemma phone_body :
  body phoneRegex =
  seqs [alt Eps (literal "+"); Cls false [("1", "9")]%char;
        Cat (Cls false digits) (seqs (replicate 13 (Alt Eps (Cls false digits))))].
Proof. by vm_compute. Qed.

(** An address is accepted exactly when it is a local part, an at sign, a
    domain, a dot and at least two letters, the first two not empty and of the
    characters the pattern lists. *)
Lemma validateEmail_spec s :
  validateEmail s = true <->
  exists l d t, s = l +:+ "@" +:+ d +:+ "." +:+ t /\
    (l <> "" /\ all_in local_chars l = true) /\ (d <> "" /\ all_in domain_chars d = true) /\
    ((2 <= String.length t)%nat /\ all_in letters t = true).
Proof.
  unfold validateEmail. rewrite MatchString_whole by done. rewrite email_body.
  setoid_rewrite all_in_spec. setoid_rewrite <-matches_plus_class. setoid_rewrite <-matches_two_class.
  cbn [seqs foldr]. split.
  - intros (l & ? & -> & Hl & (? & ? & -> & ->%matches_literal_iff & (d & ? & -> & Hd & (? & ? & -> &
      ->%matches_literal_iff & (t & ? & -> & Ht & ->%matches_Eps)%matches_cat_iff)%matches_cat_iff
      )%matches_cat_iff)%matches_cat_iff)%matches_cat_iff.
    exists l, d, t. by rewrite append_nil_r.
  - intros (l & d & t & -> & Hl & Hd & Ht). rewrite <-(append_nil_r t).
    repeat apply matches_cat_app; try done; try apply matches_literal. constructor.
Qed.

(** A number is accepted exactly when it is an optional plus sign, a digit that
    is not zero, and one to fourteen further digits. *)
Lemma validatePhone_spec s :
  validatePhone s = true <->
  exists p c ds, s = p +:+ String c ds /\ p ∈ [""; "+"] /\ in_class false [("1", "9")]%char c = true /\
    (1 <= String.length ds <= 14)%nat /\ all_in digits ds = true.
Proof.
  unfold validatePhone. rewrite MatchString_whole by done. rewrite phone_body.
  setoid_rewrite all_in_spec. setoid_rewrite <-matches_between_class.
  cbn [seqs foldr]. split.
  - intros (p & ? & -> & Hp & (? & ? & -> & (c & -> & Hc)%matches_Cls &
      (ds & ? & -> & Hd & ->%matches_Eps)%matches_cat_iff)%matches_cat_iff)%matches_cat_iff.
    exists p, c, ds. rewrite append_nil_r. split; [done|]. split; [|done].
    rewrite matches_alt, matches_Eps, matches_literal_iff in Hp. rewrite !elem_of_cons. destruct Hp as [->| ->]; auto.
  - intros (p & c & ds & -> & Hp & Hc & Hd). rewrite <-(append_nil_r ds).
    apply matches_cat_app; [|apply (matches_cat_app _ _ (String c "")); [by constructor|]].
    + rewrite matches_alt, matches_Eps, matches_literal_iff. rewrite !elem_of_cons in Hp.
      destruct Hp as [->|[->|?%not_elem_of_nil]]; [by left|by right|done].
    + apply matches_cat_app; [exact Hd|constructor].
Qed.

(** The last message of a field wins. *)
Lemma FormatValidationErrors_lookup errs e :
  FormatValidationErrors (Some (errs ++ [e])) !! fe_Field e = Some (formatErrorMessage e).
Proof. unfold FormatValidationErrors. simpl. by rewrite foldl_snoc, lookup_insert_eq. Qed.

Lemma FormatValidationErrors_dom errs :
  dom (FormatValidationErrors (Some errs)) =@{gset string} list_to_set (fe_Field <$> errs).
Proof.
  unfold FormatValidationErrors. simpl. induction errs as [|e errs IH] using rev_ind; [set_solver|].
  rewrite foldl_snoc, dom_insert_L, IH, fmap_app, list_to_set_app_L. simpl. set_solver.
Qed.
