(* ===== verification/NetIP.v ===== *)
(** * Network addresses

    The part of the language's [net/netip] the library uses: reading addresses and
    prefixes, masking, covering, and their texts. An address is a number of 32 or
    128 bits. The text of a canonical prefix reads back as the prefix. *)

From S2P Require Import Prelude GoStrings Regex Digits.
From Stdlib Require Import Ascii.

(** ** Addresses *)

Inductive Addr := V4 (n : Z) | V6 (n : Z) (zone : string).

#[export] Instance Addr_eq_dec : EqDecision Addr.
Proof. solve_decision. Defined.

Definition BitLen (a : Addr) : Z := match a with V4 _ => 32 | V6 _ _ => 128 end.
Definition number (a : Addr) : Z := match a with V4 n | V6 n _ => n end.
Definition zone (a : Addr) : string := match a with V4 _ => "" | V6 _ z => z end.

Definition with_number (a : Addr) (n : Z) : Addr := match a with V4 _ => V4 n | V6 _ z => V6 n z end.
Definition withoutZone (a : Addr) : Addr := match a with V4 n => V4 n | V6 n _ => V6 n "" end.

(** A decimal number without sign or leading zero. *)
Fixpoint dec_value (acc : Z) (s : string) : option Z :=
  match s with
  | EmptyString => Some acc
  | String c s => if is_digit c then dec_value (10 * acc + dec_digit c) s else None
  end.

Definition decimal (max : Z) (s : string) : option Z :=
  if bool_decide (s = "") || HasPrefix s "0" && negb (bool_decide (s = "0")) then None
  else n ← dec_value 0 s; if bool_decide (n <= max) then Some n else None.

(** Four numbers up to 255 between dots. *)
Definition octets (s : string) : option (list Z) :=
  l ← mapM (decimal 255) (Split s "."); if bool_decide (length l = 4%nat) then Some l else None.

Definition parseIPv4 (s : string) : option Addr := l ← octets s; Some (V4 (of_digits 256 l)).

(** The hexadecimal digits at the front: their value, their number, the rest. *)
Definition hex_digit (c : ascii) : option Z :=
  if is_digit c then Some (dec_digit c)
  else if in_class false [("a", "f")]%char c then Some (Z.of_nat (nat_of_ascii c) - 87)
  else if in_class false [("A", "F")]%char c then Some (Z.of_nat (nat_of_ascii c) - 55)
  else None.

Fixpoint hex_run (acc : Z) (off : nat) (s : string) : Z * nat * string :=
  match s with
  | EmptyString => (acc, off, "")
  | String c s' =>
      match hex_digit c with
      | Some d => hex_run (16 * acc + d) (S off) s'
      | None => (acc, off, s)
      end
  end.

(** The loop over the groups: those read so far, where [::] stood, and the rest of
    the text. [room] is how many groups still fit. *)
Fixpoint groups6 (room : nat) (s : string) (groups : list Z) (ellipsis : option nat)
    : option (list Z * option nat * string) :=
  match room with
  | O => Some (groups, ellipsis, s)
  | S room =>
      let '(v, off, rest) := hex_run 0 0 s in
      if bool_decide (off = 0 \/ 4 < off)%nat then None
      else
        let next := groups ++ [v] in
        match rest with
        | EmptyString => Some (next, ellipsis, "")
        | String c t =>
            if bool_decide (c = "."%char) then
              if bool_decide (ellipsis = None /\ length groups <> 6%nat) || bool_decide (6 < length groups)%nat
              then None
              else match octets s with
                   | Some [a; b; c; d] => Some (groups ++ [256 * a + b; 256 * c + d], ellipsis, "")
                   | _ => None
                   end
            else if bool_decide (c = ":"%char) then
              match t with
              | EmptyString => None
              | String d u =>
                  if bool_decide (d = ":"%char) then
                    match ellipsis with
                    | Some _ => None
                    | None => if bool_decide (u = "") then Some (next, Some (length next), "")
                              else groups6 room u next (Some (length next))
                    end
                  else groups6 room t next ellipsis
              end
            else None
        end
  end.

(** The groups left out at [::] are zero, and there is at least one. *)
Definition expand (groups : list Z) (ellipsis : option nat) : option (list Z) :=
  match ellipsis with
  | None => if bool_decide (length groups = 8%nat) then Some groups else None
  | Some e =>
      if bool_decide (length groups < 8)%nat
      then Some (take e groups ++ replicate (8 - length groups) 0 ++ drop e groups) else None
  end.

(** The zone after the first percent sign. *)
Definition split_zone (text : string) : string * option string :=
  match Split text "%" with
  | s :: (_ :: _) as rest => (s, Some (Join rest "%"))
  | _ => (text, None)
  end.

Definition finish6 (z : string) (r : option (list Z * option nat * string)) : option Addr :=
  match r with
  | Some (groups, ellipsis, EmptyString) => l ← expand groups ellipsis; Some (V6 (of_digits 65536 l) z)
  | _ => None
  end.

Definition parseIPv6 (text : string) : option Addr :=
  let '(s, z) := split_zone text in
  if bool_decide (z = Some "") then None
  else
    let z := default "" z in
    if bool_decide (s = "::") then Some (V6 0 z)
    else
      finish6 z (if HasPrefix s "::" then groups6 8 (TrimPrefix s "::") [] (Some 0%nat) else groups6 8 s [] None).

(** The first dot, colon or percent sign says what the text can be. *)
Fixpoint first_mark (s : string) : option ascii :=
  match s with
  | EmptyString => None
  | String c s => if bool_decide (c ∈ ["."; ":"; "%"]%char) then Some c else first_mark s
  end.

Definition ParseAddr (s : string) : option Addr :=
  c ← first_mark s;
  if bool_decide (c = "."%char) then parseIPv4 s
  else if bool_decide (c = ":"%char) then parseIPv6 s
  else None.

(** ** Prefixes *)

Record Prefix := { Addr_of : Addr; Bits : Z }.

#[export] Instance Prefix_eq_dec : EqDecision Prefix.
Proof. solve_decision. Defined.

Definition PrefixFrom (a : Addr) (bits : Z) : Prefix := {| Addr_of := withoutZone a; Bits := bits |}.

Definition ParsePrefix (s : string) : option Prefix :=
  match rev (Split s "/") with
  | bitsStr :: (_ :: _) as front =>
      a ← ParseAddr (Join (rev front) "/");
      if bool_decide (zone a <> "") then None
      else bits ← decimal (BitLen a) bitsStr; Some (PrefixFrom a bits)
  | _ => None
  end.

(** The number of bits a prefix leaves open. *)
Definition host (p : Prefix) : Z := BitLen (Addr_of p) - Bits p.

Definition Masked (p : Prefix) : Prefix :=
  {| Addr_of := with_number (Addr_of p) (Z.shiftl (Z.shiftr (number (Addr_of p)) (host p)) (host p)); Bits := Bits p |}.

(** An address of the other family or with a zone is in no prefix. *)
Definition covers (p : Prefix) (a : Addr) : bool :=
  bool_decide (BitLen a = BitLen (Addr_of p) /\ zone a = "") &&
  bool_decide (Z.shiftr (Z.lxor (number a) (number (Addr_of p))) (host p) = 0).

(** ** Texts *)

Definition dec_text (n : Z) : string := pretty n.

Definition hex_char (d : Z) : ascii := ascii_of_nat (Z.to_nat (if bool_decide (d < 10) then 48 + d else 87 + d)).

(** Without leading zeros, but with one digit at least. *)
Fixpoint significant (l : list Z) : list Z :=
  match l with
  | d :: (_ :: _) as l' => if bool_decide (d = 0) then significant l' else l
  | _ => l
  end.

Definition hex_string (l : list Z) : string := foldr (fun d s => String (hex_char d) s) "" l.

Definition hex_text (v : Z) : string := hex_string (significant (to_digits 4 16 v)).

Fixpoint zeros_at (l : list Z) : nat :=
  match l with [] => 0 | v :: l => if bool_decide (v = 0) then S (zeros_at l) else 0 end.

(** The first longest run of at least two zeros: where it starts and its length. *)
Definition zero_run (l : list Z) : nat * nat :=
  foldl (fun best i =>
    let n := zeros_at (drop i l) in
    if bool_decide (2 <= n /\ snd best < n)%nat then (i, n) else best) (0, 0)%nat (seq 0 8).

Definition text4 (n : Z) : string := Join (map dec_text (to_digits 4 256 n)) ".".

Definition text_groups (l : list Z) : string :=
  let '(start, len) := zero_run l in
  if bool_decide (len = 0%nat) then Join (map hex_text l) ":"
  else Join (map hex_text (take start l)) ":" +:+ "::" +:+ Join (map hex_text (drop (start + len) l)) ":".

Definition text6 (n : Z) : string := text_groups (to_digits 8 65536 n).

Definition Is4In6 (a : Addr) : bool :=
  match a with V4 _ => false | V6 n _ => bool_decide (Z.shiftr n 32 = 65535) end.

Definition addr_text (a : Addr) : string :=
  match a with
  | V4 n => text4 n
  | V6 n _ => if Is4In6 a then "::ffff:" +:+ text4 (n mod 2 ^ 32) else text6 n
  end.

Definition prefix_String (p : Prefix) : string := addr_text (Addr_of p) +:+ "/" +:+ dec_text (Bits p).

Definition in_width (a : Addr) : Prop := 0 <= number a < 2 ^ BitLen a.

#[export] Instance in_width_dec a : Decision (in_width a).
Proof. unfold in_width. solve_decision. Defined.

(** The prefixes a list of proxies is made of: masked, within the width. *)
Definition canonical (p : Prefix) : Prop :=
  in_width (Addr_of p) /\ 0 <= Bits p <= BitLen (Addr_of p) /\ zone (Addr_of p) = "" /\ Masked p = p.

(** ** Covering *)

Lemma covers_spec p a :
  covers p a = true <->
  BitLen a = BitLen (Addr_of p) /\ zone a = "" /\
  Z.shiftr (number a) (host p) = Z.shiftr (number (Addr_of p)) (host p).
Proof.
  unfold covers. rewrite andb_true_iff, !bool_decide_eq_true, Z.shiftr_lxor, Z.lxor_eq_0_iff. tauto.
Qed.

(** What agrees above a bit agrees above every higher bit. *)
Lemma shiftr_mono a b j k : 0 <= j <= k -> Z.shiftr a j = Z.shiftr b j -> Z.shiftr a k = Z.shiftr b k.
Proof. intros Hj H. replace k with (j + (k - j)) by lia. by rewrite <-!Z.shiftr_shiftr, H by lia. Qed.

Lemma BitLen_Masked p : BitLen (Addr_of (Masked p)) = BitLen (Addr_of p).
Proof. by unfold Masked; destruct (Addr_of p). Qed.

Lemma shiftr_masked p : 0 <= host p -> Z.shiftr (number (Addr_of (Masked p))) (host p) = Z.shiftr (number (Addr_of p)) (host p).
Proof.
  intros Hh. unfold Masked. destruct (Addr_of p); simpl;
    by rewrite Z.shiftr_shiftl_l, Z.sub_diag, Z.shiftl_0_r by lia.
Qed.

Lemma masked_in_width p : 0 <= host p -> in_width (Addr_of p) -> in_width (Addr_of (Masked p)).
Proof.
  intros Hh Hw. unfold in_width in *. rewrite BitLen_Masked.
  enough (0 <= number (Addr_of (Masked p)) <= number (Addr_of p)) by lia.
  unfold Masked. destruct (Addr_of p); simpl in *; rewrite Z.shiftr_div_pow2, Z.shiftl_mul_pow2 by lia;
    (split; [apply Z.mul_nonneg_nonneg; [apply Z.div_pos|]; lia|]);
    rewrite Z.mul_comm; apply Z.mul_div_le; lia.
Qed.

Lemma Masked_covers p a : 0 <= host p -> covers (Masked p) a = covers p a.
Proof.
  intros Hh. apply eq_true_iff_eq. rewrite !covers_spec, BitLen_Masked.
  change (host (Masked p)) with (BitLen (Addr_of (Masked p)) - Bits p). rewrite BitLen_Masked.
  change (BitLen (Addr_of p) - Bits p) with (host p). by rewrite shiftr_masked.
Qed.

(** ** What is read fits *)

Lemma dec_value_nonneg acc s n : 0 <= acc -> dec_value acc s = Some n -> 0 <= n.
Proof.
  revert acc. induction s as [|c s IH]; intros acc Ha; simpl; [by intros [= <-]|].
  destruct (is_digit c) eqn:Hc; [|done]. apply digit_range in Hc. apply IH. lia.
Qed.

Lemma decimal_range max s n : decimal max s = Some n -> 0 <= n <= max.
Proof.
  unfold decimal. destruct (_ || _); [done|]. destruct (dec_value 0 s) as [m|] eqn:Hm; simpl; [|done].
  case_bool_decide; [|done]. intros [= <-]. apply dec_value_nonneg in Hm; lia.
Qed.

Lemma octets_range s l : octets s = Some l -> length l = 4%nat /\ digits_below 256 l.
Proof.
  unfold octets. destruct (mapM _ _) as [l'|] eqn:Hm; simpl; [|done].
  case_bool_decide as Hl; [|done]. intros [= <-]. split; [done|].
  apply mapM_Some_1 in Hm. clear Hl. induction Hm as [|t n ts ns Hn _ IH]; constructor; [|done].
  apply decimal_range in Hn. lia.
Qed.

Lemma hex_digit_range c d : hex_digit c = Some d -> 0 <= d < 16.
Proof.
  unfold hex_digit. destruct (is_digit c) eqn:Hc; [apply digit_range in Hc; intros [= <-]; lia|].
  destruct (in_class false [("a", "f")]%char c) eqn:E.
  - apply in_one_range in E. change (Z.of_nat (nat_of_ascii "a")) with 97 in E.
    change (Z.of_nat (nat_of_ascii "f")) with 102 in E. intros [= <-]. lia.
  - destruct (in_class false [("A", "F")]%char c) eqn:E'; [|done]. apply in_one_range in E'.
    change (Z.of_nat (nat_of_ascii "A")) with 65 in E'. change (Z.of_nat (nat_of_ascii "F")) with 70 in E'.
    intros [= <-]. lia.
Qed.

Lemma hex_run_range acc off s v n rest :
  0 <= acc < 16 ^ Z.of_nat off -> hex_run acc off s = (v, n, rest) -> 0 <= v < 16 ^ Z.of_nat n.
Proof.
  revert acc off. induction s as [|c s IH]; intros acc off Ha; simpl; [by intros [= <- <- _]|].
  destruct (hex_digit c) as [d|] eqn:Hd; [|by intros [= <- <- _]].
  apply hex_digit_range in Hd. apply IH. rewrite Nat2Z.inj_succ, Z.pow_succ_r by lia. lia.
Qed.

Lemma hex_run_group s v n rest : hex_run 0 0 s = (v, n, rest) -> (n <= 4)%nat -> 0 <= v < 65536.
Proof.
  intros Hr Hn. apply hex_run_range in Hr; [|done].
  assert (16 ^ Z.of_nat n <= 16 ^ 4) by (apply Z.pow_le_mono_r; lia). lia.
Qed.

(** The groups read fit in 16 bits, and [::] stands among them. *)
Definition groups_ok (l : list Z) (e : option nat) : Prop :=
  digits_below 65536 l /\ match e with Some e => (e <= length l)%nat | None => True end.

Lemma groups_ok_app l e l' : groups_ok l e -> digits_below 65536 l' -> groups_ok (l ++ l') e.
Proof.
  intros [Hl He] Hl'. split; [by apply Forall_app|]. destruct e; [|done]. rewrite length_app. lia.
Qed.

Lemma groups6_ok room s groups e l e' rest :
  groups_ok groups e -> groups6 room s groups e = Some (l, e', rest) -> groups_ok l e'.
Proof.
  revert s groups e. induction room as [|room IH]; intros s groups e Hg; simpl; [by intros [= <- <- _]|].
  destruct (hex_run 0 0 s) as [[v off] t] eqn:Hr. case_bool_decide as Hoff; [done|].
  assert (groups_ok (groups ++ [v]) e) as Hn.
  { apply groups_ok_app; [done|]. apply Forall_singleton, (hex_run_group _ _ _ _ Hr). lia. }
  assert (groups_ok (groups ++ [v]) (Some (length (groups ++ [v])))) as Hn' by (by destruct Hn).
  repeat (case_match; try done); intros; simplify_eq; eauto.
  apply groups_ok_app; [done|].
  match goal with H : octets _ = Some _ |- _ => apply octets_range in H as [_ H] end.
  unfold digits_below in *. rewrite !Forall_cons in *. destruct_and!. split; [lia|]. split; [lia|done].
Qed.

Lemma expand_ok l e l' :
  groups_ok l e -> expand l e = Some l' -> digits_below 65536 l' /\ length l' = 8%nat.
Proof.
  unfold expand. intros [Hl He]. destruct e as [e|]; case_bool_decide as Hlen; try done; intros [= <-]; [|done].
  split.
  - apply Forall_app. split; [by apply Forall_take|]. apply Forall_app.
    split; [apply Forall_replicate; lia|by apply Forall_drop].
  - rewrite !length_app, length_take, length_drop, length_replicate. lia.
Qed.

Lemma parseIPv6_width s a : parseIPv6 s = Some a -> in_width a /\ BitLen a = 128.
Proof.
  unfold parseIPv6. destruct (split_zone s) as [t z]. case_bool_decide; [done|].
  case_bool_decide; [by intros [= <-]|].
  destruct (if HasPrefix t "::" then _ else _) as [[[l e] [|]]|] eqn:Hg; simpl; [|done..].
  destruct (expand l e) as [l'|] eqn:He; simpl; [|done]. intros [= <-].
  split; [|done]. assert (groups_ok l e) as Hok.
  { destruct (HasPrefix t "::"); eapply groups6_ok; try exact Hg; (split; [constructor|done || (simpl; lia)]). }
  apply expand_ok in He as [Hd Hl]; [|done].
  pose proof (of_digits_range 65536 l' ltac:(lia) Hd) as Hr. by rewrite Hl in Hr.
Qed.

Lemma ParseAddr_width s a : ParseAddr s = Some a -> in_width a.
Proof.
  unfold ParseAddr. destruct (first_mark s); simpl; [|done]. case_bool_decide.
  - unfold parseIPv4. destruct (octets s) as [l|] eqn:Ho; simpl; [|done]. intros [= <-].
    apply octets_range in Ho as [Hl Hd].
    pose proof (of_digits_range 256 l ltac:(lia) Hd) as Hr. by rewrite Hl in Hr.
  - case_bool_decide; [|done]. by intros [? _]%parseIPv6_width.
Qed.

Definition well_formed (p : Prefix) : Prop :=
  in_width (Addr_of p) /\ 0 <= Bits p <= BitLen (Addr_of p) /\ zone (Addr_of p) = "".

Lemma PrefixFrom_ok a bits : in_width a -> 0 <= bits <= BitLen a -> well_formed (PrefixFrom a bits).
Proof. by destruct a. Qed.

Lemma ParsePrefix_ok s p : ParsePrefix s = Some p -> well_formed p.
Proof.
  unfold ParsePrefix. destruct (rev (Split s "/")) as [|bitsStr [|x front]]; try done.
  destruct (ParseAddr _) as [a|] eqn:Ha; simpl; [|done]. case_bool_decide; [done|].
  destruct (decimal _ _) as [bits|] eqn:Hb; simpl; [|done]. intros [= <-].
  apply PrefixFrom_ok; [by eapply ParseAddr_width|by eapply decimal_range].
Qed.

Lemma Masked_canonical p : well_formed p -> canonical (Masked p).
Proof.
  intros (Hw & Hb & Hz). assert (0 <= host p) as Hh by (unfold host; lia).
  split; [by apply masked_in_width|]. rewrite BitLen_Masked. split; [done|].
  split; [unfold Masked; by destruct (Addr_of p)|].
  unfold Masked, host. destruct p as [[n|n z] bits]; unfold host in Hh; simpl in *; unfold host; simpl;
    rewrite (Z.shiftr_shiftl_l _ _ _ Hh), Z.sub_diag, Z.shiftl_0_r; done.
Qed.

(** ** Texts read back *)

(** The marks of addresses, prefixes and lists of them, and the bytes with which
    white space starts. *)
Definition marks : list ascii :=
  ["."; ":"; "%"; "/"; ","; "009"; "010"; "011"; "012"; "013"; " "; "194"; "225"; "226"; "227"]%char.

Ltac mark := first [done | by apply (bool_decide_unpack _)].

Definition no_marks (s : string) : bool := forallb (fun c => negb (string_elem c s)) marks.

(** The texts of all bytes, computed. *)
Lemma dec_texts :
  Forall (fun n => decimal 255 (dec_text n) = Some n /\ no_marks (dec_text n) = true /\
    let '(_, off, rest) := hex_run 0 0 (dec_text n) in rest = "" /\ (1 <= off <= 4)%nat) (seqZ 0 256).
Proof. apply (bool_decide_unpack _). by vm_compute. Qed.

(** The texts of the hexadecimal digits. *)
Lemma hex_chars :
  Forall (fun d => hex_digit (hex_char d) = Some d /\ no_marks (String (hex_char d) "") = true) (seqZ 0 16).
Proof. apply (bool_decide_unpack _). by vm_compute. Qed.

Lemma hex_chars_below l :
  digits_below 16 l ->
  Forall (fun d => hex_digit (hex_char d) = Some d /\ no_marks (String (hex_char d) "") = true) l.
Proof. apply digits_below_lookup, hex_chars. Qed.

Lemma of_digits_cons_0 base l : of_digits base (0 :: l) = of_digits base l.
Proof. done. Qed.

Lemma of_digits_significant base l : of_digits base (significant l) = of_digits base l.
Proof.
  induction l as [|d [|d' l] IH]; [done..|]. simpl. case_bool_decide; [|done]. subst. exact IH.
Qed.

Lemma significant_suffix l : l <> [] -> significant l <> [] /\ exists k, l = k ++ significant l.
Proof.
  induction l as [|d [|d' l] IH]; intros Hne; [done|split; [done|by exists []]|].
  simpl. case_bool_decide; [|split; [done|by exists []]].
  destruct IH as [Hs [k Hk]]; [done|]. split; [done|]. exists (d :: k). exact (f_equal (cons d) Hk).
Qed.

Lemma hex_run_string acc off l rest :
  digits_below 16 l -> match rest with String c _ => hex_digit c = None | EmptyString => True end ->
  hex_run acc off (hex_string l +:+ rest) = (foldl (fun a d => 16 * a + d) acc l, (off + length l)%nat, rest).
Proof.
  intros Hl%hex_chars_below Hrest. revert acc off. induction Hl as [|d l [Hd _] _ IH]; intros acc off.
  - simpl. rewrite Nat.add_0_r. destruct rest as [|c rest]; [done|]. simpl. by rewrite Hrest.
  - simpl hex_string. rewrite append_String. cbn [hex_run]. rewrite Hd, IH. simpl. do 2 f_equal. lia.
Qed.

Lemma foldl_of_digits l : foldl (fun a d => 16 * a + d) 0 l = of_digits 16 l.
Proof.
  unfold of_digits. generalize 0. induction l as [|d l IH]; intros a; simpl; [done|].
  rewrite <-IH. f_equal. lia.
Qed.

(** What follows a group in a text. *)
Definition ends_group (rest : string) : Prop :=
  match rest with String c _ => hex_digit c = None | EmptyString => True end.

Lemma hex_text_digits v :
  exists l, hex_text v = hex_string l /\ digits_below 16 l /\ (1 <= length l <= 4)%nat /\
    (0 <= v < 65536 -> of_digits 16 l = v).
Proof.
  exists (significant (to_digits 4 16 v)). pose proof (to_digits_below 4 16 v ltac:(lia)) as Hd.
  destruct (significant_suffix (to_digits 4 16 v)) as [Hne [k Hk]]; [by destruct (to_digits 3 16 (v / 16))|].
  pose proof (f_equal length Hk) as Hlen. rewrite to_digits_length, length_app in Hlen.
  rewrite Hk in Hd. apply Forall_app in Hd as [_ Hd]. split; [done|]. split; [done|]. split.
  - destruct (significant _) eqn:E; [done|]. simpl in *. lia.
  - intros Hv. by rewrite of_digits_significant, of_to_digits by (done || exact Hv).
Qed.

Lemma hex_text_run v rest :
  0 <= v < 65536 -> ends_group rest ->
  exists off, hex_run 0 0 (hex_text v +:+ rest) = (v, off, rest) /\ (1 <= off <= 4)%nat.
Proof.
  intros Hv Hr. destruct (hex_text_digits v) as (l & -> & Hd & Hlen & Hl). exists (length l). split; [|done].
  rewrite hex_run_string by done. by rewrite foldl_of_digits, Hl.
Qed.

(** A group's text starts with a digit and has no mark. *)
Lemma hex_text_head v : exists c s, hex_text v = String c s /\ c ∉ marks.
Proof.
  destruct (hex_text_digits v) as (l & -> & Hd & Hlen & _). apply hex_chars_below in Hd.
  destruct Hd as [|d l [_ Hm] _]; [simpl in Hlen; lia|].
  exists (hex_char d), (hex_string l). split; [done|]. intros Hin. unfold no_marks in Hm.
  rewrite forallb_forall in Hm. apply list_elem_of_In, Hm in Hin. simpl in Hin. by rewrite bool_decide_true in Hin.
Qed.

Lemma no_marks_app s t : no_marks (s +:+ t) = no_marks s && no_marks t.
Proof.
  unfold no_marks. induction marks as [|c l IH]; simpl; [done|].
  rewrite string_elem_append, IH. by destruct (string_elem c s), (string_elem c t), (forallb (fun c => negb (string_elem c s)) l),
    (forallb (fun c => negb (string_elem c t)) l).
Qed.

Lemma hex_text_no_marks v : no_marks (hex_text v) = true.
Proof.
  destruct (hex_text_digits v) as (l & -> & Hd & _). apply hex_chars_below in Hd.
  induction Hd as [|d l [_ Hm] _ IH]; [done|].
  change (hex_string (d :: l)) with (String (hex_char d) "" +:+ hex_string l). by rewrite no_marks_app, Hm, IH.
Qed.

Abbreviation colons l := (Join (map hex_text l) ":").

Lemma colons_cons v w l : colons (v :: w :: l) = hex_text v +:+ String ":" (colons (w :: l)).
Proof. done. Qed.

Lemma colons_head v l : exists c s, colons (v :: l) = String c s /\ c ∉ marks.
Proof.
  destruct (hex_text_head v) as (c & s & Hc & Hm). destruct l as [|w l]; [by exists c, s|].
  rewrite colons_cons, Hc. by exists c, (s +:+ String ":" (colons (w :: l))).
Qed.

Lemma not_colon c : c ∉ marks -> bool_decide (c = ":"%char) = false.
Proof. intros Hc. apply bool_decide_eq_false. intros ->. apply Hc. right. left. Qed.

(** One group of a text: what the loop does after it. *)
Lemma groups6_end room v groups e :
  0 <= v < 65536 -> groups6 (S room) (hex_text v) groups e = Some (groups ++ [v], e, "").
Proof.
  intros Hv. destruct (hex_text_run v "" Hv I) as (off & Hr & Hoff). rewrite append_nil_r in Hr.
  cbn [groups6]. rewrite Hr. rewrite bool_decide_false by lia. done.
Qed.

Lemma groups6_colon room v c t groups e :
  0 <= v < 65536 -> c ∉ marks ->
  groups6 (S room) (hex_text v +:+ String ":" (String c t)) groups e = groups6 room (String c t) (groups ++ [v]) e.
Proof.
  intros Hv Hc. destruct (hex_text_run v (String ":" (String c t)) Hv eq_refl) as (off & Hr & Hoff).
  cbn [groups6]. rewrite Hr. rewrite bool_decide_false by lia. simpl. by rewrite not_colon.
Qed.

Lemma groups6_colons room v t groups :
  0 <= v < 65536 ->
  groups6 (S room) (hex_text v +:+ "::" +:+ t) groups None =
  if bool_decide (t = "") then Some (groups ++ [v], Some (length (groups ++ [v])), "")
  else groups6 room t (groups ++ [v]) (Some (length (groups ++ [v]))).
Proof.
  intros Hv. destruct (hex_text_run v ("::" +:+ t) Hv eq_refl) as (off & Hr & Hoff).
  cbn [groups6]. rewrite Hr. rewrite bool_decide_false by lia. done.
Qed.

Lemma groups6_all l room groups e :
  l <> [] -> (length l <= room)%nat -> digits_below 65536 l ->
  groups6 room (colons l) groups e = Some (groups ++ l, e, "").
Proof.
  revert room groups. induction l as [|v [|w l] IH]; intros room groups Hne Hlen Hd; [done| |];
    (destruct room as [|room]; [simpl in Hlen; lia|]); apply Forall_cons in Hd as [Hv Hd].
  - by apply groups6_end.
  - rewrite colons_cons. destruct (colons_head w l) as (c & s & Hc & Hm). rewrite Hc, groups6_colon, <-Hc by done.
    rewrite IH; [by rewrite <-app_assoc|done|simpl in *; lia|done].
Qed.

Lemma groups6_gap l room groups t :
  l <> [] -> (length l <= room)%nat -> digits_below 65536 l ->
  groups6 room (colons l +:+ "::" +:+ t) groups None =
  if bool_decide (t = "") then Some (groups ++ l, Some (length (groups ++ l)), "")
  else groups6 (room - length l) t (groups ++ l) (Some (length (groups ++ l))).
Proof.
  revert room groups. induction l as [|v [|w l] IH]; intros room groups Hne Hlen Hd; [done| |];
    (destruct room as [|room]; [simpl in Hlen; lia|]); apply Forall_cons in Hd as [Hv Hd].
  - change (colons [v]) with (hex_text v). rewrite (groups6_colons room v t groups Hv). simpl. by rewrite Nat.sub_0_r.
  - rewrite colons_cons, append_assoc, append_String. destruct (colons_head w l) as (c & s & Hc & Hm).
    rewrite Hc, append_String, groups6_colon, <-append_String, <-Hc by done.
    rewrite IH; [by rewrite <-app_assoc|done|simpl in *; lia|done].
Qed.

(** The run of zeros left out of a text. *)
Lemma zeros_at_spec l : take (zeros_at l) l = replicate (zeros_at l) 0 /\ (zeros_at l <= length l)%nat.
Proof.
  induction l as [|v l [IH Hl]]; simpl; [split; [done|lia]|]. case_bool_decide; simpl; [|split; [done|lia]].
  subst. rewrite IH. split; [done|lia].
Qed.

Definition run_ok (l : list Z) (best : nat * nat) : Prop :=
  (2 <= snd best)%nat /\ (fst best + snd best <= length l)%nat /\
  l = take (fst best) l ++ replicate (snd best) 0 ++ drop (fst best + snd best) l.

Lemma zero_run_spec l : zero_run l = (0, 0)%nat \/ run_ok l (zero_run l).
Proof.
  unfold zero_run. set (f := fun best i => _).
  enough (forall js best, best = (0, 0)%nat \/ run_ok l best ->
            foldl f best js = (0, 0)%nat \/ run_ok l (foldl f best js)) as H by (apply H; by left).
  intros js. induction js as [|i js IH]; intros best Hb; [done|]. simpl. apply IH.
  unfold f. case_bool_decide as Hn; [|done]. right. unfold run_ok. simpl.
  destruct (zeros_at_spec (drop i l)) as [Ht Hl]. rewrite length_drop in Hl.
  split; [lia|]. split; [lia|]. rewrite <-Ht.
  by rewrite <-drop_drop, take_drop, take_drop.
Qed.

Lemma octets_text4 n : octets (text4 n) = Some (to_digits 4 256 n).
Proof.
  assert (Forall (fun d => decimal 255 (dec_text d) = Some d /\ no_marks (dec_text d) = true) (to_digits 4 256 n)) as Ht.
  { eapply Forall_impl; [apply (digits_below_lookup 256 _ dec_texts), to_digits_below; lia|].
    intros d (H1 & H2 & _). done. }
  unfold octets, text4. rewrite Split_Join.
  - assert (mapM (decimal 255) (map dec_text (to_digits 4 256 n)) = Some (to_digits 4 256 n)) as ->; [|done].
    apply mapM_Some_2, Forall2_fmap_l, Forall_Forall2_diag. eapply Forall_impl; [exact Ht|]. intros d [H1 _]. exact H1.
  - done.
  - apply Forall_fmap. eapply Forall_impl; [exact Ht|]. intros d [_ Hm]. unfold no_marks in Hm. simpl in *.
    by destruct (string_elem "." (dec_text d)).
Qed.

(** The first byte of a text decides how it is read. *)
Lemma first_mark_app s c t : no_marks s = true -> c ∈ ["."; ":"; "%"]%char -> first_mark (s +:+ String c t) = Some c.
Proof.
  intros Hs Hc. induction s as [|d s IH]; [simpl; by rewrite bool_decide_true|].
  change (String d s) with (String d "" +:+ s) in Hs. rewrite no_marks_app, andb_true_iff in Hs.
  destruct Hs as [Hd Hs]. rewrite append_String. simpl. rewrite bool_decide_false; [by apply IH|].
  intros Hin. unfold no_marks in Hd. rewrite forallb_forall in Hd.
  assert (d ∈ marks) as Hm by (rewrite !elem_of_cons in Hin; unfold marks; rewrite !elem_of_cons; tauto).
  apply list_elem_of_In, Hd in Hm. simpl in Hm. by rewrite bool_decide_true in Hm.
Qed.

Lemma to_digits_S n base v : exists d l, to_digits (S n) base v = d :: l /\ length l = n.
Proof.
  pose proof (to_digits_length (S n) base v) as Hl. destruct (to_digits (S n) base v) as [|d l]; [done|].
  exists d, l. split; [done|]. by injection Hl.
Qed.

Lemma ParseAddr_text4 n : 0 <= n < 2 ^ 32 -> ParseAddr (text4 n) = Some (V4 n).
Proof.
  intros Hn. assert (first_mark (text4 n) = Some "."%char) as Hm.
  { unfold text4. pose proof (to_digits_below 4 256 n ltac:(lia)) as Hd.
    destruct (to_digits_S 3 256 n) as (d & [|d' l] & Hl & Hlen); [done|]. rewrite Hl in *.
    apply Forall_cons in Hd as [Hd _]. change (Join (map dec_text (d :: d' :: l)) ".") with
      (dec_text d +:+ String "." (Join (map dec_text (d' :: l)) ".")).
    apply first_mark_app; [|left]. pose proof dec_texts as Ht. rewrite Forall_forall in Ht.
    apply Ht, elem_of_seqZ. lia. }
  unfold ParseAddr. rewrite Hm. simpl. unfold parseIPv4. rewrite octets_text4.
  change (Some (V4 (of_digits 256 (to_digits 4 256 n))) = Some (V4 n)).
  by rewrite of_to_digits by (done || exact Hn).
Qed.

Lemma no_marks_elem s c : no_marks s = true -> c ∈ marks -> string_elem c s = false.
Proof.
  unfold no_marks. rewrite forallb_forall. intros H Hc. specialize (H c). rewrite negb_true_iff in H.
  by apply H, list_elem_of_In.
Qed.

Lemma string_elem_colons l c : c ∈ marks -> c <> ":"%char -> string_elem c (colons l) = false.
Proof.
  intros Hc Hne. assert (forall v, string_elem c (hex_text v) = false) as Hh.
  { intros v. apply no_marks_elem; [apply hex_text_no_marks|done]. }
  induction l as [|v [|w l] IH]; [done|apply Hh|].
  rewrite colons_cons, string_elem_append, Hh. cbn [string_elem orb]. by rewrite bool_decide_false, IH.
Qed.

Lemma split_zone_none s : string_elem "%" s = false -> split_zone s = (s, None).
Proof. intros Hs. unfold split_zone. by rewrite Split_last. Qed.

Lemma HasPrefix_colons v l t : HasPrefix (colons (v :: l) +:+ t) "::" = false.
Proof.
  destruct (colons_head v l) as (c & s & Hc & Hm). rewrite Hc. simpl.
  rewrite bool_decide_false; [done|]. intros <-. apply Hm. right. left.
Qed.

Lemma colons_nil l : colons l = "" <-> l = [].
Proof.
  split; [|by intros ->]. destruct l as [|v l]; [done|]. by destruct (colons_head v l) as (c & s & -> & _).
Qed.

(** Both sides of a gap are read, with or without groups before and after it. *)
Lemma groups6_around pre post :
  (length pre + length post < 8)%nat -> digits_below 65536 pre -> digits_below 65536 post -> pre <> [] ->
  groups6 8 (colons pre +:+ "::" +:+ colons post) [] None = Some (pre ++ post, Some (length pre), "").
Proof.
  intros Hlen Hp Hq Hne. rewrite groups6_gap by (done || lia). simpl.
  case_bool_decide as Hpost; [apply colons_nil in Hpost as ->; by rewrite app_nil_r|].
  rewrite colons_nil in Hpost. rewrite groups6_all by (done || lia). done.
Qed.

Lemma expand_around pre post len :
  (length pre + len + length post = 8)%nat -> (2 <= len)%nat ->
  expand (pre ++ post) (Some (length pre)) = Some (pre ++ replicate len 0 ++ post).
Proof.
  intros Hlen H2. unfold expand. rewrite length_app, bool_decide_true by lia.
  rewrite take_app_length, drop_app_length. by replace (8 - (length pre + length post))%nat with len by lia.
Qed.

Lemma finish6_ok z groups e l :
  expand groups e = Some l -> finish6 z (Some (groups, e, "")) = Some (V6 (of_digits 65536 l) z).
Proof. intros He. simpl. by rewrite He. Qed.

Lemma parseIPv6_groups l :
  length l = 8%nat -> digits_below 65536 l -> parseIPv6 (text_groups l) = Some (V6 (of_digits 65536 l) "").
Proof.
  intros Hlen Hd. unfold text_groups, parseIPv6. destruct (zero_run_spec l) as [->|Hrun].
  - rewrite bool_decide_true by done. rewrite split_zone_none by (apply string_elem_colons; mark).
    destruct l as [|v l]; [done|]. rewrite !bool_decide_false; [|by intros Hc%(f_equal (fun s => HasPrefix (s +:+ "") "::")); rewrite HasPrefix_colons in Hc|done].
    rewrite <-(append_nil_r (colons (v :: l))), HasPrefix_colons, append_nil_r.
    rewrite groups6_all by (done || lia). apply finish6_ok. unfold expand. by rewrite bool_decide_true.
  - destruct (zero_run l) as [start len]. destruct Hrun as (H2 & Hle & Hl). cbn [fst snd] in *.
    rewrite bool_decide_false by lia.
    assert (length (take start l) = start) as Hpre by (rewrite length_take; lia).
    assert (length (drop (start + len) l) = (8 - (start + len))%nat) as Hpost by (rewrite length_drop; lia).
    assert (digits_below 65536 (take start l)) as Hdp by (by apply Forall_take).
    assert (digits_below 65536 (drop (start + len) l)) as Hdq by (by apply Forall_drop).
    revert Hl Hpre Hpost Hdp Hdq. generalize (take start l), (drop (start + len) l).
    intros pre post -> Hpre Hpost Hdp Hdq.
    rewrite split_zone_none by (rewrite !string_elem_append, !string_elem_colons by mark; done).
    rewrite (bool_decide_false (None = Some "")) by done. cbn [default].
    destruct pre as [|v pre].
    + simpl in Hpre. subst start. destruct post as [|w post].
      * simpl in Hpost. by replace len with 8%nat by lia.
      * change (colons [] +:+ "::" +:+ colons (w :: post)) with ("::" +:+ colons (w :: post)).
        rewrite bool_decide_false.
        2:{ destruct (colons_head w post) as (c & s & -> & _). by intros [=]. }
        rewrite (proj2 (HasPrefix_spec ("::" +:+ colons (w :: post)) "::")) by eauto.
        rewrite TrimPrefix_append, groups6_all by (done || simpl in *; lia).
        apply finish6_ok, (expand_around [] (w :: post) len); [simpl in *; lia|done].
    + rewrite bool_decide_false, HasPrefix_colons.
      2:{ intros Hc%(f_equal (fun s => HasPrefix s "::")). by rewrite HasPrefix_colons in Hc. }
      rewrite groups6_around by (done || simpl in *; lia).
      apply finish6_ok, (expand_around (v :: pre) post len); [simpl in *; lia|done].
Qed.

Lemma first_mark_colons v w l t : first_mark (colons (v :: w :: l) +:+ t) = Some ":"%char.
Proof.
  rewrite colons_cons, append_assoc, append_String. apply first_mark_app; [apply hex_text_no_marks|]. right. left.
Qed.

Lemma first_mark_groups l : length l = 8%nat -> first_mark (text_groups l) = Some ":"%char.
Proof.
  intros Hl. unfold text_groups. destruct (zero_run l) as [start len]. case_bool_decide.
  - destruct l as [|v [|w l]]; [done..|]. rewrite <-(append_nil_r (colons _)). apply first_mark_colons.
  - destruct (take start l) as [|v [|w pre]]; [done| |apply first_mark_colons].
    apply first_mark_app; [apply hex_text_no_marks|]. right. left.
Qed.

Lemma ParseAddr_text6 n : 0 <= n < 2 ^ 128 -> ParseAddr (text6 n) = Some (V6 n "").
Proof.
  intros Hn. unfold ParseAddr, text6. rewrite first_mark_groups by apply to_digits_length.
  change (parseIPv6 (text_groups (to_digits 8 65536 n)) = Some (V6 n "")).
  rewrite parseIPv6_groups by (apply to_digits_length || apply to_digits_below; lia).
  by rewrite of_to_digits by (done || exact Hn).
Qed.

(** IPv4 addresses written inside IPv6. *)
Lemma hex_run_app acc off h v n rest :
  hex_run acc off h = (v, n, "") -> ends_group rest -> hex_run acc off (h +:+ rest) = (v, n, rest).
Proof.
  intros Hr Hrest. revert acc off Hr. induction h as [|c h IH]; intros acc off; simpl.
  - intros [= <- <-]. destruct rest as [|c rest]; [done|]. simpl. by rewrite Hrest.
  - destruct (hex_digit c); [apply IH|done].
Qed.

Lemma dec_text_table d : 0 <= d < 256 ->
  no_marks (dec_text d) = true /\ exists v off, hex_run 0 0 (dec_text d) = (v, off, "") /\ (1 <= off <= 4)%nat.
Proof.
  intros Hd. pose proof dec_texts as Ht. rewrite Forall_forall in Ht.
  destruct (Ht d) as (_ & Hm & Hr); [apply elem_of_seqZ; lia|]. split; [done|].
  destruct (hex_run 0 0 (dec_text d)) as [[v off] rest]. destruct Hr as [-> Hoff]. eauto.
Qed.

Lemma text4_cons m :
  exists a b c d, to_digits 4 256 m = [a; b; c; d] /\ digits_below 256 [a; b; c; d] /\
    text4 m = dec_text a +:+ "." +:+ (dec_text b +:+ "." +:+ (dec_text c +:+ "." +:+ dec_text d)).
Proof.
  pose proof (to_digits_below 4 256 m ltac:(lia)) as Hd. pose proof (to_digits_length 4 256 m) as Hl.
  unfold text4. destruct (to_digits 4 256 m) as [|a [|b [|c [|d [|]]]]]; try done. exists a, b, c, d. done.
Qed.

Lemma no_marks_head s : no_marks s = true -> match s with String c _ => c ∉ marks | EmptyString => True end.
Proof.
  destruct s as [|c s]; [done|]. unfold no_marks. rewrite forallb_forall. intros H Hin.
  apply list_elem_of_In, H in Hin. simpl in Hin. by rewrite bool_decide_true in Hin.
Qed.

Lemma groups6_embedded m :
  exists hi lo, groups6 8 ("ffff:" +:+ text4 m) [] (Some 0%nat) = Some ([65535; hi; lo], Some 0%nat, "") /\
    hi * 65536 + lo = of_digits 256 (to_digits 4 256 m).
Proof.
  destruct (text4_cons m) as (a & b & c & d & Hl & Hd & Ht).
  exists (256 * a + b), (256 * c + d). rewrite Hl. split; [|unfold of_digits; simpl; lia].
  apply Forall_cons in Hd as [Ha _]. destruct (dec_text_table a Ha) as (Hm & v & off & Hr & Hoff).
  assert (exists c0 s, text4 m = String c0 s /\ c0 ∉ marks) as (c0 & s & Hs & Hc0).
  { rewrite Ht. apply no_marks_head in Hm. destruct (dec_text a) as [|c0 s]; [|eauto].
    simpl in Hr. injection Hr as _ <-. lia. }
  assert (hex_run 0 0 ("ffff:" +:+ text4 m) = (65535, 4%nat, String ":" (text4 m))) as Hf by done.
  cbn [groups6]. rewrite Hf. rewrite bool_decide_false by lia. cbn [groups6]. rewrite Hs.
  change (bool_decide (":"%char = "."%char)) with false. change (bool_decide (":"%char = ":"%char)) with true.
  cbv iota. rewrite not_colon by done. rewrite <-Hs.
  assert (hex_run 0 0 (text4 m) = (v, off, "." +:+ (dec_text b +:+ "." +:+ (dec_text c +:+ "." +:+ dec_text d)))) as Hr'.
  { rewrite Ht. by apply hex_run_app. }
  rewrite Hr'. rewrite bool_decide_false by lia.
  change (bool_decide ("."%char = "."%char)) with true. by rewrite octets_text4, Hl.
Qed.

Lemma string_elem_text4 m c : c ∈ marks -> c <> "."%char -> string_elem c (text4 m) = false.
Proof.
  intros Hc Hne. destruct (text4_cons m) as (x & y & z & w & _ & Hd & ->).
  assert (Forall (fun d => string_elem c (dec_text d) = false) [x; y; z; w]) as Hf.
  { eapply Forall_impl; [exact Hd|]. intros d Hr. cbv beta in Hr. destruct (dec_text_table d Hr) as [Hm _].
    by apply no_marks_elem. }
  rewrite !Forall_cons in Hf. destruct Hf as (H1 & H2 & H3 & H4 & _).
  rewrite !string_elem_append, H1, H2, H3, H4. simpl. by rewrite bool_decide_false.
Qed.

Lemma ParseAddr_4in6 n :
  0 <= n < 2 ^ 128 -> Z.shiftr n 32 = 65535 -> ParseAddr ("::ffff:" +:+ text4 (n mod 2 ^ 32)) = Some (V6 n "").
Proof.
  intros Hn H6. unfold ParseAddr. change (parseIPv6 ("::ffff:" +:+ text4 (n mod 2 ^ 32)) = Some (V6 n "")).
  unfold parseIPv6. rewrite split_zone_none.
  2:{ by rewrite string_elem_append, string_elem_text4 by mark. }
  rewrite !bool_decide_false by (done || by intros [=]).
  change (HasPrefix ("::ffff:" +:+ text4 (n mod 2 ^ 32)) "::") with true. cbv iota.
  change ("::ffff:" +:+ text4 (n mod 2 ^ 32)) with ("::" +:+ ("ffff:" +:+ text4 (n mod 2 ^ 32))).
  rewrite TrimPrefix_append. destruct (groups6_embedded (n mod 2 ^ 32)) as (hi & lo & Hg & Hsum).
  cbn [default]. rewrite Hg.
  rewrite (finish6_ok "" [65535; hi; lo] (Some 0%nat) (replicate 5 0 ++ [65535; hi; lo]) eq_refl).
  rewrite of_to_digits in Hsum; [|done|exact (Z.mod_pos_bound n (2 ^ 32) eq_refl)].
  rewrite Z.shiftr_div_pow2 in H6 by done. pose proof (Z.div_mod n (2 ^ 32) ltac:(done)) as Hdm.
  rewrite H6 in Hdm. unfold of_digits. simpl foldl. do 2 f_equal. lia.
Qed.

Lemma ParseAddr_text a : in_width a -> zone a = "" -> ParseAddr (addr_text a) = Some a.
Proof.
  destruct a as [n|n z]; intros Hw Hz; [exact (ParseAddr_text4 n Hw)|]. change (z = "") in Hz. subst z.
  unfold addr_text, Is4In6. case_bool_decide as H6; [exact (ParseAddr_4in6 n Hw H6)|exact (ParseAddr_text6 n Hw)].
Qed.

Lemma string_elem_addr_text a c :
  c ∈ marks -> c <> "."%char -> c <> ":"%char -> string_elem c (addr_text a) = false.
Proof.
  intros Hc Hd Hn. assert (string_elem c "::ffff:" = false /\ string_elem c "::" = false) as [H1 H2].
  { revert Hc Hd Hn. unfold marks. rewrite !elem_of_cons. intros Hc Hd Hn.
    repeat (destruct Hc as [->|Hc]; [done|]). by apply not_elem_of_nil in Hc. }
  destruct a as [n|n z]; unfold addr_text; [by apply string_elem_text4|].
  destruct (Is4In6 _); [by rewrite string_elem_append, string_elem_text4, H1|].
  unfold text6, text_groups. destruct (zero_run _) as [start len].
  case_bool_decide; rewrite ?string_elem_append, ?string_elem_colons, ?H2; done.
Qed.

Lemma string_elem_prefix p c :
  0 <= Bits p < 256 -> c ∈ marks -> c <> "."%char -> c <> ":"%char -> c <> "/"%char ->
  string_elem c (prefix_String p) = false.
Proof.
  intros Hb Hc H1 H2 H3. unfold prefix_String. rewrite !string_elem_append, string_elem_addr_text by done.
  cbn [string_elem orb]. rewrite bool_decide_false by done. apply no_marks_elem; [|done]. by apply dec_text_table.
Qed.

Lemma decimal_le m m' s n : decimal m s = Some n -> n <= m' -> decimal m' s = Some n.
Proof.
  unfold decimal. destruct (_ || _); [done|]. destruct (dec_value 0 s); simpl; [|done].
  repeat case_bool_decide; intros; simplify_eq; done.
Qed.

Lemma decimal_text d m : 0 <= d < 256 -> d <= m -> decimal m (dec_text d) = Some d.
Proof.
  intros Hd Hm. pose proof dec_texts as Ht. rewrite Forall_forall in Ht.
  destruct (Ht d) as (H & _); [apply elem_of_seqZ; lia|]. by eapply decimal_le.
Qed.

(** The text of a prefix reads back as the prefix, for both families, with the
    longest run of zeros left out, and for IPv4 written inside IPv6. *)
Lemma ParsePrefix_String p : well_formed p -> ParsePrefix (prefix_String p) = Some p.
Proof.
  intros (Hw & Hb & Hz).
  assert (0 <= Bits p < 256) as Hb' by (destruct (Addr_of p); simpl in *; lia).
  assert (string_elem "/" (dec_text (Bits p)) = false) as Hs.
  { apply no_marks_elem; [by apply dec_text_table|mark]. }
  unfold ParsePrefix, prefix_String.
  change ("/" +:+ dec_text (Bits p)) with (String "/" (dec_text (Bits p))).
  rewrite Split_part, Split_last by (done || apply string_elem_addr_text; mark).
  change (rev [addr_text (Addr_of p); dec_text (Bits p)]) with [dec_text (Bits p); addr_text (Addr_of p)].
  cbv iota beta. change (Join (rev [addr_text (Addr_of p)]) "/") with (addr_text (Addr_of p)).
  rewrite ParseAddr_text by done. cbn [mbind option_bind]. rewrite bool_decide_false by (by intros []).
  rewrite decimal_text by lia. cbn [mbind option_bind]. unfold PrefixFrom.
  destruct p as [[n|n z] bits]; [done|]. change (z = "") in Hz. by subst z.
Qed.

(** A text without the bytes of white space among the marks is trimmed. *)
Lemma TrimSpace_marks s :
  (forall c, c ∈ marks -> c ∉ ["."; ":"; "/"; ","]%char -> string_elem c s = false) -> TrimSpace s = s.
Proof.
  intros Hs. apply TrimSpace_id.
  assert (Forall (fun w => match w with String c _ => c ∈ marks /\ c ∉ ["."; ":"; "/"; ","]%char
                           | EmptyString => False end) white_space) as Hw
    by (repeat (apply Forall_cons; split; [split; mark|]); constructor).
  eapply Forall_impl; [exact Hw|]. intros [|c w]; [done|]. intros [H1 H2]. exists c.
  split; [simpl; by rewrite bool_decide_true|by apply Hs].
Qed.

Lemma string_elem_prefix_notin p c :
  0 <= Bits p < 256 -> c ∈ marks -> c ∉ ["."; ":"; "/"; ","]%char -> string_elem c (prefix_String p) = false.
Proof. intros Hb Hc. rewrite !not_elem_of_cons. intros (? & ? & ? & _). by apply string_elem_prefix. Qed.

Lemma TrimSpace_prefix p : 0 <= Bits p < 256 -> TrimSpace (prefix_String p) = prefix_String p.
Proof. intros Hb. apply TrimSpace_marks. intros c. by apply string_elem_prefix_notin. Qed.
