(* ===== verification/TrustedProxies.v ===== *)
(** * Trusted proxies (src/middleware/trusted_proxies.go)

    Which peers the forwarded headers of a request are believed from, over the
    addresses and prefixes of [NetIP] and a router that is given their texts. *)

From S2P Require Import Prelude GoStrings NetIP.
From Stdlib Require Import Ascii.

(** ** The list of proxies *)

Definition DefaultTrustedProxies : string :=
  "127.0.0.0/8,::1/128,10.0.0.0/8,172.16.0.0/12,192.168.0.0/16,fc00::/7".

(** [MustParsePrefix] of the ranges; that they all parse is [allowed_parse]. *)
Definition allowed : list Prefix := omap ParsePrefix (Split DefaultTrustedProxies ",").

Definition parse_entry (entry : string) : option Prefix :=
  match ParsePrefix entry with
  | Some p => Some p
  | None => ip ← ParseAddr entry; Some (PrefixFrom ip (BitLen ip))
  end.

Definition private (p : Prefix) : bool :=
  existsb (fun boundary => covers boundary (Addr_of p) && bool_decide (Bits boundary <= Bits p)) allowed.

Definition proxy (entry : string) : result Prefix :=
  let entry := TrimSpace entry in
  match parse_entry entry with
  | None => Err (ErrMsg ("invalid TRUSTED_PROXIES entry " +:+ entry))
  | Some p =>
      let p := Masked p in
      if private p then Ok p
      else Err (ErrMsg ("TRUSTED_PROXIES entry " +:+ entry +:+ " must be contained in a loopback or private range"))
  end.

Fixpoint proxies (entries : list string) : result (list Prefix) :=
  match entries with
  | [] => Ok []
  | entry :: entries =>
      match proxy entry with
      | Err e => Err e
      | Ok p => match proxies entries with Err e => Err e | Ok ps => Ok (p :: ps) end
      end
  end.

(** The nil list of an empty value is the empty list. *)
Definition privateProxyList (value : string) : result (list string) :=
  if bool_decide (TrimSpace value = "") then Ok []
  else match proxies (Split value ",") with Ok ps => Ok (map prefix_String ps) | Err e => Err e end.

(** ** The router *)

(** What the library relies on of the router: it accepts the texts of canonical
    prefixes, of which none is an IPv4 address mapped into IPv6, and then believes the peers they cover, and no others. (It takes an
    IPv4 address mapped into IPv6 for the IPv4 address.) *)
Class Router := {
  Engine : Type;
  SetTrustedProxies : Engine -> list string -> Engine * option error;
  trusts : Engine -> Addr -> bool;
  trusts_texts e ps : Forall (fun q => canonical q /\ Is4In6 (Addr_of q) = false) ps ->
    snd (SetTrustedProxies e (map prefix_String ps)) = None /\
    forall a, Is4In6 a = false ->
      trusts (fst (SetTrustedProxies e (map prefix_String ps))) a = existsb (fun p => covers p a) ps
}.

Section configure.
Context {R : Router}.

Record router := {
  engine : Engine;
  TrustedPlatform : string;
  AppEngine : bool;
  RemoteIPHeaders : list string;
  ForwardedByClientIP : bool
}.

(** [env]: the variable TRUSTED_PROXIES, [None] when it is not set. *)
Definition ConfigureTrustedProxies (env : option string) (r : router) : router * option error :=
  let '(e, err) := SetTrustedProxies (engine r) [] in
  match err with
  | Some err =>
      ({| engine := e; TrustedPlatform := TrustedPlatform r; AppEngine := AppEngine r;
          RemoteIPHeaders := RemoteIPHeaders r; ForwardedByClientIP := ForwardedByClientIP r |},
       Some (ErrWrap "disable trusted proxies" err))
  | None =>
      let r := {| engine := e; TrustedPlatform := ""; AppEngine := false;
                  RemoteIPHeaders := ["X-Forwarded-For"]; ForwardedByClientIP := true |} in
      match privateProxyList (default DefaultTrustedProxies env) with
      | Err err => (r, Some err)
      | Ok proxies =>
          let '(e, err) := SetTrustedProxies e proxies in
          ({| engine := e; TrustedPlatform := TrustedPlatform r; AppEngine := AppEngine r;
              RemoteIPHeaders := RemoteIPHeaders r; ForwardedByClientIP := ForwardedByClientIP r |},
           (fun err => ErrWrap "configure trusted proxies" err) <$> err)
      end
  end.

End configure.

(** The addresses of the default ranges. *)
Definition private_addr (a : Addr) : bool := existsb (fun b => covers b a) allowed.

(** The address beside a range: it shares all but the last bit of the range's own. *)
Definition beside (b : Prefix) : Addr :=
  with_number (Addr_of b) (Z.lxor (number (Addr_of b)) (Z.shiftl 1 (host b))).

(** ** The ranges *)

(** The table of the ranges, computed once: each is canonical, leaves a bit fixed,
    and the address beside it is public. *)
Lemma allowed_table :
  Forall (fun b => in_width (Addr_of b) /\ in_width (beside b) /\ 1 <= Bits b <= BitLen (Addr_of b) /\
    zone (beside b) = "" /\ BitLen (beside b) = BitLen (Addr_of b) /\
    Z.shiftr (number (beside b)) (host b + 1) = Z.shiftr (number (Addr_of b)) (host b + 1) /\
    private_addr (beside b) = false) allowed.
Proof. apply (bool_decide_unpack _). by vm_compute. Qed.

Lemma allowed_texts : Forall (fun q => canonical q /\ Is4In6 (Addr_of q) = false) allowed.
Proof. apply (bool_decide_unpack _). by vm_compute. Qed.

Lemma allowed_parse : Forall (fun t => is_Some (ParsePrefix t)) (Split DefaultTrustedProxies ",").
Proof. apply (bool_decide_unpack _). by vm_compute. Qed.

(** A prefix shorter than a range it meets covers the address beside the range. *)
Lemma covers_beside p b :
  b ∈ allowed -> 0 <= host p -> covers b (Addr_of (Masked p)) = true -> Bits p < Bits b -> covers p (beside b) = true.
Proof.
  intros Hin Hh Hc Hlt. pose proof allowed_table as Ht. rewrite Forall_forall in Ht.
  destruct (Ht b Hin) as (_ & _ & Hbb & Hsz & Hsl & Hss & _).
  apply covers_spec in Hc as (Hl & _ & Hc). rewrite BitLen_Masked in Hl.
  assert (host b + 1 <= host p) as Hhp by (unfold host; lia).
  assert (0 <= host b) by (unfold host; lia).
  apply covers_spec. split; [congruence|]. split; [done|].
  rewrite <-shiftr_masked by done. trans (Z.shiftr (number (Addr_of b)) (host p)).
  - by apply (shiftr_mono _ _ (host b + 1)); [lia|].
  - symmetry. by apply (shiftr_mono _ _ (host b)); [lia|].
Qed.

(** A prefix is taken exactly when every address it covers is private: the
    comparison of two prefixes loses no private entry and lets no public address
    through. *)
Lemma private_spec p :
  in_width (Addr_of p) -> 0 <= Bits p <= BitLen (Addr_of p) ->
  zone (Addr_of p) = "" ->
  (private (Masked p) = true <->
   forall a, in_width a -> covers p a = true -> private_addr a = true).
Proof.
  intros Hw Hb Hz. assert (0 <= host p) as Hh by (unfold host; lia).
  unfold private, private_addr. rewrite existsb_exists. split.
  - intros (b & Hin & [Hc Hbits]%andb_true_iff) a _ Ha. apply existsb_exists.
    exists b. split; [done|]. rewrite bool_decide_eq_true in Hbits. simpl in Hbits.
    apply covers_spec in Hc as (Hl & _ & Hc). apply covers_spec in Ha as (Hl' & Hz' & Ha).
    rewrite BitLen_Masked in Hl. apply covers_spec. split; [congruence|]. split; [done|].
    rewrite <-Hc. apply (shiftr_mono _ _ (host p)); [unfold host; lia|]. by rewrite shiftr_masked.
  - intros H. assert (covers p (Addr_of (Masked p)) = true) as Hcm.
    { apply covers_spec. rewrite BitLen_Masked, shiftr_masked by done. split; [done|]. split; [|done].
      unfold Masked. by destruct (Addr_of p). }
    apply H, existsb_exists in Hcm as (b & Hin & Hc); [|by apply masked_in_width].
    exists b. split; [done|]. rewrite Hc. simpl. apply bool_decide_eq_true.
    destruct (decide (Bits b <= Bits p)) as [|Hlt]; [done|exfalso]. apply list_elem_of_In in Hin.
    pose proof allowed_table as Ht. rewrite Forall_forall in Ht.
    destruct (Ht b Hin) as (_ & Hsw & _ & _ & _ & _ & Hpub).
    assert (private_addr (beside b) = true); [|congruence].
    apply H; [done|]. apply covers_beside; [done..|lia].
Qed.

(** ** Lists *)

Definition entry_ok (entry : string) : Prop :=
  exists p, parse_entry (TrimSpace entry) = Some p /\ forall a, in_width a -> covers p a = true -> private_addr a = true.

Lemma parse_entry_ok entry p : parse_entry entry = Some p -> well_formed p.
Proof.
  unfold parse_entry. destruct (ParsePrefix entry) eqn:Hp; [intros [= <-]; by eapply ParsePrefix_ok|].
  destruct (ParseAddr entry) as [a|] eqn:Ha; simpl; [|done]. intros [= <-].
  apply PrefixFrom_ok; [by eapply ParseAddr_width|]. destruct a; simpl; lia.
Qed.

Lemma proxy_spec entry :
  match proxy entry with
  | Ok q => exists p, parse_entry (TrimSpace entry) = Some p /\ q = Masked p /\ canonical q /\
              forall a, in_width a -> covers q a = true -> private_addr a = true
  | Err _ => ~ entry_ok entry
  end.
Proof.
  unfold proxy, entry_ok. destruct (parse_entry (TrimSpace entry)) as [p|] eqn:Hp; [|by intros (? & ? & _)].
  pose proof (parse_entry_ok _ _ Hp) as Hok. pose proof Hok as (Hw & Hb & Hz).
  pose proof (private_spec p Hw Hb Hz) as Hs. destruct (private (Masked p)) eqn:Hpr.
  - exists p. split; [done|]. split; [done|]. split; [by apply Masked_canonical|].
    intros a Ha. rewrite Masked_covers by (unfold host; lia). by apply Hs.
  - intros (p' & [= <-] & Ha). by apply Hs in Ha.
Qed.

Lemma proxies_spec entries :
  match proxies entries with
  | Ok ps => Forall2 (fun entry q => proxy entry = Ok q) entries ps
  | Err _ => Exists (fun entry => ~ entry_ok entry) entries
  end.
Proof.
  induction entries as [|entry entries IH]; simpl; [constructor|].
  pose proof (proxy_spec entry) as Hp. destruct (proxy entry) as [q|] eqn:E; [|by left].
  destruct (proxies entries); [by constructor|by right].
Qed.

(** A list of proxies is accepted exactly when each of its entries parses and
    covers private addresses only. What is accepted is the list of the texts of
    the entries' masked prefixes, in order; an empty value is the empty list. *)
Lemma privateProxyList_spec value :
  (is_ok (privateProxyList value) = true <->
   TrimSpace value = "" \/ Forall entry_ok (Split value ",")) /\
  (forall l, privateProxyList value = Ok l -> TrimSpace value <> "" ->
   exists ps, l = map prefix_String ps /\
     Forall2 (fun entry q => exists p, parse_entry (TrimSpace entry) = Some p /\ q = Masked p /\ canonical q /\
                forall a, in_width a -> covers q a = true -> private_addr a = true) (Split value ",") ps).
Proof.
  unfold privateProxyList. case_bool_decide as Hv; [split; [naive_solver|done]|].
  pose proof (proxies_spec (Split value ",")) as Hs. destruct (proxies (Split value ",")) as [ps|e]; simpl.
  - split.
    + split; [intros _; right|done]. clear Hv. induction Hs as [|entry q es qs Hp _ IH]; constructor; [|done].
      pose proof (proxy_spec entry) as Hpe. rewrite Hp in Hpe. destruct Hpe as (p & Hpp & -> & _ & Ha).
      exists p. split; [done|]. intros a Hw Hc. apply Ha; [done|].
      apply parse_entry_ok in Hpp as (_ & Hb & _). rewrite Masked_covers by (unfold host; lia). done.
    + intros l [= <-] _. exists ps. split; [done|]. eapply Forall2_impl; [exact Hs|].
      intros entry q Hp. pose proof (proxy_spec entry) as Hpe. by rewrite Hp in Hpe.
  - split; [|done]. split; [done|]. intros [|Hf]; [done|]. exfalso.
    apply Exists_exists in Hs as (entry & Hin & Hn). rewrite Forall_forall in Hf. auto.
Qed.

(** What an accepted list is made of. *)
Lemma privateProxyList_texts value l :
  privateProxyList value = Ok l ->
  exists ps, l = map prefix_String ps /\
    Forall (fun q => canonical q /\ private q = true) ps.
Proof.
  unfold privateProxyList. case_bool_decide; [intros [= <-]; by exists []|].
  pose proof (proxies_spec (Split value ",")) as Hs. destruct (proxies _) as [ps|]; [|done]. intros [= <-].
  exists ps. split; [done|]. induction Hs as [|entry q es qs Hp _ IH]; constructor; [|done].
  pose proof (proxy_spec entry) as Hpe. rewrite Hp in Hpe. destruct Hpe as (p & _ & _ & Hc & _).
  split; [done|]. unfold proxy in Hp. destruct (parse_entry _); [|done].
  destruct (private (Masked p0)) eqn:E; [|done]. by injection Hp as <-.
Qed.

(** The ranges of IPv6 hold no address of IPv4. *)
Lemma allowed_not_mapped :
  Forall (fun b => BitLen (Addr_of b) = 32 \/ host b = 0 /\ number (Addr_of b) = 1 \/
                   host b = 121 /\ Z.shiftr (number (Addr_of b)) 121 = 126) allowed.
Proof. apply (bool_decide_unpack _). by vm_compute. Qed.

Lemma private_not_mapped q : private q = true -> Is4In6 (Addr_of q) = false.
Proof.
  unfold private. rewrite existsb_exists. intros (b & Hb & [Hc _]%andb_true_iff).
  apply covers_spec in Hc as (Hlen & _ & Hn). destruct (Addr_of q) as [n|n z]; [done|]. cbn [Is4In6 BitLen number] in *.
  apply bool_decide_eq_false. intros H6. assert (Z.shiftr (Z.shiftr n 32) 89 = Z.shiftr n 121) as Hs
    by (by rewrite Z.shiftr_shiftr).
  rewrite H6 in Hs. apply list_elem_of_In in Hb.
  destruct (proj1 (Forall_forall _ _) allowed_not_mapped b Hb) as [H|[[H1 H2]|[H1 H2]]]; rewrite ?H1 in Hn.
  - congruence.
  - rewrite !Z.shiftr_0_r, H2 in Hn. rewrite Hn in H6. discriminate H6.
  - rewrite H2, <- Hs in Hn. discriminate Hn.
Qed.

Lemma canonical_private_addr q a :
  canonical q -> private q = true -> in_width a -> covers q a = true -> private_addr a = true.
Proof.
  intros (Hw & Hb & Hz & Hm) Hp. rewrite <-Hm in Hp. by apply (private_spec q Hw Hb Hz).
Qed.

(** One entry of an accepted list is accepted again, as itself. *)
Lemma proxy_text q : canonical q -> private q = true -> proxy (prefix_String q) = Ok q.
Proof.
  intros (Hw & Hb & Hz & Hm) Hp. unfold proxy.
  rewrite TrimSpace_prefix by (destruct (Addr_of q); simpl in *; lia).
  unfold parse_entry. rewrite ParsePrefix_String by (by split). by rewrite Hm, Hp.
Qed.

(** An accepted list, written with commas, is accepted as itself: its texts are
    read back as the prefixes they were written from. *)
Lemma privateProxyList_stable value l :
  privateProxyList value = Ok l -> privateProxyList (Join l ",") = Ok l.
Proof.
  intros Hv. destruct (privateProxyList_texts _ _ Hv) as (ps & -> & Hps). clear Hv.
  destruct ps as [|q ps]; [done|]. unfold privateProxyList.
  assert (forall q, canonical q -> 0 <= Bits q < 256) as Hbits.
  { intros [[n|n z] b] (_ & Hb & _); simpl in *; lia. }
  assert (Split (Join (map prefix_String (q :: ps)) ",") "," = map prefix_String (q :: ps)) as Hsp.
  { apply Split_Join; [done|]. apply Forall_fmap. eapply Forall_impl; [exact Hps|].
    intros q' [Hc _]. apply string_elem_prefix; [by apply Hbits|mark..]. }
  rewrite bool_decide_false, Hsp.
  - assert (proxies (map prefix_String (q :: ps)) = Ok (q :: ps)) as ->; [|done].
    clear Hsp. induction Hps as [|q' qs [Hc Hp] _ IH]; [done|]. cbn [map proxies]. by rewrite proxy_text, IH.
  - rewrite TrimSpace_marks.
    + intros He. rewrite He in Hsp. simpl in Hsp. injection Hsp as Hq _.
      apply (f_equal (string_elem "/")) in Hq. unfold prefix_String in Hq.
      rewrite string_elem_append, orb_comm in Hq. discriminate Hq.
    + intros c Hc Hn. apply string_elem_Join.
      * rewrite !not_elem_of_cons in Hn. simpl. rewrite bool_decide_false by tauto. done.
      * apply Forall_fmap. eapply Forall_impl; [exact Hps|]. intros q' [Hc' _].
        by apply string_elem_prefix_notin; [apply Hbits|..].
Qed.

Lemma privateProxyList_stable_witness :
  privateProxyList "10.1.2.3/16, fc00::1%eth0 ,::1" = Ok ["10.1.0.0/16"; "fc00::1/128"; "::1/128"] /\
  privateProxyList "10.1.0.0/16,fc00::1/128,::1/128" = Ok ["10.1.0.0/16"; "fc00::1/128"; "::1/128"].
Proof.
  assert (privateProxyList "10.1.2.3/16, fc00::1%eth0 ,::1" = Ok ["10.1.0.0/16"; "fc00::1/128"; "::1/128"]) as H
    by (by vm_compute).
  split; [exact H|exact (privateProxyList_stable _ _ H)].
Defined.

(** The text of a public network is refused. *)
Lemma privateProxyList_refuses :
  Forall (fun value => is_ok (privateProxyList value) = false)
    ["bad"; "127.0.0.1,"; "0.0.0.0/0"; "::/0"; "203.0.113.2"; "10.0.0.0/7"; "172.0.0.0/8"; "fc00::/6"].
Proof. apply (bool_decide_unpack _). by vm_compute. Qed.

(** ** The router *)

Section router_lemmas.
Context {R : Router}.
#[local] Set Default Proof Using "All".

Definition trusts_nobody (r : router) : Prop := forall a, Is4In6 a = false -> trusts (engine r) a = false.

Lemma set_nothing e a : Is4In6 a = false -> trusts (fst (SetTrustedProxies e [])) a = false.
Proof. intros Ha. destruct (trusts_texts e [] (Forall_nil_2 _)) as [_ H]. by apply (H a). Qed.

(** C34: Whatever the router trusted before and whatever the variable holds, after
    the call it believes forwarded headers of private peers only; when the call
    fails it believes nobody's, and it fails exactly on a list that is not
    accepted; an unset variable gives the default ranges, an empty one nobody.
    No other header and no platform is believed. *)
Lemma ConfigureTrustedProxies_spec env (r : router) :
  let '(r', err) := ConfigureTrustedProxies env r in
  (forall a, in_width a -> Is4In6 a = false -> trusts (engine r') a = true -> private_addr a = true) /\
  (err <> None -> trusts_nobody r') /\
  (err = None <-> is_ok (privateProxyList (default DefaultTrustedProxies env)) = true) /\
  (env = None -> forall a, Is4In6 a = false -> trusts (engine r') a = private_addr a) /\
  (env = Some "" -> trusts_nobody r') /\
  TrustedPlatform r' = "" /\ AppEngine r' = false /\ RemoteIPHeaders r' = ["X-Forwarded-For"].
Proof.
  unfold ConfigureTrustedProxies. destruct (trusts_texts (engine r) [] (Forall_nil_2 _)) as [Hnil _].
  pose proof (set_nothing (engine r)) as Hnone. simpl in Hnil.
  destruct (SetTrustedProxies (engine r) []) as [e err]. simpl in Hnil, Hnone. subst err.
  destruct (privateProxyList (default DefaultTrustedProxies env)) as [l|err] eqn:Hl.
  - pose proof (privateProxyList_texts _ _ Hl) as (ps & -> & Hps).
    destruct (trusts_texts e ps) as [Hok Ht]; [eapply Forall_impl; [exact Hps|]; intros q [Hq Hpr]; split; [exact Hq|by apply private_not_mapped]|].
    destruct (SetTrustedProxies e (map prefix_String ps)) as [e' err'] eqn:He. simpl in Hok, Ht |- *. subst err'. simpl.
    split; [|split; [done|split; [done|split; [|split; [|done]]]]].
    + intros a Hw H6. rewrite Ht by done. rewrite existsb_exists. intros (q & Hin & Hc).
      apply list_elem_of_In in Hin. rewrite Forall_forall in Hps. destruct (Hps q Hin) as [Hq Hp].
      by eapply canonical_private_addr.
    + intros -> a H6. assert (map prefix_String ps = map prefix_String allowed) as Heq.
      { enough (Ok (map prefix_String ps) = Ok (map prefix_String allowed)) by congruence.
        rewrite <-Hl. by vm_compute. }
      rewrite Heq in He. destruct (trusts_texts e allowed allowed_texts) as [_ Hall].
      rewrite He in Hall. by apply Hall.
    + intros -> a H6. simpl in *. simpl in Ht. rewrite Ht by done. destruct ps; [done|discriminate Hl].
  - simpl. split; [intros a _ H6; by rewrite Hnone|]. split; [done|]. split; [done|].
    split; [|split; [done|done]]. intros ->. by vm_compute in Hl.
Qed.

End router_lemmas.

(** A router that keeps the texts and reads them for each peer. *)
Definition texts_accepted (l : list string) : option error :=
  if forallb (fun t => bool_decide (is_Some (ParsePrefix t))) l then None else Some (ErrExt 0).

Definition texts_trust (l : list string) (a : Addr) : bool :=
  existsb (fun t => match ParsePrefix t with Some p => covers p a | None => false end) l.

#[export] Program Instance text_router : Router := {|
  Engine := list string;
  SetTrustedProxies e l := (l, texts_accepted l);
  trusts := texts_trust
|}.
Next Obligation.
  intros e ps Hps. simpl.
  assert (Forall (fun q => ParsePrefix (prefix_String q) = Some q) ps) as Hp.
  { eapply Forall_impl; [exact Hps|]. intros q [(Hw & Hb & Hz & _) _]. by apply ParsePrefix_String. }
  split.
  - unfold texts_accepted. induction Hp as [|q qs Hq _ IH]; [done|]. apply Forall_cons in Hps as [_ Hps].
    specialize (IH Hps). simpl. rewrite Hq. rewrite bool_decide_true by done. exact IH.
  - intros a _. unfold texts_trust. clear Hps. induction Hp as [|q qs Hq _ IH]; [done|]. simpl. by rewrite Hq, IH.
Qed.

Lemma ConfigureTrustedProxies_spec_witness :
  let r : router := {| engine := ["0.0.0.0/0"]; TrustedPlatform := "X-Platform-IP"; AppEngine := true;
                       RemoteIPHeaders := ["X-Real-IP"]; ForwardedByClientIP := false |} in
  let r' := fst (ConfigureTrustedProxies (Some "172.18.0.3/32, ::1") r) in
  trusts (engine r) (V4 3405803784) = true /\ trusts (engine r') (V4 3405803784) = false /\
  trusts (engine r') (V4 2886860803) = true /\ private_addr (V4 2886860803) = true /\ RemoteIPHeaders r' = ["X-Forwarded-For"].
Proof.
  intros r r'. split; [by vm_compute|]. split; [by vm_compute|].
  assert (trusts (engine r') (V4 2886860803) = true) as Ht by (by vm_compute).
  split; [exact Ht|]. pose proof (ConfigureTrustedProxies_spec (Some "172.18.0.3/32, ::1") r) as H.
  rewrite (surjective_pairing (ConfigureTrustedProxies (Some "172.18.0.3/32, ::1") r)) in H. fold r' in H.
  destruct H as (Hp & _ & _ & _ & _ & _ & _ & Hr). split; [|exact Hr].
  refine (Hp (V4 2886860803) (bool_decide_unpack _ _) eq_refl Ht). vm_compute. exact I.
Defined.
