(* ===== verification/Tracing.v ===== *)
(** * Traces

    What the telemetry code asks of OpenTelemetry, as the log of the calls it makes:
    a span is known by its identifiers, and the log says when it was started,
    described and ended. A log is well formed when no span is used before its
    start or after its end. A context carries at most one span, of this process
    or read from a message; carriers of text headers and the propagator are
    interfaces. *)

From S2P Require Import Prelude GoStrings.
From Stdlib Require Import Ascii.

(** ** Spans *)

(** The trace a span belongs to, and the span's own identifier. *)
Record SpanContext := { TraceID : positive; SpanID : positive }.

#[export] Instance SpanContext_eq_dec : EqDecision SpanContext.
Proof. solve_decision. Defined.

Inductive SpanKind := Internal | Server | Client | Producer | Consumer.

Inductive attr := AStr (s : string) | AInt (z : Z).

Inductive code := Unset | CodeError | CodeOk.

#[export] Instance SpanKind_eq_dec : EqDecision SpanKind.
Proof. solve_decision. Defined.
#[export] Instance attr_eq_dec : EqDecision attr.
Proof. solve_decision. Defined.
#[export] Instance code_eq_dec : EqDecision code.
Proof. solve_decision. Defined.

Inductive call :=
| Started (tracer : string) (sc : SpanContext) (parent : option SpanContext) (name : string) (kind : SpanKind)
    (attrs : list (string * attr))
| Described (id : positive) (attrs : list (string * attr))
| Recorded (id : positive) (e : error)
| StatusSet (id : positive) (c : code) (text : string)
| Ended (id : positive).

(** The calls so far and the next fresh identifier. *)
Record World := { log : list call; fresh : positive }.

Definition emit (c : call) (w : World) : World := {| log := log w ++ [c]; fresh := fresh w |}.

(** The span of a context: none, one of this process, or the one a message names,
    on which calls have no effect. *)
Inductive Span := NoSpan | Local (sc : SpanContext) | Remote (sc : SpanContext).

#[export] Instance Span_eq_dec : EqDecision Span.
Proof. solve_decision. Defined.

Definition span_context (s : Span) : option SpanContext :=
  match s with NoSpan => None | Local sc | Remote sc => Some sc end.

(** [tracer.Start]: a child of the span in the context, or the root of a new trace. *)
Definition Start (tracer : string) (ctx : Span) (name : string) (kind : SpanKind) (attrs : list (string * attr)) (w : World)
    : Span * World :=
  let parent := span_context ctx in
  let sc := {| TraceID := match parent with Some p => TraceID p | None => fresh w end; SpanID := fresh w |} in
  (Local sc, {| log := log w ++ [Started tracer sc parent name kind attrs]; fresh := Pos.succ (fresh w) |}).

Definition on_span (s : Span) (f : positive -> call) (w : World) : World :=
  match s with Local sc => emit (f (SpanID sc)) w | _ => w end.

Definition SetAttributes (s : Span) (attrs : list (string * attr)) : World -> World := on_span s (fun id => Described id attrs).
Definition span_RecordError (s : Span) (e : error) : World -> World := on_span s (fun id => Recorded id e).
Definition SetStatus (s : Span) (c : code) (text : string) : World -> World := on_span s (fun id => StatusSet id c text).
Definition EndSpan (s : Span) : World -> World := on_span s Ended.

(** ** Logs *)

(** The spans that are open after a log; [None] when a call is out of place. *)
Definition track (open : option (gset positive)) (c : call) : option (gset positive) :=
  o ← open;
  match c with
  | Started _ sc _ _ _ _ => if bool_decide (SpanID sc ∈ o) then None else Some ({[SpanID sc]} ∪ o)
  | Described id _ | Recorded id _ | StatusSet id _ _ => if bool_decide (id ∈ o) then Some o else None
  | Ended id => if bool_decide (id ∈ o) then Some (o ∖ {[id]}) else None
  end.

Definition open_spans (l : list call) : option (gset positive) := foldl track (Some ∅) l.

Definition world_ok (o : gset positive) (w : World) : Prop :=
  open_spans (log w) = Some o /\ forall id, id ∈ o -> (id < fresh w)%positive.

(** What runs in a world and leaves the open spans as they were. *)
Definition keeps {A} (f : World -> A * World) : Prop :=
  forall o w, world_ok o w -> world_ok o (snd (f w)).

(** A world with more calls in its log; what only adds calls. *)
Definition later (w w' : World) : Prop := exists l, log w' = log w ++ l.
Definition extends {A} (f : World -> A * World) : Prop := forall w, later w (snd (f w)).

(** A span was started, as the child of a given one. *)
Definition has_started (w : World) (sc : SpanContext) (parent : option SpanContext) (kind : SpanKind) : Prop :=
  exists t name attrs, Started t sc parent name kind attrs ∈ log w.

(** ** Carriers and the propagator *)

(** Text headers: a key is looked up under a normal form of it. *)
Class Carrier (C : Type) := {
  carrier_Get : C -> string -> string;
  carrier_Set : C -> string -> string -> C;
  normal : string -> string;
  get_set c k v : carrier_Get (carrier_Set c k v) k = v;
  get_set_ne c k k' v : normal k <> normal k' -> carrier_Get (carrier_Set c k v) k' = carrier_Get c k'
}.

(** The propagator of trace contexts: what it writes for a span, and what it reads. *)
Class Propagator := {
  fields : SpanContext -> list (string * string);
  read_fields : (string -> string) -> option SpanContext;
  trace_text : positive -> string;
  read_written sc get : (forall k v, (k, v) ∈ fields sc -> get k = v) -> read_fields get = Some sc
}.

Section propagation.
Context {P : Propagator} {C : Type} {K : Carrier C}.

Definition Inject (ctx : Span) (c : C) : C :=
  match span_context ctx with
  | Some sc => foldl (fun c kv => carrier_Set c (fst kv) (snd kv)) c (fields sc)
  | None => c
  end.

Definition Extract (ctx : Span) (c : C) : Span :=
  match read_fields (carrier_Get c) with Some sc => Remote sc | None => ctx end.

(** The carrier tells the keys of the propagator apart. *)
Definition distinguishes : Prop := forall sc, NoDup (map (fun kv => normal (fst kv)) (fields sc)).

Lemma set_all_get (c : C) l k v :
  NoDup (map (fun kv => normal (fst kv)) l) -> (k, v) ∈ l ->
  carrier_Get (foldl (fun c kv => carrier_Set c (fst kv) (snd kv)) c l) k = v.
Proof.
  induction l as [|[k' v'] l IH] using rev_ind; [by intros _ ?%not_elem_of_nil|].
  rewrite map_app, NoDup_app. intros (Hl & Hd & _) Hin. rewrite foldl_snoc. simpl.
  rewrite elem_of_app, list_elem_of_singleton in Hin. destruct Hin as [Hin|[= -> ->]]; [|apply get_set].
  rewrite get_set_ne; [by apply IH|]. intros Heq. apply (Hd (normal k)).
  - apply list_elem_of_fmap. by exists (k, v).
  - simpl. rewrite Heq. by left.
Qed.

Lemma Extract_Inject ctx base c sc :
  distinguishes -> span_context ctx = Some sc -> Extract base (Inject ctx c) = Remote sc.
Proof.
  intros Hd Hs. unfold Extract, Inject. rewrite Hs.
  rewrite (read_written sc); [done|]. intros k v Hin. by apply set_all_get.
Qed.

End propagation.
Arguments distinguishes {P} C {K}.

(** ** Lemmas *)

Lemma open_spans_snoc l c : open_spans (l ++ [c]) = track (open_spans l) c.
Proof. unfold open_spans. by rewrite foldl_snoc. Qed.

Lemma Start_ok tracer ctx name kind attrs o w s w' :
  world_ok o w -> Start tracer ctx name kind attrs w = (s, w') ->
  exists sc, s = Local sc /\ SpanID sc = fresh w /\ (SpanID sc ∉ o) /\ world_ok ({[SpanID sc]} ∪ o) w'.
Proof.
  intros [Ho Hf]. unfold Start. set (sc := {| TraceID := _ |}). intros [= <- <-]. exists sc.
  assert (fresh w ∉ o) as Hn by (intros Hin; apply Hf in Hin; lia).
  split; [done|]. split; [done|]. split; [done|]. split; simpl.
  - rewrite open_spans_snoc, Ho. simpl. by rewrite bool_decide_false.
  - intros id. rewrite elem_of_union, elem_of_singleton. intros [->|Hin%Hf]; lia.
Qed.

(** Calls on an open span leave it open. *)
Definition describes (c : call) (id : positive) : bool :=
  match c with
  | Described i _ | Recorded i _ | StatusSet i _ _ => bool_decide (i = id)
  | _ => false
  end.

Lemma emit_ok c id o w : describes c id = true -> id ∈ o -> world_ok o w -> world_ok o (emit c w).
Proof.
  intros Hc Hin [Ho Hw]. split; [|done]. simpl. rewrite open_spans_snoc, Ho.
  destruct c; simpl in *; try done; apply bool_decide_eq_true in Hc as ->; by rewrite bool_decide_true.
Qed.

Lemma emit_ended id o w : id ∉ o -> world_ok ({[id]} ∪ o) w -> world_ok o (emit (Ended id) w).
Proof.
  intros Hn [Ho Hw]. split.
  - simpl. rewrite open_spans_snoc, Ho. simpl. rewrite bool_decide_true by set_solver. f_equal. set_solver.
  - intros id' Hid. apply Hw. set_solver.
Qed.

(** Follow calls that describe or end the span [sc], the latest started. *)
Ltac described :=
  simpl;
  repeat match goal with
  | H : world_ok ?o ?w |- world_ok ?o ?w => exact H
  | |- world_ok _ (if ?b then _ else _) => destruct b
  | |- world_ok _ (emit (Ended _) _) => apply emit_ended; [assumption|]
  | |- world_ok ({[?id]} ∪ _) (emit _ _) => apply (emit_ok _ id); [by simpl; rewrite bool_decide_true|set_solver|]
  end.

#[export] Instance later_preorder : PreOrder later.
Proof.
  split; [intros w; exists []; by rewrite app_nil_r|].
  intros w1 w2 w3 [l1 H1] [l2 H2]. exists (l1 ++ l2). by rewrite H2, H1, app_assoc.
Qed.

Lemma later_emit w w' c : later w w' -> later w (emit c w').
Proof. intros [l Hl]. exists (l ++ [c]). simpl. by rewrite Hl, app_assoc. Qed.

Lemma later_on_span w w' s f : later w w' -> later w (on_span s f w').
Proof. intros H. destruct s; [done|by apply later_emit|done]. Qed.

Lemma later_started w w' sc parent kind : later w w' -> has_started w sc parent kind -> has_started w' sc parent kind.
Proof. intros [l Hl] (t & n & a & Hin). exists t, n, a. rewrite Hl, elem_of_app. auto. Qed.

Lemma Start_started tracer ctx name kind attrs w s w' :
  Start tracer ctx name kind attrs w = (s, w') ->
  exists sc, s = Local sc /\ has_started w' sc (span_context ctx) kind /\ later w w' /\
    TraceID sc = match span_context ctx with Some p => TraceID p | None => SpanID sc end.
Proof.
  unfold Start. intros [= <- <-]. eexists. split; [done|]. split; [|split; [|simpl; by destruct (span_context ctx)]].
  - exists tracer, name, attrs. simpl. rewrite elem_of_app. right. left.
  - eexists. done.
Qed.

(** Follow calls that add to the log. *)
Ltac added :=
  repeat first
    [ reflexivity
    | apply later_on_span
    | match goal with |- later _ (if ?b then _ else _) => destruct b end
    | match goal with H : later ?w ?w' |- later ?w ?w' => exact H end ].

(** ** Instances *)

(** A header whose keys are taken as they are. *)
Abbreviation header := (gmap string (list string)).

Definition first_value (vs : option (list string)) : string :=
  match vs with Some (v :: _) => v | _ => "" end.

#[export] Program Instance exact_header : Carrier header := {|
  carrier_Get := fun (h : header) k => first_value (h !! k);
  carrier_Set := fun (h : header) k v => <[k := [v]]> h;
  normal := fun k => k
|}.
Next Obligation. intros h k v. simpl. by rewrite lookup_insert_eq. Qed.
Next Obligation. intros h k k' v Hk. simpl. by rewrite lookup_insert_ne. Qed.

(** A header of HTTP: keys that are tokens are looked up in the form Like-This. *)
Fixpoint canon (upper : bool) (s : string) : string :=
  match s with
  | EmptyString => ""
  | String c s => String (if upper then upper_ascii c else lower_ascii c) (canon (bool_decide (c = "-"%char)) s)
  end.

Definition is_token (c : ascii) : bool :=
  let n := nat_of_ascii c in
  ((65 <=? n) && (n <=? 90) || (97 <=? n) && (n <=? 122) || (48 <=? n) && (n <=? 57))%nat ||
  string_elem c "!#$%&'*+-.^_`|~".

Definition CanonicalHeaderKey (k : string) : string :=
  if forallb is_token (String.list_ascii_of_string k) then canon true k else k.

Record http_header := { header_values : header }.

#[export] Program Instance canonical_header : Carrier http_header := {|
  carrier_Get := fun h k => first_value (header_values h !! CanonicalHeaderKey k);
  carrier_Set := fun h k v => {| header_values := <[CanonicalHeaderKey k := [v]]> (header_values h) |};
  normal := CanonicalHeaderKey
|}.
Next Obligation. intros h k v. simpl. by rewrite lookup_insert_eq. Qed.
Next Obligation. intros h k k' v Hk. simpl in *. by rewrite lookup_insert_ne. Qed.

(** A propagator that writes both identifiers in binary. *)
Definition binary_fields (sc : SpanContext) : list (string * string) :=
  [("traceparent", bits (TraceID sc) +:+ "-" +:+ bits (SpanID sc))].

Definition read_binary (get : string -> string) : option SpanContext :=
  match Split (get "traceparent") "-" with
  | [t; s] => Some {| TraceID := unbits t; SpanID := unbits s |}
  | _ => None
  end.

#[export] Program Instance binary_propagator : Propagator := {|
  fields := binary_fields;
  read_fields := read_binary;
  trace_text := bits
|}.
Next Obligation.
  intros [t s] get Hg. unfold read_binary.
  rewrite (Hg _ _ ltac:(by left)).
  assert (forall p, string_elem "-" (bits p) = false) as Hb by (induction p; simpl; rewrite ?bool_decide_false by done; done).
  cbn [TraceID SpanID]. change ("-" +:+ bits s) with (String "-" (bits s)).
  rewrite (Split_part (bits t) "-" (bits s)), Split_last by done. by rewrite !unbits_bits.
Qed.
