(* ===== verification/Telemetry.v ===== *)
(** * Telemetry (src/telemetry: nats, http_client, middleware, gorm, tracer)

    Operations wrapped in spans: publishing and consuming messages, outgoing and
    incoming requests, statements of the database. What an operation does to the
    outside is an argument that runs in the same [World]. *)

From S2P Require Import Prelude GoStrings GoFloat Tracing.
From Stdlib Require Import Ascii.

Section telemetry.
Context {P : Propagator}.

(** [err.Error()]. *)
Context (text : error -> string).

(** ** NATS (nats.go) *)

(** A nil header is [None]. *)
Record Msg := { Subject : string; Data : string; msg_Header : option header }.

Record TracedNATSPublisher := {
  conn : Msg -> World -> option error * World;
  js : option (Msg -> World -> option error * World);
  pub_serviceName : string;
  pub_tracer : string
}.

Definition NewTracedNATSPublisher conn js (serviceName : string) : TracedNATSPublisher :=
  {| conn := conn; js := js; pub_serviceName := serviceName; pub_tracer := serviceName +:+ "/nats" |}.

Definition payload_size (data : string) : attr := AInt (Z.of_nat (String.length data)).

Definition Publish (p : TracedNATSPublisher) (ctx : Span) (subject data : string) (w : World) : option error * World :=
  let '(span, w) := Start (pub_tracer p) ctx ("NATS Publish " +:+ subject) Producer
    [("messaging.system", AStr "nats"); ("messaging.destination.name", AStr subject);
     ("messaging.operation", AStr "publish"); ("messaging.message.payload_size_bytes", payload_size data)] w in
  let msg := {| Subject := subject; Data := data; msg_Header := Some (Inject span ∅) |} in
  let '(err, w) := match js p with Some send => send msg w | None => conn p msg w end in
  match err with
  | Some e => (Some e, EndSpan span (SetStatus span CodeError (text e) (span_RecordError span e w)))
  | None => (None, EndSpan span (SetStatus span CodeOk "" w))
  end.

Definition PublishJSON {V} (marshal : V -> result string) (p : TracedNATSPublisher) (ctx : Span) (subject : string)
    (v : V) (w : World) : option error * World :=
  match marshal v with
  | Err e => (Some e, w)
  | Ok data => Publish p ctx subject data w
  end.

(** The keys, in the order of an iteration over the map. *)
Definition Keys (range : header -> list string) (c : header) : list string := range c.

Definition ExtractNATSContext (ctx : Span) (msg : Msg) : Span :=
  match msg_Header msg with None => ctx | Some h => Extract ctx h end.

Definition StartConsumerSpan (ctx : Span) (serviceName subject : string) (msg : Msg) (w : World) : Span * World :=
  Start (serviceName +:+ "/nats") (ExtractNATSContext ctx msg) ("NATS Consume " +:+ subject) Consumer
    [("messaging.system", AStr "nats"); ("messaging.destination.name", AStr subject);
     ("messaging.operation", AStr "receive"); ("messaging.message.payload_size_bytes", payload_size (Data msg))] w.

(** A handler answers, or panics. *)
Record TracedMessageHandler := {
  h_serviceName : string;
  handler : Span -> Msg -> World -> panics (option error) * World
}.

Definition NewTracedMessageHandler serviceName handler : TracedMessageHandler :=
  {| h_serviceName := serviceName; handler := handler |}.

Definition Handle (h : TracedMessageHandler) (msg : Msg) (w : World) : panics unit * World :=
  let '(span, w) := StartConsumerSpan NoSpan (h_serviceName h) (Subject msg) msg w in
  let '(r, w) := handler h span msg w in
  match r with
  | Panics e => (Panics e, EndSpan span w)
  | Returns (Some e) => (Returns tt, EndSpan span (SetStatus span CodeError (text e) (span_RecordError span e w)))
  | Returns None => (Returns tt, EndSpan span (SetStatus span CodeOk "" w))
  end.

(** ** HTTP client (http_client.go) *)

Record Request := {
  req_Method : string;
  URL : string;
  URL_Path : string;
  URL_Host : string;
  req_Header : http_header;
  req_Body : string;
  req_ctx : Span
}.

(** [Body]: what reading it gives, and whether it was closed. *)
Record HTTPResponse := {
  resp_StatusCode : Z;
  ContentLength : Z;
  resp_Body : result string;
  body_closed : bool
}.

Abbreviation transport := (Request -> World -> result HTTPResponse * World).

Record TracedHTTPClient := {
  client : transport;
  client_timeout : Z;
  c_serviceName : string;
  c_tracer : string
}.

(** [standard] is the transport of a client that names none. *)
Definition NewTracedHTTPClient (standard : transport) (serviceName : string) (timeout : Z) : TracedHTTPClient :=
  {| client := standard; client_timeout := timeout; c_serviceName := serviceName; c_tracer := serviceName |}.

Definition NewTracedHTTPClientWithTransport (serviceName : string) (timeout : Z) (tr : transport) : TracedHTTPClient :=
  {| client := tr; client_timeout := timeout; c_serviceName := serviceName; c_tracer := serviceName |}.

Definition with_header (h : http_header) (r : Request) : Request :=
  {| req_Method := req_Method r; URL := URL r; URL_Path := URL_Path r; URL_Host := URL_Host r;
     req_Header := h; req_Body := req_Body r; req_ctx := req_ctx r |}.

Definition WithContext (ctx : Span) (r : Request) : Request :=
  {| req_Method := req_Method r; URL := URL r; URL_Path := URL_Path r; URL_Host := URL_Host r;
     req_Header := req_Header r; req_Body := req_Body r; req_ctx := ctx |}.

Definition Do (c : TracedHTTPClient) (ctx : Span) (req : Request) (w : World) : result HTTPResponse * World :=
  let '(span, w) := Start (c_tracer c) ctx ("HTTP " +:+ req_Method req +:+ " " +:+ URL_Path req) Client
    [("http.method", AStr (req_Method req)); ("http.url", AStr (URL req)); ("net.peer.name", AStr (URL_Host req));
     ("http.target", AStr (URL_Path req))] w in
  let req := WithContext span (with_header (Inject span (req_Header req)) req) in
  let '(r, w) := client c req w in
  match r with
  | Err e => (Err e, EndSpan span (SetStatus span CodeError (text e) (span_RecordError span e w)))
  | Ok resp =>
      let w := SetAttributes span [("http.status_code", AInt (resp_StatusCode resp));
                                   ("http.response_content_length", AInt (ContentLength resp))] w in
      let w := if bool_decide (400 <= resp_StatusCode resp)
               then SetStatus span CodeError ("HTTP " +:+ pretty (resp_StatusCode resp)) w
               else SetStatus span CodeOk "" w in
      (Ok resp, EndSpan span w)
  end.

(** [parse]: [url.Parse], the path and the host of a URL. *)
Definition NewRequestWithContext (parse : string -> result (string * string)) (ctx : Span) (method url body : string)
    : result Request :=
  match parse url with
  | Err e => Err e
  | Ok (path, host) =>
      Ok {| req_Method := method; URL := url; URL_Path := path; URL_Host := host;
            req_Header := {| header_values := ∅ |}; req_Body := body; req_ctx := ctx |}
  end.

Section methods.
Context (parse : string -> result (string * string)).

Definition send_request (c : TracedHTTPClient) (ctx : Span) (method url body : string) (contentType : option string) (w : World)
    : result HTTPResponse * World :=
  match NewRequestWithContext parse ctx method url body with
  | Err e => (Err e, w)
  | Ok req =>
      let req := match contentType with
                 | Some t => with_header (carrier_Set (req_Header req) "Content-Type" t) req
                 | None => req end in
      Do c ctx req w
  end.

Definition Get c ctx url := send_request c ctx "GET" url "" None.
Definition Post c ctx url contentType body := send_request c ctx "POST" url body (Some contentType).
Definition PostJSON c ctx url body := Post c ctx url "application/json" body.
Definition Put c ctx url contentType body := send_request c ctx "PUT" url body (Some contentType).
Definition Delete c ctx url := send_request c ctx "DELETE" url "" None.

End methods.

(** [defer resp.Body.Close()] stands after the return on a failed read. *)
Definition ReadBody (ctx : Span) (resp : HTTPResponse) (w : World) : result string * HTTPResponse * World :=
  match resp_Body resp with
  | Err e => (Err e, resp, span_RecordError ctx e w)
  | Ok body =>
      (Ok body,
       {| resp_StatusCode := resp_StatusCode resp; ContentLength := ContentLength resp;
          resp_Body := resp_Body resp; body_closed := true |},
       SetAttributes ctx [("http.response_body_size", payload_size body)] w)
  end.

(** ** Incoming requests (middleware.go) *)

Inductive gin_value := GStr (s : string) | GSpanContext (sc : option SpanContext) | GOther.

Record Gin := {
  g_ctx : Span;
  g_Header : http_header;
  g_Method : string;
  g_FullPath : string;
  g_Path : string;
  g_URL : string;
  g_Scheme : string;
  g_Host : string;
  g_UserAgent : string;
  g_ContentLength : Z;
  g_ClientIP : string;
  g_response : gmap string string;
  g_keys : gmap string gin_value;
  g_Status : Z;
  g_Size : Z;
  g_Errors : list error
}.

(** What the middleware sets before the request is processed. *)
Definition enter (ctx : Span) (traceID : string) (c : Gin) : Gin :=
  {| g_ctx := ctx; g_Header := g_Header c; g_Method := g_Method c; g_FullPath := g_FullPath c; g_Path := g_Path c;
     g_URL := g_URL c; g_Scheme := g_Scheme c; g_Host := g_Host c; g_UserAgent := g_UserAgent c;
     g_ContentLength := g_ContentLength c; g_ClientIP := g_ClientIP c;
     g_response := <["X-Trace-ID" := traceID]> (g_response c);
     g_keys := <["spanContext" := GSpanContext (span_context ctx)]> (<["traceID" := GStr traceID]> (g_keys c));
     g_Status := g_Status c; g_Size := g_Size c; g_Errors := g_Errors c |}.

Definition trace_id_text (s : Span) : string :=
  match span_context s with Some sc => trace_text (TraceID sc) | None => "" end.

Definition server_status (statusCode : Z) : code * string :=
  if bool_decide (400 <= statusCode < 500) then (CodeError, "Client error: " +:+ pretty statusCode)
  else if bool_decide (500 <= statusCode) then (CodeError, "Server error: " +:+ pretty statusCode)
  else (CodeOk, "").

(** [next]: the rest of the chain, which may panic; the context it leaves is there
    either way. *)
Definition TracingMiddleware (serviceName : string) (next : Gin -> World -> (Gin * option error) * World)
    (c : Gin) (w : World) : (Gin * option error) * World :=
  let ctx := Extract (g_ctx c) (g_Header c) in
  let spanName := if bool_decide (g_FullPath c = "") then g_Path c else g_FullPath c in
  let '(span, w) := Start serviceName ctx (g_Method c +:+ " " +:+ spanName) Server
    [("http.method", AStr (g_Method c)); ("http.route", AStr (g_FullPath c)); ("http.url", AStr (g_URL c));
     ("http.scheme", AStr (g_Scheme c)); ("net.host.name", AStr (g_Host c));
     ("user_agent.original", AStr (g_UserAgent c)); ("http.request_content_length", AInt (g_ContentLength c));
     ("http.client_ip", AStr (g_ClientIP c))] w in
  let '((c, panic), w) := next (enter span (trace_id_text span) c) w in
  match panic with
  | Some e => ((c, Some e), EndSpan span w)
  | None =>
      let w := SetAttributes span [("http.status_code", AInt (g_Status c));
                                   ("http.response_content_length", AInt (g_Size c))] w in
      let w := SetStatus span (fst (server_status (g_Status c))) (snd (server_status (g_Status c))) w in
      let w := foldl (fun w e => span_RecordError span e w) w (g_Errors c) in
      ((c, None), EndSpan span w)
  end.

(** The assertions on the type of a stored value panic on another type. *)
Definition GetTraceID (c : Gin) : panics string :=
  match g_keys c !! "traceID" with
  | Some (GStr s) => Returns s
  | Some _ => Panics (ErrMsg "interface conversion")
  | None => Returns ""
  end.

Definition GetSpanContext (c : Gin) : panics (option SpanContext) :=
  match g_keys c !! "spanContext" with
  | Some (GSpanContext sc) => Returns sc
  | Some _ => Panics (ErrMsg "interface conversion")
  | None => Returns None
  end.

(** A nil context or request is [None]. *)
Definition InjectTracingHeaders (ctx : option Gin) (req : option Request) : option Request :=
  match ctx, req with
  | Some c, Some r => Some (with_header (Inject (g_ctx c) (req_Header r)) r)
  | _, _ => req
  end.

(** ** Database (gorm.go) *)

Inductive setting := SSpan (s : Span) | SStr (s : string).

(** A statement: [ptr] is its address, which [InstanceSet] puts before a key;
    [Schema] is the table its model names. *)
Record Statement := {
  ptr : positive;
  s_Context : option Span;
  Table : string;
  Schema : option string;
  Settings : gmap string setting;
  SQL : string;
  RowsAffected : Z;
  db_Error : option error
}.

Definition gormSpanKey : string := "otel:span".
Definition gormOperationKey : string := "otel:operation".
Definition callbackBeforeName : string := "otel:before".
Definition callbackAfterName : string := "otel:after".

Definition ErrRecordNotFound : error := ErrVar "gorm.ErrRecordNotFound".

Definition with_settings (f : gmap string setting -> gmap string setting) (db : Statement) : Statement :=
  {| ptr := ptr db; s_Context := s_Context db; Table := Table db; Schema := Schema db;
     Settings := f (Settings db); SQL := SQL db; RowsAffected := RowsAffected db; db_Error := db_Error db |}.

Definition with_db_context (ctx : Span) (db : Statement) : Statement :=
  {| ptr := ptr db; s_Context := Some ctx; Table := Table db; Schema := Schema db;
     Settings := Settings db; SQL := SQL db; RowsAffected := RowsAffected db; db_Error := db_Error db |}.

Definition db_Set (k : string) (v : setting) : Statement -> Statement := with_settings (insert k v).

Definition instance_key (db : Statement) (k : string) : string := bits (ptr db) +:+ k.

Definition InstanceSet (k : string) (v : setting) (db : Statement) : Statement := db_Set (instance_key db k) v db.
Definition InstanceGet (k : string) (db : Statement) : option setting := Settings db !! instance_key db k.

Record GORMTracer := { t_tracer : string; t_serviceName : string; t_dbName : string }.

Definition NewGORMTracer (serviceName dbName : string) : GORMTracer :=
  {| t_tracer := serviceName +:+ "/gorm"; t_serviceName := serviceName; t_dbName := dbName |}.

(** The chains of callbacks of the six kinds of statements. *)
Inductive processor := PCreate | PQuery | PUpdate | PDelete | PRow | PRaw.

Record registration := { r_processor : processor; r_before : bool; r_anchor : string; r_name : string; r_operation : string }.

(** In the order of the code: the six before, then the six after. *)
Definition registrations : list registration :=
  map (fun '(p, anchor, op) => {| r_processor := p; r_before := true; r_anchor := anchor;
                                  r_name := callbackBeforeName; r_operation := op |})
    [(PCreate, "gorm:create", "INSERT"); (PQuery, "gorm:query", "SELECT"); (PUpdate, "gorm:update", "UPDATE");
     (PDelete, "gorm:delete", "DELETE"); (PRow, "gorm:row", "ROW"); (PRaw, "gorm:raw", "RAW")] ++
  map (fun '(p, anchor) => {| r_processor := p; r_before := false; r_anchor := anchor;
                              r_name := callbackAfterName; r_operation := "" |})
    [(PCreate, "gorm:create"); (PQuery, "gorm:query"); (PUpdate, "gorm:update");
     (PDelete, "gorm:delete"); (PRow, "gorm:row"); (PRaw, "gorm:raw")].

(** [register] of the library may refuse; the first refusal ends the registration. *)
Fixpoint register_all (register : registration -> option error) (rs : list registration)
    : list registration * option error :=
  match rs with
  | [] => ([], None)
  | r :: rs =>
      match register r with
      | Some e => ([], Some e)
      | None => let '(done, err) := register_all register rs in (r :: done, err)
      end
  end.

Definition RegisterCallbacks (register : registration -> option error) : list registration * option error :=
  register_all register registrations.

Definition before (t : GORMTracer) (operation : string) (db : Statement) (w : World) : Statement * World :=
  let ctx := default NoSpan (s_Context db) in
  let tableName := if bool_decide (Table db = "") then default "" (Schema db) else Table db in
  let '(span, w) := Start (t_tracer t) ctx ("GORM " +:+ operation +:+ " " +:+ tableName) Client
    [("db.system", AStr "postgresql"); ("db.name", AStr (t_dbName t)); ("db.operation", AStr operation);
     ("db.table", AStr tableName)] w in
  (InstanceSet gormOperationKey (SStr operation) (InstanceSet gormSpanKey (SSpan span) (with_db_context span db)), w).

Definition truncate (sql : string) : string :=
  if bool_decide (1000 < Z.of_nat (String.length sql)) then String.substring 0 1000 sql +:+ "..." else sql.

Definition db_failed (e : option error) : option error :=
  match e with Some e => if bool_decide (e = ErrRecordNotFound) then None else Some e | None => None end.

Definition finish (span : Span) (e : option error) (w : World) : World :=
  match db_failed e with
  | Some e => SetStatus span CodeError (text e) (span_RecordError span e w)
  | None => SetStatus span CodeOk "" w
  end.

(** [explain]: the text of the statement with its variables. *)
Definition after (explain : Statement -> string) (db : Statement) (w : World) : World :=
  match InstanceGet gormSpanKey db with
  | Some (SSpan span) =>
      let w := SetAttributes span [("db.statement", AStr (truncate (explain db)))] w in
      let w := SetAttributes span [("db.rows_affected", AInt (RowsAffected db))] w in
      EndSpan span (finish span (db_Error db) w)
  | _ => w
  end.

(** A statement with both callbacks around the operation of the library, which
    sets the result but neither the address nor the settings of this statement. *)
Definition traced_statement (t : GORMTracer) (explain : Statement -> string) (operation : string)
    (core : Statement -> World -> (string * Z * option error) * World) (db : Statement) (w : World) : Statement * World :=
  let '(db, w) := before t operation db w in
  let '((sql, rows, err), w) := core db w in
  let db := {| ptr := ptr db; s_Context := s_Context db; Table := Table db; Schema := Schema db;
               Settings := Settings db; SQL := sql; RowsAffected := rows; db_Error := err |} in
  (db, after explain db w).

Definition db_attributes (operation table : string) : list (string * attr) :=
  [("db.system", AStr "postgresql"); ("db.operation", AStr operation); ("db.table", AStr table)].

Definition TraceDB (ctx : Span) (db : Statement) (operation table : string) (w : World) : Statement * World :=
  let '(span, w) := Start "" ctx ("DB " +:+ operation +:+ " " +:+ table) Client (db_attributes operation table) w in
  (db_Set gormSpanKey (SSpan span) (with_db_context span db), w).

Record DBSpanTimer := { timer_ctx : Span; timer_span : Span; startTime : Z }.

Definition StartDBSpan (ctx : Span) (operation table : string) (now : Z) (w : World) : DBSpanTimer * World :=
  let '(span, w) := Start "" ctx ("DB " +:+ operation +:+ " " +:+ table) Client (db_attributes operation table) w in
  ({| timer_ctx := span; timer_span := span; startTime := now |}, w).

Definition timer_End (t : DBSpanTimer) (err : option error) (rowsAffected now : Z) (w : World) : World :=
  let w := SetAttributes (timer_span t)
    [("db.rows_affected", AInt rowsAffected);
     ("db.duration_ms", AInt (Z.quot (time_Sub now (startTime t)) Millisecond))] w in
  EndSpan (timer_span t) (finish (timer_span t) err w).

Definition timer_Context (t : DBSpanTimer) : Span := timer_ctx t.

(** ** The provider (tracer.go) *)

Record Config := {
  ServiceName : string;
  ServiceVersion : string;
  Environment : string;
  OTLPEndpoint : string;
  SampleRate : f64;
  Enabled : bool
}.

Definition or_default (s d : string) : string := if bool_decide (s = "") then d else s.

Definition DefaultConfig (getenv : string -> string) (serviceName : string) : Config :=
  {| ServiceName := serviceName;
     ServiceVersion := getenv "APP_VERSION";
     Environment := or_default (getenv "APP_ENV") "development";
     OTLPEndpoint := or_default (getenv "OTEL_EXPORTER_OTLP_ENDPOINT") "jaeger:4318";
     SampleRate := f64_div (f64_of_int 1) (f64_of_int 10);
     Enabled := bool_decide (getenv "OTEL_ENABLED" <> "false") |}.

Inductive Sampler := TraceIDRatioBased (rate : f64) | AlwaysSample.

Record TracerProvider := { tp_endpoint : string; tp_attributes : list (string * string); tp_sampler : Sampler }.

Record Telemetry := { config : Config; tracerProvider : option TracerProvider }.

(** The provider and the propagator of the process. *)
Record Globals := { global_provider : option TracerProvider; global_propagator : list string }.

Definition sampler (cfg : Config) : Sampler :=
  if bool_decide (Environment cfg = "production") then TraceIDRatioBased (SampleRate cfg) else AlwaysSample.

(** [exporter], [resource]: the errors of the constructions that may fail. *)
Definition initTracer (exporter resource : option error) (cfg : Config) (g : Globals)
    : result TracerProvider * Globals :=
  match exporter with
  | Some e => (Err e, g)
  | None =>
      match resource with
      | Some e => (Err e, g)
      | None =>
          let tp := {| tp_endpoint := OTLPEndpoint cfg;
                       tp_attributes := [("service.name", ServiceName cfg); ("service.version", ServiceVersion cfg);
                                         ("deployment.environment", Environment cfg); ("service.namespace", "niaga")];
                       tp_sampler := sampler cfg |} in
          (Ok tp, {| global_provider := Some tp; global_propagator := ["tracecontext"; "baggage"] |})
      end
  end.

Definition New (exporter resource : option error) (cfg : Config) (g : Globals) : result Telemetry * Globals :=
  if negb (Enabled cfg) then (Ok {| config := cfg; tracerProvider := None |}, g)
  else match initTracer exporter resource cfg g with
       | (Err e, g) => (Err e, g)
       | (Ok tp, g) => (Ok {| config := cfg; tracerProvider := Some tp |}, g)
       end.

(** The provider that makes the tracer, and the tracer's name. *)
Definition Tracer (t : Telemetry) (g : Globals) : option TracerProvider * string :=
  match tracerProvider t with
  | None => (global_provider g, ServiceName (config t))
  | Some tp => (Some tp, ServiceName (config t))
  end.

Definition Shutdown (shutdown : TracerProvider -> option error) (t : Telemetry) : option error :=
  match tracerProvider t with None => None | Some tp => shutdown tp end.

Definition StartSpan (ctx : Span) (name : string) (kind : SpanKind) (attrs : list (string * attr)) : World -> Span * World :=
  Start "" ctx name kind attrs.

Definition SpanFromContext (ctx : Span) : Span := ctx.
Definition AddSpanAttributes (ctx : Span) (attrs : list (string * attr)) (w : World) : World := SetAttributes ctx attrs w.
Definition RecordError (ctx : Span) (e : error) (w : World) : World := span_RecordError ctx e w.

(** ** Every span is ended *)

Ltac span_start Hw :=
  match goal with
  | |- context [Start ?t ?c ?n ?k ?a ?w] =>
      let sc := fresh "sc" in let Hn := fresh "Hn" in let Hok := fresh "Hok" in
      destruct (Start t c n k a w) as [? ?] eqn:?;
      match goal with E : Start _ _ _ _ _ _ = _ |- _ =>
        apply (Start_ok _ _ _ _ _ _ _ _ _ Hw) in E as (sc & -> & _ & Hn & Hok) end
  end.

Lemma Publish_keeps p ctx subject data :
  (forall msg, keeps (conn p msg)) -> (forall send msg, js p = Some send -> keeps (send msg)) ->
  keeps (Publish p ctx subject data).
Proof.
  intros Hc Hj o w Hw. unfold Publish. span_start Hw.
  set (msg := {| Subject := _ |}).
  assert (keeps (match js p with Some send => send msg | None => conn p msg end)) as Hs
    by (destruct (js p) eqn:E; eauto).
  specialize (Hs _ _ Hok).
  replace (match js p with Some send => send msg w0 | None => conn p msg w0 end)
    with ((match js p with Some send => send msg | None => conn p msg end) w0) by (by destruct (js p)).
  destruct ((match js p with Some send => send msg | None => conn p msg end) w0) as [err w1].
  destruct err; described.
Qed.

Lemma Handle_keeps h msg : (forall s m, keeps (handler h s m)) -> keeps (Handle h msg).
Proof.
  intros Hh o w Hw. unfold Handle, StartConsumerSpan. span_start Hw.
  specialize (Hh (Local sc) msg _ _ Hok). destruct (handler h (Local sc) msg w0) as [[[e|]|e] w1]; described.
Qed.

Lemma Do_keeps c ctx req : (forall r, keeps (client c r)) -> keeps (Do c ctx req).
Proof.
  intros Hc o w Hw. unfold Do. span_start Hw.
  match goal with |- context [client c ?r w0] => specialize (Hc r _ _ Hok); destruct (client c r w0) as [[resp|e] w1] end;
    described.
Qed.

Lemma record_all_ok sc o w es :
  SpanID sc ∈ o -> world_ok o w -> world_ok o (foldl (fun w e => span_RecordError (Local sc) e w) w es).
Proof.
  intros Hin. revert w. induction es as [|e es IH]; intros w Hw; [done|]. apply IH.
  apply (emit_ok _ (SpanID sc)); [by simpl; rewrite bool_decide_true|done|done].
Qed.

Lemma TracingMiddleware_keeps name next c :
  (forall c, keeps (next c)) -> keeps (TracingMiddleware name next c).
Proof.
  intros Hn o w Hw. unfold TracingMiddleware. span_start Hw.
  match goal with |- context [next ?g w0] => specialize (Hn g _ _ Hok); destruct (next g w0) as [[c1 [e|]] w1] end.
  - described.
  - cbn [snd EndSpan on_span]. apply emit_ended; [done|]. apply record_all_ok; [set_solver|]. described.
Qed.

Lemma finish_ok sc e o w : SpanID sc ∉ o -> world_ok ({[SpanID sc]} ∪ o) w -> world_ok o (EndSpan (Local sc) (finish (Local sc) e w)).
Proof. intros Hn Hw. unfold finish. destruct (db_failed e); described. Qed.

Lemma span_key_kept span op db :
  InstanceGet gormSpanKey (InstanceSet gormOperationKey (SStr op) (InstanceSet gormSpanKey (SSpan span) db)) = Some (SSpan span).
Proof.
  unfold InstanceGet, InstanceSet, db_Set, instance_key. simpl.
  rewrite lookup_insert_ne; [apply lookup_insert_eq|].
  intros Heq. induction (bits (ptr db)) as [|c s IH]; [done|]. injection Heq. auto.
Qed.

Lemma after_ok explain db sc o w :
  InstanceGet gormSpanKey db = Some (SSpan (Local sc)) -> SpanID sc ∉ o ->
  world_ok ({[SpanID sc]} ∪ o) w -> world_ok o (after explain db w).
Proof. intros Hg Hn Hw. unfold after. rewrite Hg. apply finish_ok; [done|]. described. Qed.

Lemma traced_statement_keeps t explain op core db :
  (forall db, keeps (core db)) -> keeps (traced_statement t explain op core db).
Proof.
  intros Hc o w Hw. unfold traced_statement, before. span_start Hw.
  match goal with |- context [core ?d w0] => specialize (Hc d _ _ Hok); destruct (core d w0) as [[[sql rows] err] w1] end.
  apply (after_ok explain _ sc); [|done..]. exact (span_key_kept (Local sc) op (with_db_context (Local sc) db)).
Qed.

Lemma timed_keeps {A} ctx op table now (f : DBSpanTimer -> World -> A * World) err rows now' :
  (forall t, keeps (f t)) ->
  keeps (fun w => let '(t, w) := StartDBSpan ctx op table now w in
                  let '(a, w) := f t w in (a, timer_End t err rows now' w)).
Proof.
  intros Hf o w Hw. unfold StartDBSpan. span_start Hw.
  match goal with |- context [f ?t w0] => specialize (Hf t _ _ Hok); destruct (f t w0) as [a w1] end.
  cbn [snd]. unfold timer_End. apply finish_ok; [done|]. described.
Qed.

(** Every operation that starts a span ends it exactly once and uses it in
    between only, whatever happens inside: after a failed publication or request,
    a handler that panics, a failed statement. So the spans that are open after
    it are those that were open before. *)
Lemma spans_closed :
  (forall p ctx subject data, (forall msg, keeps (conn p msg)) -> (forall send msg, js p = Some send -> keeps (send msg)) ->
     keeps (Publish p ctx subject data)) /\
  (forall h msg, (forall s m, keeps (handler h s m)) -> keeps (Handle h msg)) /\
  (forall c ctx req, (forall r, keeps (client c r)) -> keeps (Do c ctx req)) /\
  (forall name next c, (forall c, keeps (next c)) -> keeps (TracingMiddleware name next c)) /\
  (forall t explain op core db, (forall db, keeps (core db)) -> keeps (traced_statement t explain op core db)) /\
  (forall A ctx op table now (f : DBSpanTimer -> World -> A * World) err rows now', (forall t, keeps (f t)) ->
     keeps (fun w => let '(t, w) := StartDBSpan ctx op table now w in
                     let '(a, w) := f t w in (a, timer_End t err rows now' w))).
Proof.
  split; [intros; by apply Publish_keeps|]. split; [intros; by apply Handle_keeps|].
  split; [intros; by apply Do_keeps|]. split; [intros; by apply TracingMiddleware_keeps|].
  split; [intros; by apply traced_statement_keeps|intros; by apply timed_keeps].
Qed.

(** The span of [TraceDB] is stored under a key that no callback looks up: after
    any statement run on the result one more span is open than before, for good. *)
Lemma TraceDB_leaks ctx db op table t explain op' core o w :
  world_ok o w -> (forall db, keeps (core db)) ->
  let '(db, w1) := TraceDB ctx db op table w in
  exists id, (id ∉ o) /\ world_ok ({[id]} ∪ o) (snd (traced_statement t explain op' core db w1)).
Proof.
  intros Hw Hc. unfold TraceDB. span_start Hw. exists (SpanID sc). split; [done|].
  by apply traced_statement_keeps.
Qed.

(** ** Traces continue from one process to the next *)

(** A connection that hands each message to a handler. *)
Definition deliver (h : TracedMessageHandler) (msg : Msg) (w : World) : option error * World :=
  (None, snd (Handle h msg w)).

(** A transport on whose other side the middleware serves the request. *)
Definition serve (name : string) (blank : Gin) (next : Gin -> World -> (Gin * option error) * World)
    (r : Request) (w : World) : result HTTPResponse * World :=
  let c := {| g_ctx := NoSpan; g_Header := req_Header r; g_Method := req_Method r; g_FullPath := URL_Path r;
              g_Path := URL_Path r; g_URL := URL r; g_Scheme := g_Scheme blank; g_Host := URL_Host r;
              g_UserAgent := g_UserAgent blank; g_ContentLength := Z.of_nat (String.length (req_Body r));
              g_ClientIP := g_ClientIP blank; g_response := ∅; g_keys := ∅; g_Status := 200; g_Size := 0;
              g_Errors := [] |} in
  let '((c, panic), w) := TracingMiddleware name next c w in
  (Ok {| resp_StatusCode := g_Status c; ContentLength := g_Size c; resp_Body := Ok ""; body_closed := false |}, w).

Lemma finish_later span e w : later w (EndSpan span (finish span e w)).
Proof. unfold EndSpan, finish. destruct (db_failed e); unfold SetStatus, span_RecordError; added. Qed.

Lemma record_all_later span es w w' : later w w' -> later w (foldl (fun w e => span_RecordError span e w) w' es).
Proof. revert w'. induction es as [|e es IH]; intros w' H; [done|]. apply IH. unfold span_RecordError. added. Qed.

(** What a consumer starts for a message it is handed. *)
Lemma Handle_started h msg w sc :
  (forall s m, extends (handler h s m)) -> ExtractNATSContext NoSpan msg = Remote sc ->
  later w (snd (Handle h msg w)) /\
  exists sc', has_started (snd (Handle h msg w)) sc' (Some sc) Consumer /\ TraceID sc' = TraceID sc.
Proof.
  intros Hh Hx. unfold Handle, StartConsumerSpan. rewrite Hx.
  destruct (Start _ _ _ _ _ w) as [span w0] eqn:E. apply Start_started in E as (sc' & -> & Hs & Hl & Ht).
  specialize (Hh (Local sc') msg w0). destruct (handler h (Local sc') msg w0) as [r w1]. cbn [snd] in Hh.
  match goal with |- later _ ?w2 /\ _ => assert (later w0 w2) as Hl2 end.
  { destruct r as [[e|]|e]; cbn [snd]; unfold EndSpan, SetStatus, span_RecordError; added. }
  split; [by trans w0|]. exists sc'. split; [|done]. by eapply later_started.
Qed.

Lemma TracingMiddleware_started name next c w sc :
  (forall c, extends (next c)) -> Extract (g_ctx c) (g_Header c) = Remote sc ->
  later w (snd (TracingMiddleware name next c w)) /\
  exists sc', has_started (snd (TracingMiddleware name next c w)) sc' (Some sc) Server /\ TraceID sc' = TraceID sc.
Proof.
  intros Hn Hx. unfold TracingMiddleware. rewrite Hx.
  destruct (Start _ _ _ _ _ w) as [span w0] eqn:E. apply Start_started in E as (sc' & -> & Hs & Hl & Ht).
  match goal with |- context [next ?g w0] => specialize (Hn g w0); destruct (next g w0) as [[c1 panic] w1] end.
  cbn [snd] in Hn.
  match goal with |- later _ ?w2 /\ _ => assert (later w0 w2) as Hl2 end.
  { destruct panic; cbn [snd]; unfold EndSpan; added. apply record_all_later. unfold SetStatus, SetAttributes. added. }
  split; [by trans w0|]. exists sc'. split; [|done]. by eapply later_started.
Qed.

(** A trace continues over the bus and over HTTP: a message published inside a
    span, or a request sent inside one, makes the other side start its span as a
    child of the publisher's or client's span, which is itself a child of the span
    it was made in, and all are of one trace. *)
Lemma trace_continues ctx root :
  distinguishes header -> distinguishes http_header -> span_context ctx = Some root ->
  (forall h name subject data w, (forall s m, extends (handler h s m)) ->
   let p := NewTracedNATSPublisher (deliver h) None name in
   let w' := snd (Publish p ctx subject data w) in
   exists sc sc', has_started w' sc (Some root) Producer /\ has_started w' sc' (Some sc) Consumer /\
     TraceID sc = TraceID root /\ TraceID sc' = TraceID root) /\
  (forall name server blank next timeout req w, (forall c, extends (next c)) ->
   let c := NewTracedHTTPClientWithTransport name timeout (serve server blank next) in
   let w' := snd (Do c ctx req w) in
   exists sc sc', has_started w' sc (Some root) Client /\ has_started w' sc' (Some sc) Server /\
     TraceID sc = TraceID root /\ TraceID sc' = TraceID root).
Proof.
  intros Hd Hd' Hroot. split.
  - intros h name subject data w Hh p w'. unfold w', Publish, p. cbn [NewTracedNATSPublisher js conn].
    destruct (Start _ _ _ _ _ w) as [span w0] eqn:E. apply Start_started in E as (sc & -> & Hs & _ & Ht).
    rewrite Hroot in Hs, Ht. unfold deliver.
    match goal with |- context [Handle h ?m w0] => destruct (Handle_started h m w0 sc Hh) as [Hl (sc' & Hs' & Ht')] end.
    { unfold ExtractNATSContext. simpl. by apply Extract_Inject. }
    exists sc, sc'. split; [|split; [|split; [done|congruence]]].
    + eapply later_started; [|exact Hs]. cbn [snd]. unfold EndSpan, SetStatus. added.
    + eapply later_started; [|exact Hs']. cbn [snd]. unfold EndSpan, SetStatus. added.
  - intros name server blank next timeout req w Hn c w'. unfold w', Do, c.
    cbn [NewTracedHTTPClientWithTransport client c_tracer].
    destruct (Start _ _ _ _ _ w) as [span w0] eqn:E. apply Start_started in E as (sc & -> & Hs & _ & Ht).
    rewrite Hroot in Hs, Ht. unfold serve.
    match goal with |- context [TracingMiddleware server next ?g w0] =>
      destruct (TracingMiddleware_started server next g w0 sc Hn) as [Hl (sc' & Hs' & Ht')];
        [simpl; by apply Extract_Inject|];
        destruct (TracingMiddleware server next g w0) as [[c1 panic] w1] end.
    exists sc, sc'. cbn [snd] in *. split; [|split; [|split; [done|congruence]]].
    + eapply later_started; [|exact Hs]. unfold EndSpan, SetStatus, SetAttributes. added.
    + eapply later_started; [|exact Hs']. unfold EndSpan, SetStatus, SetAttributes. added.
Qed.

(** The span a call is about, and the calls about a span. *)
Definition call_id (c : call) : positive :=
  match c with
  | Started _ sc _ _ _ _ => SpanID sc
  | Described id _ | Recorded id _ | StatusSet id _ _ | Ended id => id
  end.

Definition span_calls (id : positive) (w : World) : list call := filter (fun c => call_id c = id) (log w).

(** That an operation was wrapped, with [w] before all, [w1] before the operation, [w2] after
    it and [w'] in the end: to the log of the operation the calls [rest] are added and
    no others. So, if the identifier of the span is new, all that it was ever told is its
    start, what the operation itself told it, and [rest]. *)
Definition wraps (w w1 w2 w' : World) (rest : list call) : Prop :=
  log w' = log w2 ++ rest /\
  (span_calls (fresh w) w = [] -> forall inner, span_calls (fresh w) w2 = span_calls (fresh w) w1 ++ inner ->
     exists tracer sc parent name kind attrs, SpanID sc = fresh w /\
       span_calls (fresh w) w' = Started tracer sc parent name kind attrs :: inner ++ rest).

(** What a span is told of an outcome. *)
Definition failure_calls (id : positive) (e : error) : list call :=
  [Recorded id e; StatusSet id CodeError (text e); Ended id].
Definition success_calls (id : positive) : list call := [StatusSet id CodeOk ""; Ended id].

Definition outcome_calls (id : positive) (e : option error) : list call :=
  match e with Some e => failure_calls id e | None => success_calls id end.

Lemma finish_log sc e w :
  log (EndSpan (Local sc) (finish (Local sc) e w)) = log w ++ outcome_calls (SpanID sc) (db_failed e).
Proof. unfold finish. destruct (db_failed e); simpl; by rewrite <-!app_assoc. Qed.

Lemma filter_id_all id l : Forall (fun c => call_id c = id) l -> filter (fun c => call_id c = id) l = l.
Proof. induction 1 as [|c l Hc Hl IH]; [done|]. by rewrite filter_cons_True, IH. Qed.

Lemma Start_wraps tracer ctx name kind attrs w w2 w' rest :
  log w' = log w2 ++ rest -> Forall (fun c => call_id c = fresh w) rest ->
  wraps w (snd (Start tracer ctx name kind attrs w)) w2 w' rest.
Proof.
  intros Hl Hr. split; [done|]. unfold span_calls. intros Hw inner. rewrite Hl. cbn [Start snd log].
  rewrite !filter_app, Hw, (filter_id_all _ rest) by done. rewrite filter_cons_True, filter_nil by done.
  intros ->. eexists _, _, _, _, _, _. split; [|reflexivity]. done.
Qed.

Lemma outcome_calls_id id e : Forall (fun c => call_id c = id) (outcome_calls id e).
Proof. destruct e; by repeat constructor. Qed.

(** What a request tells its span when it was processed. *)
Definition request_calls (id : positive) (c : Gin) : list call :=
  Described id [("http.status_code", AInt (g_Status c)); ("http.response_content_length", AInt (g_Size c))] ::
  StatusSet id (fst (server_status (g_Status c))) (snd (server_status (g_Status c))) ::
  map (Recorded id) (g_Errors c) ++ [Ended id].

(** The span it is served in. *)
Definition server_span (serviceName : string) (c : Gin) (w : World) : Span * World :=
  Start serviceName (Extract (g_ctx c) (g_Header c))
    (g_Method c +:+ " " +:+ (if bool_decide (g_FullPath c = "") then g_Path c else g_FullPath c)) Server
    [("http.method", AStr (g_Method c)); ("http.route", AStr (g_FullPath c)); ("http.url", AStr (g_URL c));
     ("http.scheme", AStr (g_Scheme c)); ("net.host.name", AStr (g_Host c));
     ("user_agent.original", AStr (g_UserAgent c)); ("http.request_content_length", AInt (g_ContentLength c));
     ("http.client_ip", AStr (g_ClientIP c))] w.

(** And what the answer to a request, and a statement, tell theirs. *)
Definition answer_calls (id : positive) (r : result HTTPResponse) : list call :=
  match r with
  | Err e => failure_calls id e
  | Ok resp =>
      Described id [("http.status_code", AInt (resp_StatusCode resp));
                    ("http.response_content_length", AInt (ContentLength resp))] ::
      (if bool_decide (400 <= resp_StatusCode resp)
       then [StatusSet id CodeError ("HTTP " +:+ pretty (resp_StatusCode resp)); Ended id]
       else success_calls id)
  end.

Definition statement_calls (explain : Statement -> string) (id : positive) (db : Statement) : list call :=
  Described id [("db.statement", AStr (truncate (explain db)))] ::
  Described id [("db.rows_affected", AInt (RowsAffected db))] ::
  outcome_calls id (db_failed (db_Error db)).

Lemma record_all sc errs w :
  log (foldl (fun w e => span_RecordError (Local sc) e w) w errs) = log w ++ map (Recorded (SpanID sc)) errs.
Proof.
  revert w. induction errs as [|e errs IH]; intros w; cbn [foldl map]; [by rewrite app_nil_r|].
  rewrite IH. simpl. by rewrite <- app_assoc.
Qed.

(** C36: What an operation returned, or panicked with, reaches the caller unchanged, and the
    span that the call started is told of it once: the wrapper adds to what the operation
    itself did exactly the start of a span before and these calls on it after. For a
    publication or a handler: with an error, its record, the status of an error with its
    text, and the end; without, the status of success and the end. For a request that is
    sent: the record, the status and the end when it failed; when it was answered, the
    answer's status code, the status of an error from 400 on, and the end, with nothing
    recorded. For a statement: its text and rows, and the same as for a publication, where
    a record that is not found is no error. For a request that is served: its status
    code, the status that goes with it, the errors that its handlers left, each once, and
    the end. A handler that panics leaves its span with the end only. *)
Lemma errors_reach_spans :
  (forall p ctx subject data w,
     let '(span, w1) := Start (pub_tracer p) ctx ("NATS Publish " +:+ subject) Producer
       [("messaging.system", AStr "nats"); ("messaging.destination.name", AStr subject);
        ("messaging.operation", AStr "publish"); ("messaging.message.payload_size_bytes", payload_size data)] w in
     let msg := {| Subject := subject; Data := data; msg_Header := Some (Inject span ∅) |} in
     let '(e, w2) := match js p with Some send => send msg w1 | None => conn p msg w1 end in
     let '(e', w') := Publish p ctx subject data w in
     e' = e /\ wraps w w1 w2 w' (outcome_calls (fresh w) e)) /\
  (forall h msg w,
     let '(span, w1) := StartConsumerSpan NoSpan (h_serviceName h) (Subject msg) msg w in
     let '(r, w2) := handler h span msg w1 in
     let '(r', w') := Handle h msg w in
     match r with
     | Returns e => r' = Returns tt /\ wraps w w1 w2 w' (outcome_calls (fresh w) e)
     | Panics e => r' = Panics e /\ wraps w w1 w2 w' [Ended (fresh w)]
     end) /\
  (forall c ctx req w,
     let '(span, w1) := Start (c_tracer c) ctx ("HTTP " +:+ req_Method req +:+ " " +:+ URL_Path req) Client
       [("http.method", AStr (req_Method req)); ("http.url", AStr (URL req)); ("net.peer.name", AStr (URL_Host req));
        ("http.target", AStr (URL_Path req))] w in
     let '(r, w2) := client c (WithContext span (with_header (Inject span (req_Header req)) req)) w1 in
     let '(r', w') := Do c ctx req w in
     r' = r /\ wraps w w1 w2 w' (answer_calls (fresh w) r)) /\
  (forall t explain operation core db w,
     let '(db1, w1) := before t operation db w in
     let '((sql, rows, err), w2) := core db1 w1 in
     let '(db', w') := traced_statement t explain operation core db w in
     SQL db' = sql /\ RowsAffected db' = rows /\ db_Error db' = err /\
     wraps w w1 w2 w' (statement_calls explain (fresh w) db')) /\
  (forall serviceName next c w,
     let '(span, w1) := server_span serviceName c w in
     let '((c2, panic), w2) := next (enter span (trace_id_text span) c) w1 in
     let '((c', panic'), w') := TracingMiddleware serviceName next c w in
     c' = c2 /\ panic' = panic /\
     wraps w w1 w2 w' (match panic with Some _ => [Ended (fresh w)] | None => request_calls (fresh w) c' end)).
Proof.
  split_and!.
  - intros p ctx subject data w. unfold Publish. destruct (Start _ _ _ _ _ w) as [span w1] eqn:E.
    pose proof (f_equal snd E) as Hw1. injection E as <- _. cbn [snd] in Hw1.
    destruct (match js p with Some send => _ | None => _ end) as [[e|] w2]; (split; [done|]); rewrite <- Hw1;
      (apply Start_wraps; [simpl; by rewrite <-!app_assoc|by apply outcome_calls_id]).
  - intros h msg w. unfold Handle. destruct (StartConsumerSpan _ _ _ _ w) as [span w1] eqn:E. unfold StartConsumerSpan in E.
    pose proof (f_equal snd E) as Hw1. injection E as <- _. cbn [snd] in Hw1.
    destruct (handler h _ msg w1) as [[[e|]|e] w2]; (split; [done|]); rewrite <- Hw1;
      (apply Start_wraps; [simpl; by rewrite <-?app_assoc|first [by apply (outcome_calls_id _ (Some _))|by repeat constructor]]).
  - intros c ctx req w. unfold Do. destruct (Start _ _ _ _ _ w) as [span w1] eqn:E.
    pose proof (f_equal snd E) as Hw1. injection E as <- _. cbn [snd] in Hw1.
    destruct (client c _ w1) as [[resp|e] w2]; (split; [done|]); rewrite <- Hw1; apply Start_wraps; cbn [answer_calls].
    + case_bool_decide; simpl; by rewrite <-!app_assoc.
    + case_bool_decide; by repeat constructor.
    + simpl; by rewrite <-!app_assoc.
    + apply (outcome_calls_id _ (Some e)).
  - intros t explain operation core db w. unfold traced_statement. destruct (before t operation db w) as [db1 w1] eqn:E.
    unfold before in E. destruct (Start _ _ _ _ _ w) as [span w0] eqn:E0. pose proof (f_equal snd E0) as Hw1.
    injection E0 as Hspan _. cbn [snd] in Hw1. injection E as <- <-.
    destruct (core _ w0) as [[[sql rows] err] w2]. split_and!; [done..|]. rewrite <- Hw1.
    apply Start_wraps; [|by repeat constructor; apply outcome_calls_id]. unfold after.
    match goal with |- context [InstanceGet gormSpanKey ?d] =>
      replace (InstanceGet gormSpanKey d) with (Some (SSpan span)) by (symmetry; apply (span_key_kept span operation)) end.
    rewrite <- Hspan, finish_log. simpl. by rewrite <-!app_assoc.
  - intros serviceName next c w. unfold TracingMiddleware. fold (server_span serviceName c w).
    destruct (server_span serviceName c w) as [span w1] eqn:E. unfold server_span in E. pose proof (f_equal snd E) as Hw1.
    injection E as Hspan _. cbn [snd] in Hw1.
    destruct (next _ w1) as [[c2 [e|]] w2]; (split_and!; [done..|]); rewrite <- Hw1, <- Hspan;
      (apply Start_wraps; [|unfold request_calls]).
    + done.
    + by repeat constructor.
    + unfold request_calls. cbn [EndSpan on_span emit log]. rewrite record_all. simpl. by rewrite <-!app_assoc.
    + repeat constructor; [done..|]. apply Forall_app. split; [|by repeat constructor].
      by apply Forall_map, Forall_true.
Qed.

End telemetry.

(** A handler that panics and a connection that fails, in an empty world. *)
Definition empty_world : World := {| log := []; fresh := 1 |}.
Definition panicking : TracedMessageHandler :=
  NewTracedMessageHandler "orders" (fun _ _ w => (Panics (ErrExt 1), w)).
Definition example_msg : Msg := {| Subject := "niaga.order.created"; Data := "{}"; msg_Header := None |}.
Definition example_text (e : error) : string := match e with ErrMsg t => t | _ => "error" end.

Lemma spans_closed_witness :
  fst (Handle example_text panicking example_msg empty_world) = Panics (ErrExt 1) /\
  world_ok ∅ (snd (Handle example_text panicking example_msg empty_world)).
Proof.
  split; [reflexivity|].
  apply (proj1 (proj2 (spans_closed example_text)) panicking example_msg).
  - intros s m o w Hw. exact Hw.
  - split; [reflexivity|]. intros id Hid. apply elem_of_empty in Hid. destruct Hid.
Defined.

Lemma binary_distinguishes : distinguishes header /\ distinguishes http_header.
Proof. split; intros sc; apply NoDup_singleton. Qed.

Definition quiet : TracedMessageHandler := NewTracedMessageHandler "billing" (fun _ _ w => (Returns None, w)).
Definition example_root : SpanContext := {| TraceID := 7; SpanID := 7 |}.
Definition example_world : World := {| log := []; fresh := 8 |}.
Definition example_ctx : Span := Local example_root.

Lemma trace_continues_witness :
  exists sc sc',
    let w' := snd (Publish example_text (NewTracedNATSPublisher (deliver example_text quiet) None "orders")
                     example_ctx "niaga.order.created" "{}" example_world) in
    has_started w' sc (Some example_root) Producer /\ has_started w' sc' (Some sc) Consumer /\
    TraceID sc = 7%positive /\ TraceID sc' = 7%positive.
Proof.
  apply (proj1 (trace_continues example_text example_ctx example_root
                  (proj1 binary_distinguishes) (proj2 binary_distinguishes) eq_refl) quiet "orders").
  intros s m w. exists []. symmetry. apply app_nil_r.
Defined.

(** A connection that refuses. *)
Definition refuse (m : Msg) (w : World) : option error * World := (Some (ErrMsg "refused"), w).

Definition found_statement : Statement :=
  {| ptr := 3; s_Context := None; Table := "orders"; Schema := None; Settings := ∅; SQL := ""; RowsAffected := 0;
     db_Error := None |}.

Definition not_found (db : Statement) (w : World) : (string * Z * option error) * World :=
  (("SELECT 1", 0, Some ErrRecordNotFound), w).

Lemma errors_reach_spans_witness :
  (exists tracer sc parent name kind attrs, SpanID sc = 1%positive /\
     span_calls 1 (snd (Publish example_text (NewTracedNATSPublisher refuse None "orders") NoSpan "s" "{}" empty_world)) =
       Started tracer sc parent name kind attrs :: [] ++ failure_calls example_text 1 (ErrMsg "refused")) /\
  log (snd (traced_statement example_text (NewGORMTracer "orders" "db") SQL "SELECT" not_found found_statement empty_world)) =
    log (snd (before (NewGORMTracer "orders" "db") "SELECT" found_statement empty_world)) ++
    [Described 1 [("db.statement", AStr "SELECT 1")]; Described 1 [("db.rows_affected", AInt 0)];
     StatusSet 1 CodeOk ""; Ended 1].
Proof.
  destruct (errors_reach_spans example_text) as (Hpublish & _ & _ & Hstatement & _). split.
  - exact (proj2 (proj2 (Hpublish (NewTracedNATSPublisher refuse None "orders") NoSpan "s" "{}" empty_world)) eq_refl [] eq_refl).
  - exact (proj1 (proj2 (proj2 (proj2 (Hstatement (NewGORMTracer "orders" "db") SQL "SELECT" not_found found_statement empty_world))))).
Defined.
