(* ===== verification/Chain.v ===== *)
(** * The chain of handlers (src/middleware: recovery, requestid, logger, compression)

    Handlers call the rest of the chain and may panic. The writer of a response
    commits its status and headers with the first byte. The layers that
    [Middleware.SetupCommonMiddleware] lists are run here in their order. *)

From S2P Require Import Prelude GoStrings Response TokenAuth Middleware InputValidation.
From Stdlib Require Import Ascii.

(** ** The writer *)

Inductive content := CText (s : string) | CReply (r : reply) | CFields (l : list (string * string)).

#[export] Instance content_inhabited : Inhabited content := populate (CText "").

(** What goes out: bytes as they are, or the parts of a compressed stream. *)
Inductive chunk := Plain (c : content) | GzipHeader | Compressed (c : content) | GzipFooter.

(** The state of a [gzip.Writer]: whether its header was written, whether it is closed. *)
Record gzip := { gz_started : bool; gz_closed : bool }.

(** [w_sent]: the status and the headers once they are on the wire. *)
Record Writer := {
  w_status : Z;
  w_headers : headers;
  w_sent : option (Z * headers);
  w_body : list chunk;
  w_gzip : option gzip
}.

(** [c.Status]: too late once the headers are out. *)
Definition WriteHeader (code : Z) (w : Writer) : Writer :=
  match w_sent w with
  | Some _ => w
  | None => {| w_status := code; w_headers := w_headers w; w_sent := None; w_body := w_body w; w_gzip := w_gzip w |}
  end.

Definition WriteHeaderNow (w : Writer) : Writer :=
  match w_sent w with
  | Some _ => w
  | None => {| w_status := w_status w; w_headers := w_headers w; w_sent := Some (w_status w, w_headers w);
               w_body := w_body w; w_gzip := w_gzip w |}
  end.

Definition set_headers (f : headers -> headers) (w : Writer) : Writer :=
  {| w_status := w_status w; w_headers := f (w_headers w); w_sent := w_sent w; w_body := w_body w; w_gzip := w_gzip w |}.

Definition raw (ch : chunk) (w : Writer) : Writer :=
  let w := WriteHeaderNow w in
  {| w_status := w_status w; w_headers := w_headers w; w_sent := w_sent w; w_body := w_body w ++ [ch]; w_gzip := w_gzip w |}.

Definition set_gzip (g : option gzip) (w : Writer) : Writer :=
  {| w_status := w_status w; w_headers := w_headers w; w_sent := w_sent w; w_body := w_body w; w_gzip := g |}.

(** [gzipWriter.Write], or the writer's own: a closed stream refuses. *)
Definition Write (c : content) (w : Writer) : Writer :=
  match w_gzip w with
  | None => raw (Plain c) w
  | Some g =>
      if gz_closed g then w
      else
        let w := if gz_started g then w else raw GzipHeader w in
        raw (Compressed c) (set_gzip (Some {| gz_started := true; gz_closed := false |}) w)
  end.

(** [WriteString] is the embedded writer's: it does not compress. *)
Definition WriteString (s : string) (w : Writer) : Writer := raw (Plain (CText s)) w.

(** [gz.Close()] writes the header too when nothing was written. *)
Definition gzip_Close (w : Writer) : Writer :=
  match w_gzip w with
  | Some g =>
      if gz_closed g then w
      else
        let w := if gz_started g then w else raw GzipHeader w in
        set_gzip (Some {| gz_started := true; gz_closed := true |}) (raw GzipFooter w)
  | None => w
  end.

(** [c.JSON], for statuses that allow a body. *)
Definition JSON (code : Z) (c : content) (w : Writer) : Writer :=
  let w := WriteHeader code w in
  Write c (set_headers (set_header "Content-Type" "application/json; charset=utf-8") w).

(** ** The context of a request *)

Inductive line :=
| PanicRecovered (value path method : string)
| ErrorLine (text request_id : string)
| RequestProcessed (request_id : string) (status : Z) (method path query ip agent : string) (latency : Z)
| Other (text : string).

Record Ctx := {
  request : http_request;
  in_path : string;
  in_ip : string;
  in_header : string -> string;
  keys : gmap string ctx_value;
  errors : list string;
  aborted : bool;
  out : Writer;
  lines : list line
}.

Definition with_out (f : Writer -> Writer) (c : Ctx) : Ctx :=
  {| request := request c; in_path := in_path c; in_ip := in_ip c; in_header := in_header c; keys := keys c;
     errors := errors c; aborted := aborted c; out := f (out c); lines := lines c |}.

Definition with_key (k : string) (v : ctx_value) (c : Ctx) : Ctx :=
  {| request := request c; in_path := in_path c; in_ip := in_ip c; in_header := in_header c; keys := <[k := v]> (keys c);
     errors := errors c; aborted := aborted c; out := out c; lines := lines c |}.

Definition log_line (l : line) (c : Ctx) : Ctx :=
  {| request := request c; in_path := in_path c; in_ip := in_ip c; in_header := in_header c; keys := keys c;
     errors := errors c; aborted := aborted c; out := out c; lines := lines c ++ [l] |}.

Definition Abort (c : Ctx) : Ctx :=
  {| request := request c; in_path := in_path c; in_ip := in_ip c; in_header := in_header c; keys := keys c;
     errors := errors c; aborted := true; out := out c; lines := lines c |}.

Definition set_response_header (k v : string) : Ctx -> Ctx := with_out (set_headers (set_header k v)).

Definition AbortWithStatus (code : Z) (c : Ctx) : Ctx := Abort (with_out (fun w => WriteHeaderNow (WriteHeader code w)) c).

(** A run of the rest of the chain: the context it leaves, and the text of the value
    it panics with. *)
Abbreviation run := (Ctx -> Ctx * option string).
Abbreviation handler := (run -> run).

(** A handler that follows an abort is not called. *)
Fixpoint chain (hs : list handler) (final : run) (c : Ctx) : Ctx * option string :=
  if aborted c then (c, None)
  else match hs with [] => final c | h :: hs => h (chain hs final) c end.

(** ** Recovery (recovery.go) *)

Definition RecoveryMiddleware : handler := fun next c =>
  match next c with
  | (c, None) => (c, None)
  | (c, Some v) =>
      let c := log_line (PanicRecovered v (in_path c) (Method (request c))) c in
      let r := Error 500 "INTERNAL_SERVER_ERROR" ("Internal server error: " +:+ v) VNil in
      (Abort (with_out (JSON (status r) (CReply r)) c), None)
  end.

(** ** Request identifiers (requestid.go) *)

Definition RequestIDHeader : string := "X-Request-ID".
Definition RequestIDKey : string := "request_id".

Definition RequestID (uuid : string) : handler := fun next c =>
  let requestID := if bool_decide (in_header c RequestIDHeader = "") then uuid else in_header c RequestIDHeader in
  next (set_response_header RequestIDHeader requestID (with_key RequestIDKey (CStr requestID) c)).

Definition GetRequestID (c : Ctx) : string :=
  match keys c !! RequestIDKey with Some (CStr id) => id | _ => "" end.

(** ** The log of requests (logger.go) *)

(** [start], [finish]: the clock before and after. A panic passes without a line. *)
Definition LoggerMiddleware (start finish : Z) (agent : string) : handler := fun next c =>
  let path := in_path c in
  let query := RawQuery (request c) in
  match next c with
  | (c, Some v) => (c, Some v)
  | (c, None) =>
      let latency := time_Sub finish start in
      let requestID := GetRequestID c in
      (if bool_decide (errors c = []) then
         log_line (RequestProcessed requestID (w_status (out c)) (Method (request c)) path query (in_ip c) agent latency) c
       else foldl (fun c e => log_line (ErrorLine e requestID) c) c (errors c), None)
  end.

(** ** Compression (compression.go) *)

(** The level is a constant the library of the language accepts. *)
Definition Gzip : handler := fun next c =>
  if negb (Contains (in_header c "Accept-Encoding") "gzip") then next c
  else if bool_decide (default "" (w_headers (out c) !! "Content-Encoding") <> "") then next c
  else
    let c := set_response_header "Vary" "Accept-Encoding" (set_response_header "Content-Encoding" "gzip" c) in
    let '(c, panic) := next (with_out (set_gzip (Some {| gz_started := false; gz_closed := false |})) c) in
    (with_out gzip_Close c, panic).

(** ** The layers of the common set-up *)

Record environment := {
  env_uuid : string;
  env_start : Z;
  env_finish : Z;
  env_agent : string;
  env_range : Values -> list (string * list string);
  env_extern : Z -> handler
}.

Definition headers_handler (f : headers -> outcome) : handler := fun next c =>
  match f (w_headers (out c)) with
  | GoesOn h => next (with_out (set_headers (fun _ => h)) c)
  | Middleware.AbortWithStatus code h => (AbortWithStatus code (with_out (set_headers (fun _ => h)) c), None)
  end.

Definition input_handler (range : Values -> list (string * list string)) : handler := fun next c =>
  match InputValidation range (request c) with
  | Some (code, fields) => (Abort (with_out (JSON code (CFields fields)) c), None)
  | None => next c
  end.

Definition layer_handler (e : environment) (l : layer) : handler :=
  match l with
  | LRecovery => RecoveryMiddleware
  | LExtern i => env_extern e i
  | LRequestID => RequestID (env_uuid e)
  | LLogger => LoggerMiddleware (env_start e) (env_finish e) (env_agent e)
  | LCORS o => fun next c => headers_handler (CORSWithOrigins o (Method (request c)) (in_header c "Origin")) next c
  | LSecurity cfg => headers_handler (fun h => GoesOn (SecurityHeadersWithConfig cfg h))
  | LInputValidation => input_handler (env_range e)
  end.

(** The end of a request sends the headers if nothing did. *)
Definition serve (e : environment) (layers : list layer) (final : run) (c : Ctx) : Ctx * option string :=
  let '(c, panic) := chain (map (layer_handler e) layers) final c in (with_out WriteHeaderNow c, panic).

(** What the client sees as the status. *)
Definition sent_status (c : Ctx) : option Z := fst <$> w_sent (out c).
Definition sent_header (k : string) (c : Ctx) : option string := x ← w_sent (out c); snd x !! k.

(** ** The vocabulary of the theorems *)

(** A request nobody has answered yet. *)
Definition untouched (c : Ctx) : Prop :=
  aborted c = false /\ w_status (out c) = 200 /\ w_sent (out c) = None /\ w_body (out c) = [] /\ w_gzip (out c) = None.

Definition request_id (e : environment) (c : Ctx) : string :=
  if bool_decide (in_header c RequestIDHeader = "") then env_uuid e else in_header c RequestIDHeader.

Definition identified (e : environment) (c : Ctx) : Ctx :=
  set_response_header RequestIDHeader (request_id e c) (with_key RequestIDKey (CStr (request_id e c)) c).

Definition cors_of (cfg : SetupConfig) (c : Ctx) (h : headers) : outcome :=
  if bool_decide (AllowedOrigins cfg <> "")
  then CORSWithOrigins (AllowedOrigins cfg) (Method (request c)) (in_header c "Origin") h else GoesOn h.

(** The context the application's handler is called with. *)
Definition prepared (e : environment) (cfg : SetupConfig) (c : Ctx) : Ctx :=
  with_out (set_headers (fun h => SecurityHeadersWithConfig (default DefaultSecurityConfig (cfg_SecurityHeaders cfg))
                                    (outcome_headers (cors_of cfg c h)))) (identified e c).

Definition preflight (cfg : SetupConfig) (c : Ctx) : bool :=
  bool_decide (AllowedOrigins cfg <> "") && bool_decide (Method (request c) = "OPTIONS").

Definition refused (e : environment) (cfg : SetupConfig) (c : Ctx) : bool :=
  EnableInputValidation cfg && bool_decide (is_Some (InputValidation (env_range e) (request c))).

(** The status a writer has sent or would send. *)
Definition final_status (w : Writer) : Z := match w_sent w with Some (code, _) => code | None => w_status w end.

(** ** Lemmas *)

Lemma sent_status_now w : fst <$> w_sent (WriteHeaderNow w) = Some (final_status w).
Proof. unfold WriteHeaderNow, final_status. destruct (w_sent w) as [[code h]|] eqn:E; [by rewrite E|done]. Qed.

Lemma final_status_raw ch w : final_status (raw ch w) = final_status w.
Proof. unfold raw, final_status, WriteHeaderNow. destruct (w_sent w) as [[code h]|] eqn:E; simpl; [by rewrite E|done]. Qed.

Lemma final_status_Write ct w : final_status (Write ct w) = final_status w.
Proof.
  unfold Write. destruct (w_gzip w) as [g|]; [|apply final_status_raw].
  destruct (gz_closed g); [done|]. rewrite final_status_raw. destruct (gz_started g); [done|].
  unfold set_gzip, final_status at 1. simpl. apply (final_status_raw GzipHeader w).
Qed.

Lemma final_status_JSON code ct w :
  final_status (JSON code ct w) = match w_sent w with Some (sent, _) => sent | None => code end.
Proof.
  unfold JSON. rewrite final_status_Write. unfold final_status, set_headers, WriteHeader. simpl.
  destruct (w_sent w) as [[s h]|] eqn:E; simpl; [by rewrite E|done].
Qed.

Lemma with_out_out f c : out (with_out f c) = f (out c).
Proof. done. Qed.

Lemma sent_status_end f c : sent_status (with_out WriteHeaderNow (with_out f c)) = Some (final_status (f (out c))).
Proof. apply sent_status_now. Qed.

(** The recovery answers every panic: nothing passes it, an answer that had not
    started becomes a 500, one that had started keeps its status. *)
Lemma RecoveryMiddleware_spec next c :
  snd (RecoveryMiddleware next c) = None /\
  match next c with
  | (c1, None) => fst (RecoveryMiddleware next c) = c1
  | (c1, Some v) =>
      final_status (out (fst (RecoveryMiddleware next c))) =
        match w_sent (out c1) with Some (code, _) => code | None => 500 end /\
      aborted (fst (RecoveryMiddleware next c)) = true /\
      lines (fst (RecoveryMiddleware next c)) = lines c1 ++ [PanicRecovered v (in_path c1) (Method (request c1))]
  end.
Proof.
  unfold RecoveryMiddleware. destruct (next c) as [c1 [v|]]; [|done]. split; [done|]. split; [|done].
  simpl out. rewrite final_status_JSON. done.
Qed.

(** The answer to a panic. *)
Definition answer_panic (v : string) : Writer -> Writer :=
  JSON 500 (CReply (Error 500 "INTERNAL_SERVER_ERROR" ("Internal server error: " +:+ v) VNil)).

Lemma Recovery_out next c c1 v :
  next c = (c1, Some v) ->
  out (fst (RecoveryMiddleware next c)) =
  answer_panic v (out c1).
Proof. intros Hn. unfold RecoveryMiddleware. by rewrite Hn. Qed.

(** The chain up to the logger only adds lines. *)
Lemma LoggerMiddleware_out start finish agent next c :
  let '(c1, p) := LoggerMiddleware start finish agent next c in
  out c1 = out (fst (next c)) /\ p = snd (next c).
Proof.
  unfold LoggerMiddleware. destruct (next c) as [c1 [v|]]; [done|]. simpl.
  case_bool_decide as He; [done|]. split; [|done]. clear He.
  generalize (errors c1), (GetRequestID c1). intros es id. revert c1.
  induction es as [|e es IH]; intros c1; [done|]. simpl. by rewrite IH.
Qed.

(** The layers behind the logger. *)
Definition inner_layers (cfg : SetupConfig) : list layer :=
  (if bool_decide (AllowedOrigins cfg <> "") then [LCORS (AllowedOrigins cfg)] else []) ++
  [LSecurity (default DefaultSecurityConfig (cfg_SecurityHeaders cfg))] ++
  (if EnableInputValidation cfg then [LInputValidation] else []) ++ install (PostValidation cfg).

Lemma SetupCommon_layers cfg :
  Logger cfg = true ->
  SetupCommonMiddleware cfg = Returns ([LRecovery] ++ install (PreRequestID cfg) ++ [LRequestID; LLogger] ++ inner_layers cfg).
Proof. intros Hl. unfold SetupCommonMiddleware. by rewrite Hl. Qed.

(** The application with the handlers that were passed in for the place before it. *)
Definition application (e : environment) (cfg : SetupConfig) (final : run) : run :=
  chain (map (layer_handler e) (install (PostValidation cfg))) final.

(** What runs behind the logger. *)
Definition behind (e : environment) (cfg : SetupConfig) (final : run) (c : Ctx) : Ctx * option string :=
  if preflight cfg c then (AbortWithStatus 204 (with_out (set_headers (fun h => outcome_headers (cors_of cfg c h))) (identified e c)), None)
  else match (if EnableInputValidation cfg then InputValidation (env_range e) (request c) else None) with
       | Some (code, fields) => (Abort (with_out (JSON code (CFields fields)) (prepared e cfg c)), None)
       | None => final (prepared e cfg c)
       end.

Lemma chain_behind e cfg final c :
  untouched c ->
  chain (map (layer_handler e) (inner_layers cfg)) final (identified e c) = behind e cfg (application e cfg final) c.
Proof.
  intros (Ha & _). unfold behind, preflight, cors_of, prepared, cors_of, inner_layers.
  assert (forall c1, aborted c1 = false -> request c1 = request c ->
    chain (map (layer_handler e) ((if EnableInputValidation cfg then [LInputValidation] else []) ++ install (PostValidation cfg)))
      final c1 =
    match (if EnableInputValidation cfg then InputValidation (env_range e) (request c) else None) with
    | Some (code, fields) => (Abort (with_out (JSON code (CFields fields)) c1), None)
    | None => application e cfg final c1 end) as Hv.
  { intros c1 H1 H2. destruct (EnableInputValidation cfg); [|done]. cbn [app map chain layer_handler]. rewrite H1.
    unfold input_handler. rewrite H2. by destruct (InputValidation _ _) as [[code fields]|]. }
  assert (aborted (identified e c) = false) as Hi by exact Ha.
  assert (forall f, aborted (with_out f (identified e c)) = false) as Hb by (intros f; exact Ha).
  destruct (bool_decide (AllowedOrigins cfg <> "")) eqn:Ho.
  - cbn [app map layer_handler chain]. rewrite Hi. unfold headers_handler at 1.
    unfold CORSWithOrigins. cbn zeta. change (request (identified e c)) with (request c).
    change (in_header (identified e c)) with (in_header c).
    destruct (bool_decide (Method (request c) = "OPTIONS")); [done|].
    cbn [andb]. rewrite Hb. apply Hv; [exact Ha|done].
  - cbn [app map layer_handler chain andb]. rewrite Hi. apply Hv; [exact Ha|done].
Qed.

(** Setting headers leaves the others alone. *)
Lemma set_header_ne k k' v h : k <> k' -> set_header k v h !! k' = h !! k'.
Proof. intros Hk. unfold set_header. case_bool_decide; [by rewrite lookup_delete_ne|by rewrite lookup_insert_ne]. Qed.

Lemma set_headers_keep l h k :
  k ∉ map fst l -> foldl (fun h kv => set_header (fst kv) (snd kv) h) h l !! k = h !! k.
Proof.
  revert h. induction l as [|[k' v] l IH]; intros h Hk; [done|]. simpl in *. rewrite not_elem_of_cons in Hk.
  rewrite IH by tauto. apply set_header_ne. intros ->. tauto.
Qed.

Lemma SecurityHeaders_request_id cfg h : SecurityHeadersWithConfig cfg h !! RequestIDHeader = h !! RequestIDHeader.
Proof. apply set_headers_keep. by apply (bool_decide_unpack (_ ∉ _)). Qed.

Lemma cors_request_id cfg c h : outcome_headers (cors_of cfg c h) !! RequestIDHeader = h !! RequestIDHeader.
Proof.
  unfold cors_of, CORSWithOrigins. case_bool_decide; [|done]. cbn zeta.
  case_bool_decide; cbn [outcome_headers]; rewrite !lookup_insert_ne by done;
    (destruct (isOriginAllowed _ _); [by rewrite !lookup_insert_ne by done|done]).
Qed.

Lemma identified_header e c : request_id e c <> "" -> w_headers (out (identified e c)) !! RequestIDHeader = Some (request_id e c).
Proof.
  intros Hid. unfold identified, set_response_header, set_headers. simpl. unfold set_header.
  rewrite bool_decide_false by done. apply lookup_insert_eq.
Qed.

Lemma prepared_header e cfg c : request_id e c <> "" -> w_headers (out (prepared e cfg c)) !! RequestIDHeader = Some (request_id e c).
Proof.
  intros Hid. unfold prepared. simpl. rewrite SecurityHeaders_request_id, cors_request_id. by apply identified_header.
Qed.

Lemma request_id_nonempty e c : env_uuid e <> "" -> request_id e c <> "".
Proof. unfold request_id. by case_bool_decide. Qed.

(** The outer three layers, whatever runs behind them. *)
Lemma outer_layers e rest final c :
  untouched c ->
  let '(c', panic) := serve e ([LRecovery; LRequestID; LLogger] ++ rest) final c in
  let '(c2, p) := chain (map (layer_handler e) rest) final (identified e c) in
  panic = None /\
  match p with
  | None => out c' = WriteHeaderNow (out c2)
  | Some v => out c' = WriteHeaderNow (answer_panic v (out c2))
  end.
Proof.
  intros (Ha & _). unfold serve. cbn [app map layer_handler chain]. rewrite Ha.
  set (inner := fun c => if aborted c then (c, None) else RequestID (env_uuid e) _ c).
  pose proof (LoggerMiddleware_out (env_start e) (env_finish e) (env_agent e)
                (chain (map (layer_handler e) rest) final) (identified e c)) as Hlog.
  assert (inner c = LoggerMiddleware (env_start e) (env_finish e) (env_agent e)
                      (chain (map (layer_handler e) rest) final) (identified e c)) as Hin.
  { unfold inner. rewrite Ha. unfold RequestID. fold (request_id e c) (identified e c).
    by rewrite (Ha : aborted (identified e c) = false). }
  pose proof (RecoveryMiddleware_spec inner c) as [Hnone Hrec]. pose proof (Recovery_out inner c) as Hpanic.
  destruct (RecoveryMiddleware inner c) as [c' panic]. simpl in Hnone, Hrec, Hpanic. rewrite Hin in Hrec, Hpanic.
  destruct (LoggerMiddleware _ _ _ _ _) as [c1 p]. destruct Hlog as [Hout ->].
  destruct (chain _ final (identified e c)) as [c2 [v|]]; simpl in Hout, Hrec, Hpanic |- *; (split; [done|]).
  - by rewrite (Hpanic c1 v), Hout.
  - by rewrite Hrec, Hout.
Qed.

(** Nothing passes the recovery. *)
Lemma serve_no_panic e rest final c : snd (serve e (LRecovery :: rest) final c) = None.
Proof.
  unfold serve. cbn [map layer_handler chain]. destruct (aborted c); [done|].
  match goal with |- context [RecoveryMiddleware ?next c] => pose proof (RecoveryMiddleware_spec next c) as [H _];
    destruct (RecoveryMiddleware next c) end. exact H.
Qed.

(** A response of which nothing was sent. *)
Lemma JSON_unsent code ct w :
  w_sent w = None -> w_gzip w = None ->
  let w' := WriteHeaderNow (JSON code ct w) in
  fst <$> w_sent w' = Some code /\ (w_sent w' ≫= fun x => snd x !! RequestIDHeader) = w_headers w !! RequestIDHeader /\
  w_body w' = w_body w ++ [Plain ct].
Proof.
  destruct w as [st h sent b g]. simpl. intros -> ->. cbn. split_and!; [done| |done].
  by apply set_header_ne.
Qed.

(** What these layers do depends on the rest by its result only. *)
Lemma outer_layers_result e rest final final' c :
  untouched c ->
  chain (map (layer_handler e) rest) final (identified e c) = chain (map (layer_handler e) rest) final' (identified e c) ->
  serve e ([LRecovery; LRequestID; LLogger] ++ rest) final c = serve e ([LRecovery; LRequestID; LLogger] ++ rest) final' c.
Proof.
  intros (Ha & _) Heq. unfold serve. cbn [app map layer_handler chain]. rewrite Ha.
  unfold RecoveryMiddleware. rewrite Ha. unfold RequestID. fold (request_id e c) (identified e c).
  rewrite (Ha : aborted (identified e c) = false). unfold LoggerMiddleware. by rewrite Heq.
Qed.

(** C37: The common set-up around an application's handler and the handlers passed in for
    the place before it. No panic passes the set-up. If no handler is passed in for the
    place before the request identifier: a pre-flight request is answered 204 without a
    body, and one whose input is refused 400 with the fields of the refusal, both with the
    request identifier among the headers and without a call of the handlers; for any
    other request they are called with the identifier in the context and among the headers,
    and with the headers of CORS and security set, and what they leave in the writer is
    what goes out; if they panic, the answer of the recovery is written after what they
    left: 500 with its envelope and the identifier, if nothing was sent, and the status that
    was sent otherwise (as it is if the handler panics under [Gzip], which sends a 200
    on the way out, [Gzip_hides_panic]). *)
Lemma common_chain e cfg final c :
  Logger cfg = true -> untouched c -> env_uuid e <> "" ->
  exists layers, SetupCommonMiddleware cfg = Returns layers /\ snd (serve e layers final c) = None /\
  (install (PreRequestID cfg) = [] ->
   let w' := out (fst (serve e layers final c)) in
   let sent_id := w_sent w' ≫= fun x => snd x !! RequestIDHeader in
   let c1 := prepared e cfg c in
   (preflight cfg c = true -> fst <$> w_sent w' = Some 204 /\ sent_id = Some (request_id e c) /\ w_body w' = []) /\
   (preflight cfg c = false -> refused e cfg c = true ->
      exists fields, InputValidation (env_range e) (request c) = Some (400, fields) /\
        fst <$> w_sent w' = Some 400 /\ sent_id = Some (request_id e c) /\ w_body w' = [Plain (CFields fields)]) /\
   (preflight cfg c || refused e cfg c = true -> forall final', serve e layers final' c = serve e layers final c) /\
   (GetRequestID c1 = request_id e c /\ w_headers (out c1) !! RequestIDHeader = Some (request_id e c)) /\
   (preflight cfg c = false -> refused e cfg c = false ->
    match application e cfg final c1 with
    | (c2, None) => w' = WriteHeaderNow (out c2)
    | (c2, Some v) =>
        w' = WriteHeaderNow (answer_panic v (out c2)) /\
        match w_sent (out c2) with
        | Some (code, h) => fst <$> w_sent w' = Some code
        | None => fst <$> w_sent w' = Some 500 /\
            (w_gzip (out c2) = None ->
               sent_id = w_headers (out c2) !! RequestIDHeader /\
               w_body w' = w_body (out c2) ++
                 [Plain (CReply (Error 500 "INTERNAL_SERVER_ERROR" ("Internal server error: " +:+ v) VNil))])
        end
    end)).
Proof.
  intros Hl Hu Hid. eexists. split; [by apply SetupCommon_layers|]. split; [apply serve_no_panic|]. intros Hpre. rewrite Hpre.
  set (layers := [LRecovery] ++ [] ++ [LRequestID; LLogger] ++ inner_layers cfg). cbv zeta.
  assert (forall final', serve e layers final' c = serve e ([LRecovery; LRequestID; LLogger] ++ inner_layers cfg) final' c)
    as Hlayers by done.
  pose proof (request_id_nonempty e c Hid) as Hne. pose proof Hu as (_ & _ & Hs & Hb & Hg).
  pose proof (outer_layers e (inner_layers cfg) final c Hu) as Ho. rewrite chain_behind, <- Hlayers in Ho by done.
  destruct (serve e layers final c) as [c' panic] eqn:Hserve. cbn [fst]. split_and!.
  - intros Hp. unfold behind in Ho. rewrite Hp in Ho. destruct Ho as [_ ->]. simpl. unfold WriteHeader. simpl. rewrite Hs. simpl.
    split_and!; [done| |exact Hb]. rewrite cors_request_id. by apply identified_header.
  - intros Hp Hr. unfold behind in Ho. rewrite Hp in Ho. apply andb_true_iff in Hr as [Hv Hr].
    rewrite Hv in Ho. apply bool_decide_eq_true in Hr as [[code fields] Hr]. rewrite Hr in Ho. destruct Ho as [_ ->].
    pose proof (InputValidation_code _ _ _ _ Hr) as ->. exists fields. split; [exact Hr|].
    destruct (JSON_unsent 400 (CFields fields) (out (prepared e cfg c)) Hs Hg) as (H1 & H2 & H3).
    split_and!; [exact H1|rewrite <- (prepared_header e cfg c Hne); exact H2|].
    change (w_body (out (prepared e cfg c))) with (w_body (out c)) in H3. rewrite Hb in H3. exact H3.
  - intros Hor final'. rewrite <- Hserve, !Hlayers. apply outer_layers_result; [done|]. rewrite !chain_behind by done.
    unfold behind. destruct (preflight cfg c); [done|]. apply andb_true_iff in Hor as [-> Hr].
    by apply bool_decide_eq_true in Hr as [[code fields] ->].
  - unfold GetRequestID. simpl. by rewrite lookup_insert_eq.
  - by apply prepared_header.
  - intros Hp Hr. unfold behind in Ho. rewrite Hp in Ho.
    assert ((if EnableInputValidation cfg then InputValidation (env_range e) (request c) else None) = None) as Hv.
    { unfold refused in Hr. destruct (EnableInputValidation cfg); [|done]. by apply bool_decide_eq_false, eq_None_not_Some in Hr. }
    rewrite Hv in Ho. destruct (application e cfg final (prepared e cfg c)) as [c2 [v|]]; destruct Ho as [_ ->]; [|done].
    split; [done|]. destruct (w_sent (out c2)) as [[code h]|] eqn:H2.
    + rewrite sent_status_now. unfold answer_panic. by rewrite final_status_JSON, H2.
    + rewrite sent_status_now. unfold answer_panic. rewrite final_status_JSON, H2. split; [done|]. intros H3.
      by apply JSON_unsent.
Qed.

(** A request without a body on a fresh writer. *)
Definition example_request : Ctx :=
  {| request := {| Method := "GET"; RawQuery := "page=1"; Content_Type := ""; Body := "" |};
     in_path := "/api/orders"; in_ip := "10.0.0.7";
     in_header := fun k => if bool_decide (k = "Accept-Encoding") then "gzip, br" else "";
     keys := ∅; errors := []; aborted := false;
     out := {| w_status := 200; w_headers := ∅; w_sent := None; w_body := []; w_gzip := None |}; lines := [] |}.

Definition example_env : environment :=
  {| env_uuid := "1d9f"; env_start := 0; env_finish := 5; env_agent := "curl"; env_range := map_to_list;
     env_extern := fun _ next => next |}.

Definition example_setup : SetupConfig :=
  {| Logger := true; PreRequestID := []; AllowedOrigins := "https://shop.example"; cfg_SecurityHeaders := None;
     EnableInputValidation := true; PostValidation := [] |}.

Definition panicking_handler : run := fun c => (c, Some "boom").

Lemma common_chain_witness :
  exists layers, SetupCommonMiddleware example_setup = Returns layers /\
    w_body (out (fst (serve example_env layers panicking_handler example_request))) =
      [Plain (CReply (Error 500 "INTERNAL_SERVER_ERROR" "Internal server error: boom" VNil))].
Proof.
  destruct (common_chain example_env example_setup panicking_handler example_request)
    as (layers & Hl & _ & H); [reflexivity|repeat split|discriminate|].
  exists layers. split; [exact Hl|]. destruct (H eq_refl) as (_ & _ & _ & _ & Hrun).
  assert (preflight example_setup example_request = false) as Hp by (vm_compute; reflexivity).
  assert (refused example_env example_setup example_request = false) as Hr by (vm_compute; reflexivity).
  destruct (Hrun Hp Hr) as [_ [_ Hbody]]. apply (Hbody eq_refl).
Defined.

(** ** Compression *)

Definition compresses (c : Ctx) : Prop :=
  Contains (in_header c "Accept-Encoding") "gzip" = true /\ default "" (w_headers (out c) !! "Content-Encoding") = "" /\
  w_sent (out c) = None /\ w_body (out c) = [].

Lemma Write_all cs w :
  w_gzip w = Some {| gz_started := true; gz_closed := false |} ->
  let w' := foldl (fun w ct => Write ct w) w cs in
  w_body w' = w_body w ++ map Compressed cs /\ w_gzip w' = w_gzip w /\
  (w_sent w <> None -> w_sent w' = w_sent w).
Proof.
  revert w. induction cs as [|ct cs IH]; intros w Hg; [simpl; by rewrite app_nil_r|]. cbn zeta. cbn [foldl].
  assert (w_gzip (Write ct w) = w_gzip w /\ w_body (Write ct w) = w_body w ++ [Compressed ct] /\
          (w_sent w <> None -> w_sent (Write ct w) = w_sent w)) as (H1 & H2 & H3).
  { unfold Write. rewrite Hg. cbn [gz_closed gz_started]. unfold raw, set_gzip, WriteHeaderNow. simpl.
    by destruct (w_sent w). }
  destruct (IH (Write ct w)) as (Hb & Hz & Hs); [by rewrite H1|]. rewrite Hb, Hz, H2, <-app_assoc.
  split; [done|]. split; [done|]. intros Hne. rewrite Hs, H3; [done|done|]. by rewrite H3.
Qed.

(** The first write starts the stream and sends the headers; closing ends it. *)
Lemma Write_first ct w :
  w_gzip w = Some {| gz_started := false; gz_closed := false |} -> w_sent w = None -> w_body w = [] ->
  w_gzip (Write ct w) = Some {| gz_started := true; gz_closed := false |} /\
  w_body (Write ct w) = [GzipHeader; Compressed ct] /\ w_sent (Write ct w) = Some (w_status w, w_headers w).
Proof.
  destruct w as [st h sent bd g]. simpl. by intros -> -> ->.
Qed.

Lemma gzip_Close_started w x :
  w_gzip w = Some {| gz_started := true; gz_closed := false |} -> w_sent w = Some x ->
  w_body (gzip_Close w) = w_body w ++ [GzipFooter] /\ w_sent (gzip_Close w) = Some x.
Proof.
  intros Hg Hs. unfold gzip_Close. rewrite Hg. cbn [gz_closed gz_started]. unfold raw, WriteHeaderNow.
  rewrite Hs. split; [done|exact Hs].
Qed.

(** The writer a compressed handler starts with. *)
Definition gzip_writer (c : Ctx) : Writer :=
  set_gzip (Some {| gz_started := false; gz_closed := false |})
    (set_headers (set_header "Vary" "Accept-Encoding") (set_headers (set_header "Content-Encoding" "gzip") (out c))).

Lemma Gzip_compresses next c :
  compresses c ->
  Gzip next c = let '(c1, p) := next (with_out (fun _ => gzip_writer c) c) in (with_out gzip_Close c1, p).
Proof.
  intros (Ha & He & _). unfold Gzip. rewrite Ha, He. rewrite (bool_decide_false ("" <> "")) by (by intros []). reflexivity.
Qed.

(** What a handler writes is compressed in order, between the header and the footer
    of one stream, under the status and the headers announced. *)
Lemma Gzip_stream c ct cs :
  compresses c ->
  let next c := (with_out (fun w => foldl (fun w ct => Write ct w) (Write ct w) cs) c, None) in
  let c' := fst (Gzip next c) in
  w_body (out c') = [GzipHeader] ++ map Compressed (ct :: cs) ++ [GzipFooter] /\
  sent_status c' = Some (w_status (out c)) /\ sent_header "Content-Encoding" c' = Some "gzip".
Proof.
  intros Hc next c'. pose proof Hc as (_ & _ & Hs & Hb).
  assert (out c' = gzip_Close (foldl (fun w ct => Write ct w) (Write ct (gzip_writer c)) cs)) as Hout.
  { unfold c'. by rewrite Gzip_compresses. }
  destruct (Write_first ct (gzip_writer c) eq_refl Hs Hb) as (H1 & H2 & H3).
  destruct (Write_all cs _ H1) as (Hbody & Hgz & Hsent). rewrite H3 in Hsent.
  specialize (Hsent ltac:(done)). rewrite H1 in Hgz.
  destruct (gzip_Close_started _ _ Hgz Hsent) as [Hcb Hcs].
  unfold sent_status, sent_header. rewrite Hout, Hcb, Hcs, Hbody, H2, <-app_assoc. split; [done|]. split; [done|].
  simpl. rewrite set_header_ne by done. unfold set_header. rewrite bool_decide_false by done. apply lookup_insert_eq.
Qed.

(** When the handler panics before it writes, closing the stream writes its header
    and footer and so sends a 200; the recovery comes too late, and its answer is
    refused by the closed stream: the client gets an empty success. *)
Lemma Gzip_hides_panic c v :
  compresses c -> w_status (out c) = 200 ->
  let c' := with_out WriteHeaderNow (fst (RecoveryMiddleware (Gzip (fun c => (c, Some v))) c)) in
  sent_status c' = Some 200 /\ w_body (out c') = [GzipHeader; GzipFooter].
Proof.
  intros Hc H2 c'. pose proof Hc as (_ & _ & Hs & Hb).
  pose proof (Gzip_compresses (fun c => (c, Some v)) c Hc) as Hg. cbn beta iota in Hg.
  pose proof (Recovery_out _ _ _ _ Hg) as Hout.
  unfold sent_status, c'. rewrite with_out_out, Hout, with_out_out.
  change (out (with_out (fun _ => gzip_writer c) c)) with (gzip_writer c). clear Hout Hg c' Hc.
  assert (w_sent (gzip_writer c) = None /\ w_body (gzip_writer c) = [] /\ w_status (gzip_writer c) = 200 /\
          w_gzip (gzip_writer c) = Some {| gz_started := false; gz_closed := false |}) as (H3 & H4 & H5 & H6) by done.
  destruct (gzip_writer c) as [st h sent bd g]. simpl in H3, H4, H5, H6. subst. split; reflexivity.
Qed.
