(* ===== verification/Monitoring.v ===== *)
(** * Monitoring (src/monitoring/sentry.go)

    The monitor over Sentry, which is optional: the calls made to Sentry are a log,
    and what must hold is that none is made, and nothing fails, when it is off. *)

From S2P Require Import Prelude GoStrings GoFloat Middleware Chain.

(** ** Definitions *)

Record SentryConfig := {
  DSN : string;
  sc_Environment : string;
  Release : string;
  sc_ServiceName : string;
  TracesSampleRate : f64
}.

(** A nil logger is [false]; a nil monitor is [None] of this type. *)
Record SentryMonitor := { m_logger : bool; m_config : option SentryConfig }.

Inductive sentry_call :=
| SentryInit (dsn environment release : string) (rate : f64)
| SentryRecover (value : string)
| SentryFlush (timeout : Z)
| SentryException (e : error)
| SentryMessage (msg : string).

Inductive log_call := LogPanic (value : string) | LogError (e : error) | LogInfo (msg : string).

(** What the monitor has asked of Sentry and of its logger. *)
Record Hub := { sentry : list sentry_call; logged : list log_call }.

Definition to_sentry (s : sentry_call) (h : Hub) : Hub := {| sentry := sentry h ++ [s]; logged := logged h |}.
Definition to_log (l : log_call) (h : Hub) : Hub := {| sentry := sentry h; logged := logged h ++ [l] |}.

Definition no_config : SentryConfig :=
  {| DSN := ""; sc_Environment := ""; Release := ""; sc_ServiceName := ""; TracesSampleRate := f64_zero |}.

Definition off (c : SentryConfig) : SentryConfig :=
  {| DSN := ""; sc_Environment := sc_Environment c; Release := Release c; sc_ServiceName := sc_ServiceName c;
     TracesSampleRate := TracesSampleRate c |}.

(** [init]: whether Sentry refuses the options. *)
Definition NewSentryMonitor (init : SentryConfig -> option error) (config : option SentryConfig) (logger : bool) (h : Hub)
    : option SentryMonitor * option error * Hub :=
  let config := default no_config config in
  if bool_decide (DSN config = "") then (Some {| m_logger := logger; m_config := Some config |}, None, h)
  else
    let h := to_sentry (SentryInit (DSN config) (sc_Environment config) (Release config) (TracesSampleRate config)) h in
    match init config with
    | Some err => (Some {| m_logger := logger; m_config := Some (off config) |}, Some err, h)
    | None => (Some {| m_logger := logger; m_config := Some config |}, None, h)
    end.

Definition enabled (m : option SentryMonitor) : bool :=
  match m with
  | Some m => match m_config m with Some c => bool_decide (DSN c <> "") | None => false end
  | None => false
  end.

Definition has_log (m : option SentryMonitor) : bool := match m with None => false | Some m => m_logger m end.

Definition when {A} (b : bool) (f : A -> A) (x : A) : A := if b then f x else x.

(** [sentrygin]: the handler of Sentry's own package, which reports and panics again. *)
Definition GinMiddleware (sentrygin : handler) (m : option SentryMonitor) : handler :=
  if negb (enabled m) then fun next c => next c else sentrygin.

Definition RecoveryMiddleware (m : option SentryMonitor) (next : run) (c : Ctx) (h : Hub) : Ctx * option string * Hub :=
  match next c with
  | (c, None) => (c, None, h)
  | (c, Some v) =>
      let h := when (enabled m) (to_sentry (SentryRecover v)) h in
      let h := when (has_log m) (to_log (LogPanic v)) h in
      (AbortWithStatus 500 c, None, h)
  end.

Definition Flush (m : option SentryMonitor) (timeout : Z) : Hub -> Hub := when (enabled m) (to_sentry (SentryFlush timeout)).

Definition CaptureError (m : option SentryMonitor) (err : error) (h : Hub) : Hub :=
  when (has_log m) (to_log (LogError err)) (when (enabled m) (to_sentry (SentryException err)) h).

Definition CaptureMessage (m : option SentryMonitor) (msg : string) (h : Hub) : Hub :=
  when (has_log m) (to_log (LogInfo msg)) (when (enabled m) (to_sentry (SentryMessage msg)) h).

(** The methods a service calls on its monitor, in any order. *)
Inductive monitor_op :=
| OpRecover (next : run) (c : Ctx)
| OpFlush (timeout : Z)
| OpError (e : error)
| OpMessage (msg : string).

Definition perform (m : option SentryMonitor) (h : Hub) (o : monitor_op) : Hub :=
  match o with
  | OpRecover next c => snd (RecoveryMiddleware m next c h)
  | OpFlush t => Flush m t h
  | OpError e => CaptureError m e h
  | OpMessage msg => CaptureMessage m msg h
  end.

(** ** Lemmas *)

Lemma perform_off m h o : enabled m = false -> sentry (perform m h o) = sentry h.
Proof.
  intros Hm. destruct o as [next c|t|e|msg]; simpl; unfold RecoveryMiddleware, Flush, CaptureError, CaptureMessage, when;
    rewrite Hm; [destruct (next c) as [? [v|]]; simpl| | |]; by destruct (has_log m).
Qed.

(** A monitor is never nil, whatever configuration it is built from, and one
    without a usable DSN is off: it leaves handlers as they are, answers a panic
    with 500, makes no call to Sentry in any sequence of operations, and neither
    does a nil monitor; a refused DSN is reported to the caller. *)
Lemma sentry_off_is_silent init config logger h :
  let '(m, err, h1) := NewSentryMonitor init config logger h in
  m <> None /\
  (enabled m = true <-> DSN (default no_config config) <> "" /\ init (default no_config config) = None) /\
  (err <> None <-> DSN (default no_config config) <> "" /\ init (default no_config config) <> None) /\
  (forall m, m = None \/ enabled m = false ->
   (forall sentrygin next c, GinMiddleware sentrygin m next c = next c) /\
   (forall next c h, snd (fst (RecoveryMiddleware m next c h)) = None) /\
   (forall next c c1 v h, next c = (c1, Some v) -> w_sent (out c1) = None ->
      sent_status (fst (fst (RecoveryMiddleware m next c h))) = Some 500) /\
   (forall h ops, sentry (foldl (perform m) h ops) = sentry h)).
Proof.
  destruct (NewSentryMonitor init config logger h) as [[m err] h1] eqn:Hn. unfold NewSentryMonitor in Hn.
  split; [|split; [|split]].
  - repeat case_match; by simplify_eq.
  - case_bool_decide as Hd; [simplify_eq; simpl; rewrite bool_decide_false by tauto; naive_solver|].
    destruct (init _) eqn:Hi; simplify_eq; [split; [done|by intros [_ ?]]|].
    simpl. by rewrite bool_decide_true.
  - case_bool_decide as Hd; [simplify_eq; naive_solver|]. destruct (init _) eqn:Hi; simplify_eq; naive_solver.
  - intros m' Hm'. assert (enabled m' = false) as Hoff by (destruct Hm' as [->|]; done).
    split; [intros; unfold GinMiddleware; by rewrite Hoff|]. split; [|split].
    + intros next c h'. unfold RecoveryMiddleware. by destruct (next c) as [? [v|]].
    + intros next c c1 v h' Hnext Hs. unfold RecoveryMiddleware. rewrite Hnext. simpl.
      unfold sent_status. simpl. unfold WriteHeader, WriteHeaderNow. by rewrite Hs.
    + intros h' ops. revert h'. induction ops as [|o ops IH]; intros h'; [done|]. simpl. by rewrite IH, perform_off.
Qed.

Lemma sentry_off_is_silent_witness :
  let c := {| DSN := "htp:/typo"; sc_Environment := "production"; Release := "1"; sc_ServiceName := "orders"; TracesSampleRate := f64_zero |} in
  let '(m, err, h) := NewSentryMonitor (fun _ => Some (ErrMsg "invalid DSN")) (Some c) true {| sentry := []; logged := [] |} in
  enabled m = false /\ err = Some (ErrMsg "invalid DSN") /\
  sentry (foldl (perform m) h [OpError (ErrExt 1); OpFlush 2; OpRecover panicking_handler example_request]) = sentry h.
Proof.
  intros c.
  pose proof (sentry_off_is_silent (fun _ => Some (ErrMsg "invalid DSN")) (Some c) true {| sentry := []; logged := [] |}) as H.
  destruct H as (_ & _ & _ & H). split; [reflexivity|]. split; [reflexivity|].
  apply H. right. reflexivity.
Defined.
