(* ===== verification/Infra.v ===== *)
(** * Clients and configuration (src/config, src/database, src/logger, src/auth/internal_token_client.go)

    The configuration over the library that reads it, the connections to the
    databases and the log of their statements, and the transport that presents
    the internal token to other services. *)

From S2P Require Import Prelude GoStrings Tracing Telemetry TokenAuth.
From Stdlib Require Import Ascii.

(** ** Configuration (config.go) *)

Record AppConfig := { app_Name : string; app_Env : string; app_Port : string }.
Record DatabaseConfig := {
  db_Host : string; db_Port : string; db_User : string; db_Password : string; db_Name : string; db_SSLMode : string }.
Record RedisSettings := { rs_Host : string; rs_Port : string; rs_Password : string; rs_DB : string }.
Record JWTConfig := { Secret : string; AccessTokenExpiry : string; RefreshTokenExpiry : string }.

Record AppSettings := { App : AppConfig; Database : DatabaseConfig; Redis : RedisSettings; JWT : JWTConfig }.

Definition setDefaults : gmap string string := list_to_map
  [("app.env", "development"); ("app.port", "8080");
   ("database.host", "localhost"); ("database.port", "5432"); ("database.ssl_mode", "disable");
   ("redis.host", "localhost"); ("redis.port", "6379"); ("redis.db", "0");
   ("jwt.access_token_expiry", "15m"); ("jwt.refresh_token_expiry", "168h")].

Inductive config_source := ConfigFile (path : string) | ConfigSearch (name type : string) (paths : list string).

Definition config_source_of (configPath : string) : config_source :=
  if bool_decide (configPath <> "") then ConfigFile configPath else ConfigSearch "config" "yaml" ["."; "./config"].

(** A key as the name of its variable: upper case, with underscores for dots. *)
Definition env_name (key : string) : string := ToUpper (ReplaceAll key "." "_").

(** What reading a configuration file gives. *)
Inductive read_config := ConfigRead (file : gmap string string) | ConfigFileNotFound | ConfigError (e : error).

(** The library that merges the sources: [settings] is what it unmarshals. It
    knows the keys of the defaults and of the file, and of a key it knows it takes
    the variable of the environment when that is not empty, then the file, then
    the default; other variables it does not see. *)
Class Viper := {
  settings : (string -> string) -> gmap string string -> gmap string string -> string -> string;
  settings_known getenv file defaults k :
    is_Some (defaults !! k) \/ is_Some (file !! k) ->
    settings getenv file defaults k =
      if bool_decide (getenv (env_name k) <> "") then getenv (env_name k)
      else default (default "" (defaults !! k)) (file !! k);
  settings_unknown getenv file defaults k :
    defaults !! k = None -> file !! k = None -> settings getenv file defaults k = ""
}.

Section config.
Context {V : Viper}.

Definition Unmarshal (get : string -> string) : AppSettings :=
  {| App := {| app_Name := get "app.name"; app_Env := get "app.env"; app_Port := get "app.port" |};
     Database := {| db_Host := get "database.host"; db_Port := get "database.port"; db_User := get "database.user";
                    db_Password := get "database.password"; db_Name := get "database.name";
                    db_SSLMode := get "database.ssl_mode" |};
     Redis := {| rs_Host := get "redis.host"; rs_Port := get "redis.port"; rs_Password := get "redis.password";
                 rs_DB := get "redis.db" |};
     JWT := {| Secret := get "jwt.secret"; AccessTokenExpiry := get "jwt.access_token_expiry";
               RefreshTokenExpiry := get "jwt.refresh_token_expiry" |} |}.

(** [ReadInConfig] of a source; [decode]: the error of unmarshalling, if any. *)
Definition LoadConfig (ReadInConfig : config_source -> read_config) (decode : (string -> string) -> option error)
    (getenv : string -> string) (configPath : string) : result AppSettings :=
  let finish file :=
    let get := settings getenv file setDefaults in
    match decode get with
    | Some e => Err (ErrWrap "failed to unmarshal config" e)
    | None => Ok (Unmarshal get)
    end in
  match ReadInConfig (config_source_of configPath) with
  | ConfigError e => Err (ErrWrap "failed to read config file" e)
  | ConfigFileNotFound => finish ∅
  | ConfigRead file => finish file
  end.

End config.

(** ** PostgreSQL (postgres.go) *)

Record PostgresConfig := { Host : string; Port : string; User : string; Password : string; pg_Database : string; SSLMode : string }.

Definition dsn (c : PostgresConfig) : string :=
  Join ["host=" +:+ Host c; "port=" +:+ Port c; "user=" +:+ User c; "password=" +:+ Password c;
        "dbname=" +:+ pg_Database c; "sslmode=" +:+ SSLMode c] " ".

(** Where the statements are logged: the library's own logger, or ours. *)
Inductive gorm_log := DefaultInfo | Zap.

Record DB := { db_dsn : string; db_log : gorm_log; MaxIdleConns : Z; MaxOpenConns : Z; ConnMaxLifetime : Z }.

(** [open], [handle], [ping]: the errors of the three steps; [logger] is false for
    a nil logger, on which the line at the end panics. *)
Definition Connect (open handle ping : option error) (config : PostgresConfig) (logger : bool) : panics (result DB) :=
  let gormLogger := if logger then Zap else DefaultInfo in
  match open with
  | Some e => Returns (Err (ErrWrap "failed to connect to database" e))
  | None =>
      match handle with
      | Some e => Returns (Err (ErrWrap "failed to get underlying database" e))
      | None =>
          match ping with
          | Some e => Returns (Err (ErrWrap "failed to ping database" e))
          | None =>
              if negb logger then Panics (ErrMsg "nil pointer dereference")
              else Returns (Ok {| db_dsn := dsn config; db_log := gormLogger; MaxIdleConns := 10;
                                  MaxOpenConns := 100; ConnMaxLifetime := 3600 * Second |})
          end
      end
  end.

Definition HealthCheck (handle ping : option error) : option error :=
  match handle with Some e => Some e | None => ping end.

Record gormLogger := { SlowThreshold : Z; IgnoreRecordNotFoundError : bool }.

Definition NewGormLogger : gormLogger := {| SlowThreshold := 200 * Millisecond; IgnoreRecordNotFoundError := true |}.

Inductive level := LDebug | LInfo | LWarn | LError.

Record zap_line := { l_level : level; l_msg : string; l_error : option error; l_elapsed : Z; l_sql : string; l_rows : Z }.

Definition LogMode (lvl : level) (l : gormLogger) : gormLogger := l.

Definition message (lvl : level) (msg : string) : zap_line :=
  {| l_level := lvl; l_msg := msg; l_error := None; l_elapsed := 0; l_sql := ""; l_rows := 0 |}.

Definition Info (l : gormLogger) (msg : string) : zap_line := message LInfo msg.
Definition Warn (l : gormLogger) (msg : string) : zap_line := message LWarn msg.
Definition gorm_Error (l : gormLogger) (msg : string) : zap_line := message LError msg.

Definition Trace (l : gormLogger) (begin now : Z) (fc : string * Z) (err : option error) : zap_line :=
  let elapsed := time_Sub now begin in
  let '(sql, rows) := fc in
  match err with
  | Some e => {| l_level := LError; l_msg := "database query error"; l_error := Some e; l_elapsed := elapsed;
                 l_sql := sql; l_rows := rows |}
  | None =>
      if bool_decide (SlowThreshold l < elapsed)
      then {| l_level := LWarn; l_msg := "slow query detected"; l_error := None; l_elapsed := elapsed; l_sql := sql; l_rows := rows |}
      else {| l_level := LDebug; l_msg := "database query"; l_error := None; l_elapsed := elapsed; l_sql := sql; l_rows := rows |}
  end.

(** ** Redis (redis.go) *)

Record RedisConfig := { r_Host : string; r_Port : string; r_Password : string; r_DB : Z }.

Record RedisClient := {
  Addr : string; rc_Password : string; rc_DB : Z; MaxRetries : Z; DialTimeout : Z; ReadTimeout : Z; WriteTimeout : Z; PoolSize : Z }.

Definition redis_client (c : RedisConfig) : RedisClient :=
  {| Addr := r_Host c +:+ ":" +:+ r_Port c; rc_Password := r_Password c; rc_DB := r_DB c; MaxRetries := 3;
     DialTimeout := 5 * Second; ReadTimeout := 3 * Second; WriteTimeout := 3 * Second; PoolSize := 10 |}.

(** [ping client timeout]: the answer to a ping within the time given. *)
Definition ConnectRedis (ping : RedisClient -> Z -> option error) (c : RedisConfig) (logger : bool) : panics (result RedisClient) :=
  let client := redis_client c in
  match ping client (5 * Second) with
  | Some e => Returns (Err (ErrWrap "failed to ping Redis" e))
  | None => if negb logger then Panics (ErrMsg "nil pointer dereference") else Returns (Ok client)
  end.

Definition HealthCheckRedis (ping : RedisClient -> Z -> option error) (client : RedisClient) : option error :=
  ping client (3 * Second).

(** ** The logger (logger.go) *)

Record ZapConfig := { production : bool; TimeKey : option string; iso_time : bool; color_level : bool; stack_at : level }.

Definition zap_config (env : string) : ZapConfig :=
  if bool_decide (env = "production")
  then {| production := true; TimeKey := Some "timestamp"; iso_time := true; color_level := false; stack_at := LError |}
  else {| production := false; TimeKey := None; iso_time := false; color_level := true; stack_at := LError |}.

Definition NewLogger {L} (build : ZapConfig -> result L) (env : string) : result L :=
  match build (zap_config env) with Err e => Err e | Ok l => Ok l end.

Definition NewSugaredLogger {L S} (build : ZapConfig -> result L) (sugar : L -> S) (env : string) : result S :=
  match NewLogger build env with Err e => Err e | Ok l => Ok (sugar l) end.

(** ** Calls to internal routes (internal_token_client.go) *)

Definition InternalTokenHeader : string := "X-Internal-Token".

Abbreviation transport := (Request -> World -> result HTTPResponse * World).

(** A nil base is [None]. *)
Record InternalTokenTransport := { Base : option transport; Token : string }.

Definition RoundTrip (DefaultTransport : transport) (t : InternalTokenTransport) : transport := fun req w =>
  let base := default DefaultTransport (Base t) in
  if bool_decide (Token t = "") then base req w
  else base (with_header (carrier_Set (req_Header req) InternalTokenHeader (Token t)) req) w.

Record HTTPClient := { hc_Timeout : Z; hc_Transport : InternalTokenTransport }.

Definition NewInternalHTTPClient (token : string) (timeout : Z) : HTTPClient :=
  {| hc_Timeout := timeout; hc_Transport := {| Base := None; Token := token |} |}.

(** The other side: a service whose internal routes are behind the token. *)
Definition internal_service (expected : string) (handle : transport) : transport := fun req w =>
  match InternalToken expected (carrier_Get (req_Header req) InternalTokenHeader) with
  | Some r => (Ok {| resp_StatusCode := Response.status r; ContentLength := 0; resp_Body := Ok ""; body_closed := false |}, w)
  | None => handle req w
  end.

(** ** Configuration *)

Section config_lemmas.
Context {V : Viper}.
#[local] Set Default Proof Using "All".

(** What a configuration is made of. A setting with a default, or in the file,
    is the variable of the environment when that is not empty, else the file's,
    else the default. A setting with neither is empty even when its variable is
    set: user, password and name of the database, the password of Redis, the
    name of the application and the secret of the tokens are read from a file
    only. A missing file is no error, a file that cannot be read is one. *)
Lemma LoadConfig_sources ReadInConfig decode getenv path :
  let pick file k := if bool_decide (getenv (env_name k) <> "") then getenv (env_name k)
                     else default (default "" (setDefaults !! k)) (file !! k) in
  let from_file file k := if bool_decide (is_Some (file !! k)) then pick file k else "" in
  match ReadInConfig (config_source_of path) with
  | ConfigError e => LoadConfig ReadInConfig decode getenv path = Err (ErrWrap "failed to read config file" e)
  | r =>
      let file := match r with ConfigRead file => file | _ => ∅ end in
      match LoadConfig ReadInConfig decode getenv path with
      | Err e => exists e', decode (settings getenv file setDefaults) = Some e' /\ e = ErrWrap "failed to unmarshal config" e'
      | Ok c =>
          app_Port (App c) = pick file "app.port" /\ app_Env (App c) = pick file "app.env" /\
          db_Host (Database c) = pick file "database.host" /\ db_SSLMode (Database c) = pick file "database.ssl_mode" /\
          rs_Host (Redis c) = pick file "redis.host" /\ AccessTokenExpiry (JWT c) = pick file "jwt.access_token_expiry" /\
          app_Name (App c) = from_file file "app.name" /\ db_User (Database c) = from_file file "database.user" /\
          db_Password (Database c) = from_file file "database.password" /\ db_Name (Database c) = from_file file "database.name" /\
          rs_Password (Redis c) = from_file file "redis.password" /\ Secret (JWT c) = from_file file "jwt.secret"
      end
  end.
Proof.
  intros pick from_file.
  assert (forall file k, is_Some (setDefaults !! k) -> settings getenv file setDefaults k = pick file k) as Hd.
  { intros file k Hk. apply settings_known. by left. }
  assert (forall file k, setDefaults !! k = None -> settings getenv file setDefaults k = from_file file k) as Hf.
  { intros file k Hk. unfold from_file. destruct (file !! k) eqn:E.
    - rewrite bool_decide_true by done. apply settings_known. rewrite E. by right.
    - rewrite bool_decide_false by (by intros []). by apply settings_unknown. }
  unfold LoadConfig. destruct (ReadInConfig _) as [file| |e]; [| |done]; cbn zeta;
    (destruct (decode _) as [e'|]; [eauto|]; cbn [Unmarshal App Database Redis JWT app_Port app_Env db_Host db_SSLMode rs_Host
       AccessTokenExpiry app_Name db_User db_Password db_Name rs_Password Secret];
     rewrite !Hd by (vm_compute; eauto); rewrite !Hf by reflexivity; repeat (split; [done|]); done).
Qed.

End config_lemmas.

(** A merge that asks the sources one after the other. *)
Definition plain_settings (getenv : string -> string) (file defaults : gmap string string) (k : string) : string :=
  match defaults !! k, file !! k with
  | None, None => ""
  | d, f => if bool_decide (getenv (env_name k) <> "") then getenv (env_name k) else default (default "" d) f
  end.

#[export] Program Instance plain_viper : Viper := {| settings := plain_settings |}.
Next Obligation.
  intros getenv file defaults k Hk. unfold plain_settings.
  destruct (defaults !! k), (file !! k); try done. by destruct Hk as [[? ?]|[? ?]].
Qed.
Next Obligation. intros getenv file defaults k Hd Hf. unfold plain_settings. by rewrite Hd, Hf. Qed.

Definition example_getenv (k : string) : string :=
  if bool_decide (k = "JWT_SECRET") then "s3cret" else if bool_decide (k = "APP_PORT") then "9000" else "".

Definition no_file (s : config_source) : read_config := ConfigFileNotFound.
Definition decodes (get : string -> string) : option error := None.

Lemma LoadConfig_sources_witness :
  exists c, LoadConfig no_file decodes example_getenv "" = Ok c /\ app_Port (App c) = "9000" /\ Secret (JWT c) = "".
Proof.
  pose proof (LoadConfig_sources no_file decodes example_getenv "") as H. cbn [no_file] in H.
  destruct (LoadConfig no_file decodes example_getenv "") as [c|e] eqn:E; [|discriminate E].
  exists c. split; [reflexivity|]. destruct H as (Hp & _ & _ & _ & _ & _ & _ & _ & _ & _ & _ & Hs).
  split; [rewrite Hp; vm_compute; reflexivity|rewrite Hs; vm_compute; reflexivity].
Defined.

(** ** Databases *)

(** Connecting with a nil logger, which the choice of the log allows for, panics
    when everything succeeds. *)
Lemma Connect_nil_logger config :
  Connect None None None config false = Panics (ErrMsg "nil pointer dereference") /\
  (forall open handle ping logger e, Connect open handle ping config logger = Panics e ->
     open = None /\ handle = None /\ ping = None /\ logger = false).
Proof. split; [done|]. intros [?|] [?|] [?|] [|] e'; simpl; intros; simplify_eq; done. Qed.

(** The flag that says otherwise has no effect: a record that is not found is logged
    as an error. *)
Lemma Trace_not_found begin now fc :
  l_level (Trace NewGormLogger begin now fc (Some ErrRecordNotFound)) = LError.
Proof. by destruct fc. Qed.

Lemma Trace_levels l begin now fc :
  (forall e, l_level (Trace l begin now fc (Some e)) = LError) /\
  (l_level (Trace l begin now fc None) = LWarn <-> SlowThreshold l < time_Sub now begin).
Proof. destruct fc. simpl. split; [done|]. by case_bool_decide. Qed.

(** The text of a connection tells its parts apart when none has a space, and only then. *)
Lemma field_inj k a b : k +:+ a = k +:+ b -> a = b.
Proof. intros H. rewrite <-(TrimPrefix_append k a), <-(TrimPrefix_append k b). by rewrite H. Qed.

Definition no_space (c : PostgresConfig) : Prop :=
  Forall (fun s => string_elem " " s = false) [Host c; Port c; User c; Password c; pg_Database c; SSLMode c].

Lemma dsn_fields c :
  no_space c ->
  Split (dsn c) " " = ["host=" +:+ Host c; "port=" +:+ Port c; "user=" +:+ User c; "password=" +:+ Password c;
                       "dbname=" +:+ pg_Database c; "sslmode=" +:+ SSLMode c].
Proof.
  unfold no_space. rewrite !Forall_cons. intros (H1 & H2 & H3 & H4 & H5 & H6 & _).
  apply Split_Join; [done|]. repeat (constructor; [by rewrite string_elem_append, ?H1, ?H2, ?H3, ?H4, ?H5, ?H6|]). constructor.
Qed.

Lemma dsn_injective c c' : no_space c -> no_space c' -> dsn c = dsn c' -> c = c'.
Proof.
  intros Hc Hc' Heq. apply dsn_fields in Hc, Hc'. rewrite Heq, Hc' in Hc. injection Hc as H1 H2 H3 H4 H5 H6.
  destruct c, c'. simpl in *. by simplify_eq.
Qed.

Lemma dsn_ambiguous :
  let c p d := {| Host := "db"; Port := "5432"; User := "app"; Password := p; pg_Database := d; SSLMode := "require" |} in
  dsn (c "p dbname=a" "b") = dsn (c "p" "a dbname=b").
Proof. done. Qed.

(** ** Internal calls *)

(** A client of an internal route is let in exactly when its token is the one the
    service expects, and never with an empty token; otherwise it gets a 401 and the
    handler does not run. *)
Lemma internal_call expected t handle req w :
  Base t = Some (internal_service expected handle) ->
  carrier_Get (req_Header req) InternalTokenHeader = "" ->
  forall DefaultTransport,
  if bool_decide (Token t = expected /\ expected <> "")
  then exists req', URL req' = URL req /\ req_Body req' = req_Body req /\
         carrier_Get (req_Header req') InternalTokenHeader = Token t /\
         RoundTrip DefaultTransport t req w = handle req' w
  else exists resp, RoundTrip DefaultTransport t req w = (Ok resp, w) /\ resp_StatusCode resp = 401.
Proof.
  intros Hb Hnone tr. unfold RoundTrip. rewrite Hb. cbv [from_option id]. unfold internal_service.
  assert (forall h, carrier_Get (carrier_Set (req_Header req) InternalTokenHeader h) InternalTokenHeader = h) as Hg
    by (intros; apply get_set).
  case_bool_decide as He.
  - destruct He as [<- Hne]. rewrite bool_decide_false by done.
    exists (with_header (carrier_Set (req_Header req) InternalTokenHeader (Token t)) req).
    split; [done|]. split; [done|]. cbv beta. cbn [req_Header with_header]. rewrite Hg. split; [done|].
    unfold InternalToken. rewrite (bool_decide_false (Token t = "")) by done.
    by rewrite (bool_decide_false (Token t <> Token t)) by tauto.
  - assert (forall p, p = Token t \/ p = "" /\ Token t = "" ->
            exists r, InternalToken expected p = Some r /\ Response.status r = 401) as H401.
    { intros p Hp. unfold InternalToken. repeat case_bool_decide; eauto. exfalso. destruct Hp as [->|[-> _]]; naive_solver. }
    case_bool_decide as Ht.
    + destruct (H401 "") as (r & Hr & Hs); [by right|]. cbv beta. rewrite Hnone, Hr. eauto.
    + cbv beta. cbn [req_Header with_header]. rewrite Hg. destruct (H401 (Token t)) as (r & Hr & Hs); [by left|].
      rewrite Hr. eauto.
Qed.

Definition example_target : Request :=
  {| req_Method := "POST"; URL := "http://catalog/internal/reserve"; URL_Path := "/internal/reserve"; URL_Host := "catalog";
     req_Header := {| header_values := ∅ |}; req_Body := "{}"; req_ctx := NoSpan |}.

Definition accepting : transport := fun _ w =>
  (Ok {| resp_StatusCode := 200; ContentLength := 2; resp_Body := Ok "ok"; body_closed := false |}, w).

Lemma internal_call_witness :
  let t := {| Base := Some (internal_service "0123456789abcdef0123456789abcdef" accepting); Token := "" |} in
  exists resp, RoundTrip accepting t example_target empty_world = (Ok resp, empty_world) /\ resp_StatusCode resp = 401.
Proof.
  intros t.
  exact (internal_call "0123456789abcdef0123456789abcdef" t accepting example_target empty_world eq_refl eq_refl accepting).
Defined.
